(* ===== verification/_CoqProject ===== *)
-Q . S2P
Prelude.v
Prog.v
Digest.v
Env.v
Config.v
Counters.v
Aligned.v
State.v
Accounting.v
Disk.v
Claimed.v
Eviction.v
EvictionFrame.v
EvictionRefs.v
EvictionMaps.v
EvictionUsage.v
EvictionBudget.v
EvictionHeaps.v
EvictionPhases.v
EvictionSwept.v
EvictionResult.v
EvictionAccounting.v
EvictionOrder.v
EvictionDisk.v
EvictionSteps.v
EvictionRace.v
EvictionExamples.v
Text.v
Ascii.v
Size.v
SizeProps.v
ConfigFile.v
Redis.v
RedisWire.v
RedisConn.v
RedisAuth.v
RedisSpec.v
RedisSteps.v
RedisExamples.v
Snapshot.v
SnapshotUsage.v
SnapshotRoundtrip.v
SnapshotLoad.v
SnapshotSteps.v
SnapshotExamples.v
Http.v
DockerUpstream.v
Docker.v
DockerServe.v
DockerLogic.v
DockerAuth.v
DockerContent.v
DockerObjects.v
DockerMedia.v
DockerSafe.v
DockerAnswers.v
DockerCalls.v
DockerRoutes.v
DockerUploads.v
DockerManifests.v
DockerBlobs.v
DockerText.v
Server.v
RedisHistory.v
DockerVerified.v
Tasks.v
EvictionSafe.v
SnapshotSafe.v
System.v
SystemUsage.v
SystemRuns.v
DockerExamples.v
SystemExamples.v
SaveExamples.v
Metrics.v
MetricsRead.v
Main.v
MainProps.v
MainExamples.v
ConfigExamples.v
