(* ===== verification/Prelude.v ===== *)
(** * dockfoxprox: a pull-through Docker registry and Redis-protocol cache

    The program (crate [src/src/*.rs]) keeps one shared state: maps of blobs,
    manifests, tags, uploads, upstream tokens and redis entries, seven byte
    counters, and a cache directory. A Docker registry API and a Redis-protocol
    server read and write it; a background loop evicts from it; a snapshot
    carries it over a restart. This development translates that program into
    Rocq functions on a [State] record and proves what its parts promise each
    other and their clients. This file is the prelude all others use: bytes,
    machine integers, results, sums over maps, loops, tactics. The next one,
    [Prog], has programs of atomic operations and a rely-guarantee logic.

    ** The parts

    - [Digest] (digest.rs), [Size] (size.rs), [Config] (config.rs), [Text] and
      [Ascii] (the parts of Rust's [str] and number formatting the code uses).
      [Size] computes in binary64, on the standard library's IEEE 754
      specification, as the code does. [ConfigFile]: what the derived
      [Deserialize] instances make of a TOML document, [load_config].
      [Aligned] (aligned_atomic.rs): the layout of the two wrappers.
    - [Env]: what is not under src/, as type classes with the documented laws
      the code relies on (SHA-256, constant-time comparison, the iteration
      order of the concurrent maps, serde_json, CBOR, the binary heap, the file
      system's failures as [Io]); [Http] (header values, base64, UUIDs,
      percent encoding) and [Main] (tower_http) add theirs. Theorems hold for
      every instance; executable instances are used by the witnesses only.
    - [Counters], [State] (state.rs): the record and [insert_blob],
      [remove_blob], [insert_manifest], [remove_manifest], [insert_redis],
      [remove_redis], [flush_redis] (its [retain] and its three stores),
      [cache_path], the usage sums, and the [remove_file] tasks they spawn
      ([spawned], [run_unlink]). [Accounting]: every operation changes the
      counters by what it changes the bytes of the maps.
      [Disk]: ids are owned once, and what an owner's content is, in memory or
      in its file.
    - [Eviction] (eviction.rs): one pass, [evict] = [scan], [evict_loop],
      [sweep], [publish]; one round of the background loop, [evict_round].
      [EvictionSteps]: the same pass and round as programs of atomic
      operations, [evict_steps] and [round_steps], between which clients run.
    - [Redis] (redis.rs): [read_command], [execute], [conn_step],
      [handle_conn]. [RedisSteps]: the same commands as programs of atomic
      operations, [execute_steps]; a [FLUSH] takes a step for its [retain] and
      one for each store.
    - [Snapshot] (snapshot.rs): [save], [load], [load_or_wipe],
      [recompute_usage], [wipe_cache]. [SnapshotSteps]: [save] as a program of
      atomic operations, [save_steps].
    - [Http], [DockerUpstream], [Docker], [DockerServe] (docker.rs): every
      handler is a program of atomic operations on the shared state, the
      upstream calls and the spawned fills, which ends in a response or a
      [DockerError]; [handle_request] runs one without interruption;
      [run_fill] is the task that fills the cache. A body is bytes or the
      frames of a stream, which an error may end: for a blob on disk, those that
      the spawned reader of its file will send ([fs_stream]).
    - [Metrics] (metrics.rs): [render]. [Main] (main.rs): [handle], the layers
      of [serve_connection], the accept loops, [main_start], [main_finish].
    - [Server], [System]: the running server as a step relation on the state,
      the fills in flight, the clients in the middle of a request or a command
      and the task that runs besides them: a round of the eviction loop or,
      after the shutdown, the save of the snapshot, during which the open
      connections are served on. A step is one operation of one client or of
      the task, a fill, an unlink, a clock tick, or a restart with or without a
      snapshot.

    Components meet in [State]: a handler, command or pass goes through the
    operations of state.rs where the code does. What an invariant of the state
    has to promise them is an interface: [StateInv] for the handlers,
    [RedisInv] and [FlushInv] for commands, [TaskInv] for background tasks.
    Every handler keeps any invariant with the first, operation by operation,
    and every step of the server keeps any invariant with all four.
    [registry_ok] (content has its digest, ids are unique) has all of them;
    [Offset] (how far the counters are off) has not [FlushInv], and
    [SystemUsage] follows the stores of a [FLUSH] itself.
    The first is indexed by what a task holds meanwhile ([Claimed]: ids it has
    seen in use, ids and files that have no other owner, names it has written),
    so that the interfaces also promise the task that clients leave these
    alone. [Tasks] is the rely-guarantee logic of tasks under that promise;
    [EvictionSafe] and [SnapshotSafe] prove every operation of a pass and of a
    save safe in it.

    ** What the theorems show

    - Eviction. Files [EvictionFrame] (termination, what a pass leaves alone),
      [EvictionRefs] (exact reference counts: referenced and recent blobs
      survive), [EvictionMaps] (tags), [EvictionUsage] (accumulators),
      [EvictionBudget], [EvictionHeaps], [EvictionPhases] (what the heaps still
      hold when the loop ends), [EvictionSwept] (what the sweep deletes),
      [EvictionResult] (budgets, the published counters exactly),
      [EvictionAccounting] (when they are right), [EvictionOrder] (oldest first), [EvictionDisk] (contents and
      files), [EvictionSteps] (uninterrupted operations are the round that
      [evict_round] describes, and always end), [EvictionRace] (clients during
      a spill), [EvictionSafe] (a pass next to its clients),
      [EvictionExamples].
    - Redis. [RedisWire] (encode, then parse), [RedisConn] (termination,
      pipelining), [RedisSteps] (the steps of a command; a [GET] that others
      interrupt), [RedisAuth] (non-interference before authentication),
      [RedisSpec] (refinement of a key-value map), [RedisHistory] (a pass only
      forgets keys; the replies over a history of commands, passes and unlinks,
      from the start of a process), [RedisExamples].
    - Snapshots. [SnapshotUsage], [SnapshotRoundtrip], [SnapshotLoad] (round
      trip, cold start, counters), [SnapshotSteps] (atomicity), [SnapshotSafe]
      (a save next to clients, and the start after it), [SnapshotExamples].
    - Registry. [DockerLogic] (weakest preconditions), [DockerAuth],
      [DockerContent] (content has its digest), [DockerObjects] (uploads that
      are being closed), [DockerMedia] (headers), [DockerSafe] (every handler
      under interference), [DockerVerified] (what a blob is answered with),
      [DockerAnswers] (no panic),
      [DockerCalls] (bounded upstream calls), [DockerRoutes],
      [DockerUploads], [DockerManifests], [DockerBlobs] (push, pull, pull
      through), [DockerText] (Accept header, bearer challenges),
      [DockerExamples].
    - Whole program. [Server] (its steps, and the invariants they keep),
      [System] (the invariant of all reachable states; a GET never serves wrong
      bytes), [SystemUsage] (the counters agree with a recount until a pass
      runs or a command meets the stores of a [FLUSH]), [SystemRuns],
      [SystemExamples] (a push that a running pass breaks), [SaveExamples] (a
      push that a running save loses), [MetricsRead] (the
      exposition reads back), [SizeProps] (sizes are exact), [ConfigFile],
      [ConfigExamples] (settings read back, within their types), [MainProps],
      [MainExamples] (hardened answers: no handler sets a security header,
      every layer adds its own; and a failed bind that loses the cache).

    Theorems whose comment begins with a defect state what the code does where
    it does not do what it means to.

    ** Choices

    A release build is modelled: [u64], [i64] and [u32] arithmetic wraps, with
    the wrap written out; [usize] is 64 bits. A string is the list of its UTF-8
    bytes. A [HashMap]'s iteration order is an arbitrary permutation
    ([MapIter]), the heap's choice among equal candidates arbitrary
    ([BinaryHeap]). A file operation can fail, a write can leave any part of
    the data behind.

    Fuel: [evict_loop] gets one more than its measure (a candidate of the large
    pool counts twice, since it comes back once as a disk candidate),
    [conn_loop] one more than the length of the input, which every command
    shortens, and the number and challenge parsers the length of the text;
    [evict_terminates], [round_as_steps], [handle_conn_terminates] and
    [iter_challenge_params_total] show that none runs out.

    ** Not modelled

    Sockets, TLS, the command line, logging and signals (I/O glue); the TOML
    syntax and the reasons of configuration errors; exhaustion of memory.

    Operations of clients, passes and saves interleave where the code can be
    interrupted, but an operation is not divided: a method of [State], what
    happens under one guard of a map or under the lock of an upload, the walk
    over one map, a file operation and the final store of a fill are one step
    each; only [flush_redis], whose stores do not commute with what other
    methods add to the counters, is its [retain] and its three stores. The
    unlinks that the code spawns after these stores are pending from the
    [retain] on. The frames of a blob on disk are those of the file when it is
    opened. Waiting for a guard is not modelled: a pass may be interrupted where
    its guard of a manifest would make others wait. The pauses of the eviction
    loop are not modelled; a round may begin at any time. The redis
    connections are aborted at shutdown, the registry's are not; in [System]
    both may go on during a save, or stop anywhere.

    Four things are excluded from the runs of [System]: a wrap of the 64-bit
    id counter; two requests that close one upload at the same time, which is a
    defect ([second_close_empties_blob]); a client that gives up a request
    in the middle of a close; and a start that reads the snapshot of an earlier
    process than the last one, because no start between them could remove it.
    UUIDs of new uploads are given from outside, so two uploads may have one.
    [State] has three fields the code has not: the
    disk, the unlinks that are pending, and the upload objects that requests
    still hold after their removal from the map. *)
From Stdlib Require Export Ascii NArith ZArith Lia.
From stdpp Require Export vector strings numbers finite functions.
From stdpp Require Export base option gmap sets fin_maps list.

#[global] Set Default Goal Selector "!".
#[global] Set Default Proof Using "Type".

(** ** Bytes

    Rust's [Bytes], [Vec<u8>], [&[u8]], [String] and [&str] are all sequences
    of 8-bit characters; a Rust string is the sequence of its UTF-8 bytes. *)
Abbreviation bytes := (list ascii).


Declare Scope dfp_scope.
Delimit Scope dfp_scope with dfp.
(** A Rust string literal. *)
Notation "$ s" := (String.list_ascii_of_string s%string)
  (at level 1, s at level 0, format "$ s") : dfp_scope.
#[global] Open Scope dfp_scope.

(** [b.len()], as the [usize]/[u64] the code works with. *)
Definition blen (b : bytes) : N := N.of_nat (length b).

Lemma blen_app (a b : bytes) : blen (a ++ b) = (blen a + blen b)%N.
Proof. unfold blen. rewrite length_app. lia. Qed.

(** ** Machine integers *)
Definition U64 : N := 18446744073709551616.
Definition U32 : N := 4294967296.
Definition I63 : Z := 9223372036854775808.

(** [u64] addition of a release build, [saturating_add], [u32] addition. *)
Definition u64_add (a b : N) : N := ((a + b) mod U64)%N.
Definition u64_saturating_add (a b : N) : N := N.min (a + b) (U64 - 1).
Definition u32_add (a b : N) : N := ((a + b) mod U32)%N.
(** [saturating_sub] at [u64], [u32] and [usize]: [N.sub] is truncated at 0. *)
Definition saturating_sub (a b : N) : N := (a - b)%N.

(** Wrap-around of [i64]: the representative of [z] modulo [2^64] in
    [[-2^63, 2^63)]. [AtomicI64::fetch_add] and [x as i64] both wrap. *)
Definition wrap_i64 (z : Z) : Z := ((z + I63) mod (2 * I63) - I63)%Z.

Lemma wrap_i64_small z : (- I63 <= z < I63)%Z -> wrap_i64 z = z.
Proof. unfold wrap_i64, I63. intros ?. rewrite Z.mod_small; lia. Qed.

Lemma wrap_i64_bound z : (- I63 <= wrap_i64 z < I63)%Z.
Proof.
  unfold wrap_i64, I63.
  pose proof (Z.mod_pos_bound (z + 9223372036854775808) (2 * 9223372036854775808)).
  lia.
Qed.

(** Two integers wrap to the same [i64] when they differ by a multiple of [2^64]. *)
Lemma wrap_i64_cong a b k : a = (b + k * (2 * I63))%Z -> wrap_i64 a = wrap_i64 b.
Proof.
  intros ->. unfold wrap_i64.
  replace (b + k * (2 * I63) + I63)%Z with (b + I63 + k * (2 * I63))%Z by lia.
  rewrite Z.mod_add by (unfold I63; lia). reflexivity.
Qed.

Lemma wrap_i64_repr z : exists k, wrap_i64 z = (z + k * (2 * I63))%Z.
Proof.
  exists (- ((z + I63) / (2 * I63)))%Z. unfold wrap_i64.
  pose proof (Z.div_mod (z + I63) (2 * I63) ltac:(unfold I63; lia)). lia.
Qed.

Lemma wrap_i64_add a b : wrap_i64 (wrap_i64 a + wrap_i64 b) = wrap_i64 (a + b).
Proof.
  destruct (wrap_i64_repr a) as [k ->], (wrap_i64_repr b) as [l ->].
  apply (wrap_i64_cong _ _ (k + l)). lia.
Qed.

Lemma wrap_i64_add_l a b : wrap_i64 (wrap_i64 a + b) = wrap_i64 (a + b).
Proof. destruct (wrap_i64_repr a) as [k ->]. apply (wrap_i64_cong _ _ k). lia. Qed.

Lemma wrap_i64_sub a b : wrap_i64 (wrap_i64 a - wrap_i64 b) = wrap_i64 (a - b).
Proof.
  destruct (wrap_i64_repr a) as [k ->], (wrap_i64_repr b) as [l ->].
  apply (wrap_i64_cong _ _ (k - l)). lia.
Qed.

Create Rewrite HintDb wrap.
#[export] Hint Rewrite wrap_i64_add wrap_i64_add_l wrap_i64_sub : wrap.

(** ** Fallible code: Rust's [Result] *)
Inductive result (E A : Type) : Type :=
  | Ok (a : A)
  | Err (e : E).
Arguments Ok {E A} a.
Arguments Err {E A} e.

#[export] Instance result_ret E : MRet (result E) := fun A a => Ok a.
#[export] Instance result_bind E : MBind (result E) := fun A B f r =>
  match r with Ok a => f a | Err e => Err e end.

Definition is_ok {E A} (r : result E A) : bool :=
  match r with Ok _ => true | Err _ => false end.

(** [Option::ok_or]. *)
Definition ok_or {E A} (o : option A) (e : E) : result E A :=
  match o with Some a => Ok a | None => Err e end.

(** ** Sums over maps

    [msum f m] adds [f k v] over the entries of [m]. Two lemmas carry every
    accounting proof: what one insertion and what one deletion do to it. *)
Definition msum {K} `{Countable K} {V} (f : K -> V -> Z) (m : gmap K V) : Z :=
  map_fold (fun k v acc => f k v + acc)%Z 0%Z m.

Definition lsum {A} (f : A -> Z) (l : list A) : Z := foldr (fun x acc => f x + acc)%Z 0%Z l.

Section msum.
Context {K : Type} `{Countable K} {V : Type}.
Implicit Types (f g : K -> V -> Z) (m : gmap K V).
Local Open Scope Z_scope.

Lemma msum_empty f : msum f ∅ = 0.
Proof. apply map_fold_empty. Qed.

Lemma msum_insert_None f m k v : m !! k = None -> msum f (<[k:=v]> m) = f k v + msum f m.
Proof.
  intros ?. unfold msum.
  rewrite (map_fold_insert_L (fun k v acc => f k v + acc)); [done | intros; lia | done].
Qed.

Lemma msum_delete f m k :
  msum f (delete k m) = msum f m - from_option (f k) 0 (m !! k).
Proof.
  destruct (m !! k) as [v|] eqn:E; simpl.
  - rewrite <- (insert_delete_id m k v E) at 2.
    rewrite msum_insert_None by apply lookup_delete_eq. lia.
  - rewrite delete_id by done. lia.
Qed.

Lemma msum_insert f m k v :
  msum f (<[k:=v]> m) = msum f m + f k v - from_option (f k) 0 (m !! k).
Proof.
  rewrite <- insert_delete_eq, msum_insert_None by apply lookup_delete_eq.
  rewrite msum_delete. lia.
Qed.

Lemma msum_list f m : msum f m = lsum (fun kv => f kv.1 kv.2) (map_to_list m).
Proof.
  induction m as [|k v m Hk IH] using map_ind.
  - rewrite msum_empty, map_to_list_empty. done.
  - rewrite msum_insert_None, IH by done.
    assert (forall l l' : list (K * V), l ≡ₚ l' ->
      lsum (fun kv => f kv.1 kv.2) l = lsum (fun kv => f kv.1 kv.2) l') as Hp.
    { induction 1; simpl; lia. }
    by rewrite (Hp _ _ (map_to_list_insert _ _ _ Hk)).
Qed.

Lemma msum_ext f g m :
  (forall k v, m !! k = Some v -> f k v = g k v) -> msum f m = msum g m.
Proof.
  induction m as [|k v m Hk IH] using map_ind; intros He.
  - by rewrite !msum_empty.
  - rewrite !msum_insert_None by done. rewrite (He k v) by apply lookup_insert_eq.
    rewrite IH; [done|]. intros k' v' Hl. apply He.
    rewrite lookup_insert_ne; [done|]. congruence.
Qed.

Lemma msum_plus f g m : msum (fun k v => f k v + g k v) m = msum f m + msum g m.
Proof.
  induction m as [|k v m Hk IH] using map_ind;
    rewrite ?msum_empty, ?msum_insert_None by done; lia.
Qed.

Lemma msum_nonneg f m :
  (forall k v, m !! k = Some v -> 0 <= f k v) -> 0 <= msum f m.
Proof.
  intros Hf. induction m as [|k v m Hk IH] using map_ind.
  - by rewrite msum_empty.
  - rewrite msum_insert_None by done.
    pose proof (Hf k v (lookup_insert_eq _ _ _)).
    enough (0 <= msum f m) by lia. apply IH. intros k' v' Hl. apply Hf.
    rewrite lookup_insert_ne; [done|]. congruence.
Qed.

Lemma msum_zero f m : (forall k v, m !! k = Some v -> f k v = 0) -> msum f m = 0.
Proof.
  intros Hf. rewrite (msum_ext f (fun _ _ => 0) m Hf).
  induction m using map_ind; rewrite ?msum_empty, ?msum_insert_None by done; [done|].
  rewrite IHm; [done|]. intros k v Hk. apply (Hf k v).
  rewrite lookup_insert_ne; [done|]. congruence.
Qed.

(** One entry is at most the whole sum. *)
Lemma msum_lookup_le f m k v :
  (forall k v, m !! k = Some v -> 0 <= f k v) -> m !! k = Some v -> f k v <= msum f m.
Proof.
  intros Hf Hk. pose proof (msum_delete f m k) as Hd. rewrite Hk in Hd. simpl in Hd.
  enough (0 <= msum f (delete k m)) by lia.
  apply msum_nonneg. intros k' v' Hl. apply Hf.
  by apply lookup_delete_Some in Hl as [_ ?].
Qed.

Lemma lsum_perm {A} (f : A -> Z) (l l' : list A) : l ≡ₚ l' -> lsum f l = lsum f l'.
Proof. induction 1; simpl; lia. Qed.
End msum.

Lemma lsum_app {A} (f : A -> Z) (l l' : list A) : lsum f (l ++ l') = (lsum f l + lsum f l')%Z.
Proof. induction l; simpl; lia. Qed.

Lemma lsum_nonneg {A} (f : A -> Z) (l : list A) : (forall x, 0 <= f x)%Z -> (0 <= lsum f l)%Z.
Proof. intros Hf. induction l as [|x l IH]; simpl; [lia|]. specialize (Hf x). lia. Qed.

(** ** Folds *)

(** An invariant of a left fold, indexed by the prefix already processed. *)
Lemma foldl_prefix_ind {A B} (P : list A -> B -> Prop) (f : B -> A -> B) (b : B) (l : list A) :
  P [] b ->
  (forall l1 x l2 b', l = l1 ++ x :: l2 -> P l1 b' -> P (l1 ++ [x]) (f b' x)) ->
  P l (foldl f b l).
Proof.
  intros H0 Hstep.
  assert (forall l1 l2, l = l1 ++ l2 -> P l1 (foldl f b l1)) as Hgen.
  { induction l1 as [|x l1 IH] using rev_ind; intros l2 Hl; [done|].
    rewrite foldl_snoc. rewrite <- app_assoc in Hl. eapply Hstep; [exact Hl|]. by eapply IH. }
  apply (Hgen l []). by rewrite app_nil_r.
Qed.

(** An invariant every step keeps. *)
Lemma foldl_inv {A B} (P : B -> Prop) (f : B -> A -> B) (b : B) (l : list A) :
  P b -> (forall b' x, x ∈ l -> P b' -> P (f b' x)) -> P (foldl f b l).
Proof.
  intros Hb Hf. apply (foldl_prefix_ind (fun _ => P)); [done|].
  intros l1 x l2 b' -> Hb'. apply Hf; [|done]. apply elem_of_app. right. left.
Qed.

(** A decidable closed goal, by evaluation of its decision procedure. *)
Ltac by_decide := apply (bool_decide_unpack _); vm_compute; exact I.
