(* ===== verification/Prog.v ===== *)
(** * Programs of atomic steps

    A handler or a command is a tree of atomic operations on a shared world
    [W]. [run] is what it does when nothing happens in between, [prog_step]
    takes one operation, so that programs can be interleaved, and [safe] is a
    rely-guarantee logic for the interleaved ones. *)
From S2P Require Import Prelude.

Inductive prog (W E A : Type) : Type :=
  | Done (r : result E A)
  | Atomic {X : Type} (op : W -> W * X) (k : X -> prog W E A).
Arguments Done {W E A} r.
Arguments Atomic {W E A X} op k.

Section prog.
Context {W E : Type}.

Fixpoint prog_then {A B} (f : A -> prog W E B) (m : prog W E A) : prog W E B :=
  match m with
  | Done (Ok a) => f a
  | Done (Err e) => Done (Err e)
  | Atomic op k => Atomic op (fun x => prog_then f (k x))
  end.

#[export] Instance prog_ret : MRet (prog W E) := fun A a => Done (Ok a).
#[export] Instance prog_bind : MBind (prog W E) := fun A B f m => prog_then f m.

(** One operation. *)
Definition atomically {X} (op : W -> W * X) : prog W E X := Atomic op (fun x => Done (Ok x)).

(** Reading the world, and changing it. *)
Definition asks {X} (f : W -> X) : prog W E X := atomically (fun w => (w, f w)).
Definition does (f : W -> W) : prog W E unit := atomically (fun w => (f w, tt)).

(** ** Without interruption *)
Fixpoint run {A} (m : prog W E A) (w : W) : W * result E A :=
  match m with
  | Done r => (w, r)
  | Atomic op k => run (k (op w).2) (op w).1
  end.

(** A whole program as one operation: what happens under a lock. *)
Definition guarded {A} (m : prog W E A) : prog W E A := Atomic (run m) Done.

Lemma run_then {A B} (m : prog W E A) (f : A -> prog W E B) w :
  run (prog_then f m) w =
  match run m w with
  | (w', Ok a) => run (f a) w'
  | (w', Err e) => (w', Err e)
  end.
Proof. revert w. induction m as [[a|e]|X op k IH]; intros w; [done..|]. apply IH. Qed.

Lemma run_atomically {X} (op : W -> W * X) w : run (atomically op) w = ((op w).1, Ok (op w).2).
Proof. done. Qed.
Lemma run_mret {A} (a : A) w : run (mret a) w = (w, Ok a).
Proof. done. Qed.
Lemma run_asks {X} (f : W -> X) w : run (asks f) w = (w, Ok (f w)).
Proof. done. Qed.
Lemma run_does f w : run (does f) w = (f w, Ok tt).
Proof. done. Qed.
Lemma run_mbind {A B} (m : prog W E A) (f : A -> prog W E B) w :
  run (m ≫= f) w = match run m w with (w', Ok a) => run (f a) w' | (w', Err e) => (w', Err e) end.
Proof. exact (run_then m f w). Qed.

Lemma run_guarded {A} (m : prog W E A) w : run (guarded m) w = run m w.
Proof. simpl. by destruct (run m w). Qed.

(** ** One operation at a time *)

(** The first [n] operations: what is left of the program, and the world. *)
Fixpoint ahead {A} (n : nat) (m : prog W E A) (w : W) : prog W E A * W :=
  match n, m with
  | S n, Atomic op k => ahead n (k (op w).2) (op w).1
  | _, _ => (m, w)
  end.

Inductive prog_step {A} : prog W E A * W -> prog W E A * W -> Prop :=
  | prog_op X (op : W -> W * X) k w : prog_step (Atomic op k, w) (k (op w).2, (op w).1).

Lemma run_as_steps {A} (m : prog W E A) w :
  rtc prog_step (m, w) (Done (run m w).2, (run m w).1).
Proof.
  revert w. induction m as [r|X op k IH]; intros w; [done|].
  eapply rtc_l; [apply prog_op|]. apply IH.
Qed.

(** A program has ended or can take a step. *)
Lemma prog_progress {A} (m : prog W E A) w : (exists r, m = Done r) \/ exists y, prog_step (m, w) y.
Proof. destruct m as [r|X op k]; [left; by exists r|right]. eexists. apply prog_op. Qed.
End prog.

(** One operation of a program that begins with it. *)
Ltac run_op :=
  rewrite run_mbind; first [rewrite run_asks|rewrite run_does|rewrite run_atomically]; cbn [fst snd].

(** However its operations turn out, a program ends in a [P] result. *)
Fixpoint every_end {W E A} (P : result E A -> Prop) (m : prog W E A) : Prop :=
  match m with
  | Done r => P r
  | Atomic op k => forall x, every_end P (k x)
  end.

Lemma every_end_then {W E A B} (P : result E A -> Prop) (Q : result E B -> Prop) (m : prog W E A) (f : A -> prog W E B) :
  every_end P m -> (forall e, P (Err e) -> Q (Err e)) -> (forall a, P (Ok a) -> every_end Q (f a)) ->
  every_end Q (prog_then f m).
Proof. intros Hm He Hf. induction m as [[a|e]|X op k IH]; simpl in *; auto. Qed.

Lemma every_end_mono {W E A} (P Q : result E A -> Prop) (m : prog W E A) :
  (forall r, P r -> Q r) -> every_end P m -> every_end Q m.
Proof. intros HPQ Hm. induction m as [r|X op k IH]; [by apply HPQ|]. intros x. apply IH, Hm. Qed.

(** Every operation of a program is an [R] step. *)
Fixpoint every_op {W E A} (R : W -> W -> Prop) (m : prog W E A) : Prop :=
  match m with
  | Done _ => True
  | Atomic op k => (forall w, R w (op w).1) /\ forall x, every_op R (k x)
  end.

Lemma every_op_then {W E A B} (R : W -> W -> Prop) (m : prog W E A) (f : A -> prog W E B) :
  every_op R m -> (forall a, every_op R (f a)) -> every_op R (prog_then f m).
Proof. intros Hm Hf. induction m as [[a|e]|X op k IH]; simpl in *; [done|done|]. destruct Hm. split; auto. Qed.

Lemma every_op_asks {W E A X} (R : W -> W -> Prop) (f : W -> X) (k : X -> prog W E A) :
  (forall w, R w w) -> (forall x, every_op R (k x)) -> every_op R (asks f ≫= k).
Proof. by split. Qed.

Lemma every_op_run {W E A} (R : W -> W -> Prop) (m : prog W E A) w :
  PreOrder R -> every_op R m -> R w (run m w).1.
Proof.
  intros HR Hm. revert w. induction m as [r|X op k IH]; intros w; simpl; [done|].
  destruct Hm as [Hop Hk]. etrans; [apply Hop|]. by apply IH.
Qed.

(** ** Rely and guarantee

    [safe m Q w]: from the world [w], each operation of [m] keeps the shared
    invariant and changes the world by a [guar] step only, whatever [rely]
    steps others take before it, and [Q] holds of the result when [m] has
    taken its last. [inv] is indexed by a ghost state that the environment
    changes; [avail] is what every operation may assume of its moment. *)
Section safe.
Context {W E G : Type} (inv : G -> W -> Prop) (avail : W -> Prop) (guar rely : W -> W -> Prop).

Fixpoint safe {A} (m : prog W E A) (Q : result E A -> W -> Prop) (w : W) : Prop :=
  match m with
  | Done r => Q r w
  | Atomic op k => forall g w', rely w w' -> inv g w' -> avail w' ->
      inv g (op w').1 /\ guar w' (op w').1 /\ safe (k (op w').2) Q (op w').1
  end.

Definition stable (P : W -> Prop) : Prop := forall w w', rely w w' -> P w -> P w'.

Lemma safe_stable {A} (m : prog W E A) Q :
  Transitive rely -> (forall r, stable (Q r)) -> stable (safe m Q).
Proof.
  intros Htr HQ w w' Hw. destruct m as [r|X op k]; simpl; [by apply HQ|].
  intros Hm g w2 H2. apply Hm. by etrans.
Qed.

Lemma safe_mono {A} (m : prog W E A) (Q Q' : result E A -> W -> Prop) w :
  safe m Q w -> (forall r w', Q r w' -> Q' r w') -> safe m Q' w.
Proof.
  intros Hm HQ. revert w Hm. induction m as [r|X op k IH]; intros w Hm; simpl in *; [eauto|].
  intros g w' H1 H2 H3. destruct (Hm g w' H1 H2 H3) as (? & ? & ?). eauto.
Qed.

Lemma safe_then {A B} (m : prog W E A) (f : A -> prog W E B) Q w :
  safe m (fun r w' => match r with Ok a => safe (f a) Q w' | Err e => Q (Err e) w' end) w ->
  safe (prog_then f m) Q w.
Proof.
  revert w. induction m as [[a|e]|X op k IH]; intros w Hm; simpl in *; [done..|].
  intros g w' H1 H2 H3. destruct (Hm g w' H1 H2 H3) as (? & ? & ?). eauto.
Qed.

Lemma safe_atomically {X} (op : W -> W * X) Q w :
  (forall g w', rely w w' -> inv g w' -> avail w' ->
     inv g (op w').1 /\ guar w' (op w').1 /\ Q (Ok (op w').2) (op w').1) ->
  safe (atomically op) Q w.
Proof. done. Qed.

Lemma safe_guarded {A} (m : prog W E A) Q w :
  (forall g w', rely w w' -> inv g w' -> avail w' ->
     inv g (run m w').1 /\ guar w' (run m w').1 /\ Q (run m w').2 (run m w').1) ->
  safe (guarded m) Q w.
Proof. done. Qed.

Lemma safe_and {A} (m : prog W E A) Q1 Q2 w :
  safe m Q1 w -> safe m Q2 w -> safe m (fun r w' => Q1 r w' /\ Q2 r w') w.
Proof.
  revert w. induction m as [r|X op k IH]; intros w Hm1 Hm2; simpl in *; [done|].
  intros g w' H1 H2 H3. destruct (Hm1 g w' H1 H2 H3) as (? & ? & ?), (Hm2 g w' H1 H2 H3) as (_ & _ & ?). eauto.
Qed.

(** Uninterrupted, a safe program keeps the invariant. *)
Lemma safe_run {A} (m : prog W E A) Q g w :
  safe m Q w -> Reflexive rely -> (forall w, avail w) -> inv g w -> inv g (run m w).1 /\ Q (run m w).2 (run m w).1.
Proof.
  intros Hm Hre Hav. revert w Hm. induction m as [r|X op k IH]; intros w Hm Hi; simpl in *; [done|].
  destruct (Hm g w) as (H1 & _ & H2); [done..|]. by apply IH.
Qed.
End safe.
