(* ===== verification/Digest.v ===== *)
(** * Digests ([src/digest.rs])

    A SHA-256 value and its [sha256:<hex>] text form: [from_str] and
    [to_string] model the [FromStr] and [Display] implementations. *)
From S2P Require Import Prelude.

(** [pub struct Digest(pub [u8; 32])]. *)
Abbreviation Digest := (vec ascii 32).

(** The array with the given bytes, and a numbering of digests that evaluates
    well: digests are map keys. *)
Definition digest_of_list (l : bytes) : Digest :=
  vmap (fun i : fin 32 => default "000"%char (l !! fin_to_nat i)) (fun_to_vec (fun i : fin 32 => i)).

Lemma digest_of_list_to_list (d : Digest) : digest_of_list (vec_to_list d) = d.
Proof.
  apply vec_eq. intros i. unfold digest_of_list. rewrite vlookup_map, lookup_fun_to_vec.
  assert (vec_to_list d !! fin_to_nat i = Some (d !!! i)) as -> by by apply vlookup_lookup.
  done.
Qed.

#[export] Instance Digest_countable : Countable Digest :=
  inj_countable' vec_to_list digest_of_list digest_of_list_to_list.

(** ** Hexadecimal digits (the standard library's [char::to_digit(16)], [{:02x}]) *)
Definition to_digit (c : ascii) : option N :=
  let n := N_of_ascii c in
  if ((48 <=? n) && (n <=? 57))%N then Some (n - 48)%N
  else if ((97 <=? n) && (n <=? 102))%N then Some (n - 87)%N
  else if ((65 <=? n) && (n <=? 70))%N then Some (n - 55)%N
  else None.

Definition hex_digit (n : N) : ascii :=
  if (n <? 10)%N then ascii_of_N (48 + n) else ascii_of_N (87 + n).

(** [{:02x}] of a [u8]. *)
Definition hex2 (c : ascii) : bytes :=
  [hex_digit (N.shiftr (N_of_ascii c) 4); hex_digit (N.land (N_of_ascii c) 15)].

(** [to_ascii_lowercase] of one byte. *)
Definition ascii_lower (c : ascii) : ascii :=
  let n := N_of_ascii c in
  if ((65 <=? n) && (n <=? 90))%N then ascii_of_N (n + 32) else c.

(** [str::strip_prefix]. *)
Fixpoint strip_prefix (p s : bytes) : option bytes :=
  match p, s with
  | [], _ => Some s
  | a :: p', b :: s' => if decide (a = b) then strip_prefix p' s' else None
  | _ :: _, [] => None
  end.

(** ** The parser and the printer *)

(** One iteration of the loop: [hi], [lo] and [(hi << 4) | lo] at [u8]. *)
Definition digest_byte (hex : bytes) (i : nat) : option ascii :=
  hc ← hex !! (2 * i)%nat; hi ← to_digit hc;
  lc ← hex !! (2 * i + 1)%nat; lo ← to_digit lc;
  Some (ascii_of_N (N.lor (N.shiftl hi 4) lo)).

(** The loop [for i in 0..32 { out[i] = ... }]. *)
Definition digest_loop (hex : bytes) : option Digest :=
  foldl (fun acc (i : fin 32) =>
           out ← acc; v ← digest_byte hex (fin_to_nat i); Some (vinsert i v out))
        (Some (vreplicate 32 "000"%char)) (enum (fin 32)).

Definition digest_from_str (s : bytes) : option Digest :=
  hex ← strip_prefix $"sha256:" s;
  if negb (length hex =? 64)%nat then None else digest_loop hex.

Definition digest_to_string (d : Digest) : bytes :=
  $"sha256:" ++ concat (hex2 <$> vec_to_list d).

(** ** Lemmas on hexadecimal digits, by evaluation over the 256 bytes *)
Definition all_ascii : list ascii := ascii_of_nat <$> seq 0 256.

Lemma elem_of_all_ascii (c : ascii) : c ∈ all_ascii.
Proof.
  unfold all_ascii. apply list_elem_of_fmap. exists (nat_of_ascii c).
  split; [by rewrite ascii_nat_embedding |].
  apply elem_of_seq. pose proof (nat_ascii_bounded c). lia.
Qed.

(** A decidable property of bytes holds when it evaluates to true on each. *)
Lemma ascii_forall (P : ascii -> bool) :
  forallb P all_ascii = true -> forall c, P c = true.
Proof.
  intros HP c. rewrite forallb_forall in HP. apply HP.
  apply list_elem_of_In, elem_of_all_ascii.
Qed.

Definition hex2_parses (c : ascii) : bool :=
  match to_digit (hex_digit (N.shiftr (N_of_ascii c) 4)),
        to_digit (hex_digit (N.land (N_of_ascii c) 15)) with
  | Some hi, Some lo => Ascii.eqb (ascii_of_N (N.lor (N.shiftl hi 4) lo)) c
  | _, _ => false
  end.

Lemma hex2_parse c :
  exists hi lo a b, hex2 c = [a; b] /\ to_digit a = Some hi /\ to_digit b = Some lo /\
    ascii_of_N (N.lor (N.shiftl hi 4) lo) = c.
Proof.
  assert (hex2_parses c = true) as H.
  { revert c. apply ascii_forall. vm_compute. reflexivity. }
  unfold hex2_parses in H.
  destruct (to_digit (hex_digit (N.shiftr _ _))) as [hi|] eqn:E1; [|done].
  destruct (to_digit (hex_digit (N.land _ _))) as [lo|] eqn:E2; [|done].
  apply Ascii.eqb_eq in H. unfold hex2. eauto 10.
Qed.

Definition to_digit_ok (c : ascii) : bool :=
  match to_digit c with
  | Some n => (n <? 16)%N && Ascii.eqb (hex_digit n) (ascii_lower c)
  | None => true
  end.

Lemma to_digit_lt c n : to_digit c = Some n -> (n < 16)%N /\ hex_digit n = ascii_lower c.
Proof.
  assert (to_digit_ok c = true) as H.
  { revert c. apply ascii_forall. vm_compute. reflexivity. }
  unfold to_digit_ok in H. intros E. rewrite E in H.
  apply andb_true_iff in H as [H1 H2]. split; [by apply N.ltb_lt | by apply Ascii.eqb_eq].
Qed.

Definition nibbles : list N := N.of_nat <$> seq 0 16.

Lemma elem_of_nibbles n : (n < 16)%N -> In n nibbles.
Proof.
  intros Hn. apply list_elem_of_In, list_elem_of_fmap. exists (N.to_nat n).
  split; [lia|]. apply elem_of_seq. lia.
Qed.

Definition nibbles_print (hi lo : N) : bool :=
  let c := ascii_of_N (N.lor (N.shiftl hi 4) lo) in
  Ascii.eqb (hex_digit (N.shiftr (N_of_ascii c) 4)) (hex_digit hi) &&
  Ascii.eqb (hex_digit (N.land (N_of_ascii c) 15)) (hex_digit lo).

(** The inverse direction: printing the byte made of two digits gives the
    digits back in lower case. *)
Lemma hex2_of_digits a b hi lo :
  to_digit a = Some hi -> to_digit b = Some lo ->
  hex2 (ascii_of_N (N.lor (N.shiftl hi 4) lo)) = [ascii_lower a; ascii_lower b].
Proof.
  intros [Hhi <-]%to_digit_lt [Hlo <-]%to_digit_lt.
  assert (nibbles_print hi lo = true) as H.
  { assert (forallb (fun hi => forallb (nibbles_print hi) nibbles) nibbles = true) as H
      by (vm_compute; reflexivity).
    rewrite forallb_forall in H. specialize (H hi (elem_of_nibbles _ Hhi)).
    rewrite forallb_forall in H. exact (H lo (elem_of_nibbles _ Hlo)). }
  apply andb_true_iff in H as [H1%Ascii.eqb_eq H2%Ascii.eqb_eq].
  unfold hex2. by rewrite H1, H2.
Qed.

(** ** Lemmas on the loop *)

(** Filling a vector at pairwise distinct positions: on success position [i] of
    the list holds [f i] and the others are those of the start vector. *)
Lemma fill_loop {n} (f : fin n -> option ascii) (l : list (fin n)) (v0 : vec ascii n) :
  NoDup l ->
  match foldl (fun acc i => out ← acc; v ← f i; Some (vinsert i v out)) (Some v0) l with
  | Some out => (forall i, i ∈ l -> f i = Some (out !!! i)) /\
                (forall i, i ∉ l -> out !!! i = v0 !!! i)
  | None => exists i, i ∈ l /\ f i = None
  end.
Proof.
  induction l as [|i l IH] using rev_ind; intros Hnd.
  - simpl. split; [intros i Hi; by apply elem_of_nil in Hi | done].
  - rewrite foldl_snoc. apply NoDup_app in Hnd as (Hnd & Hni & _).
    specialize (IH Hnd).
    destruct (foldl _ _ l) as [out|]; simpl in *.
    2:{ destruct IH as (j & Hj & Hf). exists j. rewrite elem_of_app. tauto. }
    destruct IH as [IH1 IH2].
    destruct (f i) as [v|] eqn:Ef; simpl; [|exists i; by rewrite elem_of_app, list_elem_of_singleton; auto].
    split; intros j Hj.
    + destruct (decide (i = j)) as [->|Hne].
      * by rewrite vlookup_insert.
      * rewrite vlookup_insert_ne by done. apply IH1.
        apply elem_of_app in Hj as [?|Hj%list_elem_of_singleton]; congruence.
    + rewrite elem_of_app, list_elem_of_singleton in Hj.
      rewrite vlookup_insert_ne by naive_solver. apply IH2. tauto.
Qed.

Lemma digest_loop_Some hex d :
  digest_loop hex = Some d <-> forall i, digest_byte hex (fin_to_nat i) = Some (d !!! i).
Proof.
  unfold digest_loop.
  pose proof (fill_loop (fun i => digest_byte hex (fin_to_nat i)) (enum (fin 32))
    (vreplicate 32 "000"%char) (NoDup_enum _)) as H.
  destruct (foldl _ _ _) as [out|].
  - destruct H as [H _]. split.
    + intros [= <-] i. apply H, elem_of_enum.
    + intros Hd. f_equal. apply vec_eq. intros i.
      specialize (H i (elem_of_enum _)). rewrite Hd in H. congruence.
  - destruct H as (i & _ & Hi). split; [done|]. intros Hd. by rewrite Hd in Hi.
Qed.

Lemma strip_prefix_Some p s r : strip_prefix p s = Some r <-> s = p ++ r.
Proof.
  revert s. induction p as [|a p IH]; intros s; simpl.
  - split; congruence.
  - destruct s as [|b s]; [done|]. case_decide as Hab.
    + rewrite IH. subst. split; congruence.
    + split; congruence.
Qed.

Lemma length_hex2s (l : bytes) : length (concat (hex2 <$> l)) = (2 * length l)%nat.
Proof.
  induction l as [|c l IH]; [done|].
  rewrite fmap_cons. cbn [concat length]. rewrite length_app, IH. simpl. lia.
Qed.

(** The two digits of byte [i] sit at offsets [2i] and [2i+1]. *)
Lemma hex2s_lookup (l : bytes) i c :
  l !! i = Some c ->
  exists a b, hex2 c = [a; b] /\
    concat (hex2 <$> l) !! (2 * i)%nat = Some a /\
    concat (hex2 <$> l) !! (2 * i + 1)%nat = Some b.
Proof.
  revert i. induction l as [|c' l IH]; intros [|i] Hi; simplify_eq/=.
  - exists (hex_digit (N.shiftr (N_of_ascii c) 4)), (hex_digit (N.land (N_of_ascii c) 15)).
    done.
  - destruct (IH i Hi) as (a & b & Hab & Ha & Hb). exists a, b. split; [done|].
    replace (i + S (i + 0))%nat with (S (2 * i)) by lia.
    split; [by rewrite <- Ha | rewrite <- Hb].
    replace (S (2 * i) + 1)%nat with (S (2 * i + 1)) by lia. done.
Qed.

Lemma digest_byte_hex2s (d : Digest) (i : fin 32) :
  digest_byte (concat (hex2 <$> vec_to_list d)) (fin_to_nat i) = Some (d !!! i).
Proof.
  assert (vec_to_list d !! (fin_to_nat i) = Some (d !!! i)) as Hi by by apply vlookup_lookup.
  destruct (hex2s_lookup _ _ _ Hi) as (a & b & Hab & Ha & Hb).
  destruct (hex2_parse (d !!! i)) as (hi & lo & a' & b' & Hab' & Hhi & Hlo & Hc).
  rewrite Hab in Hab'. injection Hab' as <- <-.
  unfold digest_byte. rewrite Ha, Hb. cbn [mbind option_bind]. rewrite Hhi.
  cbn [mbind option_bind]. rewrite Hlo. cbn [mbind option_bind]. by rewrite Hc.
Qed.

(** Conversely, the text between the digits is determined by the bytes. *)
Lemma hex2s_of_digest_bytes (hex : bytes) (l : bytes) :
  length hex = (2 * length l)%nat ->
  (forall i c, l !! i = Some c -> digest_byte hex i = Some c) ->
  concat (hex2 <$> l) = ascii_lower <$> hex.
Proof.
  revert hex. induction l as [|c l IH]; intros hex Hlen Hb; simpl in *.
  - by destruct hex.
  - destruct hex as [|a [|b hex]]; simpl in *; [lia|lia|].
    pose proof (Hb 0%nat c eq_refl) as H0. unfold digest_byte in H0. simpl in H0.
    destruct (to_digit a) as [hi|] eqn:Ea; simpl in H0; [|done].
    destruct (to_digit b) as [lo|] eqn:Eb; simpl in H0; [|done].
    injection H0 as <-.
    pose proof (hex2_of_digits _ _ _ _ Ea Eb) as Hh. unfold hex2 in Hh. injection Hh as -> ->.
    do 2 f_equal. apply IH; [lia|]. intros i c' Hc'.
    specialize (Hb (S i) c' Hc'). unfold digest_byte in *.
    replace (2 * S i)%nat with (S (S (2 * i))) in Hb by lia.
    replace (S (S (2 * i)) + 1)%nat with (S (S (2 * i + 1))) in Hb by lia. done.
Qed.

(** ** Properties *)

(** Parsing what was printed. *)
Lemma digest_from_to_string (d : Digest) : digest_from_str (digest_to_string d) = Some d.
Proof.
  unfold digest_from_str, digest_to_string.
  assert (strip_prefix $"sha256:" ($"sha256:" ++ concat (hex2 <$> vec_to_list d))
          = Some (concat (hex2 <$> vec_to_list d))) as -> by by apply strip_prefix_Some.
  cbn [mbind option_bind]. rewrite length_hex2s, length_vec_to_list. simpl negb. cbv iota.
  apply digest_loop_Some, digest_byte_hex2s.
Qed.

Lemma digest_from_str_Some s d :
  digest_from_str s = Some d -> digest_to_string d = ascii_lower <$> s.
Proof.
  unfold digest_from_str. destruct (strip_prefix _ s) as [hex|] eqn:Es; simpl; [|done].
  destruct (length hex =? 64)%nat eqn:El; simpl; [|done]. intros Hd.
  apply Nat.eqb_eq in El. apply strip_prefix_Some in Es as ->.
  pose proof (proj1 (digest_loop_Some _ _) Hd) as Hb.
  unfold digest_to_string. rewrite fmap_app. f_equal.
  apply hex2s_of_digest_bytes; [by rewrite length_vec_to_list|].
  intros i c Hi. pose proof (lookup_lt_Some _ _ _ Hi) as Hlt. rewrite length_vec_to_list in Hlt.
  specialize (Hb (nat_to_fin Hlt)). rewrite fin_to_nat_to_fin in Hb. rewrite Hb. f_equal.
  apply vlookup_lookup. by rewrite fin_to_nat_to_fin.
Qed.

#[export] Instance digest_to_string_inj : Inj (=) (=) digest_to_string.
Proof. intros a b Hab. apply (f_equal digest_from_str) in Hab. rewrite !digest_from_to_string in Hab. congruence. Qed.

(** [Display] and [FromStr] of a digest: every digest reads back, and a
    text that parses is the text of its digest up to the case of the letters. *)
Theorem digest_roundtrip :
  (forall d, digest_from_str (digest_to_string d) = Some d) /\
  forall s d, digest_from_str s = Some d -> digest_to_string d = ascii_lower <$> s.
Proof. split; [exact digest_from_to_string|exact digest_from_str_Some]. Qed.
