(* ===== verification/Env.v ===== *)
(** * Code outside [src/]: interfaces

    The third-party crates and services the program calls, as type classes
    that state the documented behaviour the program relies on. Every theorem
    is proved for an arbitrary instance; [Instances] at the end of the file
    gives one executable instance of each, used by the witnesses. *)
From S2P Require Import Prelude Digest.

(** ** [sha2::Sha256]: incremental hashing agrees with the one-shot digest *)
Class Sha256 := {
  hasher : Type;
  hasher_new : hasher;
  hasher_update : hasher -> bytes -> hasher;
  hasher_finalize : hasher -> Digest;
  sha256_digest : bytes -> Digest;
  hasher_law : forall chunks,
    hasher_finalize (foldl hasher_update hasher_new chunks) = sha256_digest (concat chunks)
}.

(** ** [subtle::ConstantTimeEq] on byte slices *)
Class ConstantTimeEq := {
  ct_eq : bytes -> bytes -> bool;
  ct_eq_spec : forall a b, ct_eq a b = true <-> a = b
}.

(** ** [serde_json]: the value type, and the decoder of byte slices *)
#[local] Set Warnings "-register-all".
Inductive Value : Type :=
  | VNull
  | VBool (b : bool)
  | VNumber (n : bytes)
  | VString (s : bytes)
  | VArray (a : list Value)
  | VObject (m : list (bytes * Value)).

Class SerdeJson := { json_from_slice : bytes -> option Value }.

(** ** [dashmap::DashMap] and [std::collections::HashMap]: iteration

    [iter] visits every entry once, in an order nothing is promised about. *)
Class MapIter := {
  map_iter : forall {K} `{Countable K} {V}, gmap K V -> list (K * V);
  map_iter_perm : forall {K} `{Countable K} {V} (m : gmap K V), map_iter m ≡ₚ map_to_list m
}.

(** ** The file system

    A disk maps a path to the content of the file there. Every call may fail:
    an [Io] value says which calls of one operation do, and what a failed
    write leaves behind. *)
Abbreviation FileSystem := (gmap bytes bytes).

Inductive write_outcome : Type :=
  | WriteOk
  | WriteErr (left_behind : option bytes).

Record Io : Type := {
  io_create_dir : bytes -> bool;        (** does [create_dir_all] succeed? *)
  io_write : bytes -> write_outcome;    (** outcome of [tokio::fs::write] *)
  io_open : bytes -> bool;              (** can an existing file be opened? *)
  io_chunks : bytes -> list nat;        (** how much each read of its stream returns *)
  io_read : bytes -> bool;              (** can it be read to its end? *)
  io_metadata : bytes -> bool;          (** may it be inspected? *)
  io_remove : bytes -> bool;            (** may it be removed? *)
  io_rename : bytes -> bool             (** does [rename] succeed? *)
}.

(** Nothing fails. *)
Definition io_fine : Io :=
  {| io_create_dir _ := true; io_write _ := WriteOk; io_open _ := true;
     io_chunks _ := []; io_read _ := true;
     io_metadata _ := true; io_remove _ := true; io_rename _ := true |}.

Inductive io_error : Type := NotFound | OtherError.

(** [tokio::fs::write]. *)
Definition fs_write (io : Io) (path content : bytes) (d : FileSystem) : FileSystem * result io_error unit :=
  match io_write io path with
  | WriteOk => (<[path := content]> d, Ok tt)
  | WriteErr None => (d, Err OtherError)
  | WriteErr (Some part) => (<[path := part]> d, Err OtherError)
  end.

(** [tokio::fs::read], which opens the file and reads it. *)
Definition fs_read (io : Io) (path : bytes) (d : FileSystem) : result io_error bytes :=
  match d !! path with
  | None => Err NotFound
  | Some c => if io_read io path then Ok c else Err OtherError
  end.

(** [tokio::fs::File::open], and what [ReaderStream] yields: the content in
    non-empty pieces, as large as each read returns, or an error after some of
    them. *)
Fixpoint stream_frames (chunks : list nat) (fails : bool) (content : bytes) : list (option bytes) :=
  match chunks with
  | [] => if fails then [None] else match content with [] => [] | _ => [Some content] end
  | n :: chunks =>
      match take n content with
      | [] => stream_frames chunks fails content
      | piece => Some piece :: stream_frames chunks fails (drop n content)
      end
  end.

Definition fs_stream (io : Io) (path : bytes) (d : FileSystem) : result io_error (list (option bytes)) :=
  match d !! path with
  | None => Err NotFound
  | Some c =>
      if io_open io path then Ok (stream_frames (io_chunks io path) (negb (io_read io path)) c)
      else Err OtherError
  end.

(** [tokio::fs::metadata(path).len()]. *)
Definition fs_metadata_len (io : Io) (path : bytes) (d : FileSystem) : result io_error N :=
  match d !! path with
  | None => Err NotFound
  | Some c => if io_metadata io path then Ok (blen c) else Err OtherError
  end.

(** [tokio::fs::remove_file]. *)
Definition fs_remove (io : Io) (path : bytes) (d : FileSystem) : FileSystem * result io_error unit :=
  match d !! path with
  | None => (d, Err NotFound)
  | Some _ => if io_remove io path then (delete path d, Ok tt) else (d, Err OtherError)
  end.

(** [tokio::fs::rename], which replaces an existing destination. *)
Definition fs_rename (io : Io) (from to : bytes) (d : FileSystem) : FileSystem * result io_error unit :=
  match d !! from with
  | None => (d, Err NotFound)
  | Some c => if io_rename io from then (<[to := c]> (delete from d), Ok tt) else (d, Err OtherError)
  end.

(** [tokio::fs::remove_dir_all]: every file below [dir] goes, except those that
    cannot be removed, and those a failure leaves behind. *)
Definition below (dir path : bytes) : Prop := (dir ++ $"/") `prefix_of` path.
#[export] Instance below_dec dir path : Decision (below dir path).
Proof. unfold below. apply _. Defined.

Definition fs_remove_dir_all (io : Io) (dir : bytes) (d : FileSystem) : FileSystem :=
  filter (fun kv => ~ below dir kv.1 \/ io_remove io kv.1 = false) d.

(** ** Consequences of the interfaces *)
Section iter_lemmas.
Context `{MapIter} {K : Type} `{Countable K} {V : Type}.
Implicit Types m : gmap K V.

Lemma elem_of_map_iter m k v : (k, v) ∈ map_iter m <-> m !! k = Some v.
Proof. rewrite map_iter_perm. apply elem_of_map_to_list. Qed.

Lemma NoDup_map_iter_fst m : NoDup (map_iter m).*1.
Proof. rewrite map_iter_perm. apply NoDup_fst_map_to_list. Qed.

Lemma lsum_map_iter (f : K -> V -> Z) m : lsum (fun kv => f kv.1 kv.2) (map_iter m) = msum f m.
Proof. rewrite msum_list. apply lsum_perm, map_iter_perm. Qed.

Lemma map_iter_nil m : map_iter m = [] <-> m = ∅.
Proof.
  split.
  - intros Hm. apply map_to_list_empty_iff. apply Permutation_nil.
    rewrite <- Hm. apply map_iter_perm.
  - intros ->. apply Permutation_nil. rewrite map_iter_perm, map_to_list_empty. done.
Qed.

(** Inserting an iteration of [m] entry by entry rebuilds [m]. *)
Lemma list_to_map_iter m : list_to_map (map_iter m) = m.
Proof.
  rewrite <- (list_to_map_to_list m) at 2.
  apply list_to_map_proper; [apply NoDup_map_iter_fst | apply map_iter_perm].
Qed.
End iter_lemmas.

(** ** Executable instances, for witnesses *)
Module Instances.
(** The first 32 bytes, padded: enough to tell short contents apart. *)
Definition toy_digest (b : bytes) : Digest := digest_of_list b.

Lemma toy_hasher_law (chunks : list bytes) :
  foldl (fun h c : bytes => h ++ c) [] chunks = concat chunks.
Proof.
  assert (forall h, foldl (fun h c : bytes => h ++ c) h chunks = h ++ concat chunks) as H.
  { induction chunks as [|c cs IH]; intros h; simpl; [by rewrite app_nil_r|].
    by rewrite IH, <- app_assoc. }
  apply H.
Qed.

#[export] Instance toy_sha256 : Sha256 := {|
  hasher := bytes;
  hasher_new := [];
  hasher_update h c := h ++ c;
  hasher_finalize := toy_digest;
  sha256_digest := toy_digest;
  hasher_law chunks := f_equal toy_digest (toy_hasher_law chunks)
|}.

#[export] Instance toy_ct_eq : ConstantTimeEq := {|
  ct_eq a b := bool_decide (a = b);
  ct_eq_spec a b := bool_decide_eq_true (a = b)
|}.

#[export] Instance toy_iter : MapIter := {|
  map_iter _ _ _ _ m := map_to_list m;
  map_iter_perm _ _ _ _ m := Permutation_refl _
|}.

(** A body is the concatenation of digest texts; it decodes to an object
    with one [digest] field each. *)
Fixpoint toy_chunks (fuel : nat) (b : bytes) : list Value :=
  match fuel, b with
  | S fuel, _ :: _ => VObject [($"digest", VString (take 71 b))] :: toy_chunks fuel (drop 71 b)
  | _, _ => []
  end.

#[export] Instance toy_json : SerdeJson := {|
  json_from_slice b := Some (VArray (toy_chunks (length b) b))
|}.
End Instances.
