(* ===== verification/Config.v ===== *)
(** * Configuration ([src/config.rs]): the settings the other components read. *)
From S2P Require Import Prelude.

(** [Size(pub u64)] ([src/size.rs]): a byte count. *)
Abbreviation Size := N.

Record DockerUser : Type := mkDockerUser { user_name : bytes; user_password : bytes }.

Record DockerRegistry : Type := mkDockerRegistry {
  reg_url : bytes;
  reg_username : option bytes;
  reg_password : option bytes
}.

Record Config : Type := mkConfig {
  https_port : option N;
  http_port : option N;
  data_folder : bytes;
  memory_limit : Size;
  small_memory_limit_opt : option Size;
  disk_limit : Size;
  docker_user : list DockerUser;
  docker_registry : gmap bytes DockerRegistry;
  redis_port : option N;
  redis_password : option bytes
}.

Definition default_data_folder : bytes := $"/data/dockfoxprox".
Definition default_memory_limit : Size := (1024 * 1024 * 1024 * 16)%N.
Definition default_disk_limit : Size := (1024 * 1024 * 1024 * 100)%N.

(** [Config::small_memory_limit]: the setting, or an eighth of the budget. *)
Definition small_memory_limit (c : Config) : N :=
  default (memory_limit c / 8)%N (small_memory_limit_opt c).
