(* ===== verification/Counters.v ===== *)
(** * Names of the atomics

    The seven usage buckets of [State] ([src/state.rs]) and the counters and
    gauges of [Metrics] ([src/metrics.rs]). A struct of atomics is modelled as
    a function from its field names. *)
From S2P Require Import Prelude.

Inductive Bucket : Type :=
  | manifest_memory_usage
  | small_blob_memory_usage
  | large_blob_memory_usage
  | small_redis_memory_usage
  | large_redis_memory_usage
  | blob_disk_usage
  | redis_disk_usage.

#[export] Instance Bucket_eq_dec : EqDecision Bucket.
Proof. solve_decision. Defined.

Inductive Metric : Type :=
  | docker_manifest_get
  | docker_manifest_head
  | docker_manifest_put
  | docker_manifest_cache_hit
  | docker_manifest_cache_miss
  | docker_blob_get
  | docker_blob_head
  | docker_blob_cache_hit_memory
  | docker_blob_cache_hit_disk
  | docker_blob_cache_miss
  | docker_blob_upload_post
  | docker_blob_upload_patch
  | docker_blob_upload_put
  | docker_blob_upload_delete
  | docker_auth_failures
  | docker_upstream_requests
  | docker_upstream_errors
  | redis_connections
  | redis_commands
  | redis_get_hit
  | redis_get_miss
  | redis_set
  | redis_del
  | redis_auth_failures
  | eviction_runs
  | eviction_blobs_to_disk
  | eviction_blobs_deleted
  | eviction_manifests_deleted
  | eviction_redis_entries
  | oldest_small_memory_touch_time
  | oldest_large_memory_touch_time
  | oldest_disk_touch_time.

#[export] Instance Metric_eq_dec : EqDecision Metric.
Proof. solve_decision. Defined.
