(* ===== verification/Aligned.v ===== *)
(** * The aligned atomics ([src/aligned_atomic.rs])

    The layout rules of [repr(C, align(n))] and what they give for the two
    wrappers: a cache line each, so that counters of [State] that different
    threads write never share one. *)
From S2P Require Import Prelude.
#[local] Open Scope N_scope.

(** ** Layout of types: their size and alignment in bytes *)
Record Layout : Type := mkLayout { size_of : N; align_of : N }.

(** The next multiple of [a]. *)
Definition align_up (n a : N) : N := (n + a - 1) / a * a.

(** The fields of a [repr(C)] struct in their order, each at the next offset
    that its alignment allows: the offsets and the end of the last one. *)
Fixpoint place (at_ : N) (fields : list Layout) : list N * N :=
  match fields with
  | [] => ([], at_)
  | f :: fields =>
      let o := align_up at_ (align_of f) in
      let '(os, e) := place (o + size_of f) fields in (o :: os, e)
  end.

(** [repr(C, align(min_align))]: the size is rounded up to the alignment. *)
Definition repr_c_align (min_align : N) (fields : list Layout) : Layout :=
  let a := foldr (fun f a => N.max (align_of f) a) min_align fields in
  mkLayout (align_up (place 0 fields).2 a) a.

(** [AtomicU64] and [AtomicI64]. *)
Definition atomic_u64 : Layout := mkLayout 8 8.
Definition atomic_i64 : Layout := mkLayout 8 8.

Definition AlignedAtomicU64 : Layout := repr_c_align 64 [atomic_u64].
Definition AlignedAtomicI64 : Layout := repr_c_align 64 [atomic_i64].

(** ** Facts about layouts *)
Lemma align_up_spec n a : 0 < a -> n <= align_up n a < n + a /\ (a | align_up n a).
Proof.
  intros Ha. unfold align_up. split; [|apply N.divide_factor_r].
  pose proof (N.div_mod (n + a - 1) a ltac:(lia)) as H. pose proof (N.mod_lt (n + a - 1) a ltac:(lia)) as Hr.
  revert H Hr. generalize ((n + a - 1) / a), ((n + a - 1) mod a). intros q r. rewrite (N.mul_comm a q).
  generalize (q * a). lia.
Qed.

(** The bytes of an object of a type at an address. *)
Definition occupies (l : Layout) (at_ : N) (byte : N) : Prop := at_ <= byte < at_ + size_of l.
Definition cache_line (byte : N) : N := byte / 64.

Lemma line_of_aligned a byte : (64 | a) -> a <= byte < a + 64 -> cache_line byte = a / 64.
Proof. intros [k ->] H. unfold cache_line. rewrite N.div_mul by lia. symmetry. apply (N.div_unique byte 64 k (byte - k * 64)); lia. Qed.

Lemma line_of_multiple k y : k = cache_line y -> k * 64 <= y < k * 64 + 64.
Proof.
  intros ->. unfold cache_line. pose proof (N.div_mod y 64 ltac:(lia)) as H.
  pose proof (N.mod_lt y 64 ltac:(lia)) as Hr. revert H Hr. generalize (y / 64), (y mod 64). lia.
Qed.

(** The two wrappers are 64 bytes at 64-byte boundaries, the size that the
    assertions of the source ask for, with the atomic at their start; and no
    other object, of whatever type and wherever it lies, has a byte in the
    cache line of a wrapper, as long as the two do not overlap. *)
Theorem no_false_sharing l at_ other other_at x y :
  l ∈ [AlignedAtomicU64; AlignedAtomicI64] -> (align_of l | at_) ->
  (forall byte, occupies l at_ byte -> ~ occupies other other_at byte) ->
  size_of l = 64 /\ align_of l = 64 /\ (place 0 [atomic_u64]).1 = [0] /\ (place 0 [atomic_i64]).1 = [0] /\
  (occupies l at_ x -> occupies other other_at y -> cache_line x <> cache_line y).
Proof.
  intros Hl. assert (l = mkLayout 64 64) as ->.
  { repeat (apply elem_of_cons in Hl as [->|Hl]; [by vm_compute|]). by apply elem_of_nil in Hl. }
  unfold occupies. cbn [size_of align_of]. intros Ha Hd. split_and!; [done..|].
  intros Hx Hy E. rewrite (line_of_aligned at_ x) in E by done. apply (Hd y); [|done].
  destruct Ha as [k ->]. rewrite N.div_mul in E by lia. by apply line_of_multiple.
Qed.

(** Two counters next to each other in [State]. *)
Lemma no_false_sharing_witness :
  cache_line 135 <> cache_line 192 /\ cache_line 135 = cache_line 190.
Proof.
  split; [|done].
  apply (no_false_sharing AlignedAtomicU64 128 AlignedAtomicI64 192 135 192).
  - by left.
  - by exists 2.
  - unfold occupies. change (size_of _) with 64. change (size_of AlignedAtomicI64) with 64. lia.
  - unfold occupies. change (size_of _) with 64. lia.
  - unfold occupies. change (size_of _) with 64. lia.
Defined.
