(* ===== verification/State.v ===== *)
(** * The shared state ([src/state.rs])

    The maps of the cache, the seven usage counters, and the operations every
    other component goes through: [insert_blob], [remove_blob],
    [insert_manifest], [remove_manifest], [insert_redis], [remove_redis],
    [flush_redis]. The accounting invariant [Accounted] says that each counter
    is the number of bytes its bucket holds (as an [i64], so modulo 2^64). *)
From S2P Require Import Prelude Digest Env Config.
From S2P Require Export Counters.

(** ** Data *)

Definition MEMORY_TIER_THRESHOLD : N := 1024.

Record TokenKey : Type := mkTokenKey { tk_registry : bytes; tk_scope : bytes }.

#[export] Instance TokenKey_eq_dec : EqDecision TokenKey.
Proof. solve_decision. Defined.
#[export] Instance TokenKey_countable : Countable TokenKey.
Proof.
  refine (inj_countable' (fun k => (tk_registry k, tk_scope k))
                         (fun p => mkTokenKey p.1 p.2) _).
  by intros [].
Defined.

Record Manifest : Type := mkManifest {
  m_content : bytes;
  m_media_type : bytes;
  m_last_used : N;
  m_evicted : bool
}.

Module Blob.
Inductive t : Type :=
  | OnDisk (id size : N) (media_type : bytes) (last_accessed : N)
  | InMemory (id : N) (content : bytes) (media_type : bytes) (last_accessed : N).

(** [Blob::last_accessed], read. *)
Definition last_accessed (b : t) : N :=
  match b with OnDisk _ _ _ la | InMemory _ _ _ la => la end.

(** [Blob::last_accessed().store(now)]. *)
Definition set_last_accessed (now : N) (b : t) : t :=
  match b with
  | OnDisk id size mt _ => OnDisk id size mt now
  | InMemory id c mt _ => InMemory id c mt now
  end.

Definition id (b : t) : N :=
  match b with OnDisk i _ _ _ | InMemory i _ _ _ => i end.
End Blob.

Module RedisEntry.
Inductive t : Type :=
  | InMemory (value : bytes) (id : N) (last_accessed : N)
  | OnDisk (size : N) (id : N) (last_accessed : N).

Definition last_accessed (e : t) : N :=
  match e with InMemory _ _ la | OnDisk _ _ la => la end.

Definition id (e : t) : N :=
  match e with InMemory _ i _ | OnDisk _ i _ => i end.
End RedisEntry.

Section state.
Context {SHA : Sha256}.

(** [Upload]: the lock around [UploadInner] is held for a whole operation, so
    an upload is the value under the lock. *)
Record Upload : Type := mkUpload { up_buf : bytes; up_hasher : hasher }.

(** [State]. The struct's atomics of usage and metrics are functions from the
    enumerations of their field names. The last three fields are not part of the
    Rust struct but of the process around it: the disk, the paths handed to
    [tokio::spawn(remove_file(..))] tasks that have not run yet, and the upload
    objects that are no longer in the map, of which handlers may hold an [Arc]. *)
Record State : Type := mkState {
  tokens : gmap TokenKey bytes;
  manifests : gmap Digest Manifest;
  blobs : gmap Digest Blob.t;
  tags : gmap (bytes * bytes) Digest;
  uploads : gmap N Upload;
  config : Config;
  now : N;
  usage : Bucket -> Z;
  redis_entries : gmap bytes RedisEntry.t;
  metrics : Metric -> N;
  next_id : N;
  eviction_notify : bool;
  disk : FileSystem;
  spawned : list bytes;
  dropped_uploads : gmap N Upload
}.

(** Field updates. *)
Definition set_tokens v (s : State) : State :=
  mkState v (manifests s) (blobs s) (tags s) (uploads s) (config s) (now s) (usage s)
    (redis_entries s) (metrics s) (next_id s) (eviction_notify s) (disk s) (spawned s) (dropped_uploads s).
Definition set_manifests v (s : State) : State :=
  mkState (tokens s) v (blobs s) (tags s) (uploads s) (config s) (now s) (usage s)
    (redis_entries s) (metrics s) (next_id s) (eviction_notify s) (disk s) (spawned s) (dropped_uploads s).
Definition set_blobs v (s : State) : State :=
  mkState (tokens s) (manifests s) v (tags s) (uploads s) (config s) (now s) (usage s)
    (redis_entries s) (metrics s) (next_id s) (eviction_notify s) (disk s) (spawned s) (dropped_uploads s).
Definition set_tags v (s : State) : State :=
  mkState (tokens s) (manifests s) (blobs s) v (uploads s) (config s) (now s) (usage s)
    (redis_entries s) (metrics s) (next_id s) (eviction_notify s) (disk s) (spawned s) (dropped_uploads s).
Definition set_uploads v (s : State) : State :=
  mkState (tokens s) (manifests s) (blobs s) (tags s) v (config s) (now s) (usage s)
    (redis_entries s) (metrics s) (next_id s) (eviction_notify s) (disk s) (spawned s) (dropped_uploads s).
Definition set_now v (s : State) : State :=
  mkState (tokens s) (manifests s) (blobs s) (tags s) (uploads s) (config s) v (usage s)
    (redis_entries s) (metrics s) (next_id s) (eviction_notify s) (disk s) (spawned s) (dropped_uploads s).
Definition set_usage v (s : State) : State :=
  mkState (tokens s) (manifests s) (blobs s) (tags s) (uploads s) (config s) (now s) v
    (redis_entries s) (metrics s) (next_id s) (eviction_notify s) (disk s) (spawned s) (dropped_uploads s).
Definition set_redis_entries v (s : State) : State :=
  mkState (tokens s) (manifests s) (blobs s) (tags s) (uploads s) (config s) (now s) (usage s)
    v (metrics s) (next_id s) (eviction_notify s) (disk s) (spawned s) (dropped_uploads s).
Definition set_metrics v (s : State) : State :=
  mkState (tokens s) (manifests s) (blobs s) (tags s) (uploads s) (config s) (now s) (usage s)
    (redis_entries s) v (next_id s) (eviction_notify s) (disk s) (spawned s) (dropped_uploads s).
Definition set_next_id v (s : State) : State :=
  mkState (tokens s) (manifests s) (blobs s) (tags s) (uploads s) (config s) (now s) (usage s)
    (redis_entries s) (metrics s) v (eviction_notify s) (disk s) (spawned s) (dropped_uploads s).
Definition set_eviction_notify v (s : State) : State :=
  mkState (tokens s) (manifests s) (blobs s) (tags s) (uploads s) (config s) (now s) (usage s)
    (redis_entries s) (metrics s) (next_id s) v (disk s) (spawned s) (dropped_uploads s).
Definition set_disk v (s : State) : State :=
  mkState (tokens s) (manifests s) (blobs s) (tags s) (uploads s) (config s) (now s) (usage s)
    (redis_entries s) (metrics s) (next_id s) (eviction_notify s) v (spawned s) (dropped_uploads s).
Definition set_spawned v (s : State) : State :=
  mkState (tokens s) (manifests s) (blobs s) (tags s) (uploads s) (config s) (now s) (usage s)
    (redis_entries s) (metrics s) (next_id s) (eviction_notify s) (disk s) v (dropped_uploads s).
Definition set_dropped_uploads v (s : State) : State :=
  mkState (tokens s) (manifests s) (blobs s) (tags s) (uploads s) (config s) (now s) (usage s)
    (redis_entries s) (metrics s) (next_id s) (eviction_notify s) (disk s) (spawned s) v.

(** Atomics: [fetch_add], [fetch_sub] and [store] of one usage counter, the
    [fetch_add] of a metric. *)
Definition usage_add (b : Bucket) (n : Z) (s : State) : State :=
  set_usage (<[b := wrap_i64 (usage s b + n)]> (usage s)) s.
Definition usage_sub (b : Bucket) (n : Z) (s : State) : State :=
  set_usage (<[b := wrap_i64 (usage s b - n)]> (usage s)) s.
Definition usage_store (b : Bucket) (n : Z) (s : State) : State :=
  set_usage (<[b := n]> (usage s)) s.
Definition metric_add (m : Metric) (n : N) (s : State) : State :=
  set_metrics (<[m := u64_add (metrics s m) n]> (metrics s)) s.
Definition metric_store (m : Metric) (n : N) (s : State) : State :=
  set_metrics (<[m := n]> (metrics s)) s.

(** [next_id.fetch_add(1)]: the old value, and the state after. *)
Definition take_id (s : State) : N * State :=
  (next_id s, set_next_id (u64_add (next_id s) 1) s).

(** [eviction_notify.notify_one()]: at most one permit is stored. *)
Definition notify_one (s : State) : State := set_eviction_notify true s.

(** [tokio::spawn(tokio::fs::remove_file(path))]. *)
Definition spawn_remove (path : bytes) (s : State) : State :=
  set_spawned (path :: spawned s) s.

(** ** Buckets *)

(** [blob_bucket]: the counter a blob is charged to, and its byte size. *)
Definition blob_bucket (b : Blob.t) : Bucket * N :=
  match b with
  | Blob.InMemory _ content _ _ =>
      if (MEMORY_TIER_THRESHOLD <? blen content)%N
      then (large_blob_memory_usage, blen content)
      else (small_blob_memory_usage, blen content)
  | Blob.OnDisk _ size _ _ => (blob_disk_usage, size)
  end.

(** [redis_value_bucket]: the counter an entry's value is charged to, and its
    byte size. *)
Definition redis_value_bucket (e : RedisEntry.t) : Bucket * N :=
  match e with
  | RedisEntry.InMemory value _ _ =>
      if (MEMORY_TIER_THRESHOLD <? blen value)%N
      then (large_redis_memory_usage, blen value)
      else (small_redis_memory_usage, blen value)
  | RedisEntry.OnDisk size _ _ => (redis_disk_usage, size)
  end.

(** ** Operations *)

Definition insert_blob (digest : Digest) (blob : Blob.t) (s : State) : State :=
  let '(new_bucket, new_bytes) := blob_bucket blob in
  let s1 := usage_add new_bucket (wrap_i64 (Z.of_N new_bytes)) s in
  let s2 := set_blobs (<[digest := blob]> (blobs s1)) s1 in
  let s3 :=
    match blobs s1 !! digest with
    | Some old =>
        let '(old_bucket, old_bytes) := blob_bucket old in
        usage_sub old_bucket (wrap_i64 (Z.of_N old_bytes)) s2
    | None => s2
    end in
  notify_one s3.

Definition remove_blob (digest : Digest) (s : State) : option Blob.t * State :=
  match blobs s !! digest with
  | None => (None, s)
  | Some b =>
      let s1 := set_blobs (delete digest (blobs s)) s in
      let '(bucket, n) := blob_bucket b in
      (Some b, usage_sub bucket (wrap_i64 (Z.of_N n)) s1)
  end.

Definition insert_manifest (digest : Digest) (m : Manifest) (s : State) : State :=
  let new_len := wrap_i64 (Z.of_N (blen (m_content m))) in
  let old_len := from_option (fun o => wrap_i64 (Z.of_N (blen (m_content o)))) 0%Z
                   (manifests s !! digest) in
  let s1 := set_manifests (<[digest := m]> (manifests s)) s in
  notify_one (usage_add manifest_memory_usage (wrap_i64 (new_len - old_len)) s1).

Definition remove_manifest (digest : Digest) (s : State) : option Manifest * State :=
  match manifests s !! digest with
  | None => (None, s)
  | Some m =>
      let s1 := set_manifests (delete digest (manifests s)) s in
      (Some m, usage_sub manifest_memory_usage (wrap_i64 (Z.of_N (blen (m_content m)))) s1)
  end.

(** [PathBuf::join] of a relative component. *)
Definition path_join (base component : bytes) : bytes :=
  match last base with
  | None => component
  | Some c => if decide (c = "/"%char) then base ++ component else base ++ "/"%char :: component
  end.

(** [format!("{:016x}", id)]. *)
Fixpoint hex_pad (digits : nat) (n : N) : bytes :=
  match digits with
  | O => []
  | S k => hex_pad k (N.shiftr n 4) ++ [hex_digit (N.land n 15)]
  end.

Definition blobs_dir (s : State) : bytes := path_join (data_folder (config s)) $"blobs".

Definition cache_path (s : State) (id : N) : bytes :=
  let hex := hex_pad 16 id in
  let shard := drop 14 hex in
  path_join (path_join (path_join (data_folder (config s)) $"blobs") shard) hex.

Definition insert_redis (key value : bytes) (s : State) : RedisEntry.t * State :=
  let t := now s in
  let key_len := wrap_i64 (Z.of_N (blen key)) in
  let '(id, s1) := take_id s in
  let entry := RedisEntry.InMemory value id t in
  let '(new_bucket, new_bytes) := redis_value_bucket entry in
  let s2 := usage_add new_bucket (wrap_i64 (Z.of_N new_bytes)) s1 in
  let s3 := set_redis_entries (<[key := entry]> (redis_entries s2)) s2 in
  let s4 :=
    match redis_entries s2 !! key with
    | Some old =>
        let '(old_bucket, old_bytes) := redis_value_bucket old in
        let s' := usage_sub old_bucket (wrap_i64 (Z.of_N old_bytes)) s3 in
        match old with
        | RedisEntry.OnDisk _ old_id _ => spawn_remove (cache_path s' old_id) s'
        | RedisEntry.InMemory _ _ _ => s'
        end
    | None => usage_add small_redis_memory_usage key_len s3
    end in
  (entry, notify_one s4).

Definition remove_redis (key : bytes) (s : State) : bool * State :=
  match redis_entries s !! key with
  | Some v =>
      let s1 := set_redis_entries (delete key (redis_entries s)) s in
      let '(bucket, n) := redis_value_bucket v in
      let s2 := usage_sub bucket (wrap_i64 (Z.of_N n)) s1 in
      let s3 := usage_sub small_redis_memory_usage (wrap_i64 (Z.of_N (blen key))) s2 in
      (true,
       match v with
       | RedisEntry.OnDisk _ id _ => spawn_remove (cache_path s3 id) s3
       | RedisEntry.InMemory _ _ _ => s3
       end)
  | None => (false, s)
  end.

(** The [delete] list of [flush_redis]: the ids of the on-disk entries. *)
Definition on_disk_id (e : RedisEntry.t) : option N :=
  match e with RedisEntry.OnDisk _ id _ => Some id | RedisEntry.InMemory _ _ _ => None end.

(** The retain: every entry goes, and the files of those on disk are to be
    unlinked. The code spawns the unlinks after the stores; here they are
    pending from the retain on, and run at any later time in either case. *)
Definition flush_entries `{!MapIter} (s : State) : State :=
  let ids := omap (fun kv => on_disk_id kv.2) (map_iter (redis_entries s)) in
  set_spawned (map (cache_path s) ids ++ spawned s) (set_redis_entries ∅ s).

(** The counters it then resets, in this order. *)
Definition redis_buckets : list Bucket :=
  [small_redis_memory_usage; large_redis_memory_usage; redis_disk_usage].

Definition flush_redis `{!MapIter} (s : State) : State :=
  foldl (fun s b => usage_store b 0 s) (flush_entries s) redis_buckets.

(** ** Derived readings; sums of [i64]s wrap *)
Definition large_memory_usage (s : State) : Z :=
  wrap_i64 (usage s large_blob_memory_usage + usage s large_redis_memory_usage).
Definition small_memory_usage (s : State) : Z :=
  wrap_i64 (wrap_i64 (usage s manifest_memory_usage + usage s small_blob_memory_usage)
            + usage s small_redis_memory_usage).
Definition total_memory_usage (s : State) : Z :=
  wrap_i64 (large_memory_usage s + small_memory_usage s).
Definition total_disk_usage (s : State) : Z :=
  wrap_i64 (usage s blob_disk_usage + usage s redis_disk_usage).

(** One round of [time_updater]. *)
Definition time_update (unix_seconds : N) (s : State) : State := set_now unix_seconds s.

(** One spawned [remove_file] task runs; its outcome is ignored. *)
Definition run_unlink (io : Io) (path : bytes) (rest : list bytes) (s : State) : State :=
  set_spawned rest (set_disk (fs_remove io path (disk s)).1 s).

(** [State::new]. *)
Definition State_new (cfg : Config) (unix_seconds : N) (d : FileSystem) : State :=
  let s := mkState ∅ ∅ ∅ ∅ ∅ cfg unix_seconds (fun _ => 0%Z) ∅ (fun _ => 0%N) 0 false d [] ∅ in
  metric_store oldest_disk_touch_time unix_seconds
    (metric_store oldest_small_memory_touch_time unix_seconds
      (metric_store oldest_large_memory_touch_time unix_seconds s)).
End state.

(** Reduces record projections, updates and metric changes, and nothing else. *)
Ltac state_simpl :=
  cbn [tokens manifests blobs tags uploads config now usage redis_entries metrics next_id
       eviction_notify disk spawned dropped_uploads set_tokens set_manifests set_blobs set_tags set_uploads
       set_now set_usage set_redis_entries set_metrics set_next_id set_eviction_notify
       set_disk set_spawned set_dropped_uploads metric_add metric_store usage_add usage_sub usage_store
       notify_one spawn_remove time_update fst snd] in *.
