(* ===== verification/Accounting.v ===== *)
(** * Byte accounting

    The seven counters of [State] against the bytes the maps really hold.
    [charge b s] is the number of bytes bucket [b] is responsible for;
    [Accounted s] says that every counter is its charge, as an [i64]. Every
    operation of [State] preserves it, whatever the overflow, and while the
    charges stay below 2^63 the counters are exact. *)
From S2P Require Import Prelude Digest Env Config State.

Local Open Scope Z_scope.

(** What a (bucket, bytes) pair contributes to bucket [b]. *)
Definition share (b : Bucket) (p : Bucket * N) : Z :=
  if decide (p.1 = b) then Z.of_N p.2 else 0.

Definition manifest_share (b : Bucket) (m : Manifest) : Z :=
  share b (manifest_memory_usage, blen (m_content m)).
Definition blob_share (b : Bucket) (bl : Blob.t) : Z := share b (blob_bucket bl).
(** The key is always charged to the small pool, the value to its own bucket. *)
Definition redis_share (b : Bucket) (k : bytes) (e : RedisEntry.t) : Z :=
  share b (redis_value_bucket e) + share b (small_redis_memory_usage, blen k).

Create HintDb accounting.

Section accounting.
Context {SHA : Sha256}.
Implicit Types (s : State) (b : Bucket).

Definition charge b s : Z :=
  msum (fun _ m => manifest_share b m) (manifests s) +
  msum (fun _ bl => blob_share b bl) (blobs s) +
  msum (redis_share b) (redis_entries s).

(** The counters follow [f]. *)
Definition tracks s (f : Bucket -> Z) : Prop := forall b, usage s b = wrap_i64 (f b).

Definition Accounted s : Prop := tracks s (fun b => charge b s).

(** All bytes the cache holds, in memory and on disk. *)
Definition total_charge s : Z :=
  charge manifest_memory_usage s + charge small_blob_memory_usage s +
  charge large_blob_memory_usage s + charge small_redis_memory_usage s +
  charge large_redis_memory_usage s + charge blob_disk_usage s + charge redis_disk_usage s.

(** ** Lemmas *)
Lemma share_nonneg b p : 0 <= share b p.
Proof. unfold share. case_decide; lia. Qed.

Lemma charge_nonneg b s : 0 <= charge b s.
Proof.
  unfold charge.
  enough (0 <= msum (fun _ m => manifest_share b m) (manifests s) /\
          0 <= msum (fun _ bl => blob_share b bl) (blobs s) /\
          0 <= msum (redis_share b) (redis_entries s)) by lia.
  split_and!; apply msum_nonneg; intros; unfold manifest_share, blob_share, redis_share;
    repeat match goal with |- context [share ?b ?p] =>
      pose proof (share_nonneg b p); generalize dependent (share b p) end; lia.
Qed.

Lemma charge_le_total b s : charge b s <= total_charge s.
Proof.
  unfold total_charge. pose proof (charge_nonneg manifest_memory_usage s).
  pose proof (charge_nonneg small_blob_memory_usage s).
  pose proof (charge_nonneg large_blob_memory_usage s).
  pose proof (charge_nonneg small_redis_memory_usage s).
  pose proof (charge_nonneg large_redis_memory_usage s).
  pose proof (charge_nonneg blob_disk_usage s).
  pose proof (charge_nonneg redis_disk_usage s).
  destruct b; lia.
Qed.

Lemma tracks_ext s f g : (forall b, f b = g b) -> tracks s f -> tracks s g.
Proof. intros Hfg Hs b. by rewrite (Hs b), Hfg. Qed.

Lemma tracks_add s f b n :
  tracks s f -> tracks (usage_add b (wrap_i64 (Z.of_N n)) s) (fun b' => f b' + share b' (b, n)).
Proof.
  intros Hs b'. unfold share; simpl. destruct (decide (b = b')) as [->|Hne].
  - rewrite fn_lookup_insert, (Hs b'). apply wrap_i64_add.
  - rewrite fn_lookup_insert_ne, Z.add_0_r by done. apply Hs.
Qed.

Lemma tracks_sub s f b n :
  tracks s f -> tracks (usage_sub b (wrap_i64 (Z.of_N n)) s) (fun b' => f b' - share b' (b, n)).
Proof.
  intros Hs b'. unfold share; simpl. destruct (decide (b = b')) as [->|Hne].
  - rewrite fn_lookup_insert, (Hs b'). apply wrap_i64_sub.
  - rewrite fn_lookup_insert_ne, Z.sub_0_r by done. apply Hs.
Qed.

Lemma tracks_store s f b n :
  tracks s f ->
  tracks (usage_store b (wrap_i64 n) s) (fun b' => if decide (b = b') then n else f b').
Proof.
  intros Hs b'. simpl. destruct (decide (b = b')) as [->|Hne].
  - by rewrite fn_lookup_insert.
  - rewrite fn_lookup_insert_ne by done. apply Hs.
Qed.

(** The charge after one map update. *)
Lemma charge_set_blobs_insert b s d bl :
  charge b (set_blobs (<[d := bl]> (blobs s)) s) =
  charge b s + blob_share b bl - from_option (blob_share b) 0 (blobs s !! d).
Proof. unfold charge; simpl. rewrite msum_insert. destruct (blobs s !! d); simpl; lia. Qed.

Lemma charge_set_blobs_delete b s d :
  charge b (set_blobs (delete d (blobs s)) s) =
  charge b s - from_option (blob_share b) 0 (blobs s !! d).
Proof. unfold charge; simpl. rewrite msum_delete. destruct (blobs s !! d); simpl; lia. Qed.

Lemma charge_set_manifests_insert b s d m :
  charge b (set_manifests (<[d := m]> (manifests s)) s) =
  charge b s + manifest_share b m - from_option (manifest_share b) 0 (manifests s !! d).
Proof. unfold charge; simpl. rewrite msum_insert. destruct (manifests s !! d); simpl; lia. Qed.

Lemma charge_set_manifests_delete b s d :
  charge b (set_manifests (delete d (manifests s)) s) =
  charge b s - from_option (manifest_share b) 0 (manifests s !! d).
Proof. unfold charge; simpl. rewrite msum_delete. destruct (manifests s !! d); simpl; lia. Qed.

Lemma charge_set_redis_insert b s k e :
  charge b (set_redis_entries (<[k := e]> (redis_entries s)) s) =
  charge b s + redis_share b k e - from_option (redis_share b k) 0 (redis_entries s !! k).
Proof. unfold charge; simpl. rewrite msum_insert. lia. Qed.

Lemma charge_set_redis_delete b s k :
  charge b (set_redis_entries (delete k (redis_entries s)) s) =
  charge b s - from_option (redis_share b k) 0 (redis_entries s !! k).
Proof. unfold charge; simpl. rewrite msum_delete. lia. Qed.

(** ** Preservation

    Every operation changes the counters by what it changes the charges, so
    that counters which are off by [f] stay off by [f]; only the stores of
    [flush_redis] set them right. *)
Definition Offset (f : Bucket -> Z) s : Prop := tracks s (fun b => f b + charge b s).

Lemma Accounted_Offset s : Accounted s <-> Offset (fun _ => 0) s.
Proof. split; apply tracks_ext; intros b; lia. Qed.

Lemma insert_blob_Offset f d bl s : Offset f s -> Offset f (insert_blob d bl s).
Proof.
  intros Hs. unfold Offset, insert_blob.
  destruct (blob_bucket bl) as [nb nn] eqn:Eb.
  pose proof (tracks_add _ _ nb nn Hs) as H1. simpl.
  destruct (blobs s !! d) as [old|] eqn:Eold.
  - destruct (blob_bucket old) as [ob on] eqn:Eo.
    apply (tracks_sub (set_blobs (<[d:=bl]> (blobs s)) (usage_add nb _ s)) _ ob on) in H1.
    eapply tracks_ext; [|exact H1]. intros b. simpl.
    change (charge b _) with (charge b (set_blobs (<[d := bl]> (blobs s)) s)) at 2.
    rewrite charge_set_blobs_insert, Eold. simpl. unfold blob_share. rewrite Eb, Eo. lia.
  - eapply tracks_ext; [|exact H1]. intros b. simpl.
    change (charge b _) with (charge b (set_blobs (<[d := bl]> (blobs s)) s)) at 2.
    rewrite charge_set_blobs_insert, Eold. simpl. unfold blob_share. rewrite Eb. lia.
Qed.

Lemma remove_blob_Offset f d s : Offset f s -> Offset f (remove_blob d s).2.
Proof.
  intros Hs. unfold remove_blob. destruct (blobs s !! d) as [old|] eqn:Eold; [|done].
  destruct (blob_bucket old) as [ob on] eqn:Eo. simpl.
  pose proof (tracks_sub _ _ ob on Hs) as H1.
  eapply tracks_ext; [|exact H1]. intros b. simpl.
  change (charge b (usage_sub _ _ _)) with (charge b (set_blobs (delete d (blobs s)) s)).
  rewrite charge_set_blobs_delete, Eold. simpl. unfold blob_share. rewrite Eo. lia.
Qed.

Lemma insert_manifest_Offset f d m s : Offset f s -> Offset f (insert_manifest d m s).
Proof.
  intros Hs b. unfold insert_manifest. simpl.
  change (charge b _) with (charge b (set_manifests (<[d := m]> (manifests s)) s)).
  rewrite charge_set_manifests_insert. unfold manifest_share, share. simpl.
  destruct (decide (manifest_memory_usage = b)) as [<-|Hne].
  - rewrite fn_lookup_insert, Hs. rewrite wrap_i64_add_l.
    destruct (manifests s !! d) as [o|]; simpl.
    + rewrite wrap_i64_sub, Z.add_comm, wrap_i64_add_l. f_equal. lia.
    + rewrite Z.sub_0_r, (Z.add_comm _ (wrap_i64 _)), !wrap_i64_add_l. f_equal. lia.
  - rewrite fn_lookup_insert_ne, Hs by done. f_equal.
    destruct (manifests s !! d); simpl; lia.
Qed.

Lemma remove_manifest_Offset f d s : Offset f s -> Offset f (remove_manifest d s).2.
Proof.
  intros Hs. unfold remove_manifest. destruct (manifests s !! d) as [m|] eqn:Em; [|done]. simpl.
  pose proof (tracks_sub _ _ manifest_memory_usage (blen (m_content m)) Hs) as H1.
  eapply tracks_ext; [|exact H1]. intros b. simpl.
  change (charge b (usage_sub _ _ _)) with (charge b (set_manifests (delete d (manifests s)) s)).
  rewrite charge_set_manifests_delete, Em. simpl. unfold manifest_share. lia.
Qed.

Lemma insert_redis_Offset f k v s : Offset f s -> Offset f (insert_redis k v s).2.
Proof.
  intros Hs. unfold insert_redis. simpl.
  set (entry := RedisEntry.InMemory v (next_id s) (now s)).
  change (if (MEMORY_TIER_THRESHOLD <? blen v)%N then _ else _) with (redis_value_bucket entry).
  destruct (redis_value_bucket entry) as [nb nn] eqn:En. simpl.
  pose proof (tracks_add _ _ nb nn Hs) as H1.
  assert (forall b, charge b (set_redis_entries (<[k:=entry]> (redis_entries s)) s)
    = charge b s + share b (nb, nn) + share b (small_redis_memory_usage, blen k)
      - from_option (redis_share b k) 0 (redis_entries s !! k)) as Hc.
  { intros b. rewrite charge_set_redis_insert. unfold redis_share at 1. rewrite En. lia. }
  destruct (redis_entries s !! k) as [old|] eqn:Eold.
  - destruct (redis_value_bucket old) as [ob on] eqn:Eo.
    pose proof (tracks_sub _ _ ob on H1) as H2.
    assert (tracks (usage_sub ob (wrap_i64 (Z.of_N on)) (usage_add nb (wrap_i64 (Z.of_N nn)) s))
      (fun b => f b + charge b (set_redis_entries (<[k:=entry]> (redis_entries s)) s))) as H3.
    { eapply tracks_ext; [|exact H2]. intros b. rewrite Hc. simpl. unfold redis_share.
      rewrite Eo. lia. }
    destruct old; exact H3.
  - pose proof (tracks_add _ _ small_redis_memory_usage (blen k) H1) as H2.
    eapply tracks_ext; [|exact H2]. intros b. simpl.
    change (charge b (notify_one _)) with (charge b (set_redis_entries (<[k:=entry]> (redis_entries s)) s)).
    rewrite Hc. simpl. lia.
Qed.

Lemma remove_redis_Offset f k s : Offset f s -> Offset f (remove_redis k s).2.
Proof.
  intros Hs. unfold remove_redis. destruct (redis_entries s !! k) as [v|] eqn:Ev; [|done].
  destruct (redis_value_bucket v) as [vb vn] eqn:Eb. simpl.
  pose proof (tracks_sub _ _ small_redis_memory_usage (blen k) (tracks_sub _ _ vb vn Hs)) as H2.
  assert (tracks (usage_sub small_redis_memory_usage (wrap_i64 (Z.of_N (blen k)))
                    (usage_sub vb (wrap_i64 (Z.of_N vn)) s))
    (fun b => f b + charge b (set_redis_entries (delete k (redis_entries s)) s))) as H3.
  { eapply tracks_ext; [|exact H2]. intros b. rewrite charge_set_redis_delete, Ev. simpl.
    unfold redis_share. rewrite Eb. lia. }
  destruct v; exact H3.
Qed.

(** Without redis entries nothing is charged to their buckets. *)
Lemma charge_no_redis s b : redis_entries s = ∅ -> b ∈ redis_buckets -> charge b s = 0.
Proof.
  intros Hr Hb. unfold charge. rewrite Hr, msum_empty, !msum_zero; [done|..].
  - intros _ bl _. unfold blob_share, share, blob_bucket.
    destruct bl; simpl; repeat case_match; simplify_eq/=; set_solver.
  - intros _ m _. unfold manifest_share, share. case_decide; simplify_eq/=; set_solver.
Qed.

(** What an entry is charged to is one of them. *)
Lemma redis_share_other b k e : b ∉ redis_buckets -> redis_share b k e = 0.
Proof.
  intros Hb. unfold redis_share, share, redis_value_bucket.
  destruct e; simpl; repeat case_match; simplify_eq/=; first [set_solver|lia].
Qed.

(** The entries are dropped: the counters of redis are off by what they held;
    then they are set right one after the other. *)
Definition owed (bs : list Bucket) (f : Bucket -> Z) : Prop := forall b, b ∉ bs -> f b = 0.

Lemma flush_entries_Offset `{!MapIter} f s :
  owed [] f -> Offset f s -> exists f', owed redis_buckets f' /\ Offset f' (flush_entries s).
Proof.
  intros Hf Hs. exists (fun b => f b + msum (redis_share b) (redis_entries s)). split.
  - intros b Hb. rewrite (Hf b) by (by intros ?%elem_of_nil). rewrite msum_zero; [done|]. intros k e _.
    by apply redis_share_other.
  - eapply tracks_ext; [|exact Hs]. intros b. unfold charge. simpl. rewrite msum_empty. lia.
Qed.

Lemma usage_store_Offset f b bs s :
  redis_entries s = ∅ -> b ∈ redis_buckets -> owed (b :: bs) f -> Offset f s ->
  exists f', owed bs f' /\ Offset f' (usage_store b 0 s).
Proof.
  intros Hr Hb Hf Hs. exists (fun b' => if decide (b = b') then 0 else f b'). split.
  - intros b' Hb'. case_decide as E; [done|]. apply Hf. set_solver.
  - pose proof (tracks_store _ _ b 0 Hs) as H1. rewrite wrap_i64_small in H1 by (unfold I63; lia).
    eapply tracks_ext; [|exact H1]. intros b'. simpl. change (charge b' (usage_store b 0 s)) with (charge b' s).
    case_decide as E; [subst b'|done]. by rewrite charge_no_redis.
Qed.

Lemma owed_nil f : owed [] f -> forall b, f b = 0.
Proof. intros Hf b. apply Hf, not_elem_of_nil. Qed.

Lemma Offset_nil f s : owed [] f -> Offset f s <-> Accounted s.
Proof. intros Hf. split; apply tracks_ext; intros b; rewrite (owed_nil f Hf); lia. Qed.

Lemma stores_Accounted bs f s :
  redis_entries s = ∅ -> (forall b, b ∈ bs -> b ∈ redis_buckets) -> owed bs f -> Offset f s ->
  Accounted (foldl (fun s b => usage_store b 0 s) s bs).
Proof.
  revert f s. induction bs as [|b bs IH]; intros f s Hr Hb Hf Hs; cbn [foldl].
  - by apply (Offset_nil f).
  - destruct (usage_store_Offset f b bs s) as (f' & Hf' & Hs'); [done|apply Hb; by left|done..|].
    apply (IH f'); [done| |done..]. intros b' Hb'. apply Hb. by right.
Qed.

Lemma flush_redis_Accounted `{!MapIter} s : Accounted s -> Accounted (flush_redis s).
Proof.
  intros Hs%Accounted_Offset. destruct (flush_entries_Offset _ s (fun _ _ => eq_refl) Hs) as (f & Hf & Hfl).
  by apply (stores_Accounted _ f).
Qed.

(** The same with nothing off. *)
Lemma insert_blob_Accounted d bl s : Accounted s -> Accounted (insert_blob d bl s).
Proof. rewrite !Accounted_Offset. apply insert_blob_Offset. Qed.
Lemma remove_blob_Accounted d s : Accounted s -> Accounted (remove_blob d s).2.
Proof. rewrite !Accounted_Offset. apply remove_blob_Offset. Qed.
Lemma insert_manifest_Accounted d m s : Accounted s -> Accounted (insert_manifest d m s).
Proof. rewrite !Accounted_Offset. apply insert_manifest_Offset. Qed.
Lemma remove_manifest_Accounted d s : Accounted s -> Accounted (remove_manifest d s).2.
Proof. rewrite !Accounted_Offset. apply remove_manifest_Offset. Qed.
Lemma insert_redis_Accounted k v s : Accounted s -> Accounted (insert_redis k v s).2.
Proof. rewrite !Accounted_Offset. apply insert_redis_Offset. Qed.
Lemma remove_redis_Accounted k s : Accounted s -> Accounted (remove_redis k s).2.
Proof. rewrite !Accounted_Offset. apply remove_redis_Offset. Qed.

(** While the charges fit, the counters are exact. *)
Lemma Accounted_exact s b : Accounted s -> charge b s < I63 -> usage s b = charge b s.
Proof.
  intros Hs Hb. rewrite (Hs b). apply wrap_i64_small.
  pose proof (charge_nonneg b s). unfold I63 in *. lia.
Qed.

(** Fields no charge depends on. *)
Lemma set_tags_Accounted v s : Accounted s -> Accounted (set_tags v s).
Proof. done. Qed.

Lemma time_update_Accounted t s : Accounted s -> Accounted (time_update t s).
Proof. done. Qed.

Lemma set_disk_Accounted v s : Accounted s -> Accounted (set_disk v s).
Proof. done. Qed.

Lemma set_next_id_Accounted v s : Accounted s -> Accounted (set_next_id v s).
Proof. done. Qed.

Lemma take_id_Accounted s : Accounted s -> Accounted (take_id s).2.
Proof. done. Qed.

Lemma State_new_Accounted cfg t d : Accounted (State_new cfg t d).
Proof.
  intros b. unfold State_new, charge. simpl. rewrite !msum_empty.
  by rewrite wrap_i64_small by (unfold I63; lia).
Qed.
End accounting.

#[export] Hint Resolve insert_blob_Accounted remove_blob_Accounted insert_manifest_Accounted
  remove_manifest_Accounted insert_redis_Accounted remove_redis_Accounted flush_redis_Accounted
  set_tags_Accounted time_update_Accounted set_disk_Accounted set_next_id_Accounted
  State_new_Accounted : accounting.
