(* ===== verification/Disk.v ===== *)
(** * Identifiers and files

    Every blob and every redis entry carries an id; the file of an on-disk one
    is named after it. [ids_ok] says that ids are owned once, that they were
    handed out by [next_id], and that the unlinks waiting to run only target
    ids nobody owns. [stored s o] is the content an owner has, in memory or in
    its file. Every operation of [State] keeps [ids_ok], and none changes the
    content of an owner it does not write. *)
From S2P Require Import Prelude Digest Env Config State.

(** ** [cache_path] is injective *)
Lemma hex_digit_inj a b : (a < 16)%N -> (b < 16)%N -> hex_digit a = hex_digit b -> a = b.
Proof.
  intros Ha Hb.
  assert (Hall : forallb (fun x => forallb (fun y =>
    bool_decide (hex_digit (N.of_nat x) = hex_digit (N.of_nat y) -> x = y)) (seq 0 16)) (seq 0 16) = true)
    by (vm_compute; reflexivity).
  rewrite forallb_forall in Hall. specialize (Hall (N.to_nat a)).
  rewrite forallb_forall in Hall. intros He.
  assert (H : N.to_nat a = N.to_nat b); [|lia].
  pose proof (Hall ltac:(apply in_seq; lia) (N.to_nat b) ltac:(apply in_seq; lia)) as H.
  apply bool_decide_eq_true_1 in H. apply H. by rewrite !N2Nat.id.
Qed.

Lemma length_hex_pad k n : length (hex_pad k n) = k.
Proof. revert n; induction k as [|k IH]; intros n; simpl; [done|]. rewrite length_app, IH. simpl. lia. Qed.

Lemma hex_pad_inj k n m :
  (n < 16 ^ N.of_nat k)%N -> (m < 16 ^ N.of_nat k)%N -> hex_pad k n = hex_pad k m -> n = m.
Proof.
  revert n m. induction k as [|k IH]; intros n m Hn Hm; simpl.
  { simpl in *. lia. }
  rewrite Nat2N.inj_succ, N.pow_succ_r' in Hn, Hm.
  change 15%N with (N.ones 4). rewrite !N.land_ones, !N.shiftr_div_pow2. change (2 ^ 4)%N with 16%N.
  intros [He Hd]%app_inj_2; [|done].
  apply IH in He; [|apply N.Div0.div_lt_upper_bound; lia..].
  injection Hd as Hd. apply hex_digit_inj in Hd; [|apply N.mod_lt; lia..].
  rewrite (N.div_mod n 16), (N.div_mod m 16) by lia. congruence.
Qed.

Lemma path_join_suffix base c : exists p, path_join base c = p ++ c.
Proof.
  unfold path_join. destruct (last base) as [x|]; [|by exists []].
  case_decide; [by exists base|]. exists (base ++ ["/"%char]). by rewrite <- app_assoc.
Qed.

(** The holder of an id: a blob or a redis entry. *)
Inductive owner : Type :=
  | OBlob (d : Digest)
  | ORedis (k : bytes).

#[export] Instance owner_eq_dec : EqDecision owner.
Proof. solve_decision. Defined.

Section disk.
Context {SHA : Sha256}.
Implicit Types s : State.

Lemma cache_path_inj s i j :
  (i < U64)%N -> (j < U64)%N -> cache_path s i = cache_path s j -> i = j.
Proof.
  unfold cache_path. intros Hi Hj He.
  destruct (path_join_suffix (path_join (path_join (data_folder (config s)) $"blobs")
    (drop 14 (hex_pad 16 i))) (hex_pad 16 i)) as [p Hp].
  destruct (path_join_suffix (path_join (path_join (data_folder (config s)) $"blobs")
    (drop 14 (hex_pad 16 j))) (hex_pad 16 j)) as [q Hq].
  rewrite Hp, Hq in He. apply app_inj_2 in He as [_ He]; [|by rewrite !length_hex_pad].
  apply hex_pad_inj in He; [done|exact Hi|exact Hj].
Qed.

Lemma cache_path_config s s' i : config s = config s' -> cache_path s i = cache_path s' i.
Proof. unfold cache_path. by intros ->. Qed.

(** ** Owners *)
Definition owner_id s (o : owner) : option N :=
  match o with
  | OBlob d => Blob.id <$> blobs s !! d
  | ORedis k => RedisEntry.id <$> redis_entries s !! k
  end.

Record ids_ok s : Prop := {
  id_lt : forall o i, owner_id s o = Some i -> (i < next_id s)%N;
  id_inj : forall o o' i, owner_id s o = Some i -> owner_id s o' = Some i -> o = o';
  id_max : (next_id s < U64)%N;
  id_dead : forall p, p ∈ spawned s ->
    exists i, p = cache_path s i /\ (i < next_id s)%N /\ forall o, owner_id s o <> Some i
}.

(** The content of an owner: in memory, or its file. *)
Definition stored s (o : owner) : option bytes :=
  match o with
  | OBlob d =>
      match blobs s !! d with
      | Some (Blob.InMemory _ c _ _) => Some c
      | Some (Blob.OnDisk id _ _ _) => disk s !! cache_path s id
      | None => None
      end
  | ORedis k =>
      match redis_entries s !! k with
      | Some (RedisEntry.InMemory c _ _) => Some c
      | Some (RedisEntry.OnDisk _ id _) => disk s !! cache_path s id
      | None => None
      end
  end.

(** The recorded size of an on-disk owner is the length of its file. *)
Definition on_disk_size s (o : owner) : option (N * N) :=
  match o with
  | OBlob d => match blobs s !! d with Some (Blob.OnDisk id n _ _) => Some (id, n) | _ => None end
  | ORedis k => match redis_entries s !! k with Some (RedisEntry.OnDisk n id _) => Some (id, n) | _ => None end
  end.

Definition files_ok s : Prop :=
  forall o id n, on_disk_size s o = Some (id, n) ->
    exists c, disk s !! cache_path s id = Some c /\ blen c = n.

(** The same for blobs only. *)
Definition blob_files_ok s : Prop :=
  forall d id n mt la, blobs s !! d = Some (Blob.OnDisk id n mt la) ->
    exists c, disk s !! cache_path s id = Some c /\ blen c = n.

Lemma blob_files_ok_ext s s' :
  blobs s' = blobs s -> (forall o, stored s' o = stored s o) -> blob_files_ok s -> blob_files_ok s'.
Proof.
  intros Hb Hst Hf d id n mt la Hd. pose proof (Hst (OBlob d)) as Hs. cbn [stored] in Hs.
  rewrite Hd in Hs. rewrite Hb in Hd. rewrite Hd in Hs. rewrite Hs. by eapply Hf.
Qed.

Lemma on_disk_owner s o id n : on_disk_size s o = Some (id, n) -> owner_id s o = Some id.
Proof.
  destruct o; simpl; [destruct (blobs s !! _) as [[]|]|destruct (redis_entries s !! _) as [[]|]];
    naive_solver.
Qed.

Lemma stored_spec s o :
  stored s o = match on_disk_size s o with
               | Some (id, _) => disk s !! cache_path s id
               | None => match o with
                         | OBlob d => match blobs s !! d with Some (Blob.InMemory _ c _ _) => Some c | _ => None end
                         | ORedis k => match redis_entries s !! k with Some (RedisEntry.InMemory c _ _) => Some c | _ => None end
                         end
               end.
Proof.
  destruct o; simpl; [destruct (blobs s !! _) as [[]|]|destruct (redis_entries s !! _) as [[]|]]; done.
Qed.

(** Two owners never share a file. *)
Lemma owner_path_ne s o o' i i' :
  ids_ok s -> owner_id s o = Some i -> owner_id s o' = Some i' -> o <> o' ->
  cache_path s i <> cache_path s i'.
Proof.
  intros Hs Ho Ho' Hne He. pose proof (id_max _ Hs). pose proof (id_lt _ Hs _ _ Ho).
  pose proof (id_lt _ Hs _ _ Ho'). apply cache_path_inj in He; [|lia..]. subst i'.
  by destruct (Hne (id_inj _ Hs _ _ _ Ho Ho')).
Qed.

(** ** Preservation

    One lemma for every operation: existing owners keep their ids or go away,
    at most one owner [n] gets the next id, and new unlinks target ids that
    lost their owner. *)
Lemma ids_ok_step s s' (n : owner) :
  ids_ok s -> config s' = config s -> (next_id s <= next_id s')%N -> (next_id s' < U64)%N ->
  (forall o i, owner_id s' o = Some i ->
     owner_id s o = Some i \/ (o = n /\ i = next_id s /\ next_id s < next_id s')%N) ->
  (forall p, p ∈ spawned s' -> p ∈ spawned s \/
     exists o i, owner_id s o = Some i /\ p = cache_path s i /\ forall o', owner_id s' o' <> Some i) ->
  ids_ok s'.
Proof.
  intros Hs Hc Hle Hmax Ho Hp. split.
  - intros o i [Hi|(_ & -> & ?)]%Ho; [|lia]. pose proof (id_lt _ Hs _ _ Hi). lia.
  - intros o o' i Hi Hi'. apply Ho in Hi, Hi'.
    destruct Hi as [Hi|(-> & -> & _)], Hi' as [Hi'|(-> & Hx & _)].
    + by eapply id_inj.
    + pose proof (id_lt _ Hs _ _ Hi). lia.
    + pose proof (id_lt _ Hs _ _ Hi'). lia.
    + done.
  - done.
  - intros p [Hin|(o & i & Hi & -> & Hn)]%Hp.
    + destruct (id_dead _ Hs p Hin) as (i & -> & Hlt & Hn). exists i.
      rewrite (cache_path_config s' s) by done. split_and!; [done|lia|].
      intros o [Hi|(_ & -> & _)]%Ho; [by eapply Hn|lia].
    + exists i. rewrite (cache_path_config s' s) by done.
      pose proof (id_lt _ Hs _ _ Hi). split_and!; [done|lia|done].
Qed.

(** [stored] only looks at the disk through the paths of owners. *)
Lemma stored_ext s s' o :
  config s' = config s -> blobs s' = blobs s -> redis_entries s' = redis_entries s ->
  (forall i, owner_id s o = Some i -> disk s' !! cache_path s i = disk s !! cache_path s i) ->
  stored s' o = stored s o.
Proof.
  intros Hc Hb Hr Hd. destruct o as [d|k]; simpl in *; rewrite ?Hb, ?Hr.
  - destruct (blobs s !! d) as [[]|]; [|done..]. rewrite (cache_path_config s' s) by done. by apply Hd.
  - destruct (redis_entries s !! k) as [[]|]; [done| |done].
    rewrite (cache_path_config s' s) by done. by apply Hd.
Qed.

(** The fields [insert_redis] writes. *)
Lemma insert_redis_fields k v s :
  let s' := (insert_redis k v s).2 in
  redis_entries s' = <[k := RedisEntry.InMemory v (next_id s) (now s)]> (redis_entries s) /\
  blobs s' = blobs s /\ disk s' = disk s /\ config s' = config s /\
  next_id s' = u64_add (next_id s) 1 /\
  spawned s' = match redis_entries s !! k with
               | Some (RedisEntry.OnDisk _ id _) => cache_path s id :: spawned s
               | _ => spawned s
               end.
Proof.
  unfold insert_redis. cbn [take_id redis_value_bucket].
  destruct (_ <? _)%N; state_simpl; (destruct (redis_entries s !! k) as [[]|];
    cbn [redis_value_bucket]; [destruct (_ <? _)%N| |]; state_simpl; split_and!; done).
Qed.

Lemma remove_redis_fields k s :
  let s' := (remove_redis k s).2 in
  redis_entries s' = delete k (redis_entries s) /\
  blobs s' = blobs s /\ disk s' = disk s /\ config s' = config s /\ next_id s' = next_id s /\
  spawned s' = match redis_entries s !! k with
               | Some (RedisEntry.OnDisk _ id _) => cache_path s id :: spawned s
               | _ => spawned s
               end.
Proof.
  unfold remove_redis. destruct (redis_entries s !! k) as [[]|] eqn:E; cbn [redis_value_bucket].
  1: destruct (_ <? _)%N. all: state_simpl; rewrite ?delete_id by done; split_and!; done.
Qed.

Lemma insert_blob_fields d b s :
  let s' := insert_blob d b s in
  blobs s' = <[d := b]> (blobs s) /\ redis_entries s' = redis_entries s /\ disk s' = disk s /\
  config s' = config s /\ next_id s' = next_id s /\ spawned s' = spawned s.
Proof.
  unfold insert_blob. destruct (blob_bucket b). state_simpl.
  destruct (blobs s !! d) as [o|]; [destruct (blob_bucket o)|]; state_simpl; done.
Qed.

Lemma remove_blob_fields d s :
  let s' := (remove_blob d s).2 in
  blobs s' = delete d (blobs s) /\ redis_entries s' = redis_entries s /\ disk s' = disk s /\
  config s' = config s /\ next_id s' = next_id s /\ spawned s' = spawned s.
Proof.
  unfold remove_blob. destruct (blobs s !! d) as [b|] eqn:E; [destruct (blob_bucket b)|];
    state_simpl; rewrite ?delete_id by done; done.
Qed.

Lemma u64_succ n : (n + 1 < U64)%N -> u64_add n 1 = (n + 1)%N.
Proof. intros. unfold u64_add. by apply N.mod_small. Qed.

Lemma insert_redis_ids k v s :
  ids_ok s -> (next_id s + 1 < U64)%N -> ids_ok (insert_redis k v s).2.
Proof.
  intros Hs Hn. destruct (insert_redis_fields k v s) as (Hr & Hb & _ & Hc & Hi & Hsp).
  rewrite u64_succ in Hi by done.
  assert (Ho : forall o i, owner_id (insert_redis k v s).2 o = Some i ->
    (o = ORedis k /\ i = next_id s) \/ (o <> ORedis k /\ owner_id s o = Some i)).
  { intros [d|k'] i; cbn [owner_id]; rewrite ?Hb, ?Hr; [by right|].
    destruct (decide (k' = k)) as [->|Hne].
    - rewrite lookup_insert_eq. intros [= <-]. by left.
    - rewrite lookup_insert_ne by done. right. split; [congruence|done]. }
  apply (ids_ok_step s _ (ORedis k)); [done|done|lia|lia| |].
  - intros o i [[-> ->]|[_ Hoi]]%Ho; [right; split_and!; [done..|lia]|by left].
  - intros p. rewrite Hsp. destruct (redis_entries s !! k) as [[|n id la]|] eqn:Ek; [by left| |by left].
    intros [->|Hin]%elem_of_cons; [right|by left].
    assert (Hk : owner_id s (ORedis k) = Some id) by (cbn; by rewrite Ek).
    exists (ORedis k), id. split_and!; [done|done|].
    intros o' [[-> ->]|[Hne Hoi]]%Ho.
    + pose proof (id_lt _ Hs _ _ Hk). lia.
    + by destruct (Hne (id_inj _ Hs _ _ _ Hoi Hk)).
Qed.

Lemma insert_redis_stored k v s o :
  stored (insert_redis k v s).2 o = if decide (o = ORedis k) then Some v else stored s o.
Proof.
  destruct (insert_redis_fields k v s) as (Hr & Hb & Hd & Hc & _).
  case_decide as Ho; [subst o; cbn [stored]; by rewrite Hr, lookup_insert_eq|].
  destruct o as [d|k']; cbn [stored]; rewrite ?Hb, ?Hr.
  - destruct (blobs s !! d) as [[]|]; [|done..]. by rewrite Hd, (cache_path_config _ s) by done.
  - rewrite lookup_insert_ne by congruence. destruct (redis_entries s !! k') as [[]|]; [done| |done].
    by rewrite Hd, (cache_path_config _ s) by done.
Qed.

(** Deleting owners. *)
Lemma ids_ok_delete s s' :
  ids_ok s -> config s' = config s -> next_id s' = next_id s ->
  (forall o i, owner_id s' o = Some i -> owner_id s o = Some i) ->
  (forall p, p ∈ spawned s' -> p ∈ spawned s \/
     exists o i, owner_id s o = Some i /\ p = cache_path s i /\ owner_id s' o = None) ->
  ids_ok s'.
Proof.
  intros Hs Hc Hn Ho Hp. pose proof (id_max _ Hs).
  apply (ids_ok_step s s' (ORedis [])); [done|done|lia|lia|by left; auto|].
  intros p [Hin|(o & i & Hi & -> & Hno)]%Hp; [by left|right]. exists o, i. split_and!; [done..|].
  intros o' Hi'. rewrite (id_inj _ Hs _ _ _ Hi (Ho _ _ Hi')) in Hno. congruence.
Qed.

Lemma remove_redis_ids k s : ids_ok s -> ids_ok (remove_redis k s).2.
Proof.
  intros Hs. destruct (remove_redis_fields k s) as (Hr & Hb & _ & Hc & Hi & Hsp).
  apply (ids_ok_delete s); [done|done|done| |].
  - intros [d|k'] i; cbn [owner_id]; rewrite ?Hb, ?Hr; [done|].
    destruct (decide (k' = k)) as [->|Hne]; [by rewrite lookup_delete_eq|by rewrite lookup_delete_ne].
  - intros p. rewrite Hsp. destruct (redis_entries s !! k) as [[|n id la]|] eqn:Ek; [by left| |by left].
    intros [->|Hin]%elem_of_cons; [right|by left]. exists (ORedis k), id. cbn [owner_id].
    by rewrite Ek, Hr, lookup_delete_eq.
Qed.

Lemma remove_redis_stored k s o :
  stored (remove_redis k s).2 o = if decide (o = ORedis k) then None else stored s o.
Proof.
  destruct (remove_redis_fields k s) as (Hr & Hb & Hd & Hc & _).
  case_decide as Ho; [subst o; cbn [stored]; by rewrite Hr, lookup_delete_eq|].
  destruct o as [d|k']; cbn [stored]; rewrite ?Hb, ?Hr.
  - destruct (blobs s !! d) as [[]|]; [|done..]. by rewrite Hd, (cache_path_config _ s) by done.
  - rewrite lookup_delete_ne by congruence. destruct (redis_entries s !! k') as [[]|]; [done| |done].
    by rewrite Hd, (cache_path_config _ s) by done.
Qed.

Lemma remove_blob_ids d s : ids_ok s -> ids_ok (remove_blob d s).2.
Proof.
  intros Hs. destruct (remove_blob_fields d s) as (Hb & Hr & _ & Hc & Hi & Hsp).
  apply (ids_ok_delete s); [done|done|done| |by rewrite Hsp; left].
  intros [d'|k'] i; cbn [owner_id]; rewrite ?Hb, ?Hr; [|done].
  destruct (decide (d' = d)) as [->|Hne]; [by rewrite lookup_delete_eq|by rewrite lookup_delete_ne].
Qed.

Lemma flush_entries_ids `{!MapIter} s : ids_ok s -> ids_ok (flush_entries s).
Proof.
  intros Hs. apply (ids_ok_delete s); [done|done|done| |].
  - intros [d|k'] i; cbn; [done|by rewrite lookup_empty].
  - intros p. unfold flush_entries. state_simpl.
    intros [(id & -> & Hid)%list_elem_of_fmap|Hin]%elem_of_app; [right|by left].
    apply list_elem_of_omap in Hid as ([k e] & Hin & He). apply elem_of_map_iter in Hin.
    destruct e as [|n i la]; simpl in He; [done|]. injection He as ->.
    exists (ORedis k), id. cbn. by rewrite Hin, lookup_empty.
Qed.

(** The stores only reset counters. *)
Lemma flush_redis_ids `{!MapIter} s : ids_ok s -> ids_ok (flush_redis s).
Proof. intros [H1 H2 H3]%flush_entries_ids. by split. Qed.

Lemma flush_redis_stored `{!MapIter} s o :
  stored (flush_redis s) o = match o with OBlob _ => stored s o | ORedis _ => None end.
Proof. destruct o; cbn; [done|by rewrite lookup_empty]. Qed.

Lemma insert_blob_stored d b s o :
  stored (insert_blob d b s) o =
  if decide (o = OBlob d) then
    match b with
    | Blob.InMemory _ c _ _ => Some c
    | Blob.OnDisk id _ _ _ => disk s !! cache_path s id
    end
  else stored s o.
Proof.
  destruct (insert_blob_fields d b s) as (Hb & Hr & Hd & Hc & _).
  case_decide as Ho.
  - subst o. cbn [stored]. rewrite Hb, lookup_insert_eq. destruct b; [|done].
    by rewrite Hd, (cache_path_config _ s) by done.
  - destruct o as [d'|k']; cbn [stored]; rewrite ?Hb, ?Hr.
    + rewrite lookup_insert_ne by congruence. destruct (blobs s !! d') as [[]|]; [|done..].
      by rewrite Hd, (cache_path_config _ s) by done.
    + destruct (redis_entries s !! k') as [[]|]; [done| |done].
      by rewrite Hd, (cache_path_config _ s) by done.
Qed.

(** An unlink that runs late never deletes the file of an owner. *)
Lemma run_unlink_stored io p rest s o :
  ids_ok s -> p ∈ spawned s -> stored (run_unlink io p rest s) o = stored s o.
Proof.
  intros Hs Hp. apply stored_ext; [done..|]. intros i Hi.
  destruct (id_dead _ Hs p Hp) as (j & -> & Hj & Hno). unfold run_unlink, fs_remove. state_simpl.
  destruct (disk s !! cache_path s j); [|done]. destruct (io_remove io _); [|done].
  simpl. apply lookup_delete_ne. intros He. pose proof (id_max _ Hs). pose proof (id_lt _ Hs _ _ Hi).
  apply cache_path_inj in He; [|lia..]. subst j. by eapply Hno.
Qed.

Lemma run_unlink_ids io p rest s :
  ids_ok s -> (forall q, q ∈ rest -> q ∈ spawned s) -> ids_ok (run_unlink io p rest s).
Proof. intros Hs Hr. apply (ids_ok_delete s); [done|done|done|done|]. intros q Hq. left. by apply Hr. Qed.

(** A blob stored under a freshly taken id. *)
Lemma insert_fresh_blob_ids d b s :
  ids_ok s -> (next_id s + 1 < U64)%N -> Blob.id b = next_id s ->
  ids_ok (insert_blob d b (take_id s).2).
Proof.
  intros Hs Hn Hb. destruct (insert_blob_fields d b (take_id s).2) as (Hbl & Hr & _ & Hc & Hi & Hsp).
  change (next_id (take_id s).2) with (u64_add (next_id s) 1) in Hi. rewrite u64_succ in Hi by done.
  change (config (take_id s).2) with (config s) in Hc. change (spawned (take_id s).2) with (spawned s) in Hsp.
  change (blobs (take_id s).2) with (blobs s) in Hbl.
  change (redis_entries (take_id s).2) with (redis_entries s) in Hr.
  apply (ids_ok_step s _ (OBlob d)); [done|done|lia|lia| |by rewrite Hsp; left].
  intros [d'|k'] i; cbn [owner_id]; rewrite ?Hbl, ?Hr; [|by left].
  destruct (decide (d' = d)) as [->|Hne].
  - rewrite lookup_insert_eq. intros [= <-]. right. rewrite Hb. split_and!; [done..|lia].
  - rewrite lookup_insert_ne by done. by left.
Qed.

(** Who owns what after an insertion or a removal. *)
Lemma insert_blob_owner d b s o :
  owner_id (insert_blob d b s) o = if decide (o = OBlob d) then Some (Blob.id b) else owner_id s o.
Proof.
  destruct (insert_blob_fields d b s) as (Hb & Hr & _). case_decide as Ho.
  - subst o. cbn [owner_id]. by rewrite Hb, lookup_insert_eq.
  - destruct o; cbn [owner_id]; rewrite ?Hb, ?Hr; [|done]. rewrite lookup_insert_ne; congruence.
Qed.

Lemma remove_blob_owner d s o :
  owner_id (remove_blob d s).2 o = if decide (o = OBlob d) then None else owner_id s o.
Proof.
  destruct (remove_blob_fields d s) as (Hb & Hr & _). case_decide as Ho.
  - subst o. cbn [owner_id]. by rewrite Hb, lookup_delete_eq.
  - destruct o; cbn [owner_id]; rewrite ?Hb, ?Hr; [|done]. rewrite lookup_delete_ne; congruence.
Qed.

Lemma remove_redis_owner k s o :
  owner_id (remove_redis k s).2 o = if decide (o = ORedis k) then None else owner_id s o.
Proof.
  destruct (remove_redis_fields k s) as (Hr & Hb & _). case_decide as Ho.
  - subst o. cbn [owner_id]. by rewrite Hr, lookup_delete_eq.
  - destruct o; cbn [owner_id]; rewrite ?Hb, ?Hr; [done|]. rewrite lookup_delete_ne; congruence.
Qed.

Lemma remove_blob_stored d s o :
  stored (remove_blob d s).2 o = if decide (o = OBlob d) then None else stored s o.
Proof.
  destruct (remove_blob_fields d s) as (Hb & Hr & Hd & Hc & _).
  case_decide as Ho; [subst o; cbn [stored]; by rewrite Hb, lookup_delete_eq|].
  destruct o as [d'|k']; cbn [stored]; rewrite ?Hb, ?Hr.
  - rewrite lookup_delete_ne by congruence. destruct (blobs s !! d') as [[]|]; [|done..].
    by rewrite Hd, (cache_path_config _ s) by done.
  - destruct (redis_entries s !! k') as [[]|]; [done| |done].
    by rewrite Hd, (cache_path_config _ s) by done.
Qed.

(** A change of the disk away from the files of on-disk owners. *)
Lemma set_disk_stored d' s :
  (forall o i n, on_disk_size s o = Some (i, n) -> d' !! cache_path s i = disk s !! cache_path s i) ->
  forall o, stored (set_disk d' s) o = stored s o.
Proof.
  intros Hd o. rewrite !stored_spec. change (on_disk_size (set_disk d' s) o) with (on_disk_size s o).
  destruct (on_disk_size s o) as [[i n]|] eqn:E; [|done]. exact (Hd o i n E).
Qed.

Lemma State_new_ids cfg t d : ids_ok (State_new cfg t d).
Proof.
  split; [intros [] i; cbn; by rewrite lookup_empty|intros [] o' i; cbn; by rewrite lookup_empty| |].
  - by vm_compute.
  - intros p Hp. by apply elem_of_nil in Hp.
Qed.

(** Changes of fields that say nothing about ids. *)
Lemma ids_ok_same s s' :
  ids_ok s -> config s' = config s -> next_id s' = next_id s -> spawned s' = spawned s ->
  blobs s' = blobs s -> redis_entries s' = redis_entries s -> ids_ok s'.
Proof.
  intros Hi Hc Hn Hsp Hb Hr. apply (ids_ok_delete s); [done..| |by rewrite Hsp; left].
  intros [d|k] i; cbn; by rewrite ?Hb, ?Hr.
Qed.

Lemma time_update_ids t s : ids_ok s -> ids_ok (time_update t s).
Proof. intros Hi. by apply (ids_ok_same s). Qed.

Lemma set_tags_ids v s : ids_ok s -> ids_ok (set_tags v s).
Proof. intros Hi. by apply (ids_ok_same s). Qed.

Lemma insert_manifest_ids d m s : ids_ok s -> ids_ok (insert_manifest d m s).
Proof. intros Hi. by apply (ids_ok_same s). Qed.

(** A new unlink of an id that lost its owner. *)
Lemma spawn_remove_ids i s :
  ids_ok s -> (i < next_id s)%N -> (forall o, owner_id s o <> Some i) ->
  ids_ok (spawn_remove (cache_path s i) s).
Proof.
  intros Hi Hlt Hno. split; [apply Hi|apply Hi|apply Hi|].
  intros p [->|Hp]%elem_of_cons; [by exists i|]. by apply (id_dead _ Hi).
Qed.
End disk.
