(* ===== verification/Claimed.v ===== *)
(** * What a task holds of the state

    Between two steps of an eviction pass the id of an entry is in its hands: a
    blob whose file is being written, or whose file is about to be deleted. A
    snapshot that is being saved names ids and files that have to be there when
    the next process loads it. A [Claim] says what the rest of the program has
    to leave alone meanwhile, and every operation that the rest of the program
    performs does. *)
From S2P Require Import Prelude Digest Env Config State Disk.

Inductive Claim : Type :=
  (** An id in hand: its owner, if any, is in memory; its file, once written. *)
  | Held (o : option owner) (id : N) (file : option bytes)
  (** The file of a blob. *)
  | Filed (d : Digest) (id : N) (file : bytes)
  (** An id that nobody else will ever own. *)
  | Named (o : owner) (id : N)
  (** A file of the data folder that is no cache file. *)
  | Written (name file : bytes).

Section claimed.
Context {SHA : Sha256} {ITER : MapIter}.
Implicit Types (s : State) (c : Claim).

(** The id is owned by [o] at most, and by one in memory when [mem]. *)
Record owned (o : option owner) (mem : bool) (id : N) s : Prop := {
  ow_owner o' : owner_id s o' = Some id -> o = Some o' /\ (mem = true -> on_disk_size s o' = None);
  ow_id : (id < next_id s)%N
}.

(** Nobody will unlink its file, which holds [file], when that is known. *)
Record filed (id : N) (file : option bytes) s : Prop := {
  fi_unlink : cache_path s id ∉ spawned s;
  fi_file b : file = Some b -> disk s !! cache_path s id = Some b
}.

Definition data_path s (name : bytes) : bytes := path_join (data_folder (config s)) name.

Definition claimed c s : Prop :=
  match c with
  | Held o id file => owned o true id s /\ filed id file s
  | Filed d id file => owned (Some (OBlob d)) false id s /\ filed id (Some file) s
  | Named o id => owned (Some o) false id s
  | Written name file => (forall i, data_path s name <> cache_path s i) /\ disk s !! data_path s name = Some file
  end.

Definition holds (g : list Claim) s : Prop := Forall (fun c => claimed c s) g.

(** ** Changes that respect every claim

    They give old ids to nobody, move nobody's bytes to disk, touch no file,
    and only schedule the removal of files of redis entries. *)
Record leaves s s' : Prop := {
  lv_config : config s' = config s;
  lv_next : (next_id s <= next_id s')%N;
  lv_disk : disk s' = disk s;
  lv_owner o i : owner_id s' o = Some i -> (i < next_id s)%N ->
    owner_id s o = Some i /\ (on_disk_size s o = None -> on_disk_size s' o = None);
  lv_spawned p : p ∈ spawned s' ->
    p ∈ spawned s \/ exists k i n, on_disk_size s (ORedis k) = Some (i, n) /\ p = cache_path s i
}.

Lemma leaves_owned o mem id s s' : leaves s s' -> owned o mem id s -> owned o mem id s'.
Proof.
  intros [_ Hn _ Ho _] [H1 H2]. split; [|lia]. intros o' Ho'. destruct (Ho o' id Ho' H2) as [Hown Hsz].
  destruct (H1 _ Hown). auto.
Qed.

(** An id that no redis entry owns on disk. *)
Lemma leaves_filed id file s s' :
  ids_ok s -> leaves s s' -> (id < next_id s)%N -> (forall k n, on_disk_size s (ORedis k) <> Some (id, n)) ->
  filed id file s -> filed id file s'.
Proof.
  intros Hi [Hc Hn Hd _ Hsp] Hid Hno [H1 H2]. split; rewrite (cache_path_config s' s) by done; [|by rewrite Hd].
  intros [Hp|(k & i & n & Hs & Hp)]%Hsp; [done|]. pose proof (id_max _ Hi).
  pose proof (id_lt _ Hi _ _ (on_disk_owner _ _ _ _ Hs)). apply cache_path_inj in Hp; [|lia..]. subst i. by eapply Hno.
Qed.

Lemma leaves_claimed c s s' : ids_ok s -> leaves s s' -> claimed c s -> claimed c s'.
Proof.
  intros Hi Hl. destruct c as [o id file|d id file|o id|name file]; cbn [claimed].
  - intros [Ho Hf]. split; [by eapply leaves_owned|]. apply (leaves_filed id file s); [done|done|apply Ho| |done].
    intros k n Hk. destruct (ow_owner _ _ _ _ Ho _ (on_disk_owner _ _ _ _ Hk)) as [_ H]. rewrite H in Hk; done.
  - intros [Ho Hf]. split; [by eapply leaves_owned|]. apply (leaves_filed id _ s); [done|done|apply Ho| |done].
    intros k n Hk. by destruct (ow_owner _ _ _ _ Ho _ (on_disk_owner _ _ _ _ Hk)).
  - by apply leaves_owned.
  - destruct Hl as [Hc _ Hd _ _]. intros [H1 H2]. unfold data_path. rewrite Hc, Hd. split; [|done].
    intros i. rewrite (cache_path_config s' s) by done. apply H1.
Qed.

Lemma leaves_holds g s s' : ids_ok s -> leaves s s' -> holds g s -> holds g s'.
Proof. intros Hi Hl Hg. eapply Forall_impl; [exact Hg|]. intros c. by apply leaves_claimed. Qed.

(** The new state has no more owners, and as much of them in memory. *)
Lemma leaves_same_spawned s s' :
  config s' = config s -> next_id s' = next_id s -> disk s' = disk s -> spawned s' = spawned s ->
  (forall o, owner_id s' o = owner_id s o) -> (forall o, on_disk_size s' o = on_disk_size s o) -> leaves s s'.
Proof. intros Hc Hn Hd Hsp Ho Hz. split; [done|by rewrite Hn|done| |by rewrite Hsp; left]. intros o i. by rewrite Ho, Hz. Qed.

Lemma leaves_same s s' :
  config s' = config s -> next_id s' = next_id s -> spawned s' = spawned s ->
  blobs s' = blobs s -> redis_entries s' = redis_entries s -> disk s' = disk s -> leaves s s'.
Proof.
  intros Hc Hn Hsp Hb Hr Hd. apply leaves_same_spawned; [done..| |]; intros []; cbn [owner_id on_disk_size]; by rewrite ?Hb, ?Hr.
Qed.

(** ** The operations of [State] *)
Lemma insert_redis_leaves k v s : (next_id s + 1 < U64)%N -> leaves s (insert_redis k v s).2.
Proof.
  intros Hn. destruct (insert_redis_fields k v s) as (Hr & Hb & Hd & Hc & Hnx & Hsp).
  split; [done|rewrite Hnx, u64_succ by done; lia|done| |].
  - intros [d|k'] i; cbn [owner_id on_disk_size]; rewrite ?Hb, ?Hr; [done|].
    destruct (decide (k' = k)) as [->|Hne]; [rewrite lookup_insert_eq|by rewrite lookup_insert_ne].
    intros [= E]. simpl in E. lia.
  - intros p. rewrite Hsp. destruct (redis_entries s !! k) as [[v0 i la|n i la]|] eqn:Ek; [by left| |by left].
    intros [->|Hp]%elem_of_cons; [right|by left]. exists k, i, n. cbn. by rewrite Ek.
Qed.

Lemma remove_redis_leaves k s : leaves s (remove_redis k s).2.
Proof.
  destruct (remove_redis_fields k s) as (Hr & Hb & Hd & Hc & Hn & Hsp). split; [done|by rewrite Hn|done| |].
  - intros [d|k'] i; cbn [owner_id on_disk_size]; rewrite ?Hb, ?Hr; [done|].
    destruct (decide (k' = k)) as [->|Hne]; [by rewrite lookup_delete_eq|by rewrite lookup_delete_ne].
  - intros p. rewrite Hsp. destruct (redis_entries s !! k) as [[v0 i la|n i la]|] eqn:Ek; [by left| |by left].
    intros [->|Hp]%elem_of_cons; [right|by left]. exists k, i, n. cbn. by rewrite Ek.
Qed.

Lemma flush_entries_leaves s : leaves s (flush_entries s).
Proof.
  split; try done.
  - intros [d|k] i; cbn [owner_id on_disk_size]; unfold flush_entries; state_simpl; [done|by rewrite lookup_empty].
  - intros p. unfold flush_entries. state_simpl. intros [(i & -> & Hin)%list_elem_of_fmap|Hp]%elem_of_app; [right|by left].
    apply list_elem_of_omap in Hin as ([k e] & He%elem_of_map_iter & Hid). destruct e as [|n i' la]; [done|].
    injection Hid as ->. exists k, i, n. cbn. by rewrite He.
Qed.

(** A blob under a fresh id. *)
Lemma insert_fresh_leaves d b s :
  (next_id s + 1 < U64)%N -> Blob.id b = next_id s -> leaves s (insert_blob d b (take_id s).2).
Proof.
  intros Hn Hb. destruct (insert_blob_fields d b (take_id s).2) as (Hbl & Hr & Hd & Hc & Hnx & Hsp).
  split; [done|rewrite Hnx; cbn; rewrite u64_succ by done; lia|done| |by rewrite Hsp; left].
  intros o i. rewrite insert_blob_owner. case_decide as E; [intros [= <-]; lia|]. intros Ho _. split; [done|].
  destruct o as [d'|k]; cbn [on_disk_size]; rewrite ?Hr, ?Hbl; [|done]. rewrite lookup_insert_ne; [done|congruence].
Qed.

(** A late unlink. *)
Lemma run_unlink_claimed c io p ps1 ps2 s :
  ids_ok s -> spawned s = ps1 ++ p :: ps2 -> claimed c s -> claimed c (run_unlink io p (ps1 ++ ps2) s).
Proof.
  intros Hi Hsp. assert (Hdisk : forall q, q <> p -> disk (run_unlink io p (ps1 ++ ps2) s) !! q = disk s !! q).
  { intros q Hq. unfold run_unlink, fs_remove. state_simpl. destruct (disk s !! p); [|done].
    destruct (io_remove io p); [|done]. simpl. by rewrite lookup_delete_ne. }
  assert (Hfiled : forall id file, filed id file s -> filed id file (run_unlink io p (ps1 ++ ps2) s)).
  { intros id file [H1 H2]. rewrite Hsp in H1.
    assert (Hp : cache_path s id <> p /\ cache_path s id ∉ ps1 ++ ps2) by set_solver.
    split; rewrite (cache_path_config _ s) by done; [apply Hp|]. intros b Hb. rewrite Hdisk by apply Hp. by apply H2. }
  destruct c as [o id file|d id file|o id|name file]; cbn [claimed].
  - intros [[] Hf]. split; [by split|by apply Hfiled].
  - intros [[] Hf]. split; [by split|by apply Hfiled].
  - intros []. by split.
  - intros [H1 H2]. split; [exact H1|]. unfold data_path. change (config (run_unlink _ _ _ _)) with (config s).
    rewrite Hdisk; [done|]. destruct (id_dead _ Hi p) as (i & -> & _); [rewrite Hsp; apply elem_of_app; right; by left|]. apply H1.
Qed.
End claimed.
