(* ===== verification/Eviction.v ===== *)
(** * Eviction ([src/eviction.rs])

    One eviction pass, as the code runs it: the scan that builds the
    bookkeeping, the loop that pops candidates and spills or drops them, the
    sweep of unreferenced blobs, and the publication of the counters. The
    pass is total: [evict_loop] carries fuel, and [EvictionFrame] shows
    that the fuel [evict] gives it is always enough. *)
From S2P Require Import Prelude Digest Env Config State.

Definition BLOB_GRACE_SECONDS : N := 5 * 3600.

(** ** Reachability: the digests a manifest body names *)

(** [walk]: the value at key [digest] when it is a digest text, then the value
    itself, for every entry; [out.push] appends. *)
Definition digest_field (k : bytes) (vv : Value) (out : list Digest) : list Digest :=
  if decide (k = $"digest") then
    match vv with
    | VString s => match digest_from_str s with Some d => out ++ [d] | None => out end
    | _ => out
    end
  else out.

Fixpoint walk (v : Value) (out : list Digest) : list Digest :=
  match v with
  | VObject m =>
      (fix entries m out :=
         match m with
         | [] => out
         | (k, vv) :: m' => entries m' (walk vv (digest_field k vv out))
         end) m out
  | VArray a =>
      (fix items a out :=
         match a with
         | [] => out
         | vv :: a' => items a' (walk vv out)
         end) a out
  | _ => out
  end.

Definition referenced_digests `{!SerdeJson} (content : bytes) : list Digest :=
  match json_from_slice content with
  | None => []
  | Some v => walk v []
  end.

(** ** Candidates and the heap *)
Inductive EvictionCandidate : Type :=
  | CManifest (last_accesses : N) (digest : Digest)
  | CRedis (key : bytes) (last_accessed size : N).

Definition last_access_time (c : EvictionCandidate) : N :=
  match c with CManifest t _ => t | CRedis _ t _ => t end.

(** [Ord::cmp]: newest first, so that the heap's maximum is the oldest. *)
Definition candidate_cmp (self other : EvictionCandidate) : comparison :=
  N.compare (last_access_time other) (last_access_time self).

(** [std::collections::BinaryHeap] as a bag: [pop] takes out a greatest element
    for [candidate_cmp]. Which of several greatest ones is left open. *)
Class BinaryHeap := {
  heap_pop : list EvictionCandidate -> option (EvictionCandidate * list EvictionCandidate);
  heap_pop_None : forall h, heap_pop h = None <-> h = [];
  heap_pop_perm : forall h c h', heap_pop h = Some (c, h') -> h ≡ₚ c :: h';
  heap_pop_max : forall h c h' c', heap_pop h = Some (c, h') -> c' ∈ h -> candidate_cmp c' c <> Gt
}.

Definition heap_push (c : EvictionCandidate) (h : list EvictionCandidate) := c :: h.

(** ** Bookkeeping of one pass *)
Inductive BlobTier : Type := SmallMem | LargeMem | Disk.

#[export] Instance BlobTier_eq_dec : EqDecision BlobTier.
Proof. solve_decision. Defined.

Record BlobBk : Type := mkBlobBk {
  bk_tier : BlobTier;
  bk_refs : N;
  bk_unevicted_refs : N;
  bk_last_accessed : N
}.

Section evict.
Context {SHA : Sha256} {ITER : MapIter} {JSON : SerdeJson} {HEAP : BinaryHeap}.

(** The locals of [evict]: the state it mutates, the seven accumulators (named
    after the counters they shadow), the three heaps and the blob table. *)
Record Pass : Type := mkPass {
  ps : State;
  acc : Bucket -> N;
  small_memory_candidates : list EvictionCandidate;
  large_memory_candidates : list EvictionCandidate;
  disk_candidates : list EvictionCandidate;
  bks : gmap Digest BlobBk
}.

Definition set_ps v (p : Pass) : Pass :=
  mkPass v (acc p) (small_memory_candidates p) (large_memory_candidates p)
    (disk_candidates p) (bks p).
Definition set_acc v (p : Pass) : Pass :=
  mkPass (ps p) v (small_memory_candidates p) (large_memory_candidates p)
    (disk_candidates p) (bks p).
Definition set_small v (p : Pass) : Pass :=
  mkPass (ps p) (acc p) v (large_memory_candidates p) (disk_candidates p) (bks p).
Definition set_large v (p : Pass) : Pass :=
  mkPass (ps p) (acc p) (small_memory_candidates p) v (disk_candidates p) (bks p).
Definition set_disk_cands v (p : Pass) : Pass :=
  mkPass (ps p) (acc p) (small_memory_candidates p) (large_memory_candidates p) v (bks p).
Definition set_bks v (p : Pass) : Pass :=
  mkPass (ps p) (acc p) (small_memory_candidates p) (large_memory_candidates p)
    (disk_candidates p) v.

Definition push_small c p := set_small (heap_push c (small_memory_candidates p)) p.
Definition push_large c p := set_large (heap_push c (large_memory_candidates p)) p.
Definition push_disk c p := set_disk_cands (heap_push c (disk_candidates p)) p.

(** [acc += n], [acc.saturating_sub(n)], [acc.saturating_add(n)]. *)
Definition acc_plus (b : Bucket) (n : N) (p : Pass) : Pass :=
  set_acc (<[b := u64_add (acc p b) n]> (acc p)) p.
Definition acc_sub (b : Bucket) (n : N) (p : Pass) : Pass :=
  set_acc (<[b := saturating_sub (acc p b) n]> (acc p)) p.
Definition acc_add (b : Bucket) (n : N) (p : Pass) : Pass :=
  set_acc (<[b := u64_saturating_add (acc p b) n]> (acc p)) p.

(** ** The scan *)
Definition blob_tier (b : Blob.t) : BlobTier * N :=
  match b with
  | Blob.InMemory _ content _ _ =>
      if (MEMORY_TIER_THRESHOLD <? blen content)%N
      then (LargeMem, blen content) else (SmallMem, blen content)
  | Blob.OnDisk _ size _ _ => (Disk, size)
  end.

Definition tier_bucket (t : BlobTier) : Bucket :=
  match t with
  | SmallMem => small_blob_memory_usage
  | LargeMem => large_blob_memory_usage
  | Disk => blob_disk_usage
  end.

(** The loop over [state.blobs]. *)
Definition scan_blob (p : Pass) (e : Digest * Blob.t) : Pass :=
  let '(tier, size) := blob_tier e.2 in
  let p1 := acc_plus (tier_bucket tier) size p in
  set_bks (<[e.1 := mkBlobBk tier 0 0 (Blob.last_accessed e.2)]> (bks p1)) p1.

(** The inner loop over the references of a manifest: reference counts, and
    whether some blob is in large memory, or on disk. *)
Definition scan_ref (evicted : bool) (t : gmap Digest BlobBk * bool * bool) (r : Digest)
  : gmap Digest BlobBk * bool * bool :=
  let '(m, some_large, some_disk) := t in
  match m !! r with
  | Some bb =>
      let bb' := mkBlobBk (bk_tier bb) (u32_add (bk_refs bb) 1)
                   (if evicted then bk_unevicted_refs bb else u32_add (bk_unevicted_refs bb) 1)
                   (bk_last_accessed bb) in
      (<[r := bb']> m,
       some_large || bool_decide (bk_tier bb = LargeMem),
       some_disk || bool_decide (bk_tier bb = Disk))
  | None => t
  end.

(** The loop over [state.manifests]. *)
Definition scan_manifest (p : Pass) (e : Digest * Manifest) : Pass :=
  let m := e.2 in
  let c := CManifest (m_last_used m) e.1 in
  let '(bks', some_large, some_disk) :=
    foldl (scan_ref (m_evicted m)) (bks p, false, false) (referenced_digests (m_content m)) in
  let p1 := push_small c (set_bks bks' p) in
  let p2 := if some_large : bool then push_large c p1 else p1 in
  let p3 := if some_disk : bool then push_disk c p2 else p2 in
  acc_plus manifest_memory_usage (blen (m_content m)) p3.

(** The loop over [state.redis_entries]. *)
Definition scan_redis (p : Pass) (e : bytes * RedisEntry.t) : Pass :=
  let p1 := acc_plus small_redis_memory_usage (blen e.1) p in
  match e.2 with
  | RedisEntry.InMemory value _ la =>
      if (MEMORY_TIER_THRESHOLD <? blen value)%N then
        acc_plus large_redis_memory_usage (blen value)
          (push_large (CRedis e.1 la (blen value)) p1)
      else
        acc_plus small_redis_memory_usage (blen value)
          (push_small (CRedis e.1 la (blen value)) p1)
  | RedisEntry.OnDisk size _ la =>
      acc_plus redis_disk_usage size (push_disk (CRedis e.1 la size) p1)
  end.

Definition scan (s : State) : Pass :=
  let p0 := mkPass s (fun _ => 0%N) [] [] [] ∅ in
  let p1 := foldl scan_blob p0 (map_iter (blobs s)) in
  let p2 := foldl scan_manifest p1 (map_iter (manifests s)) in
  foldl scan_redis p2 (map_iter (redis_entries s)).

(** ** Targets: 75% of each limit *)
Definition three_quarters (limit : N) : N := (limit - limit / 4)%N.
Definition small_target (s : State) : N := three_quarters (small_memory_limit (config s)).
Definition memory_target (s : State) : N := three_quarters (memory_limit (config s)).
Definition disk_target (s : State) : N := three_quarters (disk_limit (config s)).

Definition over_small (p : Pass) : bool :=
  (small_target (ps p) <?
   u64_add (u64_add (acc p small_blob_memory_usage) (acc p small_redis_memory_usage))
     (acc p manifest_memory_usage))%N.
Definition over_memory (p : Pass) : bool :=
  (memory_target (ps p) <?
   u64_add (u64_add (u64_add (u64_add
     (acc p large_blob_memory_usage) (acc p large_redis_memory_usage))
     (acc p manifest_memory_usage)) (acc p small_blob_memory_usage))
     (acc p small_redis_memory_usage))%N.
Definition over_disk (p : Pass) : bool :=
  (disk_target (ps p) <?
   u64_add (acc p blob_disk_usage) (acc p redis_disk_usage))%N.

(** ** Disk helpers *)
Definition cache_dir (s : State) (id : N) : bytes :=
  path_join (path_join (data_folder (config s)) $"blobs") (drop 14 (hex_pad 16 id)).

Definition write_blob_to_disk (io : Io) (id : N) (content : bytes) (s : State)
  : State * result io_error unit :=
  let path := cache_path s id in
  if io_create_dir io (cache_dir s id) then
    let '(d, r) := fs_write io path content (disk s) in (set_disk d s, r)
  else (s, Err OtherError).

Definition delete_disk_blob (io : Io) (id : N) (s : State) : State :=
  set_disk (fs_remove io (cache_path s id) (disk s)).1 s.

(** ** Large-memory pressure: spilling.

    A [result Pass Pass]: [Err p] is the early return of [?], with the state
    the pass had reached. *)
Definition spill_ref (io : Io) (old : bool) (p : Pass) (r : Digest) : result Pass Pass :=
  match bks p !! r with
  | None => Ok p
  | Some bb =>
      let bb' := if old then bb
                 else mkBlobBk (bk_tier bb) (bk_refs bb)
                        (saturating_sub (bk_unevicted_refs bb) 1) (bk_last_accessed bb) in
      let p1 := set_bks (<[r := bb']> (bks p)) p in
      if negb (bk_unevicted_refs bb' =? 0)%N || negb (bool_decide (bk_tier bb' = LargeMem))
      then Ok p1
      else
        match blobs (ps p1) !! r with
        | Some (Blob.InMemory id content media_type la) =>
            let size := blen content in
            let '(s, w) := write_blob_to_disk io id content (ps p1) in
            match w with
            | Err _ => Err (set_ps s p1)
            | Ok _ =>
                let s1 := insert_blob r (Blob.OnDisk id size media_type la) s in
                let s2 := metric_add eviction_blobs_to_disk 1 s1 in
                Ok (acc_add blob_disk_usage size
                      (acc_sub large_blob_memory_usage size (set_ps s2 p1)))
            end
        | _ => Ok p1
        end
  end.

Definition spill_refs (io : Io) (old : bool) (p : Pass) (rs : list Digest) : result Pass Pass :=
  foldl (fun a r => p ← a; spill_ref io old p r) (Ok p) rs.

Definition spill_manifest (io : Io) (last_accesses : N) (digest : Digest) (p : Pass)
  : result Pass Pass :=
  match manifests (ps p) !! digest with
  | None => Ok p
  | Some mb =>
      let old := m_evicted mb in
      let mb' := mkManifest (m_content mb) (m_media_type mb) (m_last_used mb) true in
      let p1 := set_ps (set_manifests (<[digest := mb']> (manifests (ps p))) (ps p)) p in
      p2 ← spill_refs io old p1 (referenced_digests (m_content mb));
      Ok (push_disk (CManifest last_accesses digest) p2)
  end.

(** The redis entry is looked up and written out ([spill_redis_write]); after
    the write completed it is replaced ([spill_redis_commit]). *)
Definition spill_redis_write (io : Io) (key : bytes) (s : State)
  : option (State * N * result io_error unit) :=
  match redis_entries s !! key with
  | Some (RedisEntry.InMemory value id _) =>
      let '(s', w) := write_blob_to_disk io id value s in Some (s', id, w)
  | _ => None
  end.

Definition spill_redis_commit (key : bytes) (id size la : N) (s : State) : State :=
  metric_add eviction_redis_entries 1
    (set_redis_entries (<[key := RedisEntry.OnDisk size id la]> (redis_entries s)) s).

Definition spill_redis (io : Io) (key : bytes) (la size : N) (p : Pass) : result Pass Pass :=
  match spill_redis_write io key (ps p) with
  | None => Ok p
  | Some (s, _, Err _) => Err (set_ps s p)
  | Some (s, id, Ok _) =>
      let p1 := set_ps (spill_redis_commit key id size la s) p in
      let p2 := acc_add redis_disk_usage size (acc_sub large_redis_memory_usage size p1) in
      Ok (push_disk (CRedis key la size) p2)
  end.

(** ** Dropping *)

(** A redis entry under small-pool ([b] = small redis memory) or disk ([b] =
    redis disk) pressure. *)
Definition drop_redis (b : Bucket) (key : bytes) (size : N) (p : Pass) : Pass :=
  let '(removed, s) := remove_redis key (ps p) in
  if removed : bool
  then set_ps (metric_add eviction_redis_entries 1 s) (acc_sub b size p)
  else set_ps s p.

(** The body of the cascade for one reference of a dropped manifest. *)
Definition drop_ref (io : Io) (old : bool) (p : Pass) (r : Digest) : Pass :=
  match bks p !! r with
  | None => p
  | Some bb =>
      let bb' := mkBlobBk (bk_tier bb) (saturating_sub (bk_refs bb) 1)
                   (if old then bk_unevicted_refs bb else saturating_sub (bk_unevicted_refs bb) 1)
                   (bk_last_accessed bb) in
      let p1 := set_bks (<[r := bb']> (bks p)) p in
      if negb (bk_refs bb' =? 0)%N ||
         (saturating_sub (now (ps p)) BLOB_GRACE_SECONDS <? bk_last_accessed bb')%N
      then p1
      else
        match remove_blob r (ps p1) with
        | (None, _) => p1
        | (Some blob, s) =>
            let p2 := set_ps (metric_add eviction_blobs_deleted 1 s) p1 in
            match blob with
            | Blob.InMemory _ content _ _ =>
                if (MEMORY_TIER_THRESHOLD <? blen content)%N
                then acc_sub large_blob_memory_usage (blen content) p2
                else acc_sub small_blob_memory_usage (blen content) p2
            | Blob.OnDisk id size _ _ =>
                let p3 := acc_sub blob_disk_usage size p2 in
                set_ps (delete_disk_blob io id (ps p3)) p3
            end
        end
  end.

(** The tail of the loop body: drop the manifest, its tags, and the blobs whose
    last referrer it was. *)
Definition drop_manifest (io : Io) (digest : Digest) (p : Pass) : Pass :=
  match remove_manifest digest (ps p) with
  | (None, _) => p
  | (Some manifest, s) =>
      let s1 := metric_add eviction_manifests_deleted 1 s in
      let s2 := set_tags (filter (fun kv => kv.2 <> digest) (tags s1)) s1 in
      let p1 := acc_sub manifest_memory_usage (blen (m_content manifest)) (set_ps s2 p) in
      foldl (drop_ref io (m_evicted manifest)) p1 (referenced_digests (m_content manifest))
  end.

(** ** The loop *)
Inductive iteration : Type :=
  | Continue (p : Pass)
  | Break (p : Pass)
  | Fail (p : Pass).

Definition of_result (r : result Pass Pass) : iteration :=
  match r with Ok p => Continue p | Err p => Fail p end.

Definition small_pressure (io : Io) (c : EvictionCandidate) (p : Pass) : iteration :=
  match c with
  | CManifest _ digest => Continue (drop_manifest io digest p)
  | CRedis key _ size => Continue (drop_redis small_redis_memory_usage key size p)
  end.

Definition large_pressure (io : Io) (c : EvictionCandidate) (p : Pass) : iteration :=
  match c with
  | CManifest la digest => of_result (spill_manifest io la digest p)
  | CRedis key la size => of_result (spill_redis io key la size p)
  end.

Definition disk_pressure (io : Io) (c : EvictionCandidate) (p : Pass) : iteration :=
  match c with
  | CManifest _ digest => Continue (drop_manifest io digest p)
  | CRedis key _ size => Continue (drop_redis redis_disk_usage key size p)
  end.

(** [cond && let Some(candidate) = heap.pop()]. *)
Definition pop_if (cond : bool) (h : list EvictionCandidate) :=
  if cond then heap_pop h else None.

Definition evict_iteration (io : Io) (p : Pass) : iteration :=
  match pop_if (over_small p) (small_memory_candidates p) with
  | Some (c, h) => small_pressure io c (set_small h p)
  | None =>
      match pop_if (over_memory p) (large_memory_candidates p) with
      | Some (c, h) => large_pressure io c (set_large h p)
      | None =>
          match pop_if (over_disk p) (disk_candidates p) with
          | Some (c, h) => disk_pressure io c (set_disk_cands h p)
          | None => Break p
          end
      end
  end.

(** [None]: out of fuel. *)
Fixpoint evict_loop (io : Io) (fuel : nat) (p : Pass) : option (result Pass Pass) :=
  match fuel with
  | O => None
  | S fuel =>
      match evict_iteration io p with
      | Continue p' => evict_loop io fuel p'
      | Break p' => Some (Ok p')
      | Fail p' => Some (Err p')
      end
  end.

(** A popped large-memory candidate comes back once, as a disk candidate. *)
Definition loop_measure (p : Pass) : nat :=
  length (small_memory_candidates p) + 2 * length (large_memory_candidates p)
  + length (disk_candidates p).

(** ** After the loop *)
Definition sweep_blob (io : Io) (s : State) (e : Digest * BlobBk) : State :=
  if negb (bk_refs e.2 =? 0)%N ||
     (saturating_sub (now s) (bk_last_accessed e.2) <? BLOB_GRACE_SECONDS)%N
  then s
  else
    match remove_blob e.1 s with
    | (None, _) => s
    | (Some b, s1) =>
        let s2 := metric_add eviction_blobs_deleted 1 s1 in
        match b with
        | Blob.OnDisk id _ _ _ => delete_disk_blob io id s2
        | Blob.InMemory _ _ _ _ => s2
        end
    end.

Definition sweep (io : Io) (p : Pass) : Pass :=
  set_ps (foldl (sweep_blob io) (ps p) (map_iter (bks p))) p.

Definition oldest_touch (h : list EvictionCandidate) (t : N) : N :=
  match heap_pop h with Some (c, _) => last_access_time c | None => t end.

(** The final stores: three gauges and six of the seven counters. *)
Definition publish (p : Pass) : State :=
  let t := now (ps p) in
  let s1 := metric_store oldest_small_memory_touch_time
              (oldest_touch (small_memory_candidates p) t) (ps p) in
  let s2 := metric_store oldest_large_memory_touch_time
              (oldest_touch (large_memory_candidates p) t) s1 in
  let s3 := metric_store oldest_disk_touch_time (oldest_touch (disk_candidates p) t) s2 in
  let st b s := usage_store b (wrap_i64 (Z.of_N (acc p b))) s in
  st redis_disk_usage (st large_redis_memory_usage (st small_redis_memory_usage
    (st blob_disk_usage (st large_blob_memory_usage (st small_blob_memory_usage s3))))).

(** [evict]: the state after the call, and whether it returned [Ok]. *)
Definition evict (io : Io) (s : State) : option (State * bool) :=
  let p := scan (metric_add eviction_runs 1 s) in
  match evict_loop io (S (loop_measure p)) p with
  | None => None
  | Some (Err p') => Some (ps p', false)
  | Some (Ok p') => Some (publish (sweep io p'), true)
  end.

(** ** The background loop: one round of [evict_loop] after it woke up *)
Definition over_limits (s : State) : bool :=
  (wrap_i64 (Z.of_N (small_memory_limit (config s))) <? small_memory_usage s)%Z ||
  (wrap_i64 (Z.of_N (memory_limit (config s))) <? total_memory_usage s)%Z ||
  (wrap_i64 (Z.of_N (disk_limit (config s))) <? total_disk_usage s)%Z.

Definition evict_round (io : Io) (s : State) : option (State * bool) :=
  let s1 := set_eviction_notify false s in
  if over_limits s1 then evict io s1 else Some (s1, true).
End evict.

(** The same for passes. *)
Ltac pass_simpl :=
  cbn [ps acc small_memory_candidates large_memory_candidates disk_candidates bks
       set_ps set_acc set_small set_large set_disk_cands set_bks push_small push_large push_disk
       acc_plus acc_sub acc_add heap_push bk_tier bk_refs bk_unevicted_refs bk_last_accessed] in *;
  state_simpl.
