(* ===== verification/EvictionFrame.v ===== *)
(** * Eviction: what a pass leaves alone, and termination

    The operations of a pass keep the configuration, the clock, the id
    counter, the uploads and the tokens ([same_env]); the inner operations keep
    the three heaps. Every iteration of the loop lowers [loop_measure], so
    [evict] always has a result. *)
From S2P Require Import Prelude Digest Env Config State Eviction.

Section frame.
Context {SHA : Sha256}.

Record same_env (s s' : State) : Prop := {
  se_config : config s' = config s;
  se_now : now s' = now s;
  se_next_id : next_id s' = next_id s;
  se_tokens : tokens s' = tokens s;
  se_uploads : uploads s' = uploads s;
  se_dropped : dropped_uploads s' = dropped_uploads s
}.

#[export] Instance same_env_preorder : PreOrder same_env.
Proof.
  split; [by intros s|].
  intros s1 s2 s3 [] []. split; congruence.
Qed.

Lemma insert_blob_env d b s : same_env s (insert_blob d b s).
Proof.
  unfold insert_blob. destruct (blob_bucket b). simpl.
  destruct (blobs s !! d) as [o|]; [destruct (blob_bucket o)|]; done.
Qed.

Lemma remove_blob_env d s : same_env s (remove_blob d s).2.
Proof.
  unfold remove_blob. destruct (blobs s !! d) as [o|]; [destruct (blob_bucket o)|]; done.
Qed.

Lemma remove_manifest_env d s : same_env s (remove_manifest d s).2.
Proof. unfold remove_manifest. by destruct (manifests s !! d). Qed.

Lemma remove_redis_env k s : same_env s (remove_redis k s).2.
Proof.
  unfold remove_redis. destruct (redis_entries s !! k) as [o|]; [|done].
  destruct (redis_value_bucket o), o; done.
Qed.

Lemma write_blob_env io id c s : same_env s (write_blob_to_disk io id c s).1.
Proof.
  unfold write_blob_to_disk. case_match; [|done]. by destruct (fs_write _ _ _ _).
Qed.

Lemma delete_disk_blob_env io id s : same_env s (delete_disk_blob io id s).
Proof. done. Qed.
Lemma remove_blob_manifests d s : manifests (remove_blob d s).2 = manifests s.
Proof. unfold remove_blob. destruct (blobs s !! d) as [b|]; [by destruct (blob_bucket b)|done]. Qed.

Lemma insert_blob_manifests d b s : manifests (insert_blob d b s) = manifests s.
Proof.
  unfold insert_blob. destruct (blob_bucket b). state_simpl.
  destruct (blobs s !! d) as [o|]; [destruct (blob_bucket o)|]; done.
Qed.
End frame.

Create HintDb frame.
#[export] Hint Resolve insert_blob_env remove_blob_env remove_manifest_env remove_redis_env
  write_blob_env delete_disk_blob_env : frame.

Section pass_frame.
Context {SHA : Sha256} {ITER : MapIter} {JSON : SerdeJson} {HEAP : BinaryHeap}.
Implicit Types (p : Pass) (io : Io).

(** The inner operations: same environment, same heaps, same blob table keys. *)
Record pass_frame p p' : Prop := {
  pf_env : same_env (ps p) (ps p');
  pf_small : small_memory_candidates p' = small_memory_candidates p;
  pf_large : large_memory_candidates p' = large_memory_candidates p;
  pf_disk : disk_candidates p' = disk_candidates p
}.

#[export] Instance pass_frame_preorder : PreOrder pass_frame.
Proof.
  split; [by intros s|].
  intros p1 p2 p3 [] []. split; [etrans; eassumption|..]; congruence.
Qed.

Lemma foldl_frame {A} (f : Pass -> A -> Pass) (l : list A) p :
  (forall p a, pass_frame p (f p a)) -> pass_frame p (foldl f p l).
Proof.
  intros Hf. revert p. induction l as [|a l IH]; intros p; simpl; [done|].
  etrans; [apply Hf | apply IH].
Qed.

Lemma drop_ref_frame io old p r : pass_frame p (drop_ref io old p r).
Proof.
  unfold drop_ref. destruct (bks p !! r) as [bb|]; [|done].
  case_match; [done|].
  destruct (remove_blob r _) as [[blob|] s] eqn:E; [|done].
  pose proof (remove_blob_env r (ps p)) as He. simpl in *. rewrite E in He. simpl in He.
  destruct blob; [|case_match]; (split; [|done..]); by destruct He.
Qed.

Lemma drop_manifest_frame io d p : pass_frame p (drop_manifest io d p).
Proof.
  unfold drop_manifest. destruct (remove_manifest d (ps p)) as [[m|] s] eqn:E; [|done].
  pose proof (remove_manifest_env d (ps p)) as He. rewrite E in He. simpl in He.
  etrans; [|apply foldl_frame; intros; apply drop_ref_frame].
  split; [|done..]. by destruct He.
Qed.

Lemma drop_redis_frame b k n p : pass_frame p (drop_redis b k n p).
Proof.
  unfold drop_redis. destruct (remove_redis k (ps p)) as [removed s] eqn:E.
  pose proof (remove_redis_env k (ps p)) as He. rewrite E in He. simpl in He.
  destruct removed; (split; [|done..]); by destruct He.
Qed.

(** Either outcome of a fallible operation. *)
Definition outcome (r : result Pass Pass) : Pass := match r with Ok p | Err p => p end.

Lemma spill_ref_frame io old p r : pass_frame p (outcome (spill_ref io old p r)).
Proof.
  unfold spill_ref. destruct (bks p !! r) as [bb|]; [|done].
  cbv zeta. case_match; [done|]. simpl.
  destruct (blobs (ps p) !! r) as [[|id c mt la]|]; [done| |done].
  destruct (write_blob_to_disk io id c (ps p)) as [s w] eqn:E.
  pose proof (write_blob_env io id c (ps p)) as He. rewrite E in He. simpl in He.
  destruct w; simpl; (split; [|done..]); [|done].
  etrans; [exact He|]. simpl. etrans; [apply insert_blob_env|]. done.
Qed.

Lemma spill_refs_frame io old rs p : pass_frame p (outcome (spill_refs io old p rs)).
Proof.
  unfold spill_refs.
  assert (forall a, pass_frame p (outcome a) ->
    pass_frame p (outcome (foldl (fun a r => p ← a; spill_ref io old p r) a rs))) as Hgen.
  { induction rs as [|r rs IH]; intros a Ha; simpl; [done|]. apply IH.
    destruct a as [q|q]; simpl in *; [|done]. etrans; [exact Ha | apply spill_ref_frame]. }
  by apply Hgen.
Qed.

(** Spilling a candidate pushes it, at most once, to the disk candidates. *)
Definition pushes_disk (c : EvictionCandidate) p p' : Prop :=
  same_env (ps p) (ps p') /\
  small_memory_candidates p' = small_memory_candidates p /\
  large_memory_candidates p' = large_memory_candidates p /\
  (disk_candidates p' = disk_candidates p \/ disk_candidates p' = c :: disk_candidates p).

Lemma pushes_disk_length c p p' :
  pushes_disk c p p' -> length (disk_candidates p') <= S (length (disk_candidates p)).
Proof. intros (_ & _ & _ & [-> | ->]); simpl; lia. Qed.

Lemma spill_manifest_frame io la d p : pushes_disk (CManifest la d) p (outcome (spill_manifest io la d p)).
Proof.
  unfold spill_manifest. destruct (manifests (ps p) !! d) as [m|]; [|split_and!; simpl; by auto].
  cbv zeta. set (p1 := set_ps _ p).
  pose proof (spill_refs_frame io (m_evicted m) (referenced_digests (m_content m)) p1) as Hf.
  destruct (spill_refs _ _ _ _) as [q|q]; simpl in *; destruct Hf as [He Hf1 Hf2 Hf3];
    (split_and!; [by destruct He|done|done|simpl; rewrite Hf3; by auto]).
Qed.

Lemma spill_redis_frame io k la n p : pushes_disk (CRedis k la n) p (outcome (spill_redis io k la n p)).
Proof.
  unfold spill_redis, spill_redis_write.
  destruct (redis_entries (ps p) !! k) as [[v id l|]|];
    [|split_and!; simpl; by auto|split_and!; simpl; by auto].
  pose proof (write_blob_env io id v (ps p)) as He.
  destruct (write_blob_to_disk io id v (ps p)) as [s w]. simpl in He.
  destruct w; (split_and!; [by destruct He|done|done|simpl; by auto]).
Qed.

Lemma pop_if_length c h x h' : pop_if c h = Some (x, h') -> length h = S (length h').
Proof.
  unfold pop_if. destruct c; [|done]. intros Hp%heap_pop_perm. by rewrite Hp.
Qed.

Lemma iteration_measure io p :
  match evict_iteration io p with
  | Continue p' => loop_measure p' < loop_measure p
  | Break p' => p' = p
  | Fail _ => True
  end.
Proof.
  unfold evict_iteration, loop_measure.
  destruct (pop_if _ (small_memory_candidates p)) as [[c h]|] eqn:E1.
  { apply pop_if_length in E1. destruct c as [la d|k la n]; simpl.
    - destruct (drop_manifest_frame io d (set_small h p)) as [_ -> -> ->]. simpl. lia.
    - destruct (drop_redis_frame small_redis_memory_usage k n (set_small h p)) as [_ -> -> ->].
      simpl. lia. }
  destruct (pop_if _ (large_memory_candidates p)) as [[c h]|] eqn:E2.
  { apply pop_if_length in E2. destruct c as [la d|k la n]; simpl.
    - pose proof (spill_manifest_frame io la d (set_large h p)) as Hf.
      pose proof (pushes_disk_length _ _ _ Hf) as Hf3. destruct Hf as (_ & Hf1 & Hf2 & _).
      destruct (spill_manifest _ _ _ _); simpl in *; [|done]. rewrite Hf1, Hf2. simpl. lia.
    - pose proof (spill_redis_frame io k la n (set_large h p)) as Hf.
      pose proof (pushes_disk_length _ _ _ Hf) as Hf3. destruct Hf as (_ & Hf1 & Hf2 & _).
      destruct (spill_redis _ _ _ _ _); simpl in *; [|done]. rewrite Hf1, Hf2. simpl. lia. }
  destruct (pop_if _ (disk_candidates p)) as [[c h]|] eqn:E3; [|done].
  apply pop_if_length in E3. destruct c as [la d|k la n]; simpl.
  - destruct (drop_manifest_frame io d (set_disk_cands h p)) as [_ -> -> ->]. simpl. lia.
  - destruct (drop_redis_frame redis_disk_usage k n (set_disk_cands h p)) as [_ -> -> ->].
    simpl. lia.
Qed.

Lemma iteration_env io p :
  match evict_iteration io p with
  | Continue q | Break q | Fail q => same_env (ps p) (ps q)
  end.
Proof.
  unfold evict_iteration.
  destruct (pop_if _ (small_memory_candidates p)) as [[[la d|k la n] h]|]; simpl.
  { apply (pf_env _ _ (drop_manifest_frame io d (set_small h p))). }
  { apply (pf_env _ _ (drop_redis_frame small_redis_memory_usage k n (set_small h p))). }
  destruct (pop_if _ (large_memory_candidates p)) as [[[la d|k la n] h]|]; simpl.
  { pose proof (spill_manifest_frame io la d (set_large h p)) as [Hf _].
    by destruct (spill_manifest _ _ _ _). }
  { pose proof (spill_redis_frame io k la n (set_large h p)) as [Hf _].
    by destruct (spill_redis _ _ _ _ _). }
  destruct (pop_if _ (disk_candidates p)) as [[[la d|k la n] h]|]; simpl; [| |done].
  - apply (pf_env _ _ (drop_manifest_frame io d (set_disk_cands h p))).
  - apply (pf_env _ _ (drop_redis_frame redis_disk_usage k n (set_disk_cands h p))).
Qed.

Lemma sweep_blob_env io s e : same_env s (sweep_blob io s e).
Proof.
  unfold sweep_blob. destruct (_ || _); [done|].
  pose proof (remove_blob_env e.1 s) as H. destruct (remove_blob e.1 s) as [[b|] s1]; [|done].
  destruct b; by destruct H.
Qed.

Lemma evict_loop_total io fuel p : loop_measure p < fuel -> is_Some (evict_loop io fuel p).
Proof.
  revert p. induction fuel as [|fuel IH]; intros p Hf; [lia|]. simpl.
  pose proof (iteration_measure io p) as Hm.
  destruct (evict_iteration io p); [|done..]. apply IH. lia.
Qed.

(** C7: a pass always ends: every iteration of the loop lowers a measure of
    the three heaps, so that the fuel [evict] starts with is never used up. *)
Theorem evict_terminates io (s : State) : is_Some (evict io s).
Proof.
  unfold evict. set (p := scan _).
  destruct (evict_loop_total io (S (loop_measure p)) p) as [[q|q] ->]; [lia|done..].
Qed.

(** Invariants of the loop: [I] holds whenever the loop condition is tested,
    [E] after an early return. *)
Lemma evict_loop_ind io (I E : Pass -> Prop) :
  (forall p, I p -> match evict_iteration io p with
                    | Continue p' => I p' | Break _ => True | Fail p' => E p' end) ->
  forall fuel p r, I p -> evict_loop io fuel p = Some r ->
  match r with
  | Ok p' => I p' /\ evict_iteration io p' = Break p'
  | Err p' => E p'
  end.
Proof.
  intros Hstep. induction fuel as [|fuel IH]; intros p r Hp; simpl; [done|].
  pose proof (Hstep p Hp) as Hs. pose proof (iteration_measure io p) as Hm.
  destruct (evict_iteration io p) as [p'|p'|p'] eqn:Ei.
  - intros Hr. by apply (IH p').
  - intros [= <-]. subst p'. done.
  - by intros [= <-].
Qed.
End pass_frame.
