(* ===== verification/EvictionRefs.v ===== *)
(** * Eviction: references, the grace window, tags

    The reference counts of a pass are exact, so a blob is removed only when
    no manifest that is still cached names it and its last access is older
    than the grace window; and the tags of dropped manifests go with them. *)
From S2P Require Import Prelude Digest Env Config State Eviction EvictionFrame.

Local Open Scope Z_scope.

(** Occurrences of a digest in a list of references. *)
Definition one (d r : Digest) : Z := if decide (r = d) then 1 else 0.
Definition occ (d : Digest) (l : list Digest) : Z := lsum (one d) l.

Lemma occ_nonneg d l : 0 <= occ d l.
Proof. apply lsum_nonneg. intros r. unfold one. case_decide; lia. Qed.

Lemma occ_pos d l : d ∈ l -> 0 < occ d l.
Proof.
  induction l as [|r l IH]; [by intros ?%elem_of_nil|].
  intros Hd%elem_of_cons. unfold occ, one in *. simpl.
  pose proof (occ_nonneg d l). unfold occ, one in *.
  destruct Hd as [->|Hd]; [rewrite decide_True by done; lia | case_decide; [lia|by apply IH]].
Qed.

Lemma occ_absent d l : d ∉ l -> occ d l = 0.
Proof.
  induction l as [|r l IH]; [done|]. intros [Hne Hl]%not_elem_of_cons. unfold occ, one in *. simpl.
  rewrite decide_False by congruence. by apply IH.
Qed.

Section refs.
Context {SHA : Sha256} {ITER : MapIter} {JSON : SerdeJson} {HEAP : BinaryHeap}.
Implicit Types (s : State) (p : Pass) (d r : Digest) (ms : gmap Digest Manifest) (ev old : bool).

(** The number of references to [d] from all manifests, and from those not
    marked as evicted. *)
Definition refcount d ms : Z :=
  msum (fun _ m => occ d (referenced_digests (m_content m))) ms.
Definition unevicted_count d ms : Z :=
  msum (fun _ m => if m_evicted m then 0 else occ d (referenced_digests (m_content m))) ms.

(** No count of the table wraps. *)
Definition refs_fit s : Prop := forall d, refcount d (manifests s) < Z.of_N U32.

Lemma refcount_nonneg d ms : 0 <= refcount d ms.
Proof. apply msum_nonneg. intros. apply occ_nonneg. Qed.

Lemma refcount_pos d ms k m :
  ms !! k = Some m -> d ∈ referenced_digests (m_content m) -> 0 < refcount d ms.
Proof.
  intros Hk Hd%occ_pos.
  pose proof (msum_lookup_le (fun _ m => occ d (referenced_digests (m_content m))) ms k m
    (fun _ _ _ => occ_nonneg _ _) Hk) as Hle. simpl in Hle. unfold refcount. lia.
Qed.

(** ** What the scan computes *)

(** The blob table [t] describes the blobs of [s], with counts [f] and [g]
    (modulo the width of [u32]). *)
Definition tally s (f g : Digest -> Z) (t : gmap Digest BlobBk) : Prop :=
  forall d,
    match t !! d with
    | None => blobs s !! d = None
    | Some bb => exists b, blobs s !! d = Some b /\ bk_tier bb = (blob_tier b).1 /\
        bk_last_accessed bb = Blob.last_accessed b /\
        Z.of_N (bk_refs bb) = f d mod Z.of_N U32 /\
        Z.of_N (bk_unevicted_refs bb) = g d mod Z.of_N U32
    end.

Lemma tally_ext s f g f' g' t :
  (forall d, f d = f' d) -> (forall d, g d = g' d) -> tally s f g t -> tally s f' g' t.
Proof.
  intros Hf Hg Ht d. specialize (Ht d). rewrite <- Hf, <- Hg. exact Ht.
Qed.

Lemma u32_succ_mod x z :
  Z.of_N x = z mod Z.of_N U32 -> Z.of_N (u32_add x 1) = (z + 1) mod Z.of_N U32.
Proof.
  intros Hx. unfold u32_add. rewrite N2Z.inj_mod, N2Z.inj_add, Hx.
  rewrite Zplus_mod_idemp_l. done.
Qed.

Lemma scan_ref_tally s f g ev t x y r :
  tally s f g t ->
  tally s (fun d => f d + one d r) (fun d => g d + if ev then 0 else one d r)
    (scan_ref ev (t, x, y) r).1.1.
Proof.
  intros Ht d. unfold scan_ref. pose proof (Ht d) as Hd. pose proof (Ht r) as Hr.
  destruct (t !! r) as [bb|] eqn:Er; simpl.
  - unfold one. destruct (decide (r = d)) as [->|Hne].
    + rewrite lookup_insert_eq. destruct Hr as (b & Hb & H1 & H2 & H3 & H4).
      exists b. simpl. split_and!; [done..|by apply u32_succ_mod|].
      destruct ev; [by rewrite Z.add_0_r | by apply u32_succ_mod].
    + rewrite lookup_insert_ne by done. destruct (t !! d); [|done].
      by destruct ev; rewrite !Z.add_0_r.
  - destruct (t !! d) as [bb|] eqn:Ed; [|done].
    unfold one. rewrite decide_False by congruence. by destruct ev; rewrite !Z.add_0_r.
Qed.

Lemma scan_refs_tally s f g ev rs t x y :
  tally s f g t ->
  tally s (fun d => f d + occ d rs) (fun d => g d + if ev then 0 else occ d rs)
    (foldl (scan_ref ev) (t, x, y) rs).1.1.
Proof.
  intros Ht.
  apply (foldl_prefix_ind (fun l a =>
    tally s (fun d => f d + occ d l) (fun d => g d + if ev then 0 else occ d l) a.1.1)).
  - simpl. eapply tally_ext; [..|exact Ht]; intros d; unfold occ; destruct ev; simpl; lia.
  - intros l1 r l2 [[t' x'] y'] _ IH. eapply tally_ext; [..|apply scan_ref_tally; exact IH];
      intros d; unfold occ; rewrite lsum_app; destruct ev; simpl; lia.
Qed.

Lemma scan_manifest_tally s f g p e :
  tally s f g (bks p) ->
  tally s (fun d => f d + occ d (referenced_digests (m_content e.2)))
    (fun d => g d + if m_evicted e.2 then 0 else occ d (referenced_digests (m_content e.2)))
    (bks (scan_manifest p e)).
Proof.
  intros Ht. unfold scan_manifest.
  pose proof (scan_refs_tally s f g (m_evicted e.2) (referenced_digests (m_content e.2))
    (bks p) false false Ht) as H.
  destruct (foldl _ _ _) as [[t' x] y]. simpl in H. by destruct x, y.
Qed.

Lemma scan_blobs_tally s :
  tally s (fun _ => 0) (fun _ => 0)
    (bks (foldl scan_blob (mkPass s (fun _ => 0%N) [] [] [] ∅) (map_iter (blobs s)))).
Proof.
  set (p0 := mkPass _ _ _ _ _ _).
  assert (forall d, bks (foldl scan_blob p0 (map_iter (blobs s))) !! d =
    (fun b => mkBlobBk (blob_tier b).1 0 0 (Blob.last_accessed b)) <$>
      (list_to_map (map_iter (blobs s)) : gmap Digest Blob.t) !! d) as Hl.
  { pose proof (NoDup_map_iter_fst (blobs s)) as Hnd.
    apply (foldl_prefix_ind (fun l q => forall d, bks q !! d =
      (fun b => mkBlobBk (blob_tier b).1 0 0 (Blob.last_accessed b)) <$>
      (list_to_map l : gmap Digest Blob.t) !! d)); [done|].
    intros l1 [k b] l2 q Hsplit IH d. unfold scan_blob. simpl.
    rewrite Hsplit, fmap_app in Hnd. apply NoDup_app in Hnd as (_ & Hnd & _).
    destruct (blob_tier b) as [tier n] eqn:Et. simpl.
    rewrite list_to_map_snoc.
    2:{ intros Hk. apply (Hnd k Hk). left. }
    destruct (decide (k = d)) as [->|Hne].
    - rewrite !lookup_insert_eq. simpl. by rewrite Et.
    - rewrite !lookup_insert_ne by done. apply IH. }
  intros d. rewrite Hl, list_to_map_iter. destruct (blobs s !! d) as [b|]; simpl; [|done].
  exists b. done.
Qed.

Lemma scan_redis_bks p e : bks (scan_redis p e) = bks p /\ ps (scan_redis p e) = ps p.
Proof. unfold scan_redis. destruct e.2; [case_match|]; done. Qed.

Lemma scan_tally s :
  tally s (fun d => refcount d (manifests s)) (fun d => unevicted_count d (manifests s))
    (bks (scan s)).
Proof.
  unfold scan. set (p1 := foldl scan_blob _ _).
  set (p2 := foldl scan_manifest p1 _).
  assert (bks (foldl scan_redis p2 (map_iter (redis_entries s))) = bks p2) as ->.
  { apply (foldl_inv (fun q => bks q = bks p2)); [done|].
    intros q e _ Hq. by rewrite (proj1 (scan_redis_bks q e)). }
  set (occs := fun d (e : Digest * Manifest) => occ d (referenced_digests (m_content e.2))).
  assert (tally s (fun d => lsum (occs d) (map_iter (manifests s)))
    (fun d => lsum (fun e => if m_evicted e.2 then 0 else occs d e) (map_iter (manifests s)))
    (bks p2)) as Ht.
  { apply (foldl_prefix_ind (fun l q => tally s (fun d => lsum (occs d) l)
      (fun d => lsum (fun e => if m_evicted e.2 then 0 else occs d e) l) (bks q))).
    - apply scan_blobs_tally.
    - intros l1 e l2 q _ IH. eapply tally_ext; [..|apply scan_manifest_tally; exact IH];
        intros d; rewrite lsum_app; simpl; unfold occs; lia. }
  eapply tally_ext; [..|exact Ht]; intros d; unfold refcount, unevicted_count, occs;
    by rewrite <- (lsum_map_iter _ (manifests s)).
Qed.

Lemma scan_ps s : ps (scan s) = s.
Proof.
  unfold scan.
  apply (foldl_inv (fun q => ps q = s)); [|intros q e _ <-; apply scan_redis_bks].
  apply (foldl_inv (fun q => ps q = s)).
  2:{ intros q e _ <-. unfold scan_manifest. by destruct (foldl _ _ _) as [[? []] []]. }
  apply (foldl_inv (fun q => ps q = s)); [done|].
  intros q e _ <-. unfold scan_blob. by destruct (blob_tier e.2).
Qed.

(** ** The invariant of the loop *)

(** Blobs the grace window of [s0] protects. *)
Definition in_grace s0 (b : Blob.t) : Prop :=
  (saturating_sub (now s0) BLOB_GRACE_SECONDS < Blob.last_accessed b)%N.

(** [rest]: the references of a manifest being dropped that are still to be
    processed. [exact]: whether the counts are known not to have wrapped. *)
Record refs_inv (exact : Prop) s0 (rest : list Digest) p : Prop := {
  ri_now : now (ps p) = now s0;
  ri_table : forall d bb, bks p !! d = Some bb ->
    exists b0, blobs s0 !! d = Some b0 /\ bk_last_accessed bb = Blob.last_accessed b0;
  ri_count : exact -> forall d bb, bks p !! d = Some bb ->
    Z.of_N (bk_refs bb) = refcount d (manifests (ps p)) + occ d rest;
  ri_kept : forall d b0, blobs s0 !! d = Some b0 ->
    (exact /\ 0 < refcount d (manifests (ps p)) + occ d rest) \/ in_grace s0 b0 ->
    is_Some (blobs (ps p) !! d)
}.

(** Steps that keep the manifests' references and the domain of the blobs. *)
Lemma refs_inv_frame exact s0 rest p p' :
  refs_inv exact s0 rest p ->
  now (ps p') = now (ps p) ->
  (forall d, refcount d (manifests (ps p')) = refcount d (manifests (ps p))) ->
  (forall d, is_Some (blobs (ps p) !! d) -> is_Some (blobs (ps p') !! d)) ->
  (forall d bb, bks p' !! d = Some bb -> exists bb0, bks p !! d = Some bb0 /\
     bk_refs bb = bk_refs bb0 /\ bk_last_accessed bb = bk_last_accessed bb0) ->
  refs_inv exact s0 rest p'.
Proof.
  intros [H1 H2 H3 H4] Hn Hrc Hb Ht. split.
  - congruence.
  - intros d bb Hd. destruct (Ht d bb Hd) as (bb0 & Hd0 & _ & ->). by apply H2.
  - intros He d bb Hd. destruct (Ht d bb Hd) as (bb0 & Hd0 & -> & _). rewrite Hrc. by apply H3.
  - intros d b0 Hd Hor. apply Hb, (H4 d b0 Hd). by rewrite <- Hrc.
Qed.

Lemma remove_blob_lookup d r s :
  manifests (remove_blob r s).2 = manifests s /\
  (d <> r -> blobs (remove_blob r s).2 !! d = blobs s !! d).
Proof.
  unfold remove_blob. destruct (blobs s !! r) as [b|]; [|done].
  destruct (blob_bucket b). simpl. split; [done|]. intros Hne.
  by rewrite lookup_delete_ne.
Qed.

Lemma drop_ref_blobs io old p r d :
  manifests (ps (drop_ref io old p r)) = manifests (ps p) /\
  (d <> r -> blobs (ps (drop_ref io old p r)) !! d = blobs (ps p) !! d).
Proof.
  unfold drop_ref. destruct (bks p !! r) as [bb|]; [|done]. cbv zeta.
  case_match; [done|].
  pose proof (remove_blob_lookup d r (ps p)) as Hr.
  change (ps (set_bks _ p)) with (ps p).
  destruct (remove_blob r (ps p)) as [[b|] s]; simpl in *; [|done].
  destruct b; [|case_match]; exact Hr.
Qed.

Lemma drop_ref_bks io old p r :
  bks (drop_ref io old p r) =
  match bks p !! r with
  | None => bks p
  | Some bb => <[r := mkBlobBk (bk_tier bb) (saturating_sub (bk_refs bb) 1)
      (if old then bk_unevicted_refs bb else saturating_sub (bk_unevicted_refs bb) 1)
      (bk_last_accessed bb)]> (bks p)
  end.
Proof.
  unfold drop_ref. destruct (bks p !! r) as [bb|]; [|done]. cbv zeta.
  destruct (_ || _); [done|].
  destruct (remove_blob r _) as [[b|] s]; simpl; [|done].
  destruct b; [|case_match]; done.
Qed.

(** When [drop_ref] removes the blob, its count is zero and it is out of grace. *)
Lemma drop_ref_keeps io old p r bb :
  bks p !! r = Some bb ->
  (bk_refs bb - 1 <> 0)%N \/ (saturating_sub (now (ps p)) BLOB_GRACE_SECONDS < bk_last_accessed bb)%N ->
  blobs (ps (drop_ref io old p r)) = blobs (ps p).
Proof.
  intros Hb Hor. unfold drop_ref. rewrite Hb. cbv zeta. simpl.
  destruct (_ || _) eqn:E; [done|]. apply orb_false_iff in E as [E1 E2].
  apply negb_false_iff, N.eqb_eq in E1. apply N.ltb_ge in E2. unfold saturating_sub in *. lia.
Qed.

Lemma drop_ref_inv exact s0 io old r rest p :
  refs_inv exact s0 (r :: rest) p -> refs_inv exact s0 rest (drop_ref io old p r).
Proof.
  intros [H1 H2 H3 H4].
  pose proof (drop_ref_bks io old p r) as Hbks.
  assert (Hocc : forall d, occ d (r :: rest) = one d r + occ d rest) by done.
  assert (Hms : manifests (ps (drop_ref io old p r)) = manifests (ps p))
    by exact (proj1 (drop_ref_blobs io old p r r)).
  split.
  - destruct (drop_ref_frame io old p r) as [[_ -> _ _ _] _ _ _]. done.
  - intros d bb Hd. rewrite Hbks in Hd. destruct (bks p !! r) as [bb0|] eqn:Er; [|by apply H2].
    apply lookup_insert_Some in Hd as [[<- <-]|[_ Hd]]; [by apply (H2 r bb0)|by apply H2].
  - intros He d bb Hd. rewrite Hms. rewrite Hbks in Hd. unfold one in Hocc.
    destruct (bks p !! r) as [bb0|] eqn:Er.
    + apply lookup_insert_Some in Hd as [[<- <-]|[Hne Hd]]; simpl.
      * specialize (H3 He r bb0 Er). rewrite Hocc, decide_True in H3 by done.
        pose proof (refcount_nonneg r (manifests (ps p))). pose proof (occ_nonneg r rest).
        unfold saturating_sub. lia.
      * specialize (H3 He d bb Hd). rewrite Hocc, decide_False in H3 by done. lia.
    + specialize (H3 He d bb Hd). rewrite Hocc, decide_False in H3 by congruence. lia.
  - intros d b0 Hd Hor. rewrite Hms in Hor.
    assert (is_Some (blobs (ps p) !! d)) as Hold.
    { apply (H4 d b0 Hd). rewrite Hocc. unfold one. destruct Hor as [[He Hp]|Hg]; [left|by right].
      split; [done|]. case_decide; lia. }
    destruct (decide (d = r)) as [->|Hne].
    2:{ by rewrite (proj2 (drop_ref_blobs io old p r d) Hne). }
    destruct (bks p !! r) as [bb|] eqn:Er; [|unfold drop_ref; by rewrite Er].
    rewrite (drop_ref_keeps io old p r bb Er); [done|].
    destruct Hor as [[He Hp]|Hg].
    + left. specialize (H3 He r bb Er). rewrite Hocc in H3. unfold one in H3.
      rewrite decide_True in H3 by done. lia.
    + right. destruct (H2 r bb Er) as (b1 & Hb1 & ->). rewrite Hd in Hb1. injection Hb1 as <-.
      unfold in_grace in Hg. by rewrite H1.
Qed.

Lemma drop_refs_inv exact s0 io old rs p :
  refs_inv exact s0 rs p -> refs_inv exact s0 [] (foldl (drop_ref io old) p rs).
Proof.
  revert p. induction rs as [|r rs IH]; intros p Hp; simpl; [done|].
  apply IH. by apply drop_ref_inv.
Qed.

Lemma refcount_delete d ms k m :
  ms !! k = Some m ->
  refcount d ms = refcount d (delete k ms) + occ d (referenced_digests (m_content m)).
Proof. intros Hk. unfold refcount. rewrite msum_delete, Hk. simpl. lia. Qed.

Lemma drop_manifest_inv exact s0 io k p :
  refs_inv exact s0 [] p -> refs_inv exact s0 [] (drop_manifest io k p).
Proof.
  intros Hp. unfold drop_manifest, remove_manifest.
  destruct (manifests (ps p) !! k) as [m|] eqn:Ek; [|done].
  apply drop_refs_inv. destruct Hp as [H1 H2 H3 H4].
  assert (Hrc : forall d, refcount d (delete k (manifests (ps p))) +
    occ d (referenced_digests (m_content m)) = refcount d (manifests (ps p)) + occ d []).
  { intros d. rewrite (refcount_delete d _ k m Ek). unfold occ at 3. simpl. lia. }
  split; simpl; [done|done| |].
  - intros He d bb Hd. rewrite Hrc. by apply H3.
  - intros d b0 Hd Hor. apply (H4 d b0 Hd). by rewrite <- Hrc.
Qed.

Lemma remove_redis_maps k s :
  manifests (remove_redis k s).2 = manifests s /\ blobs (remove_redis k s).2 = blobs s /\
  tags (remove_redis k s).2 = tags s.
Proof.
  unfold remove_redis. destruct (redis_entries s !! k) as [e|]; [|done].
  destruct (redis_value_bucket e), e; done.
Qed.

Lemma drop_redis_maps b k n p :
  manifests (ps (drop_redis b k n p)) = manifests (ps p) /\
  blobs (ps (drop_redis b k n p)) = blobs (ps p) /\ tags (ps (drop_redis b k n p)) = tags (ps p) /\
  bks (drop_redis b k n p) = bks p.
Proof.
  unfold drop_redis. pose proof (remove_redis_maps k (ps p)) as Hm.
  destruct (remove_redis k (ps p)) as [[] s]; simpl in *; naive_solver.
Qed.

Lemma write_blob_maps io id c s :
  manifests (write_blob_to_disk io id c s).1 = manifests s /\
  blobs (write_blob_to_disk io id c s).1 = blobs s /\
  tags (write_blob_to_disk io id c s).1 = tags s /\
  redis_entries (write_blob_to_disk io id c s).1 = redis_entries s.
Proof. unfold write_blob_to_disk. case_match; [|done]. by destruct (fs_write _ _ _ _). Qed.

Lemma insert_blob_maps d b s :
  manifests (insert_blob d b s) = manifests s /\
  blobs (insert_blob d b s) = <[d := b]> (blobs s) /\
  tags (insert_blob d b s) = tags s /\ redis_entries (insert_blob d b s) = redis_entries s.
Proof.
  unfold insert_blob. destruct (blob_bucket b). simpl.
  destruct (blobs s !! d) as [o|]; [destruct (blob_bucket o)|]; done.
Qed.

(** A spill keeps the manifests, the set of cached blobs, and the counts. *)
Lemma spill_ref_maps io old p r :
  let q := outcome (spill_ref io old p r) in
  manifests (ps q) = manifests (ps p) /\ tags (ps q) = tags (ps p) /\
  (forall d, is_Some (blobs (ps q) !! d) <-> is_Some (blobs (ps p) !! d)) /\
  (forall d bb, bks q !! d = Some bb -> exists bb0, bks p !! d = Some bb0 /\
     bk_refs bb = bk_refs bb0 /\ bk_last_accessed bb = bk_last_accessed bb0).
Proof.
  simpl. unfold spill_ref. destruct (bks p !! r) as [bb|] eqn:Er; [|naive_solver].
  cbv zeta. set (bb' := if old then _ else _).
  assert (Hb : forall d b1, <[r := bb']> (bks p) !! d = Some b1 -> exists bb0, bks p !! d = Some bb0 /\
    bk_refs b1 = bk_refs bb0 /\ bk_last_accessed b1 = bk_last_accessed bb0).
  { intros d b1 [[<- <-]|[_ Hd]]%lookup_insert_Some; [|eauto].
    exists bb. subst bb'. by destruct old. }
  destruct (_ || _); [done|]. simpl.
  destruct (blobs (ps p) !! r) as [[|id c mt la]|] eqn:Eb; [done| |done].
  destruct (write_blob_maps io id c (ps p)) as (Hm & Hbl & Ht & _).
  destruct (write_blob_to_disk io id c (ps p)) as [s w]. state_simpl.
  destruct w; cbn [outcome]; pass_simpl.
  - destruct (insert_blob_maps r (Blob.OnDisk id (blen c) mt la) s) as (-> & -> & -> & _).
    rewrite Hm, Ht, Hbl. split_and!; [done|done| |done].
    intros d. destruct (decide (r = d)) as [->|Hne].
    + rewrite lookup_insert_eq, Eb. split; eauto.
    + by rewrite lookup_insert_ne.
  - rewrite Hm, Ht, Hbl. done.
Qed.

Lemma spill_ref_inv exact s0 io old p r :
  refs_inv exact s0 [] p -> refs_inv exact s0 [] (outcome (spill_ref io old p r)).
Proof.
  intros Hp. destruct (spill_ref_maps io old p r) as (Hm & _ & Hd & Hb).
  apply (refs_inv_frame _ _ _ _ _ Hp); [|intros d; by rewrite Hm|apply Hd|exact Hb].
  destruct (spill_ref_frame io old p r) as [[_ ? _ _ _] _ _ _]. done.
Qed.

(** Any property of passes that [spill_ref] keeps on both outcomes is kept by
    the loop over a manifest's references. *)
Lemma spill_refs_keep (P : Pass -> Prop) io old p rs :
  (forall p r, P p -> P (outcome (spill_ref io old p r))) ->
  P p -> P (outcome (spill_refs io old p rs)).
Proof.
  intros Hstep Hp. unfold spill_refs.
  apply (foldl_inv (fun a => P (outcome a))); [done|].
  intros [q|q] r _ Hq; simpl in *; [by apply Hstep | done].
Qed.

Lemma refcount_mark d ms k m b :
  ms !! k = Some m ->
  refcount d (<[k := mkManifest (m_content m) (m_media_type m) (m_last_used m) b]> ms) =
  refcount d ms.
Proof. intros Hk. unfold refcount. rewrite msum_insert, Hk. simpl. lia. Qed.

Lemma spill_manifest_inv exact s0 io la k p :
  refs_inv exact s0 [] p -> refs_inv exact s0 [] (outcome (spill_manifest io la k p)).
Proof.
  intros Hp. unfold spill_manifest.
  destruct (manifests (ps p) !! k) as [m|] eqn:Ek; [|done]. cbv zeta.
  set (p1 := set_ps _ p).
  assert (H1 : refs_inv exact s0 [] p1).
  { apply (refs_inv_frame _ _ _ _ _ Hp); [done| |done|eauto].
    intros d. by apply refcount_mark. }
  pose proof (spill_refs_keep (refs_inv exact s0 []) io (m_evicted m) p1
    (referenced_digests (m_content m))
    (fun q r Hq => spill_ref_inv exact s0 io (m_evicted m) q r Hq) H1) as H2.
  destruct (spill_refs _ _ _ _) as [q|q]; simpl in *; [|done].
  apply (refs_inv_frame _ _ _ _ _ H2); eauto.
Qed.

Lemma spill_redis_maps io k la n p :
  let q := outcome (spill_redis io k la n p) in
  manifests (ps q) = manifests (ps p) /\ tags (ps q) = tags (ps p) /\
  blobs (ps q) = blobs (ps p) /\ bks q = bks p /\ now (ps q) = now (ps p).
Proof.
  simpl. unfold spill_redis, spill_redis_write.
  destruct (redis_entries (ps p) !! k) as [[v id l|]|]; [|done|done].
  destruct (write_blob_maps io id v (ps p)) as (Hm & Hbl & Ht & _).
  pose proof (se_now _ _ (write_blob_env io id v (ps p))) as Hn.
  destruct (write_blob_to_disk io id v (ps p)) as [s w]. simpl in *. by destruct w.
Qed.

Lemma iteration_refs_inv exact s0 io p :
  refs_inv exact s0 [] p ->
  match evict_iteration io p with
  | Continue q | Fail q => refs_inv exact s0 [] q
  | Break _ => True
  end.
Proof.
  intros Hp.
  assert (Hredis : forall b k n q, refs_inv exact s0 [] q -> refs_inv exact s0 [] (drop_redis b k n q)).
  { intros b k n q Hq. destruct (drop_redis_maps b k n q) as (Hm & Hb & _ & Hk).
    apply (refs_inv_frame _ _ _ _ _ Hq); rewrite ?Hm, ?Hb, ?Hk; [|done|done|eauto].
    destruct (drop_redis_frame b k n q) as [[_ ? _ _ _] _ _ _]. done. }
  unfold evict_iteration.
  destruct (pop_if _ (small_memory_candidates p)) as [[c h]|].
  { assert (refs_inv exact s0 [] (set_small h p)) by by destruct Hp.
    destruct c; simpl; auto using drop_manifest_inv. }
  destruct (pop_if _ (large_memory_candidates p)) as [[c h]|].
  { assert (Hq : refs_inv exact s0 [] (set_large h p)) by by destruct Hp.
    destruct c as [la d|k la n]; simpl.
    - apply (spill_manifest_inv exact s0 io la d) in Hq. by destruct (spill_manifest _ _ _ _).
    - destruct (spill_redis_maps io k la n (set_large h p)) as (Hm & _ & Hb & Hk & Hn).
      assert (refs_inv exact s0 [] (outcome (spill_redis io k la n (set_large h p)))).
      { apply (refs_inv_frame _ _ _ _ _ Hq); rewrite ?Hm, ?Hb, ?Hk; eauto. }
      by destruct (spill_redis _ _ _ _ _). }
  destruct (pop_if _ (disk_candidates p)) as [[c h]|]; [|done].
  assert (refs_inv exact s0 [] (set_disk_cands h p)) by by destruct Hp.
  destruct c; simpl; auto using drop_manifest_inv.
Qed.

(** ** After the loop *)

(** What survives a whole pass, early return included. *)
Record pass_keeps (exact : Prop) s0 s' : Prop := {
  pk_kept : forall d b0, blobs s0 !! d = Some b0 ->
    (exact /\ 0 < refcount d (manifests s')) \/ in_grace s0 b0 -> is_Some (blobs s' !! d)
}.

Lemma sweep_inv exact s0 io p :
  refs_inv exact s0 [] p -> pass_keeps exact s0 (ps (sweep io p)).
Proof.
  intros [H1 H2 H3 H4]. unfold sweep. simpl.
  assert (manifests (foldl (sweep_blob io) (ps p) (map_iter (bks p))) = manifests (ps p) /\
    now (foldl (sweep_blob io) (ps p) (map_iter (bks p))) = now s0 /\
    pass_keeps exact s0 (foldl (sweep_blob io) (ps p) (map_iter (bks p)))) as [_ [_ ?]]; [|done].
  apply (foldl_inv (fun s => manifests s = manifests (ps p) /\ now s = now s0 /\
    pass_keeps exact s0 s)).
  { split_and!; [done|done|]. split. intros d b0 Hd Hor. apply (H4 d b0 Hd).
    by rewrite Z.add_0_r. }
  intros s [r bb] Hin%elem_of_map_iter (Hm & Hn & Hk). unfold sweep_blob. simpl.
  destruct (_ || _) eqn:E; [done|]. apply orb_false_iff in E as [E1 E2].
  apply negb_false_iff, N.eqb_eq in E1. apply N.ltb_ge in E2.
  destruct (remove_blob_lookup r r s) as [Hrm _].
  pose proof (se_now _ _ (remove_blob_env r s)) as Hrn.
  assert (Hrest : forall d, d <> r -> blobs (remove_blob r s).2 !! d = blobs s !! d)
    by (intros d; apply (remove_blob_lookup d r s)).
  destruct (remove_blob r s) as [[b|] s1]; simpl in *; [|done].
  set (s2 := match b with Blob.OnDisk _ _ _ _ => _ | _ => _ end).
  assert (manifests s2 = manifests s1 /\ now s2 = now s1 /\ blobs s2 = blobs s1)
    as (-> & -> & Hb2) by by destruct b.
  split_and!; [congruence|congruence|]. split. intros d b0 Hd Hor. rewrite Hb2.
  assert (manifests s2 = manifests s) as Hms by (destruct b; exact Hrm). rewrite Hms in Hor.
  destruct (decide (d = r)) as [->|Hne]; [exfalso|rewrite Hrest by done; by apply Hk in Hd].
  destruct Hor as [[He Hp]|Hg].
  - specialize (H3 He r bb Hin). rewrite Hm in Hp. unfold occ in H3. simpl in H3. lia.
  - destruct (H2 r bb Hin) as (b1 & Hb1 & Hl). rewrite Hd in Hb1. injection Hb1 as <-.
    unfold in_grace, saturating_sub, BLOB_GRACE_SECONDS in *. rewrite Hl, Hn in E2. lia.
Qed.

Lemma publish_maps p :
  blobs (publish p) = blobs (ps p) /\ manifests (publish p) = manifests (ps p) /\
  tags (publish p) = tags (ps p) /\ redis_entries (publish p) = redis_entries (ps p) /\
  disk (publish p) = disk (ps p) /\ same_env (ps p) (publish p).
Proof. done. Qed.

Lemma scan_refs_inv (exact : Prop) s :
  (exact -> forall d, refcount d (manifests s) < Z.of_N U32) -> refs_inv exact s [] (scan s).
Proof.
  intros Hx. pose proof (scan_tally s) as Ht. split.
  - by rewrite scan_ps.
  - intros d bb Hd. specialize (Ht d). rewrite Hd in Ht. destruct Ht as (b & Hb & _ & Hl & _). eauto.
  - intros He d bb Hd. specialize (Ht d). rewrite Hd in Ht. destruct Ht as (b & _ & _ & _ & -> & _).
    rewrite scan_ps, Z.mod_small; [unfold occ; simpl; lia|].
    split; [apply refcount_nonneg | by apply Hx].
  - intros d b0 Hd _. rewrite scan_ps. eauto.
Qed.

Lemma evict_pass_keeps (exact : Prop) io s s' ok :
  (exact -> forall d, refcount d (manifests s) < Z.of_N U32) ->
  evict io s = Some (s', ok) -> pass_keeps exact s s'.
Proof.
  intros Hx. unfold evict. set (sm := metric_add eviction_runs 1 s).
  pose proof (scan_refs_inv exact sm Hx) as Hscan.
  destruct (evict_loop io _ (scan sm)) as [r|] eqn:El; [|done].
  apply (evict_loop_ind io (refs_inv exact sm []) (refs_inv exact sm [])) in El; [|..].
  - destruct r as [p|p]; intros [= <- <-].
    + destruct El as [Hp _]. apply (sweep_inv exact sm io) in Hp.
      destruct (publish_maps (sweep io p)) as (Hb & Hm & _).
      split. rewrite Hb, Hm. apply Hp.
    + destruct El as [H1 H2 H3 H4]. split. intros d b0 Hd Hor. apply (H4 d b0 Hd).
      by rewrite Z.add_0_r.
  - intros p Hp. pose proof (iteration_refs_inv exact sm io p Hp). by destruct (evict_iteration io p).
  - done.
Qed.

(** C4: a pass, successful or not, never deletes a blob that a manifest which
    survives it references, as long as no blob has 2^32 references. *)
Theorem evict_keeps_referenced io s s' ok k m d :
  (forall d, refcount d (manifests s) < Z.of_N U32) ->
  evict io s = Some (s', ok) ->
  manifests s' !! k = Some m -> d ∈ referenced_digests (m_content m) ->
  is_Some (blobs s !! d) -> is_Some (blobs s' !! d).
Proof.
  intros Hx He Hk Hd [b0 Hb]. destruct (evict_pass_keeps True io s s' ok (fun _ => Hx) He) as [Hp].
  apply (Hp d b0 Hb). left. split; [done|]. by eapply refcount_pos.
Qed.

(** C32: a blob used within the last five hours survives a pass, whether a
    manifest references it or not: a push in progress keeps its layers. *)
Theorem evict_keeps_recent io s s' ok d b :
  evict io s = Some (s', ok) -> blobs s !! d = Some b ->
  (now s - BLOB_GRACE_SECONDS < Blob.last_accessed b)%N -> is_Some (blobs s' !! d).
Proof.
  intros He Hb Hg. destruct (evict_pass_keeps False io s s' ok ltac:(done) He) as [Hp].
  apply (Hp d b Hb). by right.
Qed.
End refs.
