(* ===== verification/EvictionMaps.v ===== *)
(** * Eviction: manifests and tags

    A pass never changes what a manifest says: a surviving manifest has its
    old content, media type and last use. The tag map keeps exactly the tags
    whose manifest survived. *)
From S2P Require Import Prelude Digest Env Config State Eviction EvictionFrame EvictionRefs.

Section maps.
Context {SHA : Sha256} {ITER : MapIter} {JSON : SerdeJson} {HEAP : BinaryHeap}.
Implicit Types (s : State) (p : Pass) (old : bool).

(** Every tag points at a cached manifest. *)
Definition tags_valid s : Prop := forall t d, tags s !! t = Some d -> is_Some (manifests s !! d).

Definition same_manifest (m m' : Manifest) : Prop :=
  m_content m' = m_content m /\ m_media_type m' = m_media_type m /\
  m_last_used m' = m_last_used m /\ (m_evicted m = true -> m_evicted m' = true).

Record maps_inv s0 s : Prop := {
  mi_manifests : forall k m', manifests s !! k = Some m' ->
    exists m, manifests s0 !! k = Some m /\ same_manifest m m';
  mi_tags : forall t d, tags s !! t = Some d <->
    tags s0 !! t = Some d /\ is_Some (manifests s !! d)
}.

Lemma maps_inv_same s0 s s' :
  manifests s' = manifests s -> tags s' = tags s -> maps_inv s0 s -> maps_inv s0 s'.
Proof. intros Hm Ht [H1 H2]. split; intros *; rewrite ?Hm, ?Ht; auto. Qed.

Lemma maps_inv_refl s : tags_valid s -> maps_inv s s.
Proof.
  intros Hv. split.
  - intros k m Hm. exists m. done.
  - intros t d. split; [|by intros []]. intros Ht. split; [done|]. by eapply Hv.
Qed.

Lemma drop_ref_tags io old p r : tags (ps (drop_ref io old p r)) = tags (ps p).
Proof.
  unfold drop_ref. destruct (bks p !! r) as [bb|]; [|done]. cbv zeta.
  destruct (_ || _); [done|]. unfold remove_blob. pass_simpl.
  destruct (blobs (ps p) !! r) as [b|]; [|done].
  destruct (blob_bucket b), b; [|case_match]; done.
Qed.

Lemma drop_refs_maps io old rs p :
  manifests (ps (foldl (drop_ref io old) p rs)) = manifests (ps p) /\
  tags (ps (foldl (drop_ref io old) p rs)) = tags (ps p).
Proof.
  apply (foldl_inv (fun q => manifests (ps q) = manifests (ps p) /\ tags (ps q) = tags (ps p)));
    [done|].
  intros q r _ [<- <-]. split; [apply (drop_ref_blobs io old q r r) | apply drop_ref_tags].
Qed.

Lemma drop_manifest_maps s0 io k p :
  maps_inv s0 (ps p) -> maps_inv s0 (ps (drop_manifest io k p)).
Proof.
  intros [H1 H2]. unfold drop_manifest, remove_manifest.
  destruct (manifests (ps p) !! k) as [m|] eqn:Ek; [|done].
  match goal with |- maps_inv _ (ps (foldl (drop_ref io ?old) ?q ?rs)) =>
    destruct (drop_refs_maps io old rs q) as [Hm Ht] end.
  eapply maps_inv_same; [exact Hm|exact Ht|]. pass_simpl. split; state_simpl.
  - intros k' m' [_ Hk']%lookup_delete_Some. by apply H1.
  - intros t d. rewrite map_lookup_filter_Some. simpl. rewrite H2.
    destruct (decide (k = d)) as [->|Hne].
    + rewrite lookup_delete_eq. split; [naive_solver|]. intros [_ [? ?]]. done.
    + rewrite lookup_delete_ne by done. naive_solver.
Qed.

Lemma spill_manifest_maps s0 io la k p :
  maps_inv s0 (ps p) -> maps_inv s0 (ps (outcome (spill_manifest io la k p))).
Proof.
  intros [H1 H2]. unfold spill_manifest.
  destruct (manifests (ps p) !! k) as [m|] eqn:Ek; [|done]. cbv zeta.
  set (p1 := set_ps _ p).
  assert (Hp1 : maps_inv s0 (ps p1)).
  { subst p1. split; pass_simpl.
    - intros k' m' [[<- <-]|[_ Hk']]%lookup_insert_Some; [|by apply H1].
      destruct (H1 k m Ek) as (m0 & Hm0 & ? & ? & ? & ?). exists m0.
      unfold same_manifest. simpl. auto.
    - intros t d. rewrite H2. destruct (decide (k = d)) as [->|Hne].
      + rewrite lookup_insert_eq, Ek. naive_solver.
      + by rewrite lookup_insert_ne. }
  pose proof (spill_refs_keep (fun q => maps_inv s0 (ps q)) io (m_evicted m) p1
    (referenced_digests (m_content m))) as Hk.
  destruct (spill_refs _ _ _ _) as [q|q]; simpl in *; apply Hk; try done;
    intros q' r Hq'; destruct (spill_ref_maps io (m_evicted m) q' r) as (? & ? & _);
    by eapply maps_inv_same.
Qed.

Lemma iteration_maps s0 io p :
  maps_inv s0 (ps p) ->
  match evict_iteration io p with
  | Continue q | Fail q => maps_inv s0 (ps q)
  | Break _ => True
  end.
Proof.
  intros Hp.
  assert (Hredis : forall b k n q, maps_inv s0 (ps q) -> maps_inv s0 (ps (drop_redis b k n q))).
  { intros b k n q Hq. destruct (drop_redis_maps b k n q) as (Hm & _ & Ht & _).
    by eapply maps_inv_same. }
  unfold evict_iteration.
  destruct (pop_if _ (small_memory_candidates p)) as [[c h]|].
  { destruct c; simpl; auto using drop_manifest_maps. }
  destruct (pop_if _ (large_memory_candidates p)) as [[c h]|].
  { destruct c as [la d|k la n]; simpl.
    - pose proof (spill_manifest_maps s0 io la d (set_large h p) Hp) as H.
      by destruct (spill_manifest _ _ _ _).
    - destruct (spill_redis_maps io k la n (set_large h p)) as (Hm & Ht & _).
      pose proof (maps_inv_same s0 _ _ Hm Ht Hp). by destruct (spill_redis _ _ _ _ _). }
  destruct (pop_if _ (disk_candidates p)) as [[c h]|]; [|done].
  destruct c; simpl; auto using drop_manifest_maps.
Qed.

Lemma sweep_blob_maps io s e :
  manifests (sweep_blob io s e) = manifests s /\ tags (sweep_blob io s e) = tags s /\
  redis_entries (sweep_blob io s e) = redis_entries s.
Proof.
  unfold sweep_blob. destruct (_ || _); [done|]. unfold remove_blob.
  destruct (blobs s !! e.1) as [b|]; [|done]. by destruct (blob_bucket b), b.
Qed.

Lemma sweep_maps io p :
  manifests (ps (sweep io p)) = manifests (ps p) /\ tags (ps (sweep io p)) = tags (ps p) /\
  redis_entries (ps (sweep io p)) = redis_entries (ps p).
Proof.
  unfold sweep. pass_simpl.
  apply (foldl_inv (fun s => manifests s = manifests (ps p) /\ tags s = tags (ps p) /\
    redis_entries s = redis_entries (ps p))); [done|].
  intros s e _ (<- & <- & <-). apply sweep_blob_maps.
Qed.

Lemma evict_maps_inv io s s' ok : tags_valid s -> evict io s = Some (s', ok) -> maps_inv s s'.
Proof.
  intros Hv. unfold evict. set (sm := metric_add eviction_runs 1 s).
  assert (Hscan : maps_inv s (ps (scan sm))) 
    by (rewrite scan_ps; apply (maps_inv_same s s); [done|done|by apply maps_inv_refl]).
  destruct (evict_loop io _ (scan sm)) as [r|] eqn:El; [|done].
  apply (evict_loop_ind io (fun p => maps_inv s (ps p)) (fun p => maps_inv s (ps p))) in El.
  - destruct r as [p|p]; intros [= <- <-]; [|done]. destruct El as [Hp _].
    destruct (sweep_maps io p) as (Hm & Ht & _).
    by apply (maps_inv_same s (ps p)).
  - intros p Hp. pose proof (iteration_maps s io p Hp). by destruct (evict_iteration io p).
  - done.
Qed.

(** A pass, successful or not, drops exactly the tags whose manifest it
    dropped, and keeps the others as they are: no tag dangles. *)
Theorem evict_tags io s s' ok :
  tags_valid s -> evict io s = Some (s', ok) ->
  forall t d, tags s' !! t = Some d <-> tags s !! t = Some d /\ is_Some (manifests s' !! d).
Proof. intros Hv He. by destruct (evict_maps_inv io s s' ok Hv He). Qed.

(** A surviving manifest keeps its bytes, its media type and its last use. *)
Lemma evict_manifests_unchanged io s s' ok k m' :
  tags_valid s -> evict io s = Some (s', ok) -> manifests s' !! k = Some m' ->
  exists m, manifests s !! k = Some m /\ m_content m' = m_content m /\
    m_media_type m' = m_media_type m /\ m_last_used m' = m_last_used m.
Proof.
  intros Hv He Hk. destruct (evict_maps_inv io s s' ok Hv He) as [H1 _].
  destruct (H1 k m' Hk) as (m & ? & ? & ? & ? & _). eauto.
Qed.
End maps.
