(* ===== verification/EvictionUsage.v ===== *)
(** * Eviction: the accumulators, the budgets, and what is published

    While a pass runs its local accumulators are exact, except that the small
    redis accumulator keeps the key bytes of every entry removed so far
    ([drift]). Hence the loop stops only when each budget really holds or
    nothing of its kind is left; and the published counters never
    under-report, and over-report by the keys of the removed redis entries and
    by the blobs of the final sweep. *)
From S2P Require Import Prelude Digest Env Config State Accounting Eviction EvictionFrame.
From S2P Require Import EvictionRefs EvictionMaps.

Local Open Scope Z_scope.

Definition sum7 (f : Bucket -> Z) : Z :=
  f manifest_memory_usage + f small_blob_memory_usage + f large_blob_memory_usage +
  f small_redis_memory_usage + f large_redis_memory_usage + f blob_disk_usage +
  f redis_disk_usage.

Section usage.
Context {SHA : Sha256} {ITER : MapIter} {JSON : SerdeJson} {HEAP : BinaryHeap}.
Implicit Types (s : State) (p : Pass) (b : Bucket) (old : bool).

Definition keybytes s : Z := msum (fun k _ => Z.of_N (blen k)) (redis_entries s).
Definition drift s0 b s : Z :=
  if decide (b = small_redis_memory_usage) then keybytes s0 - keybytes s else 0.

Lemma charge_ext b s s' :
  manifests s' = manifests s -> blobs s' = blobs s -> redis_entries s' = redis_entries s ->
  charge b s' = charge b s.
Proof. intros Hm Hb Hr. unfold charge. by rewrite Hm, Hb, Hr. Qed.

Lemma drift_ext s0 b s s' : redis_entries s' = redis_entries s -> drift s0 b s' = drift s0 b s.
Proof. intros Hr. unfold drift, keybytes. by rewrite Hr. Qed.

(** The bucket of a blob is one of three. *)
Lemma blob_bucket_tier bl : blob_bucket bl = (tier_bucket (blob_tier bl).1, (blob_tier bl).2).
Proof. destruct bl; simpl; [done|]. by case_match. Qed.

Lemma blob_bucket_not_manifest bl : (blob_bucket bl).1 <> manifest_memory_usage.
Proof. rewrite blob_bucket_tier. simpl. by destruct (blob_tier bl).1. Qed.

Lemma charge_remove_blob b r s :
  charge b (remove_blob r s).2 = charge b s - from_option (blob_share b) 0 (blobs s !! r).
Proof.
  unfold remove_blob. destruct (blobs s !! r) as [bl|] eqn:E; simpl; [|lia].
  destruct (blob_bucket bl). simpl.
  rewrite (charge_ext _ (set_blobs (delete r (blobs s)) s)) by done.
  rewrite charge_set_blobs_delete, E. done.
Qed.

Lemma charge_insert_blob b r bl s :
  charge b (insert_blob r bl s) =
  charge b s + blob_share b bl - from_option (blob_share b) 0 (blobs s !! r).
Proof.
  destruct (insert_blob_maps r bl s) as (Hm & Hb & _ & Hr).
  rewrite (charge_ext _ (set_blobs (<[r := bl]> (blobs s)) s)) by done.
  apply charge_set_blobs_insert.
Qed.

(** Blob operations leave the manifest counter alone. *)
Lemma remove_blob_manifest_usage r s :
  usage (remove_blob r s).2 manifest_memory_usage = usage s manifest_memory_usage.
Proof.
  unfold remove_blob. destruct (blobs s !! r) as [bl|]; [|done].
  pose proof (blob_bucket_not_manifest bl). destruct (blob_bucket bl); simpl in *.
  by rewrite fn_lookup_insert_ne.
Qed.

Lemma insert_blob_manifest_usage r bl s :
  usage (insert_blob r bl s) manifest_memory_usage = usage s manifest_memory_usage.
Proof.
  unfold insert_blob. pose proof (blob_bucket_not_manifest bl).
  destruct (blob_bucket bl). state_simpl.
  destruct (blobs s !! r) as [o|]; [|simpl; by rewrite fn_lookup_insert_ne].
  pose proof (blob_bucket_not_manifest o). destruct (blob_bucket o). simpl in *.
  by rewrite !fn_lookup_insert_ne.
Qed.

Lemma remove_redis_manifest_usage k s :
  usage (remove_redis k s).2 manifest_memory_usage = usage s manifest_memory_usage.
Proof.
  unfold remove_redis. destruct (redis_entries s !! k) as [e|]; [|done].
  assert ((redis_value_bucket e).1 <> manifest_memory_usage) by (destruct e; simpl; [by case_match|done]).
  destruct (redis_value_bucket e), e; simpl in *; by rewrite !fn_lookup_insert_ne.
Qed.

(** ** The invariant *)
Record acc_inv s0 p : Prop := {
  ai_exact : forall b, Z.of_N (acc p b) = charge b (ps p) + drift s0 b (ps p);
  ai_keys : keybytes (ps p) <= keybytes s0;
  ai_total : sum7 (fun b => Z.of_N (acc p b)) <= total_charge s0;
  ai_tier : forall d bb id c mt la, bks p !! d = Some bb -> bk_tier bb = LargeMem ->
    blobs (ps p) !! d = Some (Blob.InMemory id c mt la) -> (MEMORY_TIER_THRESHOLD < blen c)%N;
  ai_manifest : usage (ps p) manifest_memory_usage = wrap_i64 (charge manifest_memory_usage (ps p))
}.

(** Steps that touch neither the maps nor the accumulators. *)
Lemma acc_inv_same s0 p p' :
  acc_inv s0 p -> (forall b, acc p' b = acc p b) ->
  manifests (ps p') = manifests (ps p) -> blobs (ps p') = blobs (ps p) ->
  redis_entries (ps p') = redis_entries (ps p) ->
  usage (ps p') manifest_memory_usage = usage (ps p) manifest_memory_usage ->
  (forall d bb, bks p' !! d = Some bb -> exists bb0, bks p !! d = Some bb0 /\ bk_tier bb = bk_tier bb0) ->
  acc_inv s0 p'.
Proof.
  intros [H1 H2 H3 H4 H5] Ha Hm Hb Hr Hu Ht.
  assert (Hc : forall b, charge b (ps p') = charge b (ps p)) by (intros; by apply charge_ext).
  split.
  - intros b. by rewrite Ha, Hc, (drift_ext s0 b _ _ Hr).
  - unfold keybytes in *. by rewrite Hr.
  - unfold sum7 in *. by rewrite !Ha.
  - intros d bb id c mt la Hd Htier. rewrite Hb. destruct (Ht d bb Hd) as (bb0 & Hd0 & He).
    apply (H4 d bb0); congruence.
  - by rewrite Hu, Hc.
Qed.

Lemma sum7_sub (f : Bucket -> N) b n :
  (n <= f b)%N ->
  sum7 (fun b' => Z.of_N (<[b := saturating_sub (f b) n]> f b')) = sum7 (fun b => Z.of_N (f b)) - Z.of_N n.
Proof.
  intros Hn. unfold sum7, saturating_sub.
  destruct b; rewrite fn_lookup_insert, !fn_lookup_insert_ne by done; lia.
Qed.

(** One accumulator goes down by what its bucket loses. *)
Lemma acc_inv_sub s0 p p' b n :
  acc_inv s0 p -> (n <= acc p b)%N ->
  acc p' = <[b := saturating_sub (acc p b) n]> (acc p) ->
  (forall b', charge b' (ps p') + drift s0 b' (ps p') =
     charge b' (ps p) + drift s0 b' (ps p) - share b' (b, n)) ->
  keybytes (ps p') <= keybytes (ps p) ->
  usage (ps p') manifest_memory_usage = wrap_i64 (charge manifest_memory_usage (ps p')) ->
  (forall d bb, bks p' !! d = Some bb -> exists bb0, bks p !! d = Some bb0 /\ bk_tier bb = bk_tier bb0) ->
  (forall d x, blobs (ps p') !! d = Some x -> blobs (ps p) !! d = Some x) ->
  acc_inv s0 p'.
Proof.
  intros [H1 H2 H3 H4 H5] Hn Ha Hc Hk Hu Ht Hb. split; [| | | |done].
  - intros b'. rewrite Hc, Ha. unfold share, saturating_sub; simpl. specialize (H1 b').
    destruct (decide (b = b')) as [<-|Hne].
    + rewrite fn_lookup_insert. lia.
    + rewrite fn_lookup_insert_ne by done. lia.
  - lia.
  - rewrite Ha, sum7_sub by done. lia.
  - intros d bb id c mt la Hd Htier Hbl. destruct (Ht d bb Hd) as (bb0 & Hd0 & He).
    apply (H4 d bb0 id c mt la); [done|congruence|by apply Hb].
Qed.

Lemma acc_ge s0 p b n :
  acc_inv s0 p -> share b (b, n) <= charge b (ps p) -> (n <= acc p b)%N.
Proof.
  intros [H1 H2 _ _ _]. unfold share. simpl. rewrite decide_True by done. intros Hn.
  specialize (H1 b). unfold drift in H1. case_decide; lia.
Qed.

Lemma charge_ge_blob b s d bl : blobs s !! d = Some bl -> blob_share b bl <= charge b s.
Proof.
  intros Hd. pose proof (charge_nonneg b (set_blobs (delete d (blobs s)) s)) as Hn.
  rewrite charge_set_blobs_delete, Hd in Hn. simpl in Hn. lia.
Qed.

Lemma charge_ge_redis b s k e : redis_entries s !! k = Some e -> redis_share b k e <= charge b s.
Proof.
  intros Hd. pose proof (charge_nonneg b (set_redis_entries (delete k (redis_entries s)) s)) as Hn.
  rewrite charge_set_redis_delete, Hd in Hn. simpl in Hn. lia.
Qed.

(** ** The cascade *)
Lemma drop_ref_view io old p r :
  let q := drop_ref io old p r in
  (forall d bb, bks q !! d = Some bb -> exists bb0, bks p !! d = Some bb0 /\ bk_tier bb = bk_tier bb0) /\
  manifests (ps q) = manifests (ps p) /\ redis_entries (ps q) = redis_entries (ps p) /\
  usage (ps q) manifest_memory_usage = usage (ps p) manifest_memory_usage /\
  ((blobs (ps q) = blobs (ps p) /\ acc q = acc p) \/
   exists bl, blobs (ps p) !! r = Some bl /\ blobs (ps q) = delete r (blobs (ps p)) /\
     acc q = <[(blob_bucket bl).1 := saturating_sub (acc p (blob_bucket bl).1) (blob_bucket bl).2]> (acc p)).
Proof.
  intros q. split; [|].
  { intros d bb. subst q. rewrite drop_ref_bks. destruct (bks p !! r) as [b0|] eqn:E; [|eauto].
    intros [[<- <-]|[_ Hd]]%lookup_insert_Some; eauto. }
  subst q. unfold drop_ref. destruct (bks p !! r) as [bb|]; [|by auto 10].
  cbv zeta. destruct (_ || _); [by auto 10|]. pass_simpl.
  pose proof (remove_blob_manifest_usage r (ps p)) as Hu. unfold remove_blob in *.
  destruct (blobs (ps p) !! r) as [bl|]; [|by auto 10].
  destruct (blob_bucket bl) as [b n] eqn:Eb. pass_simpl.
  destruct bl as [id size mt la|id c mt la]; simpl in Eb.
  - simplify_eq. split_and!; try done. right. eexists. by split_and!.
  - destruct (MEMORY_TIER_THRESHOLD <? blen c)%N eqn:Et; simplify_eq;
      (split_and!; try done; right; eexists; split_and!; [done|done|]); simpl; by rewrite Et.
Qed.

Lemma drop_ref_acc s0 io old p r : acc_inv s0 p -> acc_inv s0 (drop_ref io old p r).
Proof.
  intros Hp. destruct (drop_ref_view io old p r) as (Hbk & Hm & Hr & Hu & [[Hb Ha]|Hx]).
  - eapply acc_inv_same; eauto. intros b. by rewrite Ha.
  - destruct Hx as (bl & Hbl & Hb & Ha).
    assert (Hc : forall b, charge b (ps (drop_ref io old p r)) = charge b (ps p) - blob_share b bl).
    { intros b. rewrite (charge_ext b (set_blobs (delete r (blobs (ps p))) (ps p))) by done.
      by rewrite charge_set_blobs_delete, Hbl. }
    destruct (blob_bucket bl) as [b n] eqn:Eb. simpl in *.
    eapply (acc_inv_sub s0 p _ b n); eauto.
    + apply (acc_ge s0 p b n Hp). pose proof (charge_ge_blob b (ps p) r bl Hbl) as Hge.
      unfold blob_share in Hge. by rewrite Eb in Hge.
    + intros b'. rewrite Hc, (drift_ext s0 b' _ _ Hr). unfold blob_share. rewrite Eb. lia.
    + unfold keybytes. by rewrite Hr.
    + rewrite Hu, Hc, (ai_manifest _ _ Hp). f_equal. unfold blob_share, share. rewrite Eb. simpl.
      rewrite decide_False; [lia|]. pose proof (blob_bucket_not_manifest bl) as Hn. by rewrite Eb in Hn.
    + intros d x. rewrite Hb. by intros [_ ?]%lookup_delete_Some.
Qed.

Lemma drop_manifest_acc s0 io k p : acc_inv s0 p -> acc_inv s0 (drop_manifest io k p).
Proof.
  intros Hp. unfold drop_manifest, remove_manifest.
  destruct (manifests (ps p) !! k) as [m|] eqn:Ek; [|done].
  apply foldl_inv; [|intros q r _ Hq; by apply drop_ref_acc].
  set (n := blen (m_content m)).
  assert (Hc : forall b s, manifests s = delete k (manifests (ps p)) -> blobs s = blobs (ps p) ->
    redis_entries s = redis_entries (ps p) ->
    charge b s = charge b (ps p) - share b (manifest_memory_usage, n)).
  { intros b s Hm Hb Hr.
    rewrite (charge_ext b (set_manifests (delete k (manifests (ps p))) (ps p))) by done.
    by rewrite charge_set_manifests_delete, Ek. }
  eapply (acc_inv_sub s0 p _ manifest_memory_usage n); eauto; try done.
  - apply (acc_ge s0 p _ n Hp).
    pose proof (charge_nonneg manifest_memory_usage
      (set_manifests (delete k (manifests (ps p))) (ps p))) as Hn.
    rewrite (Hc _ (set_manifests _ _)) in Hn by done. lia.
  - intros b. rewrite Hc by done. rewrite (drift_ext s0 b (ps p)) by done. lia.
  - rewrite Hc by done. pass_simpl. rewrite fn_lookup_insert, (ai_manifest _ _ Hp).
    rewrite wrap_i64_sub. done.
Qed.

(** ** Redis entries *)
Lemma drop_redis_acc s0 b k n p e :
  acc_inv s0 p -> redis_entries (ps p) !! k = Some e -> redis_value_bucket e = (b, n) ->
  acc_inv s0 (drop_redis b k n p).
Proof.
  intros Hp Hk Hb.
  assert (Hge : (n <= acc p b)%N).
  { apply (acc_ge s0 p b n Hp). pose proof (charge_ge_redis b (ps p) k e Hk) as Hge.
    unfold redis_share in Hge. rewrite Hb in Hge.
    pose proof (share_nonneg b (small_redis_memory_usage, blen k)). lia. }
  pose proof (remove_redis_manifest_usage k (ps p)) as Hu.
  pose proof (remove_redis_maps k (ps p)) as (Hm & Hbl & _).
  assert (Hr : redis_entries (remove_redis k (ps p)).2 = delete k (redis_entries (ps p)) /\
               (remove_redis k (ps p)).1 = true).
  { unfold remove_redis. rewrite Hk. destruct (redis_value_bucket e), e; done. }
  unfold drop_redis. destruct (remove_redis k (ps p)) as [rm s]. simpl in *.
  destruct Hr as [Hr ->].
  assert (Hc : forall b', charge b' s = charge b' (ps p) - redis_share b' k e).
  { intros b'. rewrite (charge_ext b' (set_redis_entries (delete k (redis_entries (ps p))) (ps p))) by done.
    by rewrite charge_set_redis_delete, Hk. }
  assert (Hkb : keybytes s = keybytes (ps p) - Z.of_N (blen k)).
  { unfold keybytes. by rewrite Hr, msum_delete, Hk. }
  set (q := set_ps _ _).
  assert (Hq : forall b', charge b' (ps q) = charge b' s) by (intros; by apply charge_ext).
  eapply (acc_inv_sub s0 p q b n); eauto; [..|pass_simpl; eauto|].
  - intros b'. change (drift s0 b' (ps q)) with (drift s0 b' s). rewrite Hq, Hc.
    unfold drift, redis_share. rewrite Hb, Hkb. unfold share. simpl.
    repeat case_decide; simplify_eq; try congruence; lia.
  - change (keybytes (ps q)) with (keybytes s). lia.
  - rewrite Hq, Hc. change (usage (ps q)) with (usage s).
    rewrite Hu, (ai_manifest _ _ Hp). f_equal.
    unfold redis_share, share. rewrite Hb. simpl.
    rewrite decide_False; [|destruct e; simpl in Hb; repeat case_match; congruence]. lia.
  - intros d x. subst q. pass_simpl. by rewrite Hbl.
Qed.
End usage.
