(* ===== verification/EvictionBudget.v ===== *)
(** * Eviction: budgets and published counters

    The full invariant of the loop: exact accumulators ([acc_inv]) and heaps
    that hold every manifest and every redis entry under the bucket it is
    charged to ([cand_inv]). From it: what holds when the pass returns. *)
From S2P Require Import Prelude Digest Env Config State Accounting Eviction EvictionFrame.
From S2P Require Import EvictionRefs EvictionMaps EvictionUsage.

Local Open Scope Z_scope.

(** The redis keys of a heap, with their sizes. *)
Definition redis_cand (c : EvictionCandidate) : option (bytes * N) :=
  match c with CRedis k _ n => Some (k, n) | CManifest _ _ => None end.
Definition redis_cands (h : list EvictionCandidate) : list (bytes * N) := omap redis_cand h.

Lemma redis_cands_cons c h :
  redis_cands (c :: h) = match redis_cand c with Some x => x :: redis_cands h | None => redis_cands h end.
Proof. done. Qed.

#[export] Instance redis_cands_perm : Proper ((≡ₚ) ==> (≡ₚ)) redis_cands.
Proof. intros h h' Hh. unfold redis_cands. by rewrite Hh. Qed.

Section budget.
Context {SHA : Sha256} {ITER : MapIter} {JSON : SerdeJson} {HEAP : BinaryHeap}.
Implicit Types (s : State) (p : Pass) (b : Bucket) (old : bool).

(** ** Spilling keeps the accumulators exact *)
Lemma write_blob_usage io id c s : usage (write_blob_to_disk io id c s).1 = usage s.
Proof. unfold write_blob_to_disk. case_match; [|done]. by destruct (fs_write _ _ _ _). Qed.

Lemma sum7_move (f : Bucket -> N) b1 b2 n :
  b1 <> b2 -> (n <= f b1)%N -> sum7 (fun b => Z.of_N (f b)) < I63 ->
  let g := <[b1 := saturating_sub (f b1) n]> f in
  u64_saturating_add (g b2) n = (f b2 + n)%N /\
  sum7 (fun b => Z.of_N (<[b2 := (f b2 + n)%N]> g b)) = sum7 (fun b => Z.of_N (f b)).
Proof.
  intros Hne Hn Hs g. subst g. unfold sum7, saturating_sub, u64_saturating_add, U64, I63 in *.
  destruct b1, b2; try done;
    repeat first [rewrite fn_lookup_insert | rewrite fn_lookup_insert_ne by done]; lia.
Qed.

(** A move of [n] bytes from bucket [b1] to bucket [b2]. *)
Lemma acc_inv_move s0 p p' b1 b2 n :
  total_charge s0 < I63 -> acc_inv s0 p -> b1 <> b2 -> (n <= acc p b1)%N ->
  (forall b, acc p' b = acc (acc_add b2 n (acc_sub b1 n p)) b) ->
  (forall b, charge b (ps p') = charge b (ps p) + share b (b2, n) - share b (b1, n)) ->
  b1 <> manifest_memory_usage -> b2 <> manifest_memory_usage ->
  keybytes (ps p') = keybytes (ps p) ->
  usage (ps p') manifest_memory_usage = usage (ps p) manifest_memory_usage ->
  (forall d bb id c mt la, bks p' !! d = Some bb -> bk_tier bb = LargeMem ->
    blobs (ps p') !! d = Some (Blob.InMemory id c mt la) -> (MEMORY_TIER_THRESHOLD < blen c)%N) ->
  acc_inv s0 p'.
Proof.
  intros Hfit [H1 H2 H3 H4 H5] Hne Hn Ha Hc Hm1 Hm2 Hk Hu Ht.
  destruct (sum7_move (acc p) b1 b2 n Hne Hn ltac:(lia)) as [Hsat Hsum].
  assert (Ha' : forall b, acc p' b =
    <[b2 := (acc p b2 + n)%N]> (<[b1 := saturating_sub (acc p b1) n]> (acc p)) b).
  { intros b. rewrite Ha. pass_simpl. rewrite Hsat. done. }
  split; [| | |done|].
  - intros b. rewrite Ha', Hc. unfold drift. rewrite Hk. specialize (H1 b). unfold drift in H1.
    unfold share, saturating_sub. simpl.
    destruct (decide (b2 = b)) as [<-|Hb2]; [rewrite fn_lookup_insert|rewrite fn_lookup_insert_ne by done].
    + rewrite (decide_False (P := b1 = b2)) by done. lia.
    + destruct (decide (b1 = b)) as [<-|Hb1];
        [rewrite fn_lookup_insert|rewrite fn_lookup_insert_ne by done]; lia.
  - lia.
  - unfold sum7 in *. rewrite !Ha'. lia.
  - rewrite Hu, H5, Hc. f_equal. unfold share. simpl. rewrite !decide_False by done. lia.
Qed.

Lemma spill_ref_acc s0 io old p r :
  total_charge s0 < I63 -> acc_inv s0 p ->
  match spill_ref io old p r with Ok q => acc_inv s0 q | Err _ => True end.
Proof.
  intros Hfit Hp. unfold spill_ref. destruct (bks p !! r) as [bb|] eqn:Er; [|done].
  cbv zeta. set (bb' := if old then bb else _). set (p1 := set_bks (<[r := bb']> (bks p)) p).
  assert (Htier : bk_tier bb' = bk_tier bb) by (subst bb'; by destruct old).
  assert (Hp1 : acc_inv s0 p1).
  { eapply acc_inv_same; eauto. subst p1. pass_simpl.
    intros d x [[<- <-]|[_ Hd]]%lookup_insert_Some; eauto. }
  destruct (_ || _) eqn:Ec; [done|]. apply orb_false_iff in Ec as [_ Ec].
  apply negb_false_iff, bool_decide_eq_true in Ec.
  destruct (blobs (ps p1) !! r) as [[|id c mt la]|] eqn:Eb; [done| |done].
  assert (Hlen : (MEMORY_TIER_THRESHOLD < blen c)%N).
  { apply (ai_tier _ _ Hp1 r bb' id c mt la); [|done|done].
    subst p1. pass_simpl. by rewrite lookup_insert_eq. }
  destruct (write_blob_maps io id c (ps p1)) as (Hwm & Hwb & _ & Hwr).
  pose proof (write_blob_usage io id c (ps p1)) as Hwu.
  destruct (write_blob_to_disk io id c (ps p1)) as [s w]. state_simpl.
  destruct w as [[]|]; [|done].
  set (od := Blob.OnDisk id (blen c) mt la).
  assert (Hin : forall b, blob_share b (Blob.InMemory id c mt la) = share b (large_blob_memory_usage, blen c)).
  { intros b. unfold blob_share. simpl. by rewrite (proj2 (N.ltb_lt _ _) Hlen). }
  destruct (insert_blob_maps r od s) as (Him & Hib & _ & Hir).
  eapply (acc_inv_move s0 p1 _ large_blob_memory_usage blob_disk_usage (blen c)); eauto; try done.
  - apply (acc_ge s0 p1 _ _ Hp1). rewrite <- Hin. by eapply charge_ge_blob.
  - intros b. pass_simpl. rewrite (charge_ext b (insert_blob r od s)) by done.
    rewrite charge_insert_blob, Hwb, Eb. simpl. rewrite Hin.
    rewrite (charge_ext b (ps p1) s) by done. done.
  - unfold keybytes. pass_simpl. by rewrite Hir, Hwr.
  - pass_simpl. by rewrite insert_blob_manifest_usage, Hwu.
  - pass_simpl. intros d x id' c' mt' la' Hd Hx. rewrite Hib.
    destruct (decide (r = d)) as [->|Hne].
    + by rewrite lookup_insert_eq.
    + rewrite lookup_insert_ne, Hwb by done. by apply (ai_tier _ _ Hp1 d x).
Qed.

Lemma spill_manifest_acc s0 io la k p :
  total_charge s0 < I63 -> acc_inv s0 p ->
  match spill_manifest io la k p with Ok q => acc_inv s0 q | Err _ => True end.
Proof.
  intros Hfit Hp. unfold spill_manifest.
  destruct (manifests (ps p) !! k) as [m|] eqn:Ek; [|done]. cbv zeta.
  set (p1 := set_ps _ p).
  assert (Hc : forall b, charge b (ps p1) = charge b (ps p)).
  { intros b. subst p1. pass_simpl. fold (set_manifests
      (<[k := mkManifest (m_content m) (m_media_type m) (m_last_used m) true]> (manifests (ps p))) (ps p)).
    rewrite charge_set_manifests_insert, Ek. simpl. unfold manifest_share. simpl. lia. }
  assert (Hp1 : acc_inv s0 p1).
  { destruct Hp as [H1 H2 H3 H4 H5]. split; auto.
    - intros b. rewrite Hc. exact (H1 b).
    - rewrite Hc. exact H5. }
  assert (H2 : match spill_refs io (m_evicted m) p1 (referenced_digests (m_content m)) with
               | Ok q => acc_inv s0 q | Err _ => True end).
  { unfold spill_refs. apply (foldl_inv (fun a => match a with Ok q => acc_inv s0 q | Err _ => True end));
      [done|].
    intros [q|q] r _ Hq; simpl; [by apply spill_ref_acc|done]. }
  destruct (spill_refs _ _ _ _) as [q|q]; simpl; [|done].
  eapply acc_inv_same; eauto.
Qed.

(** ** The heaps *)
Definition heap_of b p : list EvictionCandidate :=
  match b with
  | small_redis_memory_usage => small_memory_candidates p
  | large_redis_memory_usage => large_memory_candidates p
  | redis_disk_usage => disk_candidates p
  | _ => []
  end.

(** [exk]: a redis key, [exm]: a manifest, popped and not yet processed. *)
Record cand_inv (exk : option bytes) (exm : option Digest) p : Prop := {
  ci_valid : forall b k n, (k, n) ∈ redis_cands (heap_of b p) ->
    exists e, redis_entries (ps p) !! k = Some e /\ redis_value_bucket e = (b, n) /\ exk <> Some k;
  ci_nodup : forall b, NoDup (redis_cands (heap_of b p)).*1;
  ci_redis : forall k e, redis_entries (ps p) !! k = Some e -> exk <> Some k ->
    (k, (redis_value_bucket e).2) ∈ redis_cands (heap_of (redis_value_bucket e).1 p);
  ci_manifest : forall k m, manifests (ps p) !! k = Some m -> exm <> Some k ->
    exists la, CManifest la k ∈ small_memory_candidates p
}.

Lemma cand_inv_same exk exm p p' :
  cand_inv exk exm p -> (forall b, heap_of b p' = heap_of b p) ->
  redis_entries (ps p') = redis_entries (ps p) ->
  (forall k, is_Some (manifests (ps p') !! k) -> is_Some (manifests (ps p) !! k)) ->
  cand_inv exk exm p'.
Proof.
  intros [H1 H2 H3 H4] Hh Hr Hm. split.
  - intros b k n. rewrite Hh, Hr. apply H1.
  - intros b. rewrite Hh. apply H2.
  - intros k e. rewrite Hh, Hr. apply H3.
  - intros k m Hk Hx. specialize (Hh small_redis_memory_usage). simpl in Hh. rewrite Hh.
    destruct (Hm k ltac:(eauto)) as [m' Hm']. by eapply H4.
Qed.

(** The redis values' buckets. *)
Definition redis_bucket b : Prop :=
  b = small_redis_memory_usage \/ b = large_redis_memory_usage \/ b = redis_disk_usage.

Lemma redis_value_bucket_in e : redis_bucket (redis_value_bucket e).1.
Proof. unfold redis_bucket. destruct e; simpl; [case_match|]; simpl; auto. Qed.

(** [set_heap b h p]: the pop replaces one heap. *)
Definition set_heap b h p : Pass :=
  match b with
  | small_redis_memory_usage => set_small h p
  | large_redis_memory_usage => set_large h p
  | redis_disk_usage => set_disk_cands h p
  | _ => p
  end.

Lemma heap_of_set b b' h p :
  redis_bucket b' -> heap_of b (set_heap b' h p) = if decide (b = b') then h else heap_of b p.
Proof. intros [-> | [-> | ->]]; destruct b; done. Qed.

Lemma set_heap_ps b h p : ps (set_heap b h p) = ps p.
Proof. by destruct b. Qed.

(** Popping a redis candidate. *)
Lemma pop_redis b p k la n h :
  redis_bucket b -> cand_inv None None p -> heap_of b p ≡ₚ CRedis k la n :: h ->
  cand_inv (Some k) None (set_heap b h p) /\
  exists e, redis_entries (ps p) !! k = Some e /\ redis_value_bucket e = (b, n).
Proof.
  intros Hb [H1 H2 H3 H4] Hh.
  assert (Hc : redis_cands (heap_of b p) ≡ₚ (k, n) :: redis_cands h) by by rewrite Hh.
  pose proof (H2 b) as Hnd. rewrite Hc in Hnd. apply NoDup_cons in Hnd as [Hk Hnd].
  destruct (H1 b k n) as (e & He & Heb & _); [rewrite Hc; left|]. split; [|eauto].
  split; rewrite ?set_heap_ps.
  - intros b' k' n'. rewrite heap_of_set by done. destruct (decide (b' = b)) as [->|Hne].
    + intros Hin. destruct (H1 b k' n') as (e' & ? & ? & _); [rewrite Hc; by right|].
      exists e'. split_and!; [done|done|]. intros [= <-]. apply Hk.
      apply list_elem_of_fmap. by exists (k, n').
    + intros Hin. destruct (H1 b' k' n' Hin) as (e' & He' & Hb' & _).
      exists e'. split_and!; [done|done|]. intros [= <-]. congruence.
  - intros b'. rewrite heap_of_set by done. by case_decide; [|apply H2].
  - intros k' e' He' Hx. specialize (H3 k' e' He' ltac:(done)).
    rewrite heap_of_set by done. case_decide as Hd; [|done]. rewrite Hd, Hc in H3.
    apply elem_of_cons in H3 as [[= -> _]|?]; [by destruct Hx|done].
  - intros k' m Hm _. destruct (H4 k' m Hm ltac:(done)) as [la' Hla'].
    exists la'. destruct Hb as [-> | [-> | ->]]; simpl in *; [|done|done].
    rewrite Hh in Hla'. apply elem_of_cons in Hla' as [?|?]; done.
Qed.

(** Popping a manifest candidate: only the small heap has to have it. *)
Lemma pop_manifest b p la d h :
  redis_bucket b -> cand_inv None None p -> heap_of b p ≡ₚ CManifest la d :: h ->
  cand_inv None (if decide (b = small_redis_memory_usage) then Some d else None) (set_heap b h p).
Proof.
  intros Hb [H1 H2 H3 H4] Hh.
  assert (Hc : redis_cands (heap_of b p) ≡ₚ redis_cands h) by by rewrite Hh.
  assert (Hc' : forall b', redis_cands (heap_of b' (set_heap b h p)) ≡ₚ redis_cands (heap_of b' p)).
  { intros b'. rewrite heap_of_set by done. by case_decide; [subst|]. }
  split; rewrite ?set_heap_ps.
  - intros b' k n. rewrite Hc'. apply H1.
  - intros b'. rewrite Hc'. apply H2.
  - intros k e. rewrite Hc'. apply H3.
  - intros k m Hm Hx. destruct (H4 k m Hm ltac:(done)) as [la' Hla']. exists la'.
    destruct Hb as [-> | [-> | ->]]; simpl in *; [|done|done].
    rewrite Hh in Hla'. apply elem_of_cons in Hla' as [[= -> ->]|?]; [by destruct Hx|done].
Qed.

Lemma drop_redis_entries b k n p :
  redis_entries (ps (drop_redis b k n p)) = delete k (redis_entries (ps p)) /\
  manifests (ps (drop_redis b k n p)) = manifests (ps p).
Proof.
  split; [|apply (drop_redis_maps b k n p)].
  unfold drop_redis, remove_redis. destruct (redis_entries (ps p) !! k) as [e|] eqn:Ek.
  - destruct (redis_value_bucket e), e; done.
  - simpl. by rewrite delete_id.
Qed.

Lemma drop_redis_cands b k n p :
  cand_inv (Some k) None p -> cand_inv None None (drop_redis b k n p).
Proof.
  intros [H1 H2 H3 H4].
  destruct (drop_redis_entries b k n p) as [Hr Hm].
  destruct (drop_redis_frame b k n p) as [_ Hs Hl Hd].
  assert (Hh : forall b', heap_of b' (drop_redis b k n p) = heap_of b' p)
    by (intros []; simpl; congruence).
  split.
  - intros b' k' n'. rewrite Hh, Hr. intros (e & He & Hb & Hx)%H1. exists e.
    rewrite lookup_delete_ne by congruence. done.
  - intros b'. rewrite Hh. apply H2.
  - intros k' e. rewrite Hh, Hr. intros [Hne He]%lookup_delete_Some _. apply H3; congruence.
  - intros k' m. rewrite Hm, Hs. intros Hk _. by eapply H4.
Qed.

Lemma drop_manifest_entries io d p :
  manifests (ps (drop_manifest io d p)) = delete d (manifests (ps p)) /\
  redis_entries (ps (drop_manifest io d p)) = redis_entries (ps p).
Proof.
  unfold drop_manifest, remove_manifest. destruct (manifests (ps p) !! d) as [m|] eqn:Em.
  - apply (foldl_inv (fun q => manifests (ps q) = _ /\ redis_entries (ps q) = _)); [done|].
    intros q r _ [<- <-]. destruct (drop_ref_view io (m_evicted m) q r) as (_ & ? & ? & _). done.
  - by rewrite delete_id.
Qed.

Lemma drop_manifest_cands io d exm p :
  (exm = None \/ exm = Some d) -> cand_inv None exm p -> cand_inv None None (drop_manifest io d p).
Proof.
  intros Hex [H1 H2 H3 H4].
  destruct (drop_manifest_frame io d p) as [_ Hs Hl Hd].
  assert (Hh : forall b', heap_of b' (drop_manifest io d p) = heap_of b' p)
    by (intros []; simpl; congruence).
  destruct (drop_manifest_entries io d p) as [Hm Hr]. split.
  - intros b' k n. rewrite Hh, Hr. apply H1.
  - intros b'. rewrite Hh. apply H2.
  - intros k e. rewrite Hh, Hr. apply H3.
  - intros k m. rewrite Hm, Hs. intros [Hne Hk]%lookup_delete_Some _.
    apply (H4 k m Hk). destruct Hex as [-> | ->]; congruence.
Qed.

Lemma spill_ref_entries io old p r :
  manifests (ps (outcome (spill_ref io old p r))) = manifests (ps p) /\
  redis_entries (ps (outcome (spill_ref io old p r))) = redis_entries (ps p).
Proof.
  split; [apply (spill_ref_maps io old p r)|].
  unfold spill_ref. destruct (bks p !! r); [|done]. cbv zeta. destruct (_ || _); [done|].
  pass_simpl. destruct (blobs (ps p) !! r) as [[|id c mt l]|]; [done| |done].
  destruct (write_blob_maps io id c (ps p)) as (_ & _ & _ & Hw).
  destruct (write_blob_to_disk io id c (ps p)) as [s w]. state_simpl.
  destruct w; cbn [outcome]; pass_simpl; [|done].
  destruct (insert_blob_maps r (Blob.OnDisk id (blen c) mt l) s) as (_ & _ & _ & ->). done.
Qed.

Lemma spill_refs_entries io old p rs :
  manifests (ps (outcome (spill_refs io old p rs))) = manifests (ps p) /\
  redis_entries (ps (outcome (spill_refs io old p rs))) = redis_entries (ps p).
Proof.
  apply (spill_refs_keep (fun q => manifests (ps q) = _ /\ redis_entries (ps q) = _)); [|done].
  intros q r [<- <-]. apply spill_ref_entries.
Qed.

(** A manifest pushed to a heap carries no redis key. *)
Lemma spill_manifest_cands io la d p :
  cand_inv None None p ->
  match spill_manifest io la d p with Ok q => cand_inv None None q | Err _ => True end.
Proof.
  intros Hp. unfold spill_manifest.
  destruct (manifests (ps p) !! d) as [m|] eqn:Ek; [|done]. cbv zeta.
  set (p1 := set_ps _ p).
  assert (Hp1 : cand_inv None None p1).
  { eapply cand_inv_same; eauto. subst p1. pass_simpl. intros k.
    destruct (decide (d = k)) as [->|?]; [rewrite Ek; eauto|by rewrite lookup_insert_ne]. }
  pose proof (spill_refs_frame io (m_evicted m) (referenced_digests (m_content m)) p1) as Hf.
  pose proof (spill_refs_entries io (m_evicted m) p1 (referenced_digests (m_content m))) as Hr.
  destruct (spill_refs _ _ _ _) as [q|q]; [|done]. simpl in *.
  destruct Hf as [_ Hs Hl Hd], Hr as [Hm Hr]. destruct Hp1 as [H1 H2 H3 H4].
  assert (Hh : forall b', redis_cands (heap_of b' (push_disk (CManifest la d) q)) =
                          redis_cands (heap_of b' p1)).
  { intros []; simpl; rewrite ?Hs, ?Hl, ?Hd; done. }
  split; pass_simpl.
  - intros b' k n. rewrite Hh, Hr. apply H1.
  - intros b'. rewrite Hh. apply H2.
  - intros k e. rewrite Hh, Hr. apply H3.
  - intros k m'. rewrite Hm, Hs. apply H4.
Qed.

Lemma spill_redis_ok s0 io k la n p e :
  total_charge s0 < I63 -> acc_inv s0 p -> cand_inv (Some k) None p ->
  redis_entries (ps p) !! k = Some e -> redis_value_bucket e = (large_redis_memory_usage, n) ->
  match spill_redis io k la n p with
  | Ok q => acc_inv s0 q /\ cand_inv None None q
  | Err _ => True
  end.
Proof.
  intros Hfit Hp Hc Hk Hb. unfold spill_redis, spill_redis_write. rewrite Hk.
  destruct e as [v id l|]; [|done]. simpl in Hb. case_match eqn:Hlen; [|done].
  injection Hb as <-.
  destruct (write_blob_maps io id v (ps p)) as (Hwm & Hwb & _ & Hwr).
  pose proof (write_blob_usage io id v (ps p)) as Hwu.
  destruct (write_blob_to_disk io id v (ps p)) as [s w]. state_simpl.
  destruct w as [[]|]; [|done].
  set (od := RedisEntry.OnDisk (blen v) id la). set (q := push_disk _ _).
  assert (Hq : redis_entries (ps q) = <[k := od]> (redis_entries (ps p))) by (subst q; pass_simpl; by rewrite <- Hwr).
  split.
  - eapply (acc_inv_move s0 p q large_redis_memory_usage redis_disk_usage (blen v)); eauto; try done.
    + apply (acc_ge s0 p _ _ Hp).
      pose proof (charge_ge_redis large_redis_memory_usage (ps p) k _ Hk) as Hge.
      unfold redis_share in Hge. simpl in Hge. rewrite Hlen in Hge.
      unfold share in *. simpl in *. lia.
    + intros b. rewrite (charge_ext b (set_redis_entries (<[k := od]> (redis_entries (ps p))) (ps p))) by done.
      rewrite charge_set_redis_insert, Hk. unfold redis_share. simpl. rewrite Hlen. lia.
    + unfold keybytes. rewrite Hq, msum_insert, Hk. simpl. lia.
    + change (usage (ps q)) with (usage s). by rewrite Hwu.
    + change (blobs (ps q)) with (blobs s). change (bks q) with (bks p).
      rewrite Hwb. apply (ai_tier _ _ Hp).
  - destruct Hc as [H1 H2 H3 H4].
    assert (Hh : forall b', redis_cands (heap_of b' q) =
      if decide (b' = redis_disk_usage) then (k, blen v) :: redis_cands (heap_of b' p)
      else redis_cands (heap_of b' p)) by (intros []; done).
    split.
    + intros b' k' n'. rewrite Hh, Hq. intros Hin.
      assert ((b' = redis_disk_usage /\ k' = k /\ n' = blen v) \/ (k', n') ∈ redis_cands (heap_of b' p)) as [(-> & -> & ->)|Hin'].
      { case_decide; [|by right]. apply elem_of_cons in Hin as [[= -> ->]|?]; auto. }
      * exists od. by rewrite lookup_insert_eq.
      * destruct (H1 b' k' n' Hin') as (e' & ? & ? & Hx). exists e'.
        rewrite lookup_insert_ne by congruence. done.
    + intros b'. rewrite Hh. case_decide; [|apply H2]. simpl. apply NoDup_cons. split; [|apply H2].
      intros ([k' n'] & -> & Hin)%list_elem_of_fmap. simpl in *.
      by destruct (H1 b' k' n' Hin) as (_ & _ & _ & Hx).
    + intros k' e' Hk' _. rewrite Hq in Hk'. rewrite Hh.
      apply lookup_insert_Some in Hk' as [[<- <-]|[Hne Hk']].
      * simpl. left.
      * specialize (H3 k' e' Hk' ltac:(congruence)). case_decide; [by right|done].
    + intros k' m. change (manifests (ps q)) with (manifests s).
      change (small_memory_candidates q) with (small_memory_candidates p). rewrite Hwm. apply H4.
Qed.
End budget.
