(* ===== verification/EvictionHeaps.v ===== *)
(** * Eviction: what the heaps hold

    Every manifest that references a blob of large memory, or of the disk, is a
    candidate where it can relieve that pool, until it is popped. A manifest
    that was popped under memory pressure has its large blobs spilled, unless
    another one that was not popped yet still needs them in memory. So when
    the pass runs out of candidates, no manifest keeps a blob in the pool. *)
From S2P Require Import Prelude Digest Env Config State Accounting Eviction EvictionFrame.
From S2P Require Import EvictionRefs EvictionMaps EvictionUsage EvictionBudget.

Section heaps.
Context {SHA : Sha256} {ITER : MapIter} {JSON : SerdeJson} {HEAP : BinaryHeap}.
Implicit Types (s : State) (p q : Pass) (old : bool) (k d r : Digest).

(** The tier the scan found a blob in, which the table keeps. *)
Definition tier_of p d : option BlobTier := bk_tier <$> bks p !! d.

Definition references (m : Manifest) d : Prop := d ∈ referenced_digests (m_content m).
Definition references_tier p (m : Manifest) (t : BlobTier) : Prop :=
  exists d, references m d /\ tier_of p d = Some t.

Definition queued k (h : list EvictionCandidate) : Prop := exists la, CManifest la k ∈ h.

(** Manifests are candidates where they matter; [ex] was popped and is being
    processed. *)
Record queued_inv (ex : option Digest) p : Prop := {
  qi_disk : forall k m, manifests (ps p) !! k = Some m -> ex <> Some k -> references_tier p m Disk ->
    queued k (disk_candidates p);
  qi_large : forall k m, manifests (ps p) !! k = Some m -> ex <> Some k -> references_tier p m LargeMem ->
    queued k (large_memory_candidates p) \/ queued k (disk_candidates p);
  qi_unevicted : forall k m, manifests (ps p) !! k = Some m -> ex <> Some k -> m_evicted m = false ->
    references_tier p m LargeMem -> queued k (large_memory_candidates p)
}.

(** What the table says of a blob that is still there. *)
Definition table_inv s0 p : Prop :=
  forall d b, blobs (ps p) !! d = Some b ->
    exists b0, blobs s0 !! d = Some b0 /\ tier_of p d = Some (blob_tier b0).1 /\
      (b = b0 \/ (blob_tier b0).1 = LargeMem /\ (blob_tier b).1 = Disk).

(** ** References: steps that touch no blob but those of [rs] *)
Record refs_step (rs : list Digest) p q : Prop := {
  rs_frame : pass_frame p q;
  rs_tier : forall d, tier_of q d = tier_of p d;
  rs_manifests : manifests (ps q) = manifests (ps p);
  rs_bks : forall d, d ∉ rs -> bks q !! d = bks p !! d;
  rs_blobs : forall d, d ∉ rs -> blobs (ps q) !! d = blobs (ps p) !! d
}.
Abbreviation ref_step r := (refs_step [r]).

Lemma refs_step_refl p : refs_step [] p p.
Proof. by split. Qed.

Lemma refs_step_trans l1 l2 p1 p2 p3 : refs_step l1 p1 p2 -> refs_step l2 p2 p3 -> refs_step (l1 ++ l2) p1 p3.
Proof.
  intros [F1 T1 M1 K1 B1] [F2 T2 M2 K2 B2]. split; [by etrans|congruence|congruence|..];
    intros d [? ?]%not_elem_of_app; [by rewrite K2, K1|by rewrite B2, B1].
Qed.

Lemma drop_ref_step io old p r : ref_step r p (drop_ref io old p r).
Proof.
  split; [apply drop_ref_frame| |apply (drop_ref_blobs io old p r r)| |intros d [Hne _]%not_elem_of_cons; by apply (drop_ref_blobs io old p r d)].
  - intros d. unfold tier_of. rewrite drop_ref_bks. destruct (bks p !! r) as [bb|] eqn:E; [|done].
    destruct (decide (d = r)) as [->|Hne]; [by rewrite lookup_insert_eq, E|by rewrite lookup_insert_ne].
  - intros d [Hne _]%not_elem_of_cons. rewrite drop_ref_bks. destruct (bks p !! r); [by rewrite lookup_insert_ne|done].
Qed.

Lemma drop_ref_gone io old p r :
  blobs (ps (drop_ref io old p r)) !! r = blobs (ps p) !! r \/ blobs (ps (drop_ref io old p r)) !! r = None.
Proof.
  destruct (drop_ref_view io old p r) as (_ & _ & _ & _ & [[-> _]|(bl & _ & -> & _)]); [by left|right].
  apply lookup_delete_eq.
Qed.

(** A spill: the blob goes to disk when its last referrer that was not evicted
    is, and stays in large memory otherwise. *)
Definition in_memory (b : option Blob.t) : Prop :=
  match b with Some (Blob.InMemory _ _ _ _) => True | _ => False end.
Definition unevicted_pos p d : Prop := exists bb, bks p !! d = Some bb /\ (0 < bk_unevicted_refs bb)%N.

Lemma spill_ref_step io old p r q :
  spill_ref io old p r = Ok q ->
  ref_step r p q /\
  (tier_of p r = Some LargeMem -> in_memory (blobs (ps q) !! r) -> unevicted_pos q r) /\
  (blobs (ps q) !! r = blobs (ps p) !! r \/
   exists b, tier_of p r = Some LargeMem /\ is_Some (blobs (ps p) !! r) /\ blobs (ps q) !! r = Some b /\
     (blob_tier b).1 = Disk).
Proof.
  intros E. pose proof (spill_ref_frame io old p r) as Hf. pose proof (spill_ref_maps io old p r) as (Hm & _).
  rewrite E in Hf, Hm. cbn [outcome] in Hf, Hm. revert E. unfold spill_ref.
  destruct (bks p !! r) as [bb|] eqn:Er.
  2:{ intros [= <-]. split; [by split|]. split; [|by left]. unfold tier_of. by rewrite Er. }
  cbv zeta. set (bb' := if old then bb else _). assert (Ht : bk_tier bb' = bk_tier bb) by (subst bb'; by destruct old).
  assert (Htr : tier_of p r = Some (bk_tier bb)) by (unfold tier_of; by rewrite Er).
  assert (Htier : forall d, bk_tier <$> <[r := bb']> (bks p) !! d = tier_of p d).
  { intros d. unfold tier_of. destruct (decide (d = r)) as [->|Hne]; [|by rewrite lookup_insert_ne].
    rewrite lookup_insert_eq, Er. simpl. by rewrite Ht. }
  destruct (_ || _) eqn:Ec.
  - intros [= <-]. split; [split; [done|done|done| |done]; intros d [Hne _]%not_elem_of_cons; cbn [bks set_bks]; by rewrite lookup_insert_ne|].
    split; [|by left]. rewrite Htr. intros [= Hl] _. exists bb'. split; [apply lookup_insert_eq|].
    rewrite Ht, Hl in Ec. rewrite bool_decide_eq_true_2, orb_false_r in Ec by done.
    apply negb_true_iff, N.eqb_neq in Ec. lia.
  - apply orb_false_iff in Ec as [_ Ec%negb_false_iff%bool_decide_eq_true]. pass_simpl.
    assert (Hno : forall b, ~ in_memory b -> in_memory b -> unevicted_pos q r) by done.
    destruct (blobs (ps p) !! r) as [[|id c mt la]|] eqn:Eb.
    1,3: intros [= <-]; (split; [split; [done|done|done| |done]; intros d [Hne _]%not_elem_of_cons; cbn [bks set_bks]; by rewrite lookup_insert_ne|]);
      (split; [intros _; cbn [ps set_bks]; by rewrite Eb|by left]).
    destruct (write_blob_maps io id c (ps p)) as (_ & Hwb & _ & _).
    destruct (write_blob_to_disk io id c (ps p)) as [s w]. state_simpl. destruct w as [[]|]; [|done].
    set (od := Blob.OnDisk id (blen c) mt la). destruct (insert_blob_maps r od s) as (_ & Hib & _ & _).
    intros [= <-]. pass_simpl.
    assert (Hbr : blobs (insert_blob r od s) = <[r := od]> (blobs (ps p))) by congruence.
    split; [split; [done|done|done| |]|].
    + intros d [Hne _]%not_elem_of_cons. pass_simpl. by rewrite lookup_insert_ne.
    + intros d [Hne _]%not_elem_of_cons. change (blobs (insert_blob r od s) !! d = blobs (ps p) !! d). by rewrite Hbr, lookup_insert_ne.
    + change (blobs (metric_add _ _ ?x)) with (blobs x). rewrite Hbr, lookup_insert_eq. split; [done|right].
      exists od. split_and!; [congruence|by eexists|done|done].
Qed.

(** ** The references of a manifest *)
Definition blob_gone (b b' : option Blob.t) : Prop := b' = b \/ b' = None.
Definition blob_spilled p q d : Prop :=
  blobs (ps q) !! d = blobs (ps p) !! d \/
  exists b, tier_of p d = Some LargeMem /\ is_Some (blobs (ps p) !! d) /\ blobs (ps q) !! d = Some b /\
    (blob_tier b).1 = Disk.

Lemma drop_refs_step io old p rs :
  let q := foldl (drop_ref io old) p rs in
  refs_step rs p q /\ forall d, blob_gone (blobs (ps p) !! d) (blobs (ps q) !! d).
Proof.
  apply (foldl_prefix_ind (fun l q => refs_step l p q /\ forall d, blob_gone (blobs (ps p) !! d) (blobs (ps q) !! d))).
  - split; [apply refs_step_refl|by left].
  - intros l1 r l2 q _ [Hs Hb]. pose proof (drop_ref_step io old q r) as Hr.
    split; [by eapply refs_step_trans|]. intros d. destruct (decide (d = r)) as [->|Hne].
    + destruct (drop_ref_gone io old q r) as [-> | ->]; [apply Hb|by right].
    + rewrite (rs_blobs _ _ _ Hr) by (by apply not_elem_of_cons; split; [|apply not_elem_of_nil]). apply Hb.
Qed.

Lemma spill_refs_step io old p rs q :
  spill_refs io old p rs = Ok q ->
  refs_step rs p q /\ (forall d, blob_spilled p q d) /\
  forall d, d ∈ rs -> tier_of p d = Some LargeMem -> in_memory (blobs (ps q) !! d) -> unevicted_pos q d.
Proof.
  revert q. unfold spill_refs. apply (foldl_prefix_ind (fun l a => forall q, a = Ok q ->
    refs_step l p q /\ (forall d, blob_spilled p q d) /\
    forall d, d ∈ l -> tier_of p d = Some LargeMem -> in_memory (blobs (ps q) !! d) -> unevicted_pos q d)).
  - intros q [= <-]. split; [apply refs_step_refl|]. split; [by left|]. by intros d ?%elem_of_nil.
  - intros l1 r l2 [q1|q1] _ IH q E; [|discriminate E]. destruct (IH q1 eq_refl) as (Hs & Hb & Hu). cbn [mbind result_bind] in E.
    destruct (spill_ref_step io old q1 r q E) as (Hr & Hur & Hbr). split; [by eapply refs_step_trans|].
    assert (Hne : forall d, d <> r -> d ∉ [r]) by (intros d ?; by apply not_elem_of_cons; split; [|apply not_elem_of_nil]).
    split.
    + intros d. destruct (decide (d = r)) as [->|Hd].
      * unfold blob_spilled in Hb. specialize (Hb r). rewrite (rs_tier _ _ _ Hs) in Hbr.
        destruct Hbr as [E1|(b & Ht & [b1 H1] & E1 & Hb1)]; unfold blob_spilled; rewrite E1; [done|right].
        exists b. split; [done|]. split; [|done]. destruct Hb as [Hb|(b2 & _ & ? & _)]; [|done]. rewrite <- Hb. by eexists.
      * unfold blob_spilled. rewrite (rs_blobs _ _ _ Hr) by auto. apply Hb.
    + intros d Hin Ht Hm. destruct (decide (d = r)) as [->|Hd].
      * apply Hur; [by rewrite (rs_tier _ _ _ Hs)|done].
      * apply elem_of_app in Hin as [Hin|Hin%list_elem_of_singleton]; [|done].
        rewrite (rs_blobs _ _ _ Hr) in Hm by auto. destruct (Hu d Hin Ht Hm) as (bb & Hbb & Hpos).
        exists bb. by rewrite (rs_bks _ _ _ Hr) by auto.
Qed.

(** ** Manifests *)
Lemma drop_manifest_cases io k p :
  (manifests (ps p) !! k = None /\ drop_manifest io k p = p) \/
  exists m p1, manifests (ps p) !! k = Some m /\ pass_frame p p1 /\
    manifests (ps p1) = delete k (manifests (ps p)) /\ bks p1 = bks p /\ blobs (ps p1) = blobs (ps p) /\
    drop_manifest io k p = foldl (drop_ref io (m_evicted m)) p1 (referenced_digests (m_content m)).
Proof.
  unfold drop_manifest, remove_manifest. destruct (manifests (ps p) !! k) as [m|] eqn:Ek; [right|by left].
  eexists m, _. split; [done|]. by split_and!; [|..|reflexivity].
Qed.

Lemma spill_manifest_cases io la k p q :
  spill_manifest io la k p = Ok q ->
  (manifests (ps p) !! k = None /\ q = p) \/
  exists m p1 p2, manifests (ps p) !! k = Some m /\ pass_frame p p1 /\
    manifests (ps p1) = <[k := mkManifest (m_content m) (m_media_type m) (m_last_used m) true]> (manifests (ps p)) /\
    bks p1 = bks p /\ blobs (ps p1) = blobs (ps p) /\
    spill_refs io (m_evicted m) p1 (referenced_digests (m_content m)) = Ok p2 /\
    q = push_disk (CManifest la k) p2.
Proof.
  unfold spill_manifest. destruct (manifests (ps p) !! k) as [m|] eqn:Ek; [|by intros [= <-]; left]. cbv zeta.
  intros E. right. eexists m, _. destruct (spill_refs _ _ _ _) as [p2|] eqn:Es; [|discriminate E]. injection E as <-.
  exists p2. split; [done|]. by split_and!; [..|exact Es|].
Qed.

(** Steps after which there are no more manifests, and at least the candidates. *)
Definition thins p q : Prop := forall k m, manifests (ps q) !! k = Some m ->
  exists m0, manifests (ps p) !! k = Some m0 /\ m_content m = m_content m0 /\
    (m_evicted m = false -> m_evicted m0 = false).

Lemma queued_cons k c h : queued k h -> queued k (c :: h).
Proof. intros [la ?]. exists la. by right. Qed.

Lemma references_tier_same p q m m0 t :
  (forall d, tier_of q d = tier_of p d) -> m_content m = m_content m0 ->
  references_tier q m t -> references_tier p m0 t.
Proof. unfold references_tier, references. intros Ht Hc (d & Hd & Hq). rewrite Hc in Hd. rewrite Ht in Hq. eauto. Qed.

Lemma queued_frame ex p q :
  queued_inv ex p -> (forall d, tier_of q d = tier_of p d) -> thins p q ->
  (forall k, queued k (large_memory_candidates p) -> queued k (large_memory_candidates q)) ->
  (forall k, queued k (disk_candidates p) -> queued k (disk_candidates q)) -> queued_inv ex q.
Proof.
  intros [H1 H2 H3] Ht Hm Hl Hd. split; intros k m Hk.
  - destruct (Hm k m Hk) as (m0 & H0 & Hc & _). intros Hx Hr. eapply Hd, H1; [done..|by eapply references_tier_same].
  - destruct (Hm k m Hk) as (m0 & H0 & Hc & _). intros Hx Hr.
    destruct (H2 k m0 H0 Hx) as [?|?]; [by eapply references_tier_same|left|right]; auto.
  - destruct (Hm k m Hk) as (m0 & H0 & Hc & He). intros Hx Hu Hr.
    eapply Hl, H3; [done|done|by apply He|by eapply references_tier_same].
Qed.

(** The manifest that was being processed is gone. *)
Lemma queued_processed k p :
  queued_inv (Some k) p -> manifests (ps p) !! k = None -> queued_inv None p.
Proof.
  intros [H1 H2 H3] Hk. split; intros k' m Hm _; (assert (Some k <> Some k') by congruence);
    [by apply (H1 k')|by apply (H2 k')|by apply (H3 k')].
Qed.

Lemma queued_weaken ex p : queued_inv None p -> queued_inv ex p.
Proof. intros [H1 H2 H3]. split; intros; [by eapply H1|by eapply H2|by eapply H3]. Qed.

Definition cand_manifest (c : EvictionCandidate) : option Digest :=
  match c with CManifest _ k => Some k | CRedis _ _ _ => None end.

Lemma queued_pop k c h h' : h ≡ₚ c :: h' -> cand_manifest c <> Some k -> queued k h -> queued k h'.
Proof.
  intros Hh Hc [la Hin]. exists la. rewrite Hh in Hin. apply elem_of_cons in Hin as [<-|?]; [by destruct Hc|done].
Qed.

Lemma pop_queued b p c h :
  redis_bucket b -> queued_inv None p -> heap_of b p ≡ₚ c :: h -> queued_inv (cand_manifest c) (set_heap b h p).
Proof.
  intros Hb [H1 H2 H3] Hh.
  assert (Ht : forall m t, references_tier (set_heap b h p) m t -> references_tier p m t)
    by (intros m t; by destruct Hb as [-> |[-> | ->]]).
  assert (Hl : forall k, cand_manifest c <> Some k -> queued k (large_memory_candidates p) ->
    queued k (large_memory_candidates (set_heap b h p))).
  { intros k Hk Hq. destruct Hb as [-> |[-> | ->]]; simpl in *; [done| |done]. by eapply queued_pop. }
  assert (Hd : forall k, cand_manifest c <> Some k -> queued k (disk_candidates p) ->
    queued k (disk_candidates (set_heap b h p))).
  { intros k Hk Hq. destruct Hb as [-> |[-> | ->]]; simpl in *; [done..|]. by eapply queued_pop. }
  split; rewrite ?set_heap_ps; intros k m Hk Hx.
  - intros Hr%Ht. apply Hd; [done|]. by eapply H1.
  - intros Hr%Ht. destruct (H2 k m Hk ltac:(done) Hr); [left|right]; auto.
  - intros He Hr%Ht. apply Hl; [done|]. by eapply H3.
Qed.

Lemma drop_manifest_thins io k p : thins p (drop_manifest io k p).
Proof.
  intros k' m. rewrite (proj1 (drop_manifest_entries io k p)). intros [_ Hk]%lookup_delete_Some. by exists m.
Qed.

Lemma drop_manifest_tier io k p d : tier_of (drop_manifest io k p) d = tier_of p d.
Proof.
  destruct (drop_manifest_cases io k p) as [[_ ->]|(m & p1 & _ & _ & _ & Hb & _ & ->)]; [done|].
  rewrite (rs_tier _ _ _ (proj1 (drop_refs_step io (m_evicted m) p1 _))). unfold tier_of. by rewrite Hb.
Qed.

Lemma drop_manifest_queued io k ex p :
  (ex = None \/ ex = Some k) -> queued_inv ex p -> queued_inv None (drop_manifest io k p).
Proof.
  intros Hex Hp. apply (queued_processed k).
  - destruct (drop_manifest_frame io k p) as [_ _ Hl Hd].
    apply (queued_frame _ p); [|apply drop_manifest_tier|apply drop_manifest_thins|by rewrite Hl|by rewrite Hd].
    destruct Hex as [-> | ->]; [by apply queued_weaken|done].
  - rewrite (proj1 (drop_manifest_entries io k p)). apply lookup_delete_eq.
Qed.

Lemma spill_manifest_queued io la k p q :
  queued_inv (Some k) p -> spill_manifest io la k p = Ok q -> queued_inv None q.
Proof.
  intros Hp E. destruct (spill_manifest_cases io la k p q E) as [[Hk ->]|Hq]; [by eapply queued_processed|].
  destruct Hq as (m & p1 & p2 & Hk & [_ _ Hl1 Hd1] & Hm1 & Hb1 & _ & Es & ->).
  destruct (spill_refs_step io _ p1 _ p2 Es) as ([[_ _ Hl2 Hd2] Ht Hm2 _ _] & _).
  assert (Ht' : forall d, tier_of p2 d = tier_of p d) by (intros d; rewrite Ht; unfold tier_of; by rewrite Hb1).
  assert (Hp2 : queued_inv (Some k) p2).
  { apply (queued_frame _ p); [done|done| |by rewrite Hl2, Hl1|by rewrite Hd2, Hd1].
    intros k' m'. rewrite Hm2, Hm1. intros [[<- <-]|[_ Hk']]%lookup_insert_Some; [by exists m|by exists m']. }
  destruct Hp2 as [H1 H2 H3]. split; pass_simpl; intros k' m' Hk' _.
  - intros Hr. destruct (decide (k = k')) as [->|Hne]; [exists la; by left|].
    apply queued_cons. eapply H1; [done|congruence|done].
  - intros Hr. destruct (decide (k = k')) as [->|Hne]; [right; exists la; by left|].
    destruct (H2 k' m') as [?|?]; [done|congruence|done|by left|right; by apply queued_cons].
  - intros He Hr. destruct (decide (k = k')) as [->|Hne]; [|eapply H3; [done|congruence|done|done]].
    rewrite Hm2, Hm1, lookup_insert_eq in Hk'. injection Hk' as <-. done.
Qed.

(** ** Counts of the referrers that are not evicted *)
Definition unevicted_inv (rest : list Digest) p : Prop :=
  forall d bb, bks p !! d = Some bb ->
    Z.of_N (bk_unevicted_refs bb) = (unevicted_count d (manifests (ps p)) + occ d rest)%Z.

Lemma unevicted_nonneg d ms : (0 <= unevicted_count d ms)%Z.
Proof. apply msum_nonneg. intros k m _. destruct (m_evicted m); [done|apply occ_nonneg]. Qed.

(** What is left to process: nothing when the manifest was evicted already. *)
Definition left_over old (rs : list Digest) : list Digest := if old then [] else rs.

(** The decrement at the reference [r]. *)
Definition decremented old r d (bb : BlobBk) : N :=
  if old then bk_unevicted_refs bb
  else saturating_sub (bk_unevicted_refs bb) (if decide (d = r) then 1 else 0).

Lemma decremented_other old r d bb : d <> r -> decremented old r d bb = bk_unevicted_refs bb.
Proof. intros Hne. unfold decremented. destruct old; [done|]. rewrite decide_False by done. apply N.sub_0_r. Qed.

Lemma unevicted_step old r rest p q :
  manifests (ps q) = manifests (ps p) ->
  (forall d, bk_unevicted_refs <$> bks q !! d = decremented old r d <$> bks p !! d) ->
  unevicted_inv (left_over old (r :: rest)) p -> unevicted_inv (left_over old rest) q.
Proof.
  intros Hm Hb Hp d bb Hd. specialize (Hb d). rewrite Hd in Hb. destruct (bks p !! d) as [b0|] eqn:E; [|done].
  injection Hb as ->. specialize (Hp d b0 E). rewrite Hm. pose proof (unevicted_nonneg d (manifests (ps p))).
  pose proof (occ_nonneg d rest). unfold decremented. destruct old; cbn [left_over] in *; [done|].
  change (occ d (r :: rest)) with (one d r + occ d rest)%Z in Hp. unfold one in Hp. unfold saturating_sub.
  repeat case_decide; subst; try congruence; lia.
Qed.

Lemma drop_ref_unevicted io old r rest p :
  unevicted_inv (left_over old (r :: rest)) p -> unevicted_inv (left_over old rest) (drop_ref io old p r).
Proof.
  apply unevicted_step; [eapply (drop_ref_blobs io old p r r)|]. intros d. rewrite drop_ref_bks.
  destruct (decide (d = r)) as [->|Hne].
  - unfold decremented. rewrite decide_True by done. destruct (bks p !! r) as [bb|] eqn:E; [|by rewrite E].
    rewrite lookup_insert_eq. by destruct old.
  - replace (match bks p !! r with Some bb => _ | None => _ end !! d) with (bks p !! d)
      by (destruct (bks p !! r); by rewrite ?lookup_insert_ne).
    destruct (bks p !! d); [|done]. simpl. by rewrite decremented_other.
Qed.

Lemma spill_ref_bks io old p r q :
  spill_ref io old p r = Ok q -> forall d, bk_unevicted_refs <$> bks q !! d = decremented old r d <$> bks p !! d.
Proof.
  intros E d. destruct (decide (d = r)) as [->|Hne].
  2:{ destruct (spill_ref_step io old p r q E) as ([_ _ _ Hb _] & _).
      rewrite Hb by (by apply not_elem_of_cons; split; [|apply not_elem_of_nil]).
      destruct (bks p !! d); [|done]. simpl. by rewrite decremented_other. }
  unfold decremented. rewrite decide_True by done.
  revert E. unfold spill_ref. destruct (bks p !! r) as [bb|] eqn:Er; [|intros [= <-]; by rewrite Er].
  cbv zeta. set (bb' := if old then bb else _).
  assert (H : forall q', bks q' = <[r := bb']> (bks p) -> bk_unevicted_refs <$> bks q' !! r =
    (fun bb => if old then bk_unevicted_refs bb else saturating_sub (bk_unevicted_refs bb) 1) <$> Some bb).
  { intros q' ->. rewrite lookup_insert_eq. subst bb'. by destruct old. }
  destruct (_ || _); [by intros [= <-]; apply H|]. pass_simpl.
  destruct (blobs (ps p) !! r) as [[|id c mt la]|]; [by intros [= <-]; apply H| |by intros [= <-]; apply H].
  destruct (write_blob_to_disk io id c (ps p)) as [s []]; [intros [= <-]; by apply H|done].
Qed.

Lemma spill_ref_unevicted io old r rest p q :
  spill_ref io old p r = Ok q ->
  unevicted_inv (left_over old (r :: rest)) p -> unevicted_inv (left_over old rest) q.
Proof.
  intros E. apply unevicted_step; [apply (spill_ref_step io old p r q E)|by apply (spill_ref_bks io)].
Qed.

Lemma drop_refs_unevicted io old rs p :
  unevicted_inv (left_over old rs) p -> unevicted_inv [] (foldl (drop_ref io old) p rs).
Proof.
  revert p. induction rs as [|r rs IH]; intros p Hp; cbn [foldl]; [by destruct old|].
  by apply IH, drop_ref_unevicted.
Qed.

Lemma spill_refs_unevicted io old rs p q :
  spill_refs io old p rs = Ok q -> unevicted_inv (left_over old rs) p -> unevicted_inv [] q.
Proof.
  unfold spill_refs. revert p. induction rs as [|r rs IH]; intros p; cbn [foldl].
  - intros [= <-]. by destruct old.
  - cbn [mbind result_bind]. destruct (spill_ref io old p r) as [p1|e] eqn:E.
    + intros Hq Hp. apply (IH p1 Hq). by eapply spill_ref_unevicted.
    + intros Hq. exfalso. revert Hq. clear. induction rs as [|r rs IH]; [done|]. exact IH.
Qed.

Lemma unevicted_delete d ms k m :
  ms !! k = Some m ->
  unevicted_count d ms =
    (unevicted_count d (delete k ms) + occ d (left_over (m_evicted m) (referenced_digests (m_content m))))%Z.
Proof.
  intros Hk. unfold unevicted_count. rewrite msum_delete, Hk. simpl. destruct (m_evicted m); cbn [left_over]; [|lia].
  change (occ d []) with 0%Z. lia.
Qed.

Lemma unevicted_mark d ms k m m' :
  ms !! k = Some m -> m_evicted m' = true -> unevicted_count d (<[k := m']> ms) = unevicted_count d (delete k ms).
Proof.
  intros Hk He. unfold unevicted_count. rewrite msum_insert, msum_delete, Hk, He. simpl. lia.
Qed.

Lemma drop_manifest_unevicted io k p : unevicted_inv [] p -> unevicted_inv [] (drop_manifest io k p).
Proof.
  intros Hp. destruct (drop_manifest_cases io k p) as [[_ ->]|(m & p1 & Hk & _ & Hm & Hb & _ & ->)]; [done|].
  apply drop_refs_unevicted. intros d bb Hd. rewrite Hb in Hd. rewrite (Hp d bb Hd), Hm.
  rewrite (unevicted_delete d _ k m Hk). change (occ d []) with 0%Z. lia.
Qed.

Lemma spill_manifest_unevicted io la k p q :
  spill_manifest io la k p = Ok q -> unevicted_inv [] p -> unevicted_inv [] q.
Proof.
  intros E Hp. destruct (spill_manifest_cases io la k p q E) as [[_ ->]|(m & p1 & p2 & Hk & _ & Hm & Hb & _ & Es & ->)]; [done|].
  assert (H2 : unevicted_inv [] p2); [|done].
  apply (spill_refs_unevicted io _ _ p1 p2 Es). intros d bb Hd. rewrite Hb in Hd. rewrite (Hp d bb Hd), Hm.
  rewrite (unevicted_mark d _ k m), (unevicted_delete d _ k m Hk) by done. change (occ d []) with 0%Z. lia.
Qed.

(** A positive count comes from a manifest. *)
Lemma unevicted_referrer d ms :
  (0 < unevicted_count d ms)%Z -> exists k m, ms !! k = Some m /\ m_evicted m = false /\ references m d.
Proof.
  intros Hpos. set (P := fun (_ : Digest) m => m_evicted m = false /\ d ∈ referenced_digests (m_content m)).
  destruct (decide (map_Exists P ms)) as [(k & m & ? & ? & ?)|Hn%map_not_Exists]; [by exists k, m|]. exfalso.
  assert (H0 : unevicted_count d ms = 0%Z); [|lia]. apply msum_zero. intros k m Hk.
  destruct (m_evicted m) eqn:Em; [done|]. apply occ_absent. intros Hd. by apply (Hn k m Hk).
Qed.
End heaps.
