(* ===== verification/EvictionPhases.v ===== *)
(** * Eviction: the phases of a pass

    A pass relieves small memory, then spills large memory, then deletes from
    the disk; later phases do not bring back the pressure of earlier ones. When
    it ends over a target, every candidate of that pool was popped, and no
    manifest that is left keeps a blob in the pool ([heaps_end]). *)
From S2P Require Import Prelude Digest Env Config State Accounting Eviction EvictionFrame.
From S2P Require Import EvictionRefs EvictionMaps EvictionUsage EvictionBudget EvictionHeaps.

Section phases.
Context {SHA : Sha256} {ITER : MapIter} {JSON : SerdeJson} {HEAP : BinaryHeap}.
Implicit Types (s : State) (p q : Pass) (old : bool) (k d r : Digest).

(** ** The blobs the table describes *)
Lemma table_gone s0 p q :
  table_inv s0 p -> (forall d, tier_of q d = tier_of p d) ->
  (forall d, blob_gone (blobs (ps p) !! d) (blobs (ps q) !! d)) -> table_inv s0 q.
Proof.
  intros Hp Ht Hb d b Hd. rewrite Ht. destruct (Hb d) as [E|E]; [|congruence]. apply Hp. congruence.
Qed.

Lemma table_spilled s0 p q :
  table_inv s0 p -> (forall d, tier_of q d = tier_of p d) -> (forall d, blob_spilled p q d) -> table_inv s0 q.
Proof.
  intros Hp Ht Hb d b Hd. rewrite Ht. destruct (Hb d) as [E|(b' & Hl & [b1 H1] & E & Hdisk)]; [apply Hp; congruence|].
  destruct (Hp d b1 H1) as (b0 & H0 & Ht0 & _). exists b0. split; [done|]. split; [done|right].
  rewrite Hl in Ht0. injection Ht0 as <-. by rewrite Hd in E; injection E as ->.
Qed.

Lemma drop_manifest_gone io k p d : blob_gone (blobs (ps p) !! d) (blobs (ps (drop_manifest io k p)) !! d).
Proof.
  destruct (drop_manifest_cases io k p) as [[_ ->]|(m & p1 & _ & _ & _ & _ & <- & ->)]; [by left|].
  apply drop_refs_step.
Qed.

Lemma spill_manifest_blobs io la k p q :
  spill_manifest io la k p = Ok q -> (forall d, tier_of q d = tier_of p d) /\ forall d, blob_spilled p q d.
Proof.
  intros E. destruct (spill_manifest_cases io la k p q E) as [[_ ->]|(m & p1 & p2 & _ & _ & _ & Hk & Hb & Es & ->)].
  { split; [done|by left]. }
  destruct (spill_refs_step io _ p1 _ p2 Es) as (Hs & Hsp & _).
  assert (Ht : forall d, tier_of p1 d = tier_of p d) by (intros d; unfold tier_of; by rewrite Hk).
  split; [intros d; rewrite <- Ht; apply (rs_tier _ _ _ Hs)|]. intros d. specialize (Hsp d).
  unfold blob_spilled in *. rewrite Hb, Ht in Hsp. exact Hsp.
Qed.

(** ** Redis entries do not matter *)
Record registry_same p q : Prop := {
  rg_manifests : manifests (ps q) = manifests (ps p);
  rg_blobs : blobs (ps q) = blobs (ps p);
  rg_bks : bks q = bks p;
  rg_large : large_memory_candidates q = large_memory_candidates p;
  rg_disk : forall k, queued k (disk_candidates p) -> queued k (disk_candidates q)
}.

Lemma drop_redis_same b key n p : registry_same p (drop_redis b key n p).
Proof.
  destruct (drop_redis_maps b key n p) as (? & ? & _ & ?). destruct (drop_redis_frame b key n p) as [_ _ ? Hd].
  split; [done..|]. by rewrite Hd.
Qed.

Lemma spill_redis_same io key la n p q : spill_redis io key la n p = Ok q -> registry_same p q.
Proof.
  intros E. destruct (spill_redis_maps io key la n p) as (? & _ & ? & ? & _).
  pose proof (spill_redis_frame io key la n p) as (_ & _ & ? & Hd). rewrite E in *. cbn [outcome] in *.
  split; [done..|]. intros k Hq. destruct Hd as [-> | ->]; [done|by apply queued_cons].
Qed.

Lemma queued_same p q : registry_same p q -> queued_inv None p -> queued_inv None q.
Proof.
  intros [Hm _ Hb Hl Hd] Hp. apply (queued_frame _ p); [done| | |by rewrite Hl|done].
  - intros d. unfold tier_of. by rewrite Hb.
  - intros k m. rewrite Hm. by exists m.
Qed.

Lemma table_same s0 p q : registry_same p q -> table_inv s0 p -> table_inv s0 q.
Proof.
  intros [_ Hb Hk _ _] Hp. apply (table_gone s0 p); [done|intros d; unfold tier_of; by rewrite Hk|]. left. by rewrite Hb.
Qed.

Lemma unevicted_same p q : registry_same p q -> unevicted_inv [] p -> unevicted_inv [] q.
Proof. intros [Hm _ Hb _ _] Hp d bb. rewrite Hb, Hm. apply Hp. Qed.

(** ** Memory pressure *)

(** Nothing was popped for memory pressure yet. *)
Definition all_large p : Prop := forall k m, manifests (ps p) !! k = Some m ->
  references_tier p m LargeMem -> queued k (large_memory_candidates p).

(** Some was: a blob that is in large memory still has a referrer that is not
    evicted, or no referrer was popped. *)
Definition pending p : Prop := forall d, tier_of p d = Some LargeMem -> in_memory (blobs (ps p) !! d) ->
  unevicted_pos p d \/
  forall k m, manifests (ps p) !! k = Some m -> references m d -> queued k (large_memory_candidates p).

(** No manifest keeps a blob in large memory. *)
Definition clean p : Prop := forall k m d, manifests (ps p) !! k = Some m -> references m d ->
  tier_of p d = Some LargeMem -> ~ in_memory (blobs (ps p) !! d).

Lemma all_large_pending p : all_large p -> pending p.
Proof. intros Hp d Ht _. right. intros k m Hk Hd. apply (Hp k m Hk). by exists d. Qed.

Lemma clean_pending p : clean p -> pending p.
Proof. intros Hp d Ht Hm. right. intros k m Hk Hd. by destruct (Hp k m d Hk Hd Ht). Qed.

(** Without candidates nothing is pending. *)
Lemma exhausted_clean p :
  large_memory_candidates p = [] -> queued_inv None p -> unevicted_inv [] p -> pending p -> clean p.
Proof.
  intros Hl Hq Hu Hp k m d Hk Hd Ht Hm.
  assert (Hnone : forall k', ~ queued k' (large_memory_candidates p))
    by (intros k' [la Hin]; rewrite Hl in Hin; by apply not_elem_of_nil in Hin).
  destruct (Hp d Ht Hm) as [(bb & Hbb & Hpos)|Hall]; [|by apply (Hnone k), (Hall k m)].
  pose proof (Hu d bb Hbb) as Hc. change (occ d []) with 0%Z in Hc.
  destruct (unevicted_referrer d (manifests (ps p))) as (k' & m' & Hk' & He & Hd'); [lia|].
  apply (Hnone k'), (qi_unevicted _ _ Hq k' m'); [done..|]. by exists d.
Qed.

Lemma drop_manifest_clean io k p : clean p -> clean (drop_manifest io k p).
Proof.
  intros Hp k' m d. rewrite (proj1 (drop_manifest_entries io k p)), drop_manifest_tier.
  intros [_ Hk']%lookup_delete_Some Hd Ht. destruct (drop_manifest_gone io k p d) as [-> | ->]; [|by intros []].
  by apply (Hp k' m d).
Qed.

Lemma drop_manifest_all_large io k p : all_large p -> all_large (drop_manifest io k p).
Proof.
  intros Hp k' m. rewrite (proj1 (drop_manifest_entries io k p)). intros [_ Hk']%lookup_delete_Some (d & Hd & Ht).
  rewrite drop_manifest_tier in Ht. destruct (drop_manifest_frame io k p) as [_ _ -> _]. apply (Hp k' m Hk'). by exists d.
Qed.

Lemma clean_same p q : registry_same p q -> clean p -> clean q.
Proof. intros [Hm Hb Hk _ _] Hp k m d. unfold tier_of. rewrite Hm, Hb, Hk. apply Hp. Qed.
Lemma all_large_same p q : registry_same p q -> all_large p -> all_large q.
Proof. intros [Hm _ Hk Hl _] Hp k m. unfold references_tier, tier_of. rewrite Hm, Hl, Hk. apply Hp. Qed.
Lemma pending_same p q : registry_same p q -> pending p -> pending q.
Proof. intros [Hm Hb Hk Hl _] Hp d. unfold unevicted_pos, tier_of. rewrite Hm, Hb, Hl, Hk. apply Hp. Qed.

(** A manifest is popped and spilled. *)
Lemma pop_pending k c p h :
  large_memory_candidates p ≡ₚ c :: h -> cand_manifest c = Some k -> pending p ->
  forall d, tier_of p d = Some LargeMem -> in_memory (blobs (ps p) !! d) ->
    unevicted_pos p d \/ forall k' m, k' <> k -> manifests (ps p) !! k' = Some m -> references m d -> queued k' h.
Proof.
  intros Hh Hc Hp d Ht Hm. destruct (Hp d Ht Hm) as [?|Hall]; [by left|right].
  intros k' m Hne Hk' Hd. eapply queued_pop; [exact Hh|congruence|by eapply Hall].
Qed.

Lemma spill_manifest_pending io la k p h q :
  large_memory_candidates p ≡ₚ CManifest la k :: h -> pending p ->
  spill_manifest io la k (set_large h p) = Ok q -> pending q.
Proof.
  intros Hh Hp E. pose proof (pop_pending k _ p h Hh eq_refl Hp) as Hpop.
  destruct (spill_manifest_cases io la k _ q E) as [[Hk ->]|(m & p1 & p2 & Hk & Hf & Hm1 & Hb1 & Hbl & Es & ->)].
  { intros d Ht Hm. destruct (Hpop d Ht Hm) as [?|Hall]; [by left|right]. intros k' m Hk' Hd.
    apply (Hall k' m); [|done..]. intros ->. pass_simpl. congruence. }
  destruct (spill_refs_step io _ p1 _ p2 Es) as (Hs & Hsp & Hun).
  assert (Ht1 : forall d, tier_of p1 d = tier_of p d) by (intros d; unfold tier_of; by rewrite Hb1).
  intros d Ht Hm. pass_simpl. change (tier_of p2 d = Some LargeMem) in Ht. rewrite (rs_tier _ _ _ Hs) in Ht.
  destruct (decide (d ∈ referenced_digests (m_content m))) as [Hin|Hout]; [left; by apply Hun|].
  rewrite (rs_blobs _ _ _ Hs) in Hm by done. rewrite Ht1 in Ht. rewrite Hbl in Hm.
  destruct (Hpop d Ht Hm) as [(bb & Hbb & ?)|Hall].
  - left. exists bb. pass_simpl. by rewrite (rs_bks _ _ _ Hs), Hb1.
  - right. rewrite (rs_manifests _ _ _ Hs), Hm1. rewrite (pf_large _ _ (rs_frame _ _ _ Hs)), (pf_large _ _ Hf).
    intros k' m' [[<- <-]|[Hne Hk']]%lookup_insert_Some Hd; [done|]. by apply (Hall k' m').
Qed.

(** ** The accumulators only go down under small and disk pressure *)
Definition acc_le q p : Prop := forall b, (acc q b <= acc p b)%N.

Lemma acc_le_sub b n p : acc_le (acc_sub b n p) p.
Proof.
  intros b'. pass_simpl. unfold saturating_sub.
  destruct (decide (b = b')) as [<-|Hne]; [rewrite fn_lookup_insert; lia|by rewrite fn_lookup_insert_ne].
Qed.

Lemma drop_ref_acc_le io old p r : acc_le (drop_ref io old p r) p.
Proof.
  destruct (drop_ref_view io old p r) as (_ & _ & _ & _ & [[_ E]|(bl & _ & _ & E)]); intros b; rewrite E; [reflexivity|].
  apply (acc_le_sub (blob_bucket bl).1 (blob_bucket bl).2 p b).
Qed.

Lemma drop_manifest_acc_le io k p : acc_le (drop_manifest io k p) p.
Proof.
  unfold drop_manifest, remove_manifest. destruct (manifests (ps p) !! k) as [m|]; [|by intros b].
  apply foldl_inv; [apply (acc_le_sub manifest_memory_usage (blen (m_content m)) p)|].
  intros q r _ Hq b. etrans; [apply drop_ref_acc_le|apply Hq].
Qed.

Lemma drop_redis_acc_le b key n p : acc_le (drop_redis b key n p) p.
Proof. unfold drop_redis. destruct (remove_redis key (ps p)) as [[] s]; [apply (acc_le_sub b n p)|by intros b']. Qed.

(** A spill leaves the small pool alone. *)
Definition small_bucket (b : Bucket) : Prop :=
  b = small_blob_memory_usage \/ b = small_redis_memory_usage \/ b = manifest_memory_usage.
Definition acc_small_eq q p : Prop := forall b, small_bucket b -> acc q b = acc p b.

Lemma acc_move_small b1 b2 n p :
  ~ small_bucket b1 -> ~ small_bucket b2 -> acc_small_eq (acc_add b2 n (acc_sub b1 n p)) p.
Proof. intros H1 H2 b Hb. pass_simpl. by rewrite !fn_lookup_insert_ne by congruence. Qed.

Lemma spill_ref_small io old p r : acc_small_eq (outcome (spill_ref io old p r)) p.
Proof.
  unfold spill_ref. destruct (bks p !! r) as [bb|]; [|done]. cbv zeta. destruct (_ || _); [done|]. pass_simpl.
  destruct (blobs (ps p) !! r) as [[|id c mt la]|]; [done| |done].
  destruct (write_blob_to_disk io id c (ps p)) as [s []]; cbn [outcome]; [|done].
  intros b Hb. rewrite (acc_move_small large_blob_memory_usage blob_disk_usage) by first [done|by intros [|[]]]. done.
Qed.

Lemma spill_manifest_small io la k p : acc_small_eq (outcome (spill_manifest io la k p)) p.
Proof.
  unfold spill_manifest. destruct (manifests (ps p) !! k) as [m|]; [|done]. cbv zeta. set (p1 := set_ps _ p).
  assert (H : acc_small_eq (outcome (spill_refs io (m_evicted m) p1 (referenced_digests (m_content m)))) p1).
  { apply (spill_refs_keep (fun q => acc_small_eq q p1)); [|done]. intros q r Hq b Hb. by rewrite spill_ref_small, Hq. }
  destruct (spill_refs _ _ _ _); exact H.
Qed.

Lemma spill_redis_small io key la n p : acc_small_eq (outcome (spill_redis io key la n p)) p.
Proof.
  unfold spill_redis. destruct (spill_redis_write io key (ps p)) as [[[s id] []]|]; [|done..]. cbn [outcome].
  intros b Hb. rewrite <- (acc_move_small large_redis_memory_usage redis_disk_usage n p) by first [done|by intros [|[]]].
  done.
Qed.

(** ** The pressure of earlier phases does not come back *)
Definition fits p : Prop := (sum7 (fun b => Z.of_N (acc p b)) < I63)%Z.

Lemma acc_inv_fits s0 p : (total_charge s0 < I63)%Z -> acc_inv s0 p -> fits p.
Proof. intros Hfit Hp. pose proof (ai_total _ _ Hp). unfold fits. lia. Qed.

Lemma over_mono p q :
  fits p -> acc_le q p -> config (ps q) = config (ps p) ->
  (over_small p = false -> over_small q = false) /\ (over_memory p = false -> over_memory q = false).
Proof.
  unfold fits, sum7. intros Hf Hle Hc.
  pose proof (Hle manifest_memory_usage). pose proof (Hle small_blob_memory_usage).
  pose proof (Hle large_blob_memory_usage). pose proof (Hle small_redis_memory_usage).
  pose proof (Hle large_redis_memory_usage).
  assert (Hadd : forall x y : N, (Z.of_N x + Z.of_N y < I63)%Z -> u64_add x y = (x + y)%N).
  { intros x y Hxy. unfold u64_add. apply N.mod_small. unfold I63, U64 in *. lia. }
  unfold over_small, over_memory, small_target, memory_target. rewrite Hc.
  repeat match goal with |- context [u64_add ?x ?y] => rewrite (Hadd x y) by lia end.
  rewrite !N.ltb_ge. split; lia.
Qed.

Definition small_idle p : Prop := over_small p = false \/ small_memory_candidates p = [].

Lemma small_idle_spill p q :
  acc_small_eq q p -> config (ps q) = config (ps p) -> small_memory_candidates q = small_memory_candidates p ->
  small_idle p -> small_idle q.
Proof.
  unfold small_idle, over_small, small_target. intros Ha -> ->.
  rewrite !Ha by (unfold small_bucket; auto). done.
Qed.

Lemma small_idle_drop p q :
  fits p -> acc_le q p -> config (ps q) = config (ps p) -> small_memory_candidates q = small_memory_candidates p ->
  small_idle p -> small_idle q.
Proof.
  intros Hf Ha Hc Hs [Ho|Hh]; [left|right; congruence]. by apply (over_mono p q).
Qed.

(** Where the pass is: small pressure only, then spilling, then enough memory
    was freed. *)
Definition phase p : Prop := over_memory p = false \/ all_large p \/ small_idle p /\ pending p.

Record heaps_inv (exact : Prop) s0 p : Prop := {
  hi_queued : queued_inv None p;
  hi_table : table_inv s0 p;
  hi_unevicted : exact -> unevicted_inv [] p;
  hi_phase : exact -> phase p
}.

(** ** One iteration *)
Lemma set_heap_heaps exact s0 b h p : heaps_inv exact s0 p -> table_inv s0 (set_heap b h p) /\
  (exact -> unevicted_inv [] (set_heap b h p)).
Proof. intros [_ Ht Hu _]. split; [|intros Hx]; destruct b; first [exact Ht|by apply Hu]. Qed.

Definition drop_cand io b (c : EvictionCandidate) p : Pass :=
  match c with CManifest _ d => drop_manifest io d p | CRedis k _ n => drop_redis b k n p end.

Lemma drop_cand_acc_le io b c p : acc_le (drop_cand io b c p) p.
Proof. destruct c; [apply drop_manifest_acc_le|apply drop_redis_acc_le]. Qed.

Lemma drop_cand_frame io b c p : pass_frame p (drop_cand io b c p).
Proof. destruct c; [apply drop_manifest_frame|apply drop_redis_frame]. Qed.

(** A candidate of the small or the disk heap is dropped. *)
Lemma drop_cand_registry exact s0 io b b' c h p :
  redis_bucket b -> heaps_inv exact s0 p -> heap_of b p ≡ₚ c :: h ->
  let q := drop_cand io b' c (set_heap b h p) in
  queued_inv None q /\ table_inv s0 q /\ (exact -> unevicted_inv [] q).
Proof.
  intros Hb Hp Hh. pose proof (pop_queued b p c h Hb (hi_queued _ _ _ Hp) Hh) as Hq.
  destruct (set_heap_heaps exact s0 b h p Hp) as [Ht Hu]. destruct c as [la d|k la n]; cbn [drop_cand cand_manifest] in *.
  - split_and!; [by eapply drop_manifest_queued; [right|]| |intros Hx; by apply drop_manifest_unevicted, Hu].
    eapply table_gone; [exact Ht|apply drop_manifest_tier|apply drop_manifest_gone].
  - pose proof (drop_redis_same b' k n (set_heap b h p)) as Hs.
    split_and!; [by eapply queued_same|by eapply table_same|intros Hx; by eapply unevicted_same, Hu].
Qed.

Lemma drop_cand_clean io b c p : clean p -> clean (drop_cand io b c p).
Proof. destruct c; [apply drop_manifest_clean|apply clean_same, drop_redis_same]. Qed.
Lemma drop_cand_all_large io b c p : all_large p -> all_large (drop_cand io b c p).
Proof. destruct c; [apply drop_manifest_all_large|apply all_large_same, drop_redis_same]. Qed.

Lemma phase_memory p q :
  fits p -> acc_le q p -> config (ps q) = config (ps p) -> over_memory p = false -> phase q.
Proof. intros Hf Ha Hc Hm. left. by apply (over_mono p q). Qed.

(** Memory is still over its target, so the iteration went on to the disk only
    because no candidate was left. *)
Lemma phase_pending p : phase p -> over_memory p = true -> pending p.
Proof. intros [E|[H|[_ H]]] Ho; [congruence|by apply all_large_pending|done]. Qed.

Lemma small_iteration exact s0 io c h p :
  fits p -> heaps_inv exact s0 p -> over_small p = true -> small_memory_candidates p ≡ₚ c :: h ->
  heaps_inv exact s0 (drop_cand io small_redis_memory_usage c (set_small h p)).
Proof.
  intros Hf Hp Ho Hh.
  destruct (drop_cand_registry exact s0 io small_redis_memory_usage small_redis_memory_usage c h p)
    as (H1 & H2 & H3); [by left|done..|]. split; [done..|]. intros Hx. set (p1 := set_small h p).
  assert (Ha : acc_le (drop_cand io small_redis_memory_usage c p1) p) by apply (drop_cand_acc_le io _ c p1).
  pose proof (se_config _ _ (pf_env _ _ (drop_cand_frame io small_redis_memory_usage c p1))) as Hc.
  destruct (hi_phase _ _ _ Hp Hx) as [Hm|[Hl|[[Hi|Hi] _]]].
  - by eapply (phase_memory p).
  - right. left. by apply drop_cand_all_large.
  - congruence.
  - rewrite Hi in Hh. by apply Permutation_nil_cons in Hh.
Qed.

Lemma disk_iteration exact s0 io c h p :
  fits p -> heaps_inv exact s0 p -> small_idle p -> (over_memory p = false \/ large_memory_candidates p = []) ->
  disk_candidates p ≡ₚ c :: h ->
  heaps_inv exact s0 (drop_cand io redis_disk_usage c (set_disk_cands h p)).
Proof.
  intros Hf Hp Hi Hm Hh.
  destruct (drop_cand_registry exact s0 io redis_disk_usage redis_disk_usage c h p)
    as (H1 & H2 & H3); [by right; right|done..|]. split; [done..|]. intros Hx. set (p1 := set_disk_cands h p).
  assert (Ha : acc_le (drop_cand io redis_disk_usage c p1) p) by apply (drop_cand_acc_le io _ c p1).
  pose proof (drop_cand_frame io redis_disk_usage c p1) as [Hc Hsm _ _]. apply se_config in Hc.
  destruct (over_memory p) eqn:Ho; [|by eapply (phase_memory p)]. destruct Hm as [?|Hl]; [done|].
  right. right. split; [by eapply (small_idle_drop p)|]. apply clean_pending, drop_cand_clean.
  apply (exhausted_clean p); [done|apply Hp|by apply Hp|by apply phase_pending; [apply Hp|]].
Qed.

Lemma large_iteration exact s0 io c h p q :
  heaps_inv exact s0 p -> small_idle p -> over_memory p = true -> large_memory_candidates p ≡ₚ c :: h ->
  large_pressure io c (set_large h p) = Continue q -> heaps_inv exact s0 q.
Proof.
  intros Hp Hi Ho Hh. assert (Hlb : redis_bucket large_redis_memory_usage) by (right; by left).
  pose proof (pop_queued large_redis_memory_usage p c h Hlb (hi_queued _ _ _ Hp) Hh) as Hq.
  destruct (set_heap_heaps exact s0 large_redis_memory_usage h p Hp) as [Ht Hu]. cbn [set_heap] in *.
  destruct c as [la k|k la n]; cbn [large_pressure cand_manifest] in *.
  - destruct (spill_manifest io la k (set_large h p)) as [q'|q'] eqn:E; [|done]. intros [= <-].
    pose proof (spill_manifest_small io la k (set_large h p)) as Ha.
    pose proof (spill_manifest_frame io la k (set_large h p)) as (He & Hsm & _). rewrite E in *. cbn [outcome] in *.
    destruct (spill_manifest_blobs io la k _ _ E) as [Htier Hsp]. split.
    + by eapply spill_manifest_queued.
    + by eapply table_spilled.
    + intros Hx. eapply spill_manifest_unevicted; [exact E|auto].
    + intros Hx. right. right. split; [eapply (small_idle_spill p); [done|apply (se_config _ _ He)|done..]|].
      eapply spill_manifest_pending; [exact Hh| |exact E]. apply phase_pending; [by apply Hp|done].
  - destruct (spill_redis io k la n (set_large h p)) as [q'|q'] eqn:E; [|done]. intros [= <-].
    pose proof (spill_redis_same io k la n _ _ E) as Hs.
    pose proof (spill_redis_small io k la n (set_large h p)) as Ha.
    pose proof (spill_redis_frame io k la n (set_large h p)) as (He & Hsm & _). rewrite E in *. cbn [outcome] in *. split.
    + by eapply queued_same.
    + by eapply table_same.
    + intros Hx. eapply unevicted_same; [exact Hs|auto].
    + intros Hx. right. right. split; [eapply (small_idle_spill p); [done|apply (se_config _ _ He)|done..]|].
      eapply pending_same; [exact Hs|]. intros d Hd Hm.
      destruct (phase_pending p (hi_phase _ _ _ Hp Hx) Ho d Hd Hm) as [?|Hall]; [by left|right].
      intros k' m Hk' Hr. eapply queued_pop; [exact Hh|done|by eapply Hall].
Qed.

Lemma pop_if_cases c h :
  match pop_if c h with Some (x, h') => c = true /\ h ≡ₚ x :: h' | None => c = false \/ h = [] end.
Proof.
  unfold pop_if. destruct c; [|by left]. destruct (heap_pop h) as [[x h']|] eqn:E.
  - split; [done|]. by apply heap_pop_perm.
  - right. by apply heap_pop_None.
Qed.

Lemma iteration_heaps exact s0 io p :
  fits p -> heaps_inv exact s0 p ->
  match evict_iteration io p with Continue q => heaps_inv exact s0 q | _ => True end.
Proof.
  intros Hf Hp. unfold evict_iteration. pose proof (pop_if_cases (over_small p) (small_memory_candidates p)) as H1.
  destruct (pop_if _ (small_memory_candidates p)) as [[c h]|].
  { destruct H1 as [Ho Hh]. pose proof (small_iteration exact s0 io c h p Hf Hp Ho Hh) as H. by destruct c. }
  pose proof (pop_if_cases (over_memory p) (large_memory_candidates p)) as H2.
  destruct (pop_if _ (large_memory_candidates p)) as [[c h]|].
  { destruct H2 as [Ho Hh]. destruct (large_pressure io c (set_large h p)) as [q| |] eqn:E; [|done..].
    by eapply large_iteration. }
  pose proof (pop_if_cases (over_disk p) (disk_candidates p)) as H3.
  destruct (pop_if _ (disk_candidates p)) as [[c h]|]; [|done].
  destruct H3 as [_ Hh]. pose proof (disk_iteration exact s0 io c h p Hf Hp H1 H2 Hh) as H. by destruct c.
Qed.

(** ** The scan *)
Lemma scan_refs_flags ev rs t x y :
  let '(t', x', y') := foldl (scan_ref ev) (t, x, y) rs in
  (forall d, bk_tier <$> t' !! d = bk_tier <$> t !! d) /\
  (x = true \/ (exists d, d ∈ rs /\ bk_tier <$> t !! d = Some LargeMem) -> x' = true) /\
  (y = true \/ (exists d, d ∈ rs /\ bk_tier <$> t !! d = Some Disk) -> y' = true).
Proof.
  apply (foldl_prefix_ind (fun l '(t', x', y') =>
    (forall d, bk_tier <$> t' !! d = bk_tier <$> t !! d) /\
    (x = true \/ (exists d, d ∈ l /\ bk_tier <$> t !! d = Some LargeMem) -> x' = true) /\
    (y = true \/ (exists d, d ∈ l /\ bk_tier <$> t !! d = Some Disk) -> y' = true))).
  - split_and!; [done|..]; intros [?|(d & ?%elem_of_nil & _)]; done.
  - intros l1 r l2 [[t' x'] y'] _ (Ht & Hx & Hy). unfold scan_ref. destruct (t' !! r) as [bb|] eqn:Er.
    + assert (Htr : bk_tier <$> t !! r = Some (bk_tier bb)) by (rewrite <- Ht, Er; done). split_and!.
      * intros d. rewrite <- Ht. destruct (decide (d = r)) as [->|Hne]; [by rewrite lookup_insert_eq, Er|by rewrite lookup_insert_ne].
      * intros [?|(d & [Hin| ->%list_elem_of_singleton]%elem_of_app & Hd)]; [by rewrite Hx by by left|rewrite Hx; [done|eauto]|].
        rewrite Htr in Hd. injection Hd as ->. by rewrite orb_true_r.
      * intros [?|(d & [Hin| ->%list_elem_of_singleton]%elem_of_app & Hd)]; [by rewrite Hy by by left|rewrite Hy; [done|eauto]|].
        rewrite Htr in Hd. injection Hd as ->. by rewrite orb_true_r.
    + assert (Htr : bk_tier <$> t !! r = None) by (rewrite <- Ht, Er; done). split_and!; [done|..];
        intros [?|(d & [Hin| ->%list_elem_of_singleton]%elem_of_app & Hd)]; auto; try congruence; eauto.
Qed.

(** The manifests scanned so far are queued. *)
Definition queued_for p0 (l : list (Digest * Manifest)) q : Prop :=
  (forall d, tier_of q d = tier_of p0 d) /\
  (forall e, e ∈ l -> references_tier p0 e.2 LargeMem -> queued e.1 (large_memory_candidates q)) /\
  (forall e, e ∈ l -> references_tier p0 e.2 Disk -> queued e.1 (disk_candidates q)).

Lemma scan_manifest_queued p0 l q e : queued_for p0 l q -> queued_for p0 (l ++ [e]) (scan_manifest q e).
Proof.
  intros (Ht & Hl & Hd). unfold scan_manifest. destruct e as [k m]. cbn [fst snd].
  pose proof (scan_refs_flags (m_evicted m) (referenced_digests (m_content m)) (bks q) false false) as Hf.
  destruct (foldl _ _ _) as [[t x] y]. destruct Hf as (Ht' & Hx & Hy). unfold references_tier, references in *.
  assert (Htier : forall d, bk_tier <$> t !! d = tier_of p0 d) by (intros d; rewrite Ht'; apply Ht).
  split_and!.
  - intros d. rewrite <- Htier. by destruct x, y.
  - intros e [Hin| ->%list_elem_of_singleton]%elem_of_app Hr.
    + destruct (Hl e Hin Hr) as [la ?]. exists la. destruct x, y; simpl; auto; by right.
    + destruct Hr as (d & ? & Hr). rewrite Hx by (right; exists d; rewrite <- Ht', Htier; done).
      exists (m_last_used m). destruct y; left.
  - intros e [Hin| ->%list_elem_of_singleton]%elem_of_app Hr.
    + destruct (Hd e Hin Hr) as [la ?]. exists la. destruct x, y; simpl; auto; by right.
    + destruct Hr as (d & ? & Hr). rewrite Hy by (right; exists d; rewrite <- Ht', Htier; done).
      exists (m_last_used m). destruct x; left.
Qed.

Lemma scan_redis_queued p0 l q e : queued_for p0 l q -> queued_for p0 l (scan_redis q e).
Proof.
  intros (Ht & Hl & Hd). unfold scan_redis.
  destruct e.2 as [v id la|n id la]; [case_match|]; (split_and!; [exact Ht|..]); pass_simpl; try done;
    intros e' Hin Hr; apply queued_cons; auto.
Qed.

Lemma scan_queued s :
  forall k m, manifests s !! k = Some m ->
    (references_tier (scan s) m LargeMem -> queued k (large_memory_candidates (scan s))) /\
    (references_tier (scan s) m Disk -> queued k (disk_candidates (scan s))).
Proof.
  unfold scan. set (p1 := foldl scan_blob _ _).
  assert (H : queued_for p1 (map_iter (manifests s)) (foldl scan_redis (foldl scan_manifest p1 (map_iter (manifests s)))
    (map_iter (redis_entries s)))).
  { apply (foldl_inv (queued_for p1 (map_iter (manifests s)))); [|intros q e _; apply scan_redis_queued].
    apply (foldl_prefix_ind (queued_for p1)); [|intros l1 e l2 q _; apply scan_manifest_queued].
    split; [done|]. split; by intros e ?%elem_of_nil. }
  destruct H as (Ht & Hl & Hd). intros k m Hk%elem_of_map_iter.
  split; intros Hr; [apply (Hl (k, m) Hk)|apply (Hd (k, m) Hk)]; by eapply references_tier_same.
Qed.

Lemma unevicted_le_refcount d ms : (unevicted_count d ms <= refcount d ms)%Z.
Proof.
  unfold unevicted_count, refcount. induction ms as [|k m ms Hk IH] using map_ind; [by rewrite !msum_empty|].
  rewrite !msum_insert_None by done. pose proof (occ_nonneg d (referenced_digests (m_content m))).
  destruct (m_evicted m); lia.
Qed.

Lemma scan_heaps s : heaps_inv (refs_fit s) s (scan s).
Proof.
  pose proof (scan_tally s) as Htally. pose proof (scan_queued s) as Hq. split.
  - split; intros k m; rewrite scan_ps; intros Hk _;
      destruct (Hq k m Hk) as [Hl Hd]; auto.
  - intros d b. rewrite scan_ps. intros Hd. exists b. split; [done|]. split; [|by left].
    specialize (Htally d). unfold tier_of. destruct (bks (scan s) !! d) as [bb|]; [|congruence].
    destruct Htally as (b' & Hb' & Ht & _). simpl. rewrite Hd in Hb'. injection Hb' as <-. by rewrite Ht.
  - intros Hfit d bb Hd. specialize (Htally d). rewrite Hd in Htally. destruct Htally as (b & _ & _ & _ & _ & ->).
    rewrite scan_ps. change (occ d []) with 0%Z. rewrite Z.mod_small; [lia|].
    pose proof (unevicted_nonneg d (manifests s)). pose proof (unevicted_le_refcount d (manifests s)).
    specialize (Hfit d). lia.
  - intros _. right. left. intros k m. rewrite scan_ps. intros Hk.
    destruct (Hq k m Hk) as [Hl _]. exact Hl.
Qed.

(** ** The end *)
Definition in_tier (t : BlobTier) (b : option Blob.t) : Prop := exists bl, b = Some bl /\ (blob_tier bl).1 = t.

Lemma break_idle io p :
  evict_iteration io p = Break p ->
  small_idle p /\ (over_memory p = false \/ large_memory_candidates p = []) /\
  (over_disk p = false \/ disk_candidates p = []).
Proof.
  unfold evict_iteration, small_idle. pose proof (pop_if_cases (over_small p) (small_memory_candidates p)) as H1.
  destruct (pop_if _ (small_memory_candidates p)) as [[[] ?]|]; [done..|].
  pose proof (pop_if_cases (over_memory p) (large_memory_candidates p)) as H2.
  destruct (pop_if _ (large_memory_candidates p)) as [[[] ?]|]; simpl.
  { by destruct (spill_manifest _ _ _ _). }
  { by destruct (spill_redis _ _ _ _ _). }
  pose proof (pop_if_cases (over_disk p) (disk_candidates p)) as H3.
  by destruct (pop_if _ (disk_candidates p)) as [[[] ?]|].
Qed.

(** A blob that a manifest references is not in large memory, unless memory is
    within its target; and not on disk, unless the disk is within its target or
    the blob was spilled by this very pass, for another manifest, and memory is
    within its target. *)
Lemma heaps_end exact s0 io p :
  heaps_inv exact s0 p -> evict_iteration io p = Break p ->
  (over_memory p = false \/ (exact -> forall k m d, manifests (ps p) !! k = Some m -> references m d ->
     ~ in_tier LargeMem (blobs (ps p) !! d))) /\
  (over_disk p = false \/ (forall k m d, manifests (ps p) !! k = Some m -> references m d ->
     in_tier Disk (blobs (ps p) !! d) -> over_memory p = false /\ in_tier LargeMem (blobs s0 !! d))).
Proof.
  intros Hp Hb. destruct (break_idle io p Hb) as (_ & Hm & Hd). split.
  - destruct (over_memory p) eqn:Ho; [right|by left]. destruct Hm as [?|Hl]; [done|]. intros Hx k m d Hk Hr (bl & Hbl & Ht).
    destruct (hi_table _ _ _ Hp d bl Hbl) as (b0 & H0 & Ht0 & Hor).
    assert (Hc : clean p) by (apply exhausted_clean; [done|apply Hp|by apply Hp|by apply phase_pending; [apply Hp|]]).
    apply (Hc k m d Hk Hr).
    + destruct Hor as [->|[? ?]]; congruence.
    + rewrite Hbl. destruct bl; [done|exact I].
  - destruct Hd as [?|Hd]; [by left|right]. intros k m d Hk Hr (bl & Hbl & Ht).
    assert (Hnone : ~ queued k (disk_candidates p))
      by (intros [la Hin]; rewrite Hd in Hin; by apply not_elem_of_nil in Hin).
    destruct (hi_table _ _ _ Hp d bl Hbl) as (b0 & H0 & Ht0 & [->|[Hl _]]).
    { destruct Hnone. apply (qi_disk _ _ (hi_queued _ _ _ Hp) k m Hk); [done|]. exists d. by rewrite <- Ht. }
    split; [|by exists b0].
    destruct (qi_large _ _ (hi_queued _ _ _ Hp) k m Hk) as [[la Hq]|?]; [done|exists d; by rewrite <- Hl| |done].
    destruct Hm as [?|Hm]; [done|]. rewrite Hm in Hq. by apply not_elem_of_nil in Hq.
Qed.
End phases.
