(* ===== verification/EvictionSwept.v ===== *)
(** * Eviction: which blobs the final sweep deletes

    The cascade deletes a blob with its last manifest, unless it was used
    lately; the sweep comes for the rest: exactly the blobs that no manifest
    referenced when the pass began and that nobody used in the last five hours
    ([swept]). *)
From S2P Require Import Prelude Digest Env Config State Accounting Eviction EvictionFrame.
From S2P Require Import EvictionRefs EvictionUsage EvictionBudget EvictionHeaps EvictionPhases.

Section swept.
Context {SHA : Sha256} {ITER : MapIter} {JSON : SerdeJson} {HEAP : BinaryHeap}.
Implicit Types (s : State) (p q : Pass) (old : bool) (k d r : Digest).

Definition stale s (la : N) : Prop := (BLOB_GRACE_SECONDS <= now s - la)%N.
#[export] Instance stale_dec s la : Decision (stale s la).
Proof. unfold stale. apply _. Defined.

Definition swept s : gmap Digest Blob.t :=
  filter (fun kv => refcount kv.1 (manifests s) = 0%Z /\ stale s (Blob.last_accessed kv.2)) (blobs s).

Record swept_inv s0 p : Prop := {
  sw_now : now (ps p) = now s0;
  sw_sub : forall k m, manifests (ps p) !! k = Some m ->
    exists m0, manifests s0 !! k = Some m0 /\ m_content m = m_content m0;
  sw_plain : forall d, refcount d (manifests s0) = 0%Z -> blobs (ps p) !! d = blobs s0 !! d;
  sw_gone : forall d bb, bks p !! d = Some bb -> bk_refs bb = 0%N -> refcount d (manifests s0) <> 0%Z ->
    blobs (ps p) !! d = None \/ ~ stale s0 (bk_last_accessed bb);
  sw_table : forall d, is_Some (blobs s0 !! d) -> is_Some (bks p !! d)
}.

Lemma referenced_counted s0 p k m d :
  swept_inv s0 p -> manifests (ps p) !! k = Some m -> references m d -> refcount d (manifests s0) <> 0%Z.
Proof.
  intros Hp Hk Hd. destruct (sw_sub _ _ Hp k m Hk) as (m0 & H0 & Hc). unfold references in Hd. rewrite Hc in Hd.
  pose proof (refcount_pos d (manifests s0) k m0 H0 Hd). lia.
Qed.

(** ** References *)
Lemma drop_ref_removes io old p r bb :
  bks p !! r = Some bb -> saturating_sub (bk_refs bb) 1 = 0%N ->
  blobs (ps (drop_ref io old p r)) !! r = None \/ ~ stale (ps p) (bk_last_accessed bb).
Proof.
  intros Hb Hz. unfold stale. destruct (decide (BLOB_GRACE_SECONDS <= now (ps p) - bk_last_accessed bb)%N) as [Hs|]; [left|by right].
  unfold drop_ref. rewrite Hb. cbv zeta. cbn [bk_refs bk_last_accessed]. rewrite Hz.
  assert ((saturating_sub (now (ps p)) BLOB_GRACE_SECONDS <? bk_last_accessed bb)%N = false) as ->.
  { apply N.ltb_ge. unfold saturating_sub, BLOB_GRACE_SECONDS in *. lia. }
  cbn [negb orb N.eqb]. unfold remove_blob. pass_simpl. destruct (blobs (ps p) !! r) as [bl|] eqn:Ed; [|done].
  destruct (blob_bucket bl) as [b n]. destruct bl as [id size mt la|id c mt la]; pass_simpl.
  - apply lookup_delete_eq.
  - destruct (MEMORY_TIER_THRESHOLD <? blen c)%N; apply lookup_delete_eq.
Qed.

Lemma not_in_one d r : d <> r -> d ∉ [r].
Proof. intros Hne. apply not_elem_of_cons. split; [done|apply not_elem_of_nil]. Qed.

Lemma drop_ref_swept s0 io old p r :
  refcount r (manifests s0) <> 0%Z -> swept_inv s0 p -> swept_inv s0 (drop_ref io old p r).
Proof.
  intros Hr [H1 H2 H3 H4 H5]. pose proof (drop_ref_step io old p r) as [Hf Ht Hm Hk Hb].
  pose proof (se_now _ _ (pf_env _ _ Hf)) as Hn. split.
  - congruence.
  - by rewrite Hm.
  - intros d Hd. rewrite Hb by (apply not_in_one; congruence). by apply H3.
  - intros d bb Hd Hz Hc. destruct (decide (d = r)) as [->|Hne].
    + rewrite drop_ref_bks in Hd. destruct (bks p !! r) as [b0|] eqn:Er; [|congruence].
      rewrite lookup_insert_eq in Hd. injection Hd as <-. cbn [bk_refs bk_last_accessed] in *.
      destruct (drop_ref_removes io old p r b0 Er Hz) as [?|Hs]; [by left|right]. unfold stale in *. by rewrite <- H1.
    + rewrite Hk in Hd by (by apply not_in_one). rewrite Hb by (by apply not_in_one). by apply H4.
  - intros d Hd. destruct (H5 d Hd) as [bb Hbb]. specialize (Ht d). unfold tier_of in Ht. rewrite Hbb in Ht.
    destruct (bks (drop_ref io old p r) !! d); [by eexists|done].
Qed.

Lemma spill_ref_swept s0 io old p r q :
  refcount r (manifests s0) <> 0%Z -> spill_ref io old p r = Ok q -> swept_inv s0 p -> swept_inv s0 q.
Proof.
  intros Hr E [H1 H2 H3 H4 H5]. destruct (spill_ref_step io old p r q E) as ([Hf Ht Hm Hk Hb] & _ & Hsp).
  pose proof (se_now _ _ (pf_env _ _ Hf)) as Hn.
  destruct (spill_ref_maps io old p r) as (_ & _ & Hd & Hbk). rewrite E in Hd, Hbk. cbn [outcome] in Hd, Hbk. split.
  - congruence.
  - by rewrite Hm.
  - intros d Hc. rewrite Hb by (apply not_in_one; congruence). by apply H3.
  - intros d bb Hdb Hz Hc. destruct (Hbk d bb Hdb) as (b0 & H0 & Hre & ->).
    destruct (H4 d b0 H0 ltac:(congruence) Hc) as [Hnone|?]; [left|by right].
    apply eq_None_not_Some. intros Hsome%Hd. rewrite Hnone in Hsome. by destruct Hsome.
  - intros d Hd'. destruct (H5 d Hd') as [bb Hbb]. specialize (Ht d). unfold tier_of in Ht. rewrite Hbb in Ht.
    destruct (bks q !! d); [by eexists|done].
Qed.

(** ** Manifests and redis entries *)
Lemma swept_frame s0 p q :
  swept_inv s0 p -> now (ps q) = now (ps p) -> thins p q -> blobs (ps q) = blobs (ps p) -> bks q = bks p ->
  swept_inv s0 q.
Proof.
  intros [H1 H2 H3 H4 H5] Hn Hm Hb Hk. split; rewrite ?Hb, ?Hk; [congruence| |done..].
  intros k m Hkm. destruct (Hm k m Hkm) as (m0 & H0 & Hc & _). destruct (H2 k m0 H0) as (m1 & ? & ?).
  exists m1. split; congruence.
Qed.

Lemma drop_manifest_swept s0 io k p : swept_inv s0 p -> swept_inv s0 (drop_manifest io k p).
Proof.
  intros Hp. destruct (drop_manifest_cases io k p) as [[_ ->]|(m & p1 & Hk & Hf & Hm & Hb & Hbl & ->)]; [done|].
  apply foldl_inv.
  - apply (swept_frame s0 p); [done|apply (se_now _ _ (pf_env _ _ Hf))| |done..].
    intros k' m'. rewrite Hm. intros [_ Hk']%lookup_delete_Some. by exists m'.
  - intros q r Hr Hq. apply drop_ref_swept; [|done]. by apply (referenced_counted s0 p k m).
Qed.

Lemma spill_manifest_swept s0 io la k p q :
  swept_inv s0 p -> spill_manifest io la k p = Ok q -> swept_inv s0 q.
Proof.
  intros Hp E. destruct (spill_manifest_cases io la k p q E) as [[_ ->]|(m & p1 & p2 & Hk & Hf & Hm & Hb & Hbl & Es & ->)]; [done|].
  assert (H1 : swept_inv s0 p1).
  { apply (swept_frame s0 p); [done|apply (se_now _ _ (pf_env _ _ Hf))| |done..].
    intros k' m'. rewrite Hm. intros [[<- <-]|[_ Hk']]%lookup_insert_Some; [by exists m|by exists m']. }
  assert (H2 : swept_inv s0 p2).
  { clear E. revert p2 Es. unfold spill_refs.
    apply (foldl_inv (fun a => forall p2, a = Ok p2 -> swept_inv s0 p2)); [by intros p2 [= <-]|].
    intros [q1|q1] r Hr IH p2 E2; [|discriminate E2]. eapply spill_ref_swept; [|exact E2|by apply IH].
    by apply (referenced_counted s0 p k m). }
  by destruct H2.
Qed.

Lemma registry_swept s0 p q : registry_same p q -> now (ps q) = now (ps p) -> swept_inv s0 p -> swept_inv s0 q.
Proof.
  intros [Hm Hb Hk _ _] Hn Hp. apply (swept_frame s0 p); [done..| |done|done]. intros k m. rewrite Hm. by exists m.
Qed.

Lemma set_heap_swept s0 b h p : swept_inv s0 p -> swept_inv s0 (set_heap b h p).
Proof. intros [H1 H2 H3 H4 H5]. by destruct b; split. Qed.

Lemma drop_cand_swept s0 io b b' c h p :
  swept_inv s0 p -> swept_inv s0 (drop_cand io b' c (set_heap b h p)).
Proof.
  intros Hp. apply (set_heap_swept s0 b h) in Hp. destruct c as [la k|k la n]; [by apply drop_manifest_swept|].
  eapply registry_swept; [apply drop_redis_same| |done].
  apply (se_now _ _ (pf_env _ _ (drop_redis_frame b' k n (set_heap b h p)))).
Qed.

Lemma iteration_swept s0 io p :
  swept_inv s0 p -> match evict_iteration io p with Continue q => swept_inv s0 q | _ => True end.
Proof.
  intros Hp. unfold evict_iteration. destruct (pop_if _ (small_memory_candidates p)) as [[c h]|].
  { pose proof (drop_cand_swept s0 io small_redis_memory_usage small_redis_memory_usage c h p Hp) as H. by destruct c. }
  destruct (pop_if _ (large_memory_candidates p)) as [[c h]|].
  { apply (set_heap_swept s0 large_redis_memory_usage h) in Hp. cbn [set_heap] in Hp. destruct c as [la k|k la n]; cbn [large_pressure].
    - destruct (spill_manifest io la k _) as [q|q] eqn:E; [|done]. by eapply spill_manifest_swept.
    - destruct (spill_redis io k la n _) as [q|q] eqn:E; [|done].
      pose proof (spill_redis_frame io k la n (set_large h p)) as (He & _). rewrite E in He.
      eapply registry_swept; [by eapply spill_redis_same|apply (se_now _ _ He)|done]. }
  destruct (pop_if _ (disk_candidates p)) as [[c h]|]; [|done].
  pose proof (drop_cand_swept s0 io redis_disk_usage redis_disk_usage c h p Hp) as H. by destruct c.
Qed.

Lemma scan_swept s : refs_fit s -> swept_inv s (scan s).
Proof.
  intros Hfit. pose proof (scan_tally s) as Ht. split; rewrite ?scan_ps; [done| |done| |].
  - intros k m Hk. by exists m.
  - intros d bb Hd Hz Hc. exfalso. specialize (Ht d). rewrite Hd in Ht. destruct Ht as (b & _ & _ & _ & Hre & _).
    rewrite Hz, Z.mod_small in Hre; [lia|]. split; [apply refcount_nonneg|apply Hfit].
  - intros d [b Hd]. specialize (Ht d). destruct (bks (scan s) !! d); [by eexists|congruence].
Qed.

(** ** The sweep *)
Definition sweepable s (bb : BlobBk) : Prop := bk_refs bb = 0%N /\ stale s (bk_last_accessed bb).

Lemma sweep_blob_lookup io s e d :
  now (sweep_blob io s e) = now s /\
  blobs (sweep_blob io s e) !! d =
    if decide (d = e.1 /\ sweepable s e.2) then None else blobs s !! d.
Proof.
  split; [apply (se_now _ _ (sweep_blob_env io s e))|]. unfold sweep_blob.
  destruct (_ || _) eqn:Ec.
  - rewrite decide_False; [done|]. intros [_ [Hz Hs]]. rewrite Hz in Ec. unfold stale, saturating_sub in *.
    rewrite (proj2 (N.ltb_ge _ _) Hs) in Ec. done.
  - apply orb_false_iff in Ec as [Hz%negb_false_iff%N.eqb_eq Hs%N.ltb_ge].
    destruct (remove_blob_lookup d e.1 s) as [_ Hne].
    assert (Hd : forall o s1, remove_blob e.1 s = (o, s1) -> blobs s1 !! d = if decide (d = e.1) then None else blobs s !! d).
    { intros o s1 E. rewrite E in Hne. case_decide as Hd; [|by apply Hne]. subst d. revert E. unfold remove_blob.
      destruct (blobs s !! e.1) as [bl|] eqn:Eb; [|by intros [= _ <-]].
      destruct (blob_bucket bl). intros [= _ <-]. apply lookup_delete_eq. }
    replace (if decide (d = e.1 /\ sweepable s e.2) then None else blobs s !! d)
      with (if decide (d = e.1) then None else blobs s !! d).
    2:{ destruct (decide (d = e.1)); [rewrite decide_True|rewrite decide_False]; [done|by split|done|by intros []]. }
    assert (Hnone : forall s1, remove_blob e.1 s = (None, s1) -> s1 = s).
    { intros s1. unfold remove_blob. destruct (blobs s !! e.1) as [bl|]; [by destruct (blob_bucket bl)|by intros [= <-]]. }
    destruct (remove_blob e.1 s) as [[[]|] s1]; rewrite <- (Hd _ _ eq_refl); [done..|]. by rewrite (Hnone s1).
Qed.

Lemma sweep_lookup io p d :
  blobs (ps (sweep io p)) !! d =
  match bks p !! d with
  | Some bb => if decide (sweepable (ps p) bb) then None else blobs (ps p) !! d
  | None => blobs (ps p) !! d
  end.
Proof.
  unfold sweep. cbn [ps set_ps].
  assert (H : forall l s, NoDup l.*1 -> now s = now (ps p) ->
    blobs (foldl (sweep_blob io) s l) !! d =
    match (list_to_map l : gmap Digest BlobBk) !! d with
    | Some bb => if decide (sweepable (ps p) bb) then None else blobs s !! d
    | None => blobs s !! d
    end).
  { induction l as [|[k bb] l IH]; intros s Hnd Hn; [done|]. apply NoDup_cons in Hnd as [Hk Hnd].
    cbn [foldl list_to_map foldr]. destruct (sweep_blob_lookup io s (k, bb) d) as [Hn' Hb'].
    rewrite IH by (done || congruence). rewrite Hb'. cbn [fst snd].
    assert (Hsw : sweepable s bb <-> sweepable (ps p) bb) by (unfold sweepable, stale; by rewrite Hn).
    destruct (decide (d = k)) as [->|Hne].
    - assert ((list_to_map l : gmap Digest BlobBk) !! k = None) as -> by by apply not_elem_of_list_to_map_1.
      cbn [uncurry]. rewrite lookup_insert_eq. by destruct (decide (sweepable (ps p) bb)); [rewrite decide_True|rewrite decide_False]; tauto.
    - cbn [uncurry]. rewrite lookup_insert_ne by done. rewrite (decide_False (P := d = k /\ _)) by tauto. done. }
  rewrite H; [|apply NoDup_map_iter_fst|done]. by rewrite list_to_map_iter.
Qed.

Lemma swept_lookup s d bl :
  swept s !! d = Some bl <-> blobs s !! d = Some bl /\ refcount d (manifests s) = 0%Z /\ stale s (Blob.last_accessed bl).
Proof. unfold swept. by rewrite map_lookup_filter_Some. Qed.

(** What the sweep deletes is [swept]. *)
Lemma sweep_is_swept s0 io p d :
  refs_fit s0 -> refs_inv (refs_fit s0) s0 [] p -> swept_inv s0 p ->
  (if blobs (ps (sweep io p)) !! d is Some _ then None else blobs (ps p) !! d) = swept s0 !! d.
Proof.
  intros Hfit Hr [H1 H2 H3 H4 H5]. apply option_eq. intros bl. rewrite swept_lookup, sweep_lookup.
  assert (Hst : forall la, stale (ps p) la <-> stale s0 la) by (intros; unfold stale; by rewrite H1).
  assert (Hcount : refcount d (manifests s0) = 0%Z -> refcount d (manifests (ps p)) = 0%Z).
  { intros Hz. apply msum_zero. intros k m Hk. apply occ_absent. intros Hd.
    destruct (H2 k m Hk) as (m0 & H0 & Hc). rewrite Hc in Hd. pose proof (refcount_pos d _ k m0 H0 Hd). lia. }
  split.
  - destruct (bks p !! d) as [bb|] eqn:Ek; [|by destruct (blobs (ps p) !! d)].
    destruct (decide (sweepable (ps p) bb)) as [[Hz Hs]|]; [|by destruct (blobs (ps p) !! d)].
    intros Hb. destruct (decide (refcount d (manifests s0) = 0%Z)) as [Hc|Hc].
    + destruct (ri_table _ _ _ _ Hr d bb Ek) as (b0 & H0 & Hla). rewrite H3 in Hb by done.
      split_and!; [done..|]. apply Hst. rewrite H0 in Hb. injection Hb as ->. by rewrite <- Hla.
    + destruct (H4 d bb Ek Hz Hc) as [?|Hns]; [congruence|]. by apply Hst in Hs.
  - intros (Hb & Hc & Hs). destruct (H5 d ltac:(eauto)) as [bb Ek]. rewrite Ek.
    destruct (ri_table _ _ _ _ Hr d bb Ek) as (b0 & H0 & Hla).
    rewrite decide_True; [by rewrite H3|]. split.
    + pose proof (ri_count _ _ _ _ Hr Hfit d bb Ek) as Hcnt. rewrite Hcount in Hcnt by done.
      change (occ d []) with 0%Z in Hcnt. lia.
    + apply Hst. rewrite Hb in H0. injection H0 as <-. by rewrite Hla.
Qed.
End swept.
