(* ===== verification/EvictionResult.v ===== *)
(** * Eviction: what holds when [evict] returns

    The scan establishes the invariant of the loop, every iteration keeps it,
    and the results follow: the budgets, the counters, and the two ways the
    published counters differ from the bytes really held. *)
From S2P Require Import Prelude Digest Env Config State Accounting Eviction EvictionFrame.
From S2P Require Import EvictionRefs EvictionMaps EvictionUsage EvictionBudget EvictionHeaps.
From S2P Require Import EvictionPhases EvictionSwept.

Local Open Scope Z_scope.

Section result.
Context {SHA : Sha256} {ITER : MapIter} {JSON : SerdeJson} {HEAP : BinaryHeap}.
Implicit Types (s : State) (p : Pass) (b : Bucket) (old : bool).

(** ** The scan: accumulators *)
Definition acc_mod p (f : Bucket -> Z) : Prop := forall b, Z.of_N (acc p b) = f b mod Z.of_N U64.

Lemma acc_mod_ext p f g : (forall b, f b = g b) -> acc_mod p f -> acc_mod p g.
Proof. intros Hfg Hp b. by rewrite (Hp b), Hfg. Qed.

Lemma acc_plus_mod p f b n :
  acc_mod p f -> acc_mod (acc_plus b n p) (fun b' => f b' + share b' (b, n)).
Proof.
  intros Hp b'. pass_simpl. unfold share. simpl. specialize (Hp b').
  destruct (decide (b = b')) as [<-|Hne].
  - rewrite fn_lookup_insert. unfold u64_add.
    rewrite N2Z.inj_mod, N2Z.inj_add, Hp, Zplus_mod_idemp_l. done.
  - rewrite fn_lookup_insert_ne, Z.add_0_r by done. done.
Qed.

Lemma scan_blob_acc p f e :
  acc_mod p f -> acc_mod (scan_blob p e) (fun b => f b + blob_share b e.2).
Proof.
  intros Hp. unfold scan_blob, blob_share. pose proof (blob_bucket_tier e.2) as Hb.
  destruct (blob_tier e.2) as [t n]. simpl in Hb. rewrite Hb. by apply (acc_plus_mod p f).
Qed.

Lemma scan_manifest_acc p f e :
  acc_mod p f -> acc_mod (scan_manifest p e) (fun b => f b + manifest_share b e.2).
Proof.
  intros Hp. unfold scan_manifest. destruct (foldl _ _ _) as [[t x] y].
  apply acc_plus_mod. by destruct x, y.
Qed.

Lemma scan_redis_acc p f e :
  acc_mod p f -> acc_mod (scan_redis p e) (fun b => f b + redis_share b e.1 e.2).
Proof.
  intros Hp. unfold scan_redis, redis_share.
  pose proof (acc_plus_mod p f small_redis_memory_usage (blen e.1) Hp) as H1.
  destruct e.2 as [v id la|n id la]; simpl; [case_match|];
    (eapply acc_mod_ext; [|apply acc_plus_mod; exact H1]); intros b; simpl; lia.
Qed.

Lemma scan_acc s b : Z.of_N (acc (scan s) b) = charge b s mod Z.of_N U64.
Proof.
  assert (acc_mod (scan s) (fun b =>
    lsum (fun e => blob_share b e.2) (map_iter (blobs s)) +
    lsum (fun e => manifest_share b e.2) (map_iter (manifests s)) +
    lsum (fun e => redis_share b e.1 e.2) (map_iter (redis_entries s)))) as Hm.
  { unfold scan.
    apply (foldl_prefix_ind (fun l q => acc_mod q (fun b =>
      lsum (fun e => blob_share b e.2) (map_iter (blobs s)) +
      lsum (fun e => manifest_share b e.2) (map_iter (manifests s)) +
      lsum (fun e => redis_share b e.1 e.2) l))).
    2:{ intros l1 e l2 q _ IH. eapply acc_mod_ext; [|apply scan_redis_acc; exact IH].
        intros b'. simpl. rewrite lsum_app. simpl. lia. }
    apply (foldl_prefix_ind (fun l q => acc_mod q (fun b =>
      lsum (fun e => blob_share b e.2) (map_iter (blobs s)) +
      lsum (fun e => manifest_share b e.2) l + 0))).
    2:{ intros l1 e l2 q _ IH. eapply acc_mod_ext; [|apply scan_manifest_acc; exact IH].
        intros b'. simpl. rewrite lsum_app. simpl. lia. }
    apply (foldl_prefix_ind (fun l q => acc_mod q (fun b =>
      lsum (fun e => blob_share b e.2) l + 0 + 0))).
    2:{ intros l1 e l2 q _ IH. eapply acc_mod_ext; [|apply scan_blob_acc; exact IH].
        intros b'. simpl. rewrite lsum_app. simpl. lia. }
    done. }
  rewrite (Hm b). unfold charge.
  rewrite <- (lsum_map_iter (fun _ m => manifest_share b m)).
  rewrite <- (lsum_map_iter (fun _ bl => blob_share b bl)).
  rewrite <- (lsum_map_iter (redis_share b)). f_equal. lia.
Qed.

Lemma scan_acc_inv s :
  Accounted s -> total_charge s < I63 -> acc_inv s (scan s).
Proof.
  intros Hacc Hfit.
  assert (He : forall b, Z.of_N (acc (scan s) b) = charge b s).
  { intros b. rewrite scan_acc. apply Z.mod_small. pose proof (charge_nonneg b s).
    pose proof (charge_le_total b s). unfold U64, I63 in *. lia. }
  split; rewrite ?scan_ps.
  - intros b. rewrite He. unfold drift. case_decide; lia.
  - lia.
  - unfold sum7, total_charge. rewrite !He. lia.
  - intros d bb id c mt la Hd Ht Hb. pose proof (scan_tally s d) as Hs. rewrite Hd in Hs.
    destruct Hs as (bl & Hbl & Htier & _). rewrite Hb in Hbl. injection Hbl as <-.
    rewrite Ht in Htier. simpl in Htier. case_match eqn:E; [|done]. by apply N.ltb_lt in E.
  - apply Hacc.
Qed.

(** ** The scan: heaps *)
Definition redis_view b (e : bytes * RedisEntry.t) : option (bytes * N) :=
  if decide ((redis_value_bucket e.2).1 = b) then Some (e.1, (redis_value_bucket e.2).2) else None.

Lemma redis_view_cons b x (l : list (bytes * RedisEntry.t)) :
  omap (redis_view b) (x :: l) =
  match redis_view b x with
  | Some y => y :: omap (redis_view b) l
  | None => omap (redis_view b) l
  end.
Proof. done. Qed.

Lemma elem_of_redis_view b k n (l : list (bytes * RedisEntry.t)) :
  (k, n) ∈ omap (redis_view b) l <-> exists e, (k, e) ∈ l /\ redis_value_bucket e = (b, n).
Proof.
  rewrite list_elem_of_omap. unfold redis_view. split.
  - intros ([k' e] & Hin & Hv). case_decide as Hb; simplify_eq/=. exists e.
    split; [done|]. by destruct (redis_value_bucket e).
  - intros (e & Hin & He). exists (k, e). split; [done|]. simpl. rewrite He. simpl.
    by rewrite decide_True.
Qed.

Lemma NoDup_redis_view b (l : list (bytes * RedisEntry.t)) :
  NoDup l.*1 -> NoDup (omap (redis_view b) l).*1.
Proof.
  induction l as [|[k e] l IH]; [done|]. rewrite fmap_cons. simpl. intros [Hk Hl]%NoDup_cons.
  specialize (IH Hl). unfold redis_view at 1. simpl. case_decide; [|done].
  simpl. apply NoDup_cons. split; [|done]. intros ([k' n] & -> & Hin)%list_elem_of_fmap.
  apply elem_of_redis_view in Hin as (e' & Hin & _). apply Hk.
  apply list_elem_of_fmap. by exists (k', e').
Qed.

(** The heaps before the redis entries are scanned hold manifests only. *)
Lemma scan_manifests_cands s p1 :
  (forall b, redis_cands (heap_of b p1) = []) ->
  let p2 := foldl scan_manifest p1 (map_iter (manifests s)) in
  (forall b, redis_cands (heap_of b p2) = []) /\
  (forall k m, manifests s !! k = Some m -> CManifest (m_last_used m) k ∈ small_memory_candidates p2).
Proof.
  intros H0 p2. subst p2.
  assert (forall l, let q := foldl scan_manifest p1 l in
    (forall b, redis_cands (heap_of b q) = []) /\
    (forall k m, (k, m) ∈ l -> CManifest (m_last_used m) k ∈ small_memory_candidates q)) as Hl.
  { intros l. simpl. apply (foldl_prefix_ind (fun l q => (forall b, redis_cands (heap_of b q) = []) /\
      (forall k m, (k, m) ∈ l -> CManifest (m_last_used m) k ∈ small_memory_candidates q))).
    - split; [done|]. by intros k m ?%elem_of_nil.
    - intros l1 [d m] l2 q _ [IH1 IH2]. unfold scan_manifest.
      destruct (foldl _ _ _) as [[t x] y]. split.
      + intros b. specialize (IH1 b). destruct b; simpl in *; destruct x, y; simpl; try done; apply IH1.
      + intros k m' [Hin|Hin%list_elem_of_singleton]%elem_of_app.
        * specialize (IH2 k m' Hin). destruct x, y; simpl; by right.
        * injection Hin as -> ->. destruct x, y; simpl; left. }
  destruct (Hl (map_iter (manifests s))) as [H1 H2]. split; [done|].
  intros k m Hk. apply H2. by apply elem_of_map_iter.
Qed.

Lemma scan_redis_cands p l :
  (forall b, redis_cands (heap_of b p) = []) ->
  let q := foldl scan_redis p l in
  (forall b, redis_bucket b -> redis_cands (heap_of b q) = omap (redis_view b) (reverse l)) /\
  (forall c, c ∈ small_memory_candidates p -> c ∈ small_memory_candidates q).
Proof.
  intros H0 q. subst q.
  apply (foldl_prefix_ind (fun l q =>
    (forall b, redis_bucket b -> redis_cands (heap_of b q) = omap (redis_view b) (reverse l)) /\
    (forall c, c ∈ small_memory_candidates p -> c ∈ small_memory_candidates q))); [done|].
  intros l1 [k e] l2 q _ [IH1 IH2]. split.
  - intros b Hb. rewrite reverse_snoc, redis_view_cons, <- (IH1 b Hb).
    unfold redis_view, scan_redis. simpl.
    destruct e as [v id la|n id la]; simpl; [case_match|];
      destruct Hb as [-> | [-> | ->]]; done.
  - intros c Hc. specialize (IH2 c Hc). unfold scan_redis. simpl.
    destruct e as [v id la|n id la]; simpl; [case_match|]; simpl; try done; by right.
Qed.

Lemma heap_of_other b p : ~ redis_bucket b -> heap_of b p = [].
Proof. unfold redis_bucket. destruct b; simpl; try done; intros Hb; destruct Hb; auto. Qed.

Lemma redis_bucket_dec b : redis_bucket b \/ ~ redis_bucket b.
Proof. unfold redis_bucket. destruct b; auto; right; intros [|[]]; done. Qed.

Lemma scan_cand_inv s : cand_inv None None (scan s).
Proof.
  unfold scan. set (p1 := foldl scan_blob _ _).
  assert (H0 : forall b, redis_cands (heap_of b p1) = []).
  { apply (foldl_inv (fun q => forall b, redis_cands (heap_of b q) = [])); [by intros []|].
    intros q e _ Hq b. rewrite <- (Hq b). unfold scan_blob. destruct (blob_tier e.2). by destruct b. }
  destruct (scan_manifests_cands s p1 H0) as [H1 Hm]. set (p2 := foldl scan_manifest p1 _) in *.
  destruct (scan_redis_cands p2 (map_iter (redis_entries s)) H1) as [Hr Hs].
  assert (Hps : ps (foldl scan_redis p2 (map_iter (redis_entries s))) = s) by apply (scan_ps s).
  set (p := foldl scan_redis p2 _) in *.
  split; rewrite ?Hps.
  - intros b k n. destruct (redis_bucket_dec b) as [Hb|Hb]; [|rewrite heap_of_other by done; intros Hin; by apply not_elem_of_nil in Hin].
    rewrite Hr, elem_of_redis_view by done. intros (e & Hin & He). exists e.
    split_and!; [|done|done]. rewrite elem_of_reverse in Hin. by apply elem_of_map_iter.
  - intros b. destruct (redis_bucket_dec b) as [Hb|Hb]; [|rewrite heap_of_other by done; apply NoDup_nil_2].
    rewrite Hr by done. apply NoDup_redis_view. rewrite reverse_Permutation.
    apply NoDup_map_iter_fst.
  - intros k e Hk _. rewrite Hr by apply redis_value_bucket_in. apply elem_of_redis_view.
    exists e. split; [|by destruct (redis_value_bucket e)].
    rewrite elem_of_reverse. by apply elem_of_map_iter.
  - intros k m Hk _. exists (m_last_used m). by apply Hs, Hm.
Qed.

(** ** The loop *)
Definition loop_inv s0 p : Prop := acc_inv s0 p /\ cand_inv None None p.

Lemma pop_if_Some c h x h' : pop_if c h = Some (x, h') -> c = true /\ h ≡ₚ x :: h'.
Proof. unfold pop_if. destruct c; [|done]. intros Hp. split; [done|]. by apply heap_pop_perm. Qed.

Lemma acc_inv_heap s0 b h p : acc_inv s0 p -> acc_inv s0 (set_heap b h p).
Proof. intros Hp. eapply acc_inv_same; eauto; destruct b; simpl; eauto. Qed.

(** A pop under small-pool or disk pressure. *)
Lemma drop_pressure_inv s0 io b p c h :
  b = small_redis_memory_usage \/ b = redis_disk_usage ->
  loop_inv s0 p -> heap_of b p ≡ₚ c :: h ->
  loop_inv s0 (match c with
               | CManifest _ d => drop_manifest io d (set_heap b h p)
               | CRedis k _ n => drop_redis b k n (set_heap b h p)
               end).
Proof.
  intros Hb [Hp Hc] Hh.
  assert (Hrb : redis_bucket b) by (destruct Hb as [-> | ->]; unfold redis_bucket; auto).
  destruct c as [la d|k la n].
  - split; [by apply drop_manifest_acc, acc_inv_heap|].
    eapply drop_manifest_cands; [|by eapply pop_manifest].
    case_decide; auto.
  - destruct (pop_redis b p k la n h Hrb Hc Hh) as (Hc' & e & He & Hbe). split.
    + eapply drop_redis_acc; [by apply acc_inv_heap | by rewrite set_heap_ps | done].
    + by apply drop_redis_cands.
Qed.

Lemma iteration_loop_inv s0 io p :
  total_charge s0 < I63 -> loop_inv s0 p ->
  match evict_iteration io p with Continue q => loop_inv s0 q | _ => True end.
Proof.
  intros Hfit Hp. unfold evict_iteration.
  destruct (pop_if _ (small_memory_candidates p)) as [[c h]|] eqn:E1.
  { apply pop_if_Some in E1 as [_ Hh].
    pose proof (drop_pressure_inv s0 io small_redis_memory_usage p c h ltac:(auto) Hp Hh).
    by destruct c. }
  destruct (pop_if _ (large_memory_candidates p)) as [[c h]|] eqn:E2.
  { apply pop_if_Some in E2 as [_ Hh]. destruct Hp as [Hp Hc].
    assert (Hlb : redis_bucket large_redis_memory_usage) by (unfold redis_bucket; auto).
    pose proof (acc_inv_heap s0 large_redis_memory_usage h p Hp) as Hp'.
    destruct c as [la d|k la n]; simpl.
    - pose proof (pop_manifest large_redis_memory_usage p la d h Hlb Hc Hh) as Hc'.
      pose proof (spill_manifest_acc s0 io la d _ Hfit Hp').
      pose proof (spill_manifest_cands io la d _ Hc').
      simpl in *. by destruct (spill_manifest io la d (set_large h p)).
    - destruct (pop_redis large_redis_memory_usage p k la n h Hlb Hc Hh) as (Hc' & e & He & Hbe).
      pose proof (spill_redis_ok s0 io k la n _ e Hfit Hp' Hc' He Hbe).
      simpl in *. by destruct (spill_redis io k la n (set_large h p)). }
  destruct (pop_if _ (disk_candidates p)) as [[c h]|] eqn:E3; [|done].
  apply pop_if_Some in E3 as [_ Hh].
  pose proof (drop_pressure_inv s0 io redis_disk_usage p c h ltac:(auto) Hp Hh).
  by destruct c.
Qed.

(** The pass when the loop ends, before the sweep. *)
Record loop_end s io p : Prop := {
  le_loop : loop_inv s p;
  le_refs : refs_inv (refs_fit s) s [] p;
  le_heaps : heaps_inv (refs_fit s) s p;
  le_swept : refs_fit s -> swept_inv s p;
  le_env : same_env s (ps p);
  le_break : evict_iteration io p = Break p
}.

Definition pass_inv s p : Prop :=
  loop_inv s p /\ refs_inv (refs_fit s) s [] p /\ heaps_inv (refs_fit s) s p /\
  (refs_fit s -> swept_inv s p) /\ same_env s (ps p).

Lemma scan_pass_inv s : Accounted s -> total_charge s < I63 -> pass_inv s (scan (metric_add eviction_runs 1 s)).
Proof.
  intros Hacc Hfit. set (sm := metric_add eviction_runs 1 s). split_and!.
  - split; [|apply scan_cand_inv]. pose proof (scan_acc_inv sm Hacc Hfit) as [H1 H2 H3 H4 H5]. by split.
  - destruct (scan_refs_inv (refs_fit s) sm (fun H => H)) as [H1 H2 H3 H4]. by split.
  - destruct (scan_heaps sm) as [H1 H2 H3 H4]. by split.
  - intros Hx. destruct (scan_swept sm Hx) as [H1 H2 H3 H4 H5]. by split.
  - by rewrite scan_ps.
Qed.

Lemma iteration_pass_inv s io p :
  total_charge s < I63 -> pass_inv s p ->
  match evict_iteration io p with Continue q => pass_inv s q | _ => True end.
Proof.
  intros Hfit (Hl & Hr & Hh & Hs & He). pose proof (iteration_loop_inv s io p Hfit Hl) as H1.
  pose proof (iteration_refs_inv _ s io p Hr) as H2.
  pose proof (iteration_heaps _ s io p (acc_inv_fits s p Hfit (proj1 Hl)) Hh) as H3.
  pose proof (fun Hx => iteration_swept s io p (Hs Hx)) as H4. pose proof (iteration_env io p) as H5.
  destruct (evict_iteration io p); [|done..]. split_and!; [done..|by etrans].
Qed.

Lemma evict_loop_end io s s' :
  Accounted s -> total_charge s < I63 -> evict io s = Some (s', true) ->
  exists p, loop_end s io p /\ s' = publish (sweep io p).
Proof.
  intros Hacc Hfit. unfold evict. destruct (evict_loop io _ _) as [r|] eqn:El; [|done].
  apply (evict_loop_ind io (pass_inv s) (fun _ => True)) in El; [| |by apply scan_pass_inv].
  - destruct r as [p|p]; intros [= <-]. destruct El as [(H1 & H2 & H3 & H4 & H5) Hb]. by exists p.
  - intros p Hp. pose proof (iteration_pass_inv s io p Hfit Hp). by destruct (evict_iteration io p).
Qed.

Lemma drift_nonneg s0 b p : acc_inv s0 p -> 0 <= drift s0 b (ps p).
Proof. intros [_ H2 _ _ _]. unfold drift. case_decide; lia. Qed.

Lemma charge_le_acc s0 b p : acc_inv s0 p -> charge b (ps p) <= Z.of_N (acc p b).
Proof. intros Hp. rewrite (ai_exact _ _ Hp). pose proof (drift_nonneg s0 b p Hp). lia. Qed.

(** Unsigned sums of accumulators do not wrap. *)
Lemma acc_sums s0 p :
  total_charge s0 < I63 -> acc_inv s0 p ->
  (over_small p = false -> charge small_blob_memory_usage (ps p) + charge small_redis_memory_usage (ps p)
     + charge manifest_memory_usage (ps p) <= Z.of_N (small_target (ps p))) /\
  (over_memory p = false -> charge large_blob_memory_usage (ps p) + charge large_redis_memory_usage (ps p)
     + charge manifest_memory_usage (ps p) + charge small_blob_memory_usage (ps p)
     + charge small_redis_memory_usage (ps p) <= Z.of_N (memory_target (ps p))) /\
  (over_disk p = false -> charge blob_disk_usage (ps p) + charge redis_disk_usage (ps p)
     <= Z.of_N (disk_target (ps p))).
Proof.
  intros Hfit Hp. pose proof (ai_total _ _ Hp) as Ht. unfold sum7 in Ht.
  pose proof (charge_le_acc s0 manifest_memory_usage p Hp).
  pose proof (charge_le_acc s0 small_blob_memory_usage p Hp).
  pose proof (charge_le_acc s0 large_blob_memory_usage p Hp).
  pose proof (charge_le_acc s0 small_redis_memory_usage p Hp).
  pose proof (charge_le_acc s0 large_redis_memory_usage p Hp).
  pose proof (charge_le_acc s0 blob_disk_usage p Hp).
  pose proof (charge_le_acc s0 redis_disk_usage p Hp).
  unfold over_small, over_memory, over_disk.
  assert (Hadd : forall x y : N, (Z.of_N x + Z.of_N y < I63)%Z -> u64_add x y = (x + y)%N).
  { intros x y Hxy. unfold u64_add. apply N.mod_small. unfold I63, U64 in *. lia. }
  repeat match goal with |- context [u64_add ?x ?y] => rewrite (Hadd x y) by lia end.
  rewrite !N.ltb_ge. lia.
Qed.

(** ** The sweep *)
Lemma sweep_removed io p :
  exists removed : gmap Digest Blob.t,
    removed ##ₘ blobs (ps (sweep io p)) /\ blobs (ps p) = removed ∪ blobs (ps (sweep io p)) /\
    (forall d bl, removed !! d = Some bl -> exists bb, bks p !! d = Some bb /\ bk_refs bb = 0%N) /\
    (forall b, charge b (ps p) = charge b (ps (sweep io p)) + msum (fun _ bl => blob_share b bl) removed) /\
    usage (ps (sweep io p)) manifest_memory_usage = usage (ps p) manifest_memory_usage /\
    same_env (ps p) (ps (sweep io p)).
Proof.
  unfold sweep. pass_simpl.
  apply (foldl_inv (fun s => exists removed : gmap Digest Blob.t,
    removed ##ₘ blobs s /\ blobs (ps p) = removed ∪ blobs s /\
    (forall d bl, removed !! d = Some bl -> exists bb, bks p !! d = Some bb /\ bk_refs bb = 0%N) /\
    (forall b, charge b (ps p) = charge b s + msum (fun _ bl => blob_share b bl) removed) /\
    usage s manifest_memory_usage = usage (ps p) manifest_memory_usage /\ same_env (ps p) s)).
  { exists ∅. split_and!; [apply map_disjoint_empty_l|by rewrite map_empty_union| | |done|done].
    - intros d bl Hd. by rewrite lookup_empty in Hd.
    - intros b. rewrite msum_empty. lia. }
  intros s [d bb] Hin%elem_of_map_iter (rm & Hdis & Hun & Hrm & Hc & Hu & He). unfold sweep_blob. simpl.
  destruct (_ || _) eqn:Ec; [eauto 10|]. apply orb_false_iff in Ec as [Ec _].
  apply negb_false_iff, N.eqb_eq in Ec.
  pose proof (remove_blob_manifest_usage d s) as Hmu. pose proof (remove_blob_env d s) as Hen.
  assert (Hch : forall b, charge b (remove_blob d s).2 = charge b s - from_option (blob_share b) 0 (blobs s !! d))
    by (intros; apply charge_remove_blob).
  destruct (blobs s !! d) as [bl|] eqn:Ed.
  2:{ unfold remove_blob. rewrite Ed. eauto 10. }
  assert (Hbl : blobs (remove_blob d s).2 = delete d (blobs s) /\ (remove_blob d s).1 = Some bl).
  { unfold remove_blob. rewrite Ed. by destruct (blob_bucket bl). }
  destruct (remove_blob d s) as [o s1]. simpl in *. destruct Hbl as [Hbl ->].
  set (s2 := match bl with Blob.OnDisk _ _ _ _ => _ | _ => _ end).
  assert (Hs2 : blobs s2 = delete d (blobs s) /\ (forall b, charge b s2 = charge b s1) /\
    usage s2 = usage s1 /\ same_env s1 s2) by (subst s2; by destruct bl).
  destruct Hs2 as (Hb2 & Hc2 & Hu2 & He2).
  exists (<[d := bl]> rm). rewrite Hb2.
  assert (Hrd : rm !! d = None) by (eapply map_disjoint_Some_r; eauto).
  split_and!.
  - apply map_disjoint_insert_l_2; [apply lookup_delete_eq|]. by apply map_disjoint_delete_r.
  - rewrite Hun. rewrite <- (insert_delete_id (blobs s) d bl) at 1 by done.
    rewrite <- insert_union_r, insert_union_l by done. done.
  - intros d' bl' [[<- <-]|[_ Hd']]%lookup_insert_Some; [eauto|by eapply Hrm].
  - intros b. rewrite Hc, Hc2, Hch, msum_insert, Hrd. simpl. lia.
  - congruence.
  - etrans; [exact He|]. etrans; [exact Hen|exact He2].
Qed.

Lemma publish_usage p b :
  usage (publish p) b =
  if decide (b = manifest_memory_usage) then usage (ps p) manifest_memory_usage
  else wrap_i64 (Z.of_N (acc p b)).
Proof.
  unfold publish. pass_simpl.
  destruct b; simpl; repeat first [rewrite fn_lookup_insert | rewrite fn_lookup_insert_ne by done]; done.
Qed.

(** What the sweep and the final stores leave of the pools. *)
Lemma charge_published_le io p b : charge b (publish (sweep io p)) <= charge b (ps p).
Proof.
  change (charge b (publish (sweep io p))) with (charge b (ps (sweep io p))).
  destruct (sweep_removed io p) as (rm & _ & _ & _ & -> & _ & _).
  pose proof (msum_nonneg (fun _ bl => blob_share b bl) rm (fun _ _ _ => share_nonneg _ _)). lia.
Qed.

Lemma no_candidates_left io b p :
  cand_inv None None p -> redis_bucket b -> heap_of b p = [] ->
  forall k e, redis_entries (publish (sweep io p)) !! k = Some e -> (redis_value_bucket e).1 <> b.
Proof.
  intros Hc Hb Hh k e Hk <-. destruct (publish_maps (sweep io p)) as (_ & _ & _ & Hpr & _).
  destruct (sweep_maps io p) as (_ & _ & Hr). rewrite Hpr, Hr in Hk.
  pose proof (ci_redis _ _ _ Hc k e Hk ltac:(done)) as Hin. rewrite Hh in Hin. by apply not_elem_of_nil in Hin.
Qed.

(** The sweep deletes blobs only. *)
Lemma published_registry io p :
  manifests (publish (sweep io p)) = manifests (ps p) /\
  forall d bl, blobs (publish (sweep io p)) !! d = Some bl -> blobs (ps p) !! d = Some bl.
Proof.
  destruct (publish_maps (sweep io p)) as (Hb & Hm & _). destruct (sweep_maps io p) as (Hm' & _).
  split; [congruence|]. intros d bl. rewrite Hb, sweep_lookup. destruct (bks p !! d); [|done]. by case_decide.
Qed.

(** C5: when a pass that started from exact counters, with less than 2^63 bytes
    in all, succeeds, each pool is within three quarters of its limit, or nothing is left in it that evicting
    could relieve it of: no manifest and no redis entry in small memory; no
    redis entry in large memory, and no blob there that a manifest references
    (unless some blob has 2^32 references); no redis entry on disk, and no blob
    there that a manifest references, but for one that this very pass spilled
    for the sake of another manifest, and then memory is within its target. *)
Theorem evict_budgets io s s' :
  Accounted s -> total_charge s < I63 -> evict io s = Some (s', true) ->
  (charge manifest_memory_usage s' + charge small_blob_memory_usage s'
     + charge small_redis_memory_usage s' <= Z.of_N (small_target s) \/
   (manifests s' = ∅ /\ forall k e, redis_entries s' !! k = Some e ->
      (redis_value_bucket e).1 <> small_redis_memory_usage)) /\
  (charge manifest_memory_usage s' + charge small_blob_memory_usage s'
     + charge large_blob_memory_usage s' + charge small_redis_memory_usage s'
     + charge large_redis_memory_usage s' <= Z.of_N (memory_target s) \/
   ((forall k e, redis_entries s' !! k = Some e -> (redis_value_bucket e).1 <> large_redis_memory_usage) /\
    (refs_fit s -> forall k m d bl, manifests s' !! k = Some m -> d ∈ referenced_digests (m_content m) ->
       blobs s' !! d = Some bl -> (blob_bucket bl).1 <> large_blob_memory_usage))) /\
  (charge blob_disk_usage s' + charge redis_disk_usage s' <= Z.of_N (disk_target s) \/
   ((forall k e, redis_entries s' !! k = Some e -> (redis_value_bucket e).1 <> redis_disk_usage) /\
    (forall k m d bl, manifests s' !! k = Some m -> d ∈ referenced_digests (m_content m) ->
       blobs s' !! d = Some bl -> (blob_bucket bl).1 = blob_disk_usage ->
       (exists bl0, blobs s !! d = Some bl0 /\ (blob_bucket bl0).1 = large_blob_memory_usage) /\
       charge manifest_memory_usage s' + charge small_blob_memory_usage s'
         + charge large_blob_memory_usage s' + charge small_redis_memory_usage s'
         + charge large_redis_memory_usage s' <= Z.of_N (memory_target s)))).
Proof.
  intros Hacc Hfit He.
  destruct (evict_loop_end io s s' Hacc Hfit He) as (p & [[Hp Hc] _ Hhp _ Henv Hbrk] & ->).
  destruct (break_idle io p Hbrk) as (B1 & B2 & B3). destruct (heaps_end _ s io p Hhp Hbrk) as [E2 E3].
  destruct (acc_sums s p Hfit Hp) as (S1 & S2 & S3). destruct (published_registry io p) as [Hm Hbl].
  pose proof (charge_published_le io p) as Hle. pose proof (fun b => no_candidates_left io b p Hc) as Hno.
  assert (Ht : small_target (ps p) = small_target s /\ memory_target (ps p) = memory_target s /\
    disk_target (ps p) = disk_target s).
  { unfold small_target, memory_target, disk_target. by rewrite (se_config _ _ Henv). }
  destruct Ht as (T1 & T2 & T3). rewrite T1 in S1. rewrite T2 in S2. rewrite T3 in S3.
  pose proof (Hle manifest_memory_usage). pose proof (Hle small_blob_memory_usage).
  pose proof (Hle large_blob_memory_usage). pose proof (Hle small_redis_memory_usage).
  pose proof (Hle large_redis_memory_usage). pose proof (Hle blob_disk_usage).
  pose proof (Hle redis_disk_usage).
  assert (Htier : forall bl t, (blob_bucket bl).1 = tier_bucket t -> (blob_tier bl).1 = t).
  { intros bl t. rewrite blob_bucket_tier. by destruct (blob_tier bl).1, t. }
  assert (Htier' : forall bl t, (blob_tier bl).1 = t -> (blob_bucket bl).1 = tier_bucket t)
    by (intros bl t <-; by rewrite blob_bucket_tier).
  rewrite Hm. split_and!.
  - destruct B1 as [B1|B1]; [left; specialize (S1 B1); lia|right].
    split; [|apply Hno; [unfold redis_bucket; auto|done]].
    apply map_empty. intros k. destruct (manifests (ps p) !! k) as [m|] eqn:Ek; [|done].
    destruct (ci_manifest _ _ _ Hc k m Ek ltac:(done)) as [la Hla].
    rewrite B1 in Hla. by apply not_elem_of_nil in Hla.
  - destruct B2 as [B2|B2]; [left; specialize (S2 B2); lia|].
    destruct E2 as [E2|E2]; [left; specialize (S2 E2); lia|right].
    split; [apply Hno; [unfold redis_bucket; auto|done]|].
    intros Hx k m d bl Hk Hd Hb%Hbl Hl. apply (E2 Hx k m d Hk Hd). exists bl. split; [done|]. by apply (Htier bl LargeMem).
  - destruct B3 as [B3|B3]; [left; specialize (S3 B3); lia|].
    destruct E3 as [E3|E3]; [left; specialize (S3 E3); lia|right].
    split; [apply Hno; [unfold redis_bucket; auto|done]|].
    intros k m d bl Hk Hd Hb%Hbl Hl. destruct (E3 k m d Hk Hd) as (Ho & bl0 & Hbl0 & Ht0).
    { exists bl. split; [done|]. by apply (Htier bl Disk). }
    split; [exists bl0; split; [done|by apply (Htier' bl0 LargeMem)]|]. specialize (S2 Ho). lia.
Qed.

(** ** The published counters *)

(** The bytes of the blobs that the sweep deletes, by the bucket they were in. *)
Definition swept_bytes b s : Z := msum (fun _ bl => blob_share b bl) (swept s).

(** What the counters say beyond the bytes that are held. *)
Definition excess s s' b : Z :=
  swept_bytes b s + (if decide (b = small_redis_memory_usage) then keybytes s - keybytes s' else 0).

Lemma sweep_charge s io p :
  refs_fit s -> loop_end s io p ->
  forall b, charge b (ps p) = charge b (ps (sweep io p)) + swept_bytes b s.
Proof.
  intros Hrf Hp b. destruct (sweep_removed io p) as (rm & Hdis & Hun & _ & Hch & _ & _).
  rewrite Hch. f_equal. unfold swept_bytes. f_equal. apply map_eq. intros d.
  rewrite <- (sweep_is_swept s io p d Hrf (le_refs _ _ _ Hp) (le_swept _ _ _ Hp Hrf)), Hun.
  destruct (blobs (ps (sweep io p)) !! d) as [bl|] eqn:E; [by eapply map_disjoint_Some_r|].
  rewrite lookup_union_l by done. done.
Qed.

Lemma published_counters io s p :
  total_charge s < I63 -> refs_fit s -> loop_end s io p ->
  let s' := publish (sweep io p) in
  forall b, usage s' b = charge b s' + excess s s' b /\ 0 <= usage s' b < I63 /\ 0 <= excess s s' b.
Proof.
  intros Hfit Hrf Hp s' b. pose proof Hp as [[Ha _] _ _ _ _ _]. destruct (sweep_maps io p) as (_ & _ & Hr).
  pose proof (sweep_charge s io p Hrf Hp b) as Hch. unfold s'. rewrite publish_usage. unfold excess.
  change (charge b (publish (sweep io p))) with (charge b (ps (sweep io p))).
  change (keybytes (publish (sweep io p))) with (keybytes (ps (sweep io p))).
  assert (Hk : keybytes (ps (sweep io p)) = keybytes (ps p)) by (unfold keybytes; by rewrite Hr).
  rewrite Hk. change (acc (sweep io p)) with (acc p).
  assert (Hsw : 0 <= swept_bytes b s) by (apply msum_nonneg; intros; apply share_nonneg).
  pose proof (ai_exact _ _ Ha b) as Hx. unfold drift in Hx. pose proof (ai_keys _ _ Ha) as Hkeys.
  pose proof (ai_total _ _ Ha) as Ht. unfold sum7 in Ht.
  pose proof (charge_nonneg b (ps p)). pose proof (charge_le_acc s b p Ha).
  assert (Hlt : Z.of_N (acc p b) < I63) by (destruct b; lia).
  destruct (decide (b = manifest_memory_usage)) as [->|Hb].
  - destruct (sweep_removed io p) as (_ & _ & _ & _ & _ & Hmu & _).
    rewrite Hmu, (ai_manifest _ _ Ha). rewrite !decide_False in * by done.
    rewrite wrap_i64_small; unfold I63 in *; lia.
  - rewrite wrap_i64_small by (unfold I63 in *; lia). rewrite Hx. repeat case_decide; lia.
Qed.

(** C6: the seven counters after a successful pass that started from exact
    ones, with less than 2^63 bytes in all and no reference count that wraps,
    exactly: the bytes really held, plus the bytes of the blobs that the final
    sweep deleted, which are those that no manifest referenced and nobody used
    in the last five hours when the pass began, plus the keys of the redis
    entries that the loop dropped. *)
Theorem evict_counters io s s' :
  Accounted s -> total_charge s < I63 -> refs_fit s -> evict io s = Some (s', true) ->
  forall b, usage s' b =
    charge b s'
    + msum (fun _ bl => blob_share b bl)
        (filter (fun kv => refcount kv.1 (manifests s) = 0 /\
           (BLOB_GRACE_SECONDS <= now s - Blob.last_accessed kv.2)%N) (blobs s))
    + (if decide (b = small_redis_memory_usage) then keybytes s - keybytes s' else 0).
Proof.
  intros Hacc Hfit Hrf He b. destruct (evict_loop_end io s s' Hacc Hfit He) as (p & Hp & ->).
  destruct (published_counters io s p Hfit Hrf Hp b) as [-> _]. unfold excess. rewrite Z.add_assoc. reflexivity.
Qed.
End result.
