(* ===== verification/EvictionAccounting.v ===== *)
(** * Eviction: when a pass leaves the counters right

    The stores at the end of a pass overwrite what the sweep has subtracted,
    and no pass subtracts the key of a redis entry it drops. So a successful
    pass leaves the counters right exactly when it swept no bytes and dropped no
    key with any. *)
From S2P Require Import Prelude Digest Env Config State Accounting Eviction EvictionFrame.
From S2P Require Import EvictionRefs EvictionMaps EvictionUsage EvictionBudget EvictionHeaps.
From S2P Require Import EvictionPhases EvictionSwept EvictionResult.

Local Open Scope Z_scope.

(** A sum over keys that go. *)
Section sums.
Context {K V : Type} `{Countable K}.
Implicit Types (f : K -> Z) (m : gmap K V).

Lemma msum_shrink f m m' :
  (forall k, is_Some (m' !! k) -> is_Some (m !! k)) ->
  msum (fun k _ => f k) m = msum (fun k _ => f k) m' + msum (fun k _ => f k) (filter (fun kv => m' !! kv.1 = None) m).
Proof.
  revert m. induction m' as [|k x m' Hk IH] using map_ind; intros m Hsub.
  { rewrite msum_empty, map_filter_id by (intros k v _; apply lookup_empty). lia. }
  destruct (Hsub k) as [v Hv]; [rewrite lookup_insert_eq; by eexists|].
  rewrite msum_insert_None by done. pose proof (msum_delete (fun k _ => f k) m k) as Hd. rewrite Hv in Hd. simpl in Hd.
  assert (Hf : filter (fun kv => <[k := x]> m' !! kv.1 = None) m = filter (fun kv => m' !! kv.1 = None) (delete k m)).
  { apply map_eq. intros k'. apply option_eq. intros v'. rewrite !map_lookup_filter_Some. cbn [fst].
    rewrite lookup_delete_Some, lookup_insert_None. naive_solver. }
  rewrite Hf. specialize (IH (delete k m)). rewrite <- Z.add_assoc, <- IH; [lia|].
  intros k' Hk'. destruct (decide (k = k')) as [->|Hne]; [rewrite Hk in Hk'; by destruct Hk'|].
  rewrite lookup_delete_ne by done. apply Hsub. by rewrite lookup_insert_ne.
Qed.

Lemma msum_all_zero (g : K -> V -> Z) m :
  (forall k v, m !! k = Some v -> 0 <= g k v) ->
  msum g m = 0 <-> (forall k v, m !! k = Some v -> g k v = 0).
Proof.
  intros Hg. split; [|apply msum_zero]. intros Hz k v Hk.
  pose proof (msum_lookup_le g m k v Hg Hk). pose proof (Hg k v Hk). lia.
Qed.
End sums.

Section accounting.
Context {SHA : Sha256} {ITER : MapIter} {JSON : SerdeJson} {HEAP : BinaryHeap}.
Implicit Types (s : State) (p : Pass) (b : Bucket).

(** ** A pass adds no key *)
Definition keys_of s0 p : Prop := forall k, is_Some (redis_entries (ps p) !! k) -> is_Some (redis_entries s0 !! k).

Lemma spill_redis_entries_keys io key la n p k :
  is_Some (redis_entries (ps (outcome (spill_redis io key la n p))) !! k) -> is_Some (redis_entries (ps p) !! k).
Proof.
  unfold spill_redis, spill_redis_write.
  destruct (redis_entries (ps p) !! key) as [[v id l|]|] eqn:Ek; [|done..].
  destruct (write_blob_maps io id v (ps p)) as (_ & _ & _ & Hr).
  destruct (write_blob_to_disk io id v (ps p)) as [s' []]; cbn [outcome fst] in *;
    unfold spill_redis_commit; pass_simpl; rewrite Hr; [|done].
  destruct (decide (key = k)) as [->|Hne]; [rewrite Ek; by eexists|by rewrite lookup_insert_ne].
Qed.

Lemma drop_cand_keys io b c p k :
  is_Some (redis_entries (ps (drop_cand io b c p)) !! k) -> is_Some (redis_entries (ps p) !! k).
Proof.
  destruct c as [la d|key la n]; cbn [drop_cand].
  - by rewrite (proj2 (drop_manifest_entries io d p)).
  - rewrite (proj1 (drop_redis_entries b key n p)). intros [v [_ Hv]%lookup_delete_Some]. by eexists.
Qed.

Lemma spill_manifest_keys io la d p k :
  is_Some (redis_entries (ps (outcome (spill_manifest io la d p))) !! k) -> is_Some (redis_entries (ps p) !! k).
Proof.
  unfold spill_manifest. destruct (manifests (ps p) !! d) as [m|]; [|done]. cbv zeta. set (p1 := set_ps _ p).
  pose proof (proj2 (spill_refs_entries io (m_evicted m) p1 (referenced_digests (m_content m)))) as Hr.
  destruct (spill_refs _ _ _ _); cbn [mbind result_bind outcome] in *; pass_simpl; by rewrite Hr.
Qed.

Lemma iteration_keys s0 io p :
  keys_of s0 p -> match evict_iteration io p with Continue q => keys_of s0 q | _ => True end.
Proof.
  intros Hp. unfold evict_iteration. destruct (pop_if _ (small_memory_candidates p)) as [[c h]|].
  { pose proof (drop_cand_keys io small_redis_memory_usage c (set_small h p)) as H.
    destruct c; cbn [small_pressure]; intros k' Hk'; by apply Hp, H. }
  destruct (pop_if _ (large_memory_candidates p)) as [[[la d|key la n] h]|]; cbn [large_pressure].
  - pose proof (spill_manifest_keys io la d (set_large h p)) as H.
    destruct (spill_manifest _ _ _ _); [|done]. intros k' Hk'. by apply Hp, H.
  - pose proof (spill_redis_entries_keys io key la n (set_large h p)) as H.
    destruct (spill_redis _ _ _ _ _); [|done]. intros k' Hk'. by apply Hp, H.
  - destruct (pop_if _ (disk_candidates p)) as [[c h]|]; [|done].
    pose proof (drop_cand_keys io redis_disk_usage c (set_disk_cands h p)) as H.
    destruct c; cbn [disk_pressure]; intros k' Hk'; by apply Hp, H.
Qed.

Lemma evict_keys io s s' k :
  evict io s = Some (s', true) -> is_Some (redis_entries s' !! k) -> is_Some (redis_entries s !! k).
Proof.
  unfold evict. destruct (evict_loop io _ _) as [r|] eqn:El; [|done].
  apply (evict_loop_ind io (keys_of s) (fun _ => True)) in El.
  - destruct r as [p|p]; intros [= <-]. destruct El as [Hk _]. destruct (sweep_maps io p) as (_ & _ & Hr).
    change (redis_entries (publish (sweep io p))) with (redis_entries (ps (sweep io p))). rewrite Hr. apply Hk.
  - intros p Hp. pose proof (iteration_keys s io p Hp). by destruct (evict_iteration io p).
  - intros k'. by rewrite scan_ps.
Qed.

(** ** What is over-counted *)
Lemma share_zero (x : Bucket * N) : (forall b, share b x = 0) <-> x.2 = 0%N.
Proof.
  unfold share. split; [intros Hs|intros -> b]; [|by case_decide]. specialize (Hs x.1).
  rewrite decide_True in Hs by done. lia.
Qed.

Lemma swept_bytes_zero s :
  (forall b, swept_bytes b s = 0) <-> forall d bl, swept s !! d = Some bl -> (blob_bucket bl).2 = 0%N.
Proof.
  unfold swept_bytes. split.
  - intros Hz d bl Hd. apply share_zero. intros b.
    apply (proj1 (msum_all_zero _ _ (fun _ bl _ => share_nonneg b (blob_bucket bl))) (Hz b) d bl Hd).
  - intros Hz b. apply msum_zero. intros d bl Hd. unfold blob_share, share. rewrite (Hz d bl Hd). by case_decide.
Qed.

Lemma keybytes_lost s s' :
  (forall k, is_Some (redis_entries s' !! k) -> is_Some (redis_entries s !! k)) ->
  0 <= keybytes s - keybytes s' /\
  (keybytes s - keybytes s' = 0 <->
   forall k e, redis_entries s !! k = Some e -> redis_entries s' !! k = None -> k = []).
Proof.
  intros Hsub. unfold keybytes.
  rewrite (msum_shrink (fun k : bytes => Z.of_N (blen k)) (redis_entries s) (redis_entries s') Hsub).
  set (lost := filter _ (redis_entries s)).
  assert (Hlost : forall k e, lost !! k = Some e <-> redis_entries s !! k = Some e /\ redis_entries s' !! k = None)
    by (intros; unfold lost; by rewrite map_lookup_filter_Some).
  pose proof (msum_all_zero (fun k _ => Z.of_N (blen k)) lost (fun _ _ _ => N2Z.is_nonneg _)) as Hz.
  pose proof (msum_nonneg (fun k _ => Z.of_N (blen k)) lost (fun _ _ _ => N2Z.is_nonneg _)) as Hn.
  split; [lia|]. rewrite Z.add_simpl_l, Hz. split.
  - intros H k e Hk Hnone. specialize (H k e ltac:(by apply Hlost)). unfold blen in H. destruct k; [done|]. simpl in H. lia.
  - intros H k e [Hk Hnone]%Hlost. by rewrite (H k e).
Qed.

(** C33: a defect. A successful pass that started from exact counters (less than
    2^63 bytes in all, no reference count wraps) leaves exact counters if and
    only if every blob that its final sweep deleted, and the key
    of every redis entry that it dropped, was empty: the final stores write back
    accumulators that still count the swept blobs, and the keys of evicted
    entries are never subtracted. *)
Theorem evict_accounting io s s' :
  Accounted s -> total_charge s < I63 -> refs_fit s -> evict io s = Some (s', true) ->
  Accounted s' <->
  (forall d bl, blobs s !! d = Some bl -> refcount d (manifests s) = 0 ->
     (BLOB_GRACE_SECONDS <= now s - Blob.last_accessed bl)%N -> (blob_bucket bl).2 = 0%N) /\
  (forall k e, redis_entries s !! k = Some e -> redis_entries s' !! k = None -> k = []).
Proof.
  intros Hacc Hfit Hrf He. destruct (keybytes_lost s s' (fun k => evict_keys io s s' k He)) as [Hkn Hk].
  rewrite <- Hk. destruct (evict_loop_end io s s' Hacc Hfit He) as (p & Hp & ->).
  pose proof (published_counters io s p Hfit Hrf Hp) as Hc. cbv zeta in Hc. set (s' := publish (sweep io p)) in *. clearbody s'.
  assert (Ha : Accounted s' <-> forall b, excess s s' b = 0).
  { split; intros H b; destruct (Hc b) as (Hu & Hb & Hex); pose proof (charge_nonneg b s').
    - specialize (H b). cbn beta in H. rewrite wrap_i64_small in H; unfold I63 in *; lia.
    - rewrite (H b) in Hu. rewrite wrap_i64_small; unfold I63 in *; lia. }
  assert (Hs : (forall b, swept_bytes b s = 0) <->
    (forall d bl, blobs s !! d = Some bl -> refcount d (manifests s) = 0 ->
       (BLOB_GRACE_SECONDS <= now s - Blob.last_accessed bl)%N -> (blob_bucket bl).2 = 0%N)).
  { rewrite swept_bytes_zero. setoid_rewrite swept_lookup. unfold stale. naive_solver. }
  assert (Hsn : forall b, 0 <= swept_bytes b s) by (intros; apply msum_nonneg; intros; apply share_nonneg).
  rewrite Ha, <- Hs. unfold excess. split.
  - intros H. split.
    + intros b. specialize (H b). specialize (Hsn b). case_decide; lia.
    + specialize (H small_redis_memory_usage). specialize (Hsn small_redis_memory_usage).
      rewrite decide_True in H by done. lia.
  - intros [H1 H2] b. rewrite H1. case_decide; lia.
Qed.
End accounting.
