(* ===== verification/EvictionOrder.v ===== *)
(** * Eviction order: the small pool loses its oldest entries first

    Invariant of the loop: once an entry of the small pool is gone, the heap
    holds nothing older. *)
From S2P Require Import Prelude Digest Env Config Counters State Accounting Eviction.
From S2P Require Import EvictionFrame EvictionRefs EvictionMaps EvictionBudget EvictionResult.

Section order.
Context {SHA : Sha256} {ITER : MapIter} {JSON : SerdeJson} {HEAP : BinaryHeap}.
Implicit Types (s : State) (p : Pass).

(** The redis entries a pass finds in small memory, and when they were used. *)
Definition small_entry s (k : bytes) (la : N) : Prop :=
  exists v id, redis_entries s !! k = Some (RedisEntry.InMemory v id la) /\
    (blen v <= MEMORY_TIER_THRESHOLD)%N.

(** [old_small c h]: nothing left in the heap is older than [la]. *)
Definition none_older (la : N) (h : list EvictionCandidate) : Prop :=
  forall c, c ∈ h -> (la <= last_access_time c)%N.

Record order_inv s0 p : Prop := {
  oi_kept : forall k la, small_entry s0 k la ->
    redis_entries (ps p) !! k = None \/ exists n, CRedis k la n ∈ small_memory_candidates p;
  oi_manifest : forall d m, manifests s0 !! d = Some m ->
    manifests (ps p) !! d = None \/ CManifest (m_last_used m) d ∈ small_memory_candidates p;
  oi_dropped : forall k la, small_entry s0 k la -> redis_entries (ps p) !! k = None ->
    none_older la (small_memory_candidates p);
  oi_small : forall k la n, CRedis k la n ∈ small_memory_candidates p -> small_entry s0 k la;
  oi_other : forall k la n la', CRedis k la n ∈ large_memory_candidates p ++ disk_candidates p ->
    ~ small_entry s0 k la'
}.

Lemma small_entry_fun s k la la' : small_entry s k la -> small_entry s k la' -> la = la'.
Proof. intros (v & id & H & _) (v' & id' & H' & _). congruence. Qed.

(** ** The scan *)
Definition no_redis p : Prop := forall k la n,
  (CRedis k la n ∉ small_memory_candidates p) /\ (CRedis k la n ∉ large_memory_candidates p) /\
  (CRedis k la n ∉ disk_candidates p).

Lemma scan_blob_heaps p e :
  small_memory_candidates (scan_blob p e) = small_memory_candidates p /\
  large_memory_candidates (scan_blob p e) = large_memory_candidates p /\
  disk_candidates (scan_blob p e) = disk_candidates p.
Proof. unfold scan_blob. by destruct (blob_tier e.2). Qed.

Lemma scan_manifest_no_redis p e : no_redis p -> no_redis (scan_manifest p e).
Proof.
  intros Hp k la n. destruct (Hp k la n) as (H1 & H2 & H3). unfold scan_manifest.
  destruct (foldl _ _ _) as [[t x] y]. destruct x, y; pass_simpl; rewrite ?not_elem_of_cons; done.
Qed.

(** A redis entry goes to the heap of its tier. *)
Lemma scan_redis_heaps p l :
  no_redis p ->
  let q := foldl scan_redis p l in
  (forall k v id la, (k, RedisEntry.InMemory v id la) ∈ l -> (blen v <= MEMORY_TIER_THRESHOLD)%N ->
     CRedis k la (blen v) ∈ small_memory_candidates q) /\
  (forall k la n, CRedis k la n ∈ small_memory_candidates q ->
     exists v id, (k, RedisEntry.InMemory v id la) ∈ l /\ (blen v <= MEMORY_TIER_THRESHOLD)%N) /\
  (forall k la n, CRedis k la n ∈ large_memory_candidates q \/ CRedis k la n ∈ disk_candidates q ->
     exists e, (k, e) ∈ l /\ forall v id la', e = RedisEntry.InMemory v id la' -> (MEMORY_TIER_THRESHOLD < blen v)%N).
Proof.
  intros H0 q. subst q. apply (foldl_prefix_ind (fun l q =>
    (forall k v id la, (k, RedisEntry.InMemory v id la) ∈ l -> (blen v <= MEMORY_TIER_THRESHOLD)%N ->
       CRedis k la (blen v) ∈ small_memory_candidates q) /\
    (forall k la n, CRedis k la n ∈ small_memory_candidates q ->
       exists v id, (k, RedisEntry.InMemory v id la) ∈ l /\ (blen v <= MEMORY_TIER_THRESHOLD)%N) /\
    (forall k la n, CRedis k la n ∈ large_memory_candidates q \/ CRedis k la n ∈ disk_candidates q ->
       exists e, (k, e) ∈ l /\ forall v id la', e = RedisEntry.InMemory v id la' -> (MEMORY_TIER_THRESHOLD < blen v)%N))).
  { split_and!; intros k; [by intros v id la ?%elem_of_nil| |]; intros la n Hin; destruct (H0 k la n); naive_solver. }
  intros l1 [k0 e0] l2 q _ (IH1 & IH2 & IH3). unfold scan_redis. cbn [fst snd].
  destruct e0 as [v0 id0 la0|n0 id0 la0];
    [destruct (N.ltb_spec MEMORY_TIER_THRESHOLD (blen v0)) as [Hl|Hl]|]; pass_simpl; split_and!; intros k.
  all: set_unfold; try solve [naive_solver].
  intros v id la [Hin|[[= -> -> -> ->]|[]]] Hle; [by eapply IH1|].
  exfalso. apply (N.lt_irrefl (blen v0)). by eapply N.le_lt_trans.
Qed.
Lemma scan_order_inv s : order_inv s (scan s).
Proof.
  unfold scan. set (p1 := foldl scan_blob _ _). set (p2 := foldl scan_manifest p1 _).
  assert (H1 : no_redis p1).
  { apply (foldl_inv no_redis); [by intros k la n; split_and!; intros ?%elem_of_nil|].
    intros q e _ Hq k la n. destruct (scan_blob_heaps q e) as (-> & -> & ->). apply Hq. }
  assert (H2 : no_redis p2) by (apply (foldl_inv no_redis); [done|intros; by apply scan_manifest_no_redis]).
  destruct (scan_redis_heaps p2 (map_iter (redis_entries s)) H2) as (Hin & Hout & Hother).
  assert (Hc : forall b, redis_cands (heap_of b p1) = []).
  { apply (foldl_inv (fun q => forall b, redis_cands (heap_of b q) = [])); [by intros []|].
    intros q e _ Hq b. destruct (scan_blob_heaps q e) as (Hs & Hl & Hd). rewrite <- (Hq b).
    destruct b; cbn [heap_of]; congruence. }
  destruct (scan_manifests_cands s p1 Hc) as [Hc2 Hm]. fold p2 in Hc2, Hm.
  destruct (scan_redis_cands p2 (map_iter (redis_entries s)) Hc2) as [_ Hs].
  assert (Hps : ps (foldl scan_redis p2 (map_iter (redis_entries s))) = s) by apply (scan_ps s).
  set (p := foldl scan_redis p2 _) in *. split.
  - intros k la (v & id & He & Hv). right. exists (blen v). apply (Hin _ _ id); [|done].
    by apply elem_of_map_iter.
  - intros d m Hd. right. by apply Hs, Hm.
  - intros k la (v & id & He & _). rewrite Hps. congruence.
  - intros k la n (v & id & He & Hv)%Hout. exists v, id. split; [|done]. by apply elem_of_map_iter.
  - intros k la n la' (e & He & Hlarge)%elem_of_app%Hother (v & id & Hk & Hv).
    apply elem_of_map_iter in He. assert (e = RedisEntry.InMemory v id la') as -> by congruence.
    apply (N.lt_irrefl (blen v)). eapply N.le_lt_trans; [exact Hv|]. by eapply Hlarge.
Qed.

(** ** The loop *)

(** A step that leaves the small pool alone. *)
Lemma order_inv_elsewhere s0 p p' :
  order_inv s0 p -> small_memory_candidates p' = small_memory_candidates p ->
  (forall k la, small_entry s0 k la -> redis_entries (ps p') !! k = redis_entries (ps p) !! k) ->
  (forall d, manifests (ps p) !! d = None -> manifests (ps p') !! d = None) ->
  (forall k la n, CRedis k la n ∈ large_memory_candidates p' ++ disk_candidates p' ->
     CRedis k la n ∈ large_memory_candidates p ++ disk_candidates p) ->
  order_inv s0 p'.
Proof.
  intros [H1 H2 H3 H4 H5] Hs Hr Hm Hc. split; rewrite ?Hs.
  - intros k la Hk. rewrite (Hr k la Hk). by apply H1.
  - intros d m [Hd|Hd]%H2; [left; by apply Hm|by right].
  - intros k la Hk. rewrite (Hr k la Hk). by apply H3.
  - exact H4.
  - intros k la n la' Hin. by eapply H5, Hc.
Qed.

(** A pop of the small pool. *)
Lemma order_inv_small s0 io p c h :
  order_inv s0 p -> heap_pop (small_memory_candidates p) = Some (c, h) ->
  order_inv s0 (match c with
                | CManifest _ d => drop_manifest io d (set_small h p)
                | CRedis k _ n => drop_redis small_redis_memory_usage k n (set_small h p)
                end).
Proof.
  intros [H1 H2 H3 H4 H5] Hpop. pose proof (heap_pop_perm _ _ _ Hpop) as Hperm.
  assert (Hsub : forall x, x ∈ small_memory_candidates p <-> x = c \/ x ∈ h)
    by (intros x; rewrite Hperm; apply elem_of_cons).
  assert (Hold : none_older (last_access_time c) h).
  { intros x Hx. pose proof (heap_pop_max _ _ _ x Hpop (proj2 (Hsub x) (or_intror Hx))) as Hmax.
    unfold candidate_cmp in Hmax. by apply N.compare_le_iff in Hmax. }
  destruct c as [la0 d0|k0 la0 n0].
  - destruct (drop_manifest_entries io d0 (set_small h p)) as [Hm Hr].
    destruct (drop_manifest_frame io d0 (set_small h p)) as [_ Hs Hl Hd]. pass_simpl.
    split; rewrite ?Hs, ?Hl, ?Hd, ?Hr, ?Hm.
    + intros k la [Hk|[n Hn]]%H1; [by left|]. right. exists n. apply Hsub in Hn as [?|?]; done.
    + intros d m [Hk|Hn]%H2; [left; by apply lookup_delete_None; right|].
      apply Hsub in Hn as [[= -> ->]|Hn]; [left; apply lookup_delete_eq|by right].
    + intros k la Hk Hnone x Hx. apply (H3 k la Hk Hnone). apply Hsub. by right.
    + intros k la n Hn. apply (H4 k la n), Hsub. by right.
    + exact H5.
  - destruct (drop_redis_entries small_redis_memory_usage k0 n0 (set_small h p)) as [Hr Hm].
    destruct (drop_redis_frame small_redis_memory_usage k0 n0 (set_small h p)) as [_ Hs Hl Hd]. pass_simpl.
    split; rewrite ?Hs, ?Hl, ?Hd, ?Hr, ?Hm.
    + intros k la [Hk|[n Hn]]%H1; [left; by apply lookup_delete_None; right|].
      apply Hsub in Hn as [[= -> -> ->]|Hn]; [left; apply lookup_delete_eq|right; by exists n].
    + intros d m [Hk|Hn]%H2; [by left|]. apply Hsub in Hn as [?|?]; [done|by right].
    + intros k la Hk [<-|Hnone]%lookup_delete_None x Hx.
      * assert (small_entry s0 k0 la0) as Hk0 by (apply (H4 k0 la0 n0), Hsub; by left).
        rewrite (small_entry_fun s0 k0 la la0 Hk Hk0). by apply Hold.
      * apply (H3 k la Hk Hnone). apply Hsub. by right.
    + intros k la n Hn. apply (H4 k la n), Hsub. by right.
    + exact H5.
Qed.

Lemma spill_manifest_entries io la d p :
  redis_entries (ps (outcome (spill_manifest io la d p))) = redis_entries (ps p) /\
  forall k, manifests (ps p) !! k = None -> manifests (ps (outcome (spill_manifest io la d p))) !! k = None.
Proof.
  unfold spill_manifest. destruct (manifests (ps p) !! d) as [m|] eqn:Ed; [|done]. cbv zeta.
  set (p1 := set_ps _ p).
  destruct (spill_refs_entries io (m_evicted m) p1 (referenced_digests (m_content m))) as [Hm Hr].
  destruct (spill_refs _ _ _ _) as [q|q]; simpl in *; rewrite Hr; (split; [done|]);
    intros k Hk; rewrite Hm, lookup_insert_ne; congruence.
Qed.

Lemma spill_redis_entries io k la n p k' :
  k' <> k -> redis_entries (ps (outcome (spill_redis io k la n p))) !! k' = redis_entries (ps p) !! k'.
Proof.
  intros Hne. unfold spill_redis, spill_redis_write.
  destruct (redis_entries (ps p) !! k) as [[v id l|]|]; [|done|done].
  destruct (write_blob_maps io id v (ps p)) as (_ & _ & _ & Hw).
  destruct (write_blob_to_disk io id v (ps p)) as [s w]. state_simpl. destruct w; pass_simpl; simpl; [|by rewrite Hw].
  unfold spill_redis_commit. state_simpl. by rewrite lookup_insert_ne, Hw.
Qed.

(** Spilling pushes back the candidate it was given. *)
Lemma spill_pressure_inv s0 io p c h :
  order_inv s0 p -> large_memory_candidates p ≡ₚ c :: h ->
  order_inv s0 (outcome (match c with
                         | CManifest la d => spill_manifest io la d (set_large h p)
                         | CRedis k la n => spill_redis io k la n (set_large h p)
                         end)).
Proof.
  intros Hp Hperm.
  assert (Hc : forall x, x ∈ c :: h ++ disk_candidates p <-> x ∈ large_memory_candidates p ++ disk_candidates p)
    by (intros x; by rewrite Hperm).
  destruct c as [la d|k la n].
  - destruct (spill_manifest_entries io la d (set_large h p)) as [Hr Hm].
    destruct (spill_manifest_frame io la d (set_large h p)) as (_ & Hs & Hl & Hd).
    apply (order_inv_elsewhere s0 p); [done|done|by intros k la' _; rewrite Hr|exact Hm|].
    intros k la' n. rewrite Hl, <- Hc. pass_simpl. destruct Hd as [-> | ->]; set_solver.
  - destruct (spill_redis_frame io k la n (set_large h p)) as (_ & Hs & Hl & Hd).
    destruct (spill_redis_maps io k la n (set_large h p)) as (Hm & _).
    apply (order_inv_elsewhere s0 p); [done|done| |by rewrite Hm|].
    + intros k' la' Hk'. rewrite spill_redis_entries; [done|]. intros ->.
      apply (oi_other _ _ Hp k la n la'); [|done]. apply Hc. by left.
    + intros k' la' n'. rewrite Hl, <- Hc. pass_simpl. destruct Hd as [-> | ->]; set_solver.
Qed.

Lemma disk_pressure_inv s0 io p c h :
  order_inv s0 p -> disk_candidates p ≡ₚ c :: h ->
  order_inv s0 (match c with
                | CManifest _ d => drop_manifest io d (set_disk_cands h p)
                | CRedis k _ n => drop_redis redis_disk_usage k n (set_disk_cands h p)
                end).
Proof.
  intros Hp Hperm.
  assert (Hc : forall x, x ∈ large_memory_candidates p ++ c :: h <-> x ∈ large_memory_candidates p ++ disk_candidates p)
    by (intros x; by rewrite Hperm).
  destruct c as [la d|k la n].
  - destruct (drop_manifest_entries io d (set_disk_cands h p)) as [Hm Hr].
    destruct (drop_manifest_frame io d (set_disk_cands h p)) as [_ Hs Hl Hd].
    apply (order_inv_elsewhere s0 p); [done|done|by intros; rewrite Hr| |].
    + intros d' Hd'. rewrite Hm. apply lookup_delete_None. by right.
    + intros k la' n. rewrite Hl, Hd, <- Hc. pass_simpl. set_solver.
  - destruct (drop_redis_entries redis_disk_usage k n (set_disk_cands h p)) as [Hr Hm].
    destruct (drop_redis_frame redis_disk_usage k n (set_disk_cands h p)) as [_ Hs Hl Hd].
    apply (order_inv_elsewhere s0 p); [done|done| |by rewrite Hm|].
    + intros k' la' Hk'. rewrite Hr, lookup_delete_ne; [done|]. intros <-.
      apply (oi_other _ _ Hp k la n la'); [|done]. apply Hc, elem_of_app. right. by left.
    + intros k' la' n'. rewrite Hl, Hd, <- Hc. pass_simpl. set_solver.
Qed.

Lemma iteration_order_inv s0 io p :
  order_inv s0 p ->
  match evict_iteration io p with Continue q | Break q | Fail q => order_inv s0 q end.
Proof.
  intros Hp. unfold evict_iteration.
  destruct (pop_if _ (small_memory_candidates p)) as [[c h]|] eqn:E1.
  { unfold pop_if in E1. destruct (over_small p); [|done].
    pose proof (order_inv_small s0 io p c h Hp E1). by destruct c. }
  destruct (pop_if _ (large_memory_candidates p)) as [[c h]|] eqn:E2.
  { apply pop_if_Some in E2 as [_ Hh]. pose proof (spill_pressure_inv s0 io p c h Hp Hh) as H.
    destruct c; simpl; revert H; [destruct (spill_manifest _ _ _ _)|destruct (spill_redis _ _ _ _ _)]; done. }
  destruct (pop_if _ (disk_candidates p)) as [[c h]|] eqn:E3; [|done].
  apply pop_if_Some in E3 as [_ Hh]. pose proof (disk_pressure_inv s0 io p c h Hp Hh). by destruct c.
Qed.

(** ** The pass *)
Lemma evict_order io s s' ok :
  evict io s = Some (s', ok) ->
  exists p, order_inv s p /\ redis_entries s' = redis_entries (ps p) /\ manifests s' = manifests (ps p).
Proof.
  unfold evict. set (sm := metric_add eviction_runs 1 s).
  assert (Hscan : order_inv s (scan sm)) by (destruct (scan_order_inv sm); by split).
  destruct (evict_loop io _ (scan sm)) as [r|] eqn:El; [|done].
  apply (evict_loop_ind io (order_inv s) (order_inv s)) in El; [|..|done].
  - destruct r as [p|p]; intros [= <- <-]; exists p; [|done]. destruct El as [Hp _].
    destruct (sweep_maps io p) as (Hm & _ & Hr).
    destruct (publish_maps (sweep io p)) as (_ & Hm' & _ & Hr' & _). by rewrite Hm', Hr', Hm, Hr.
  - intros p Hp. pose proof (iteration_order_inv s io p Hp). by destruct (evict_iteration io p).
Qed.

(** C9: the small pool is evicted oldest first, among redis entries and
    manifests alike: when a pass, successful or not, loses a redis entry of
    small memory, it has lost every redis entry of small memory and every
    manifest that was used before it, whatever the order the maps and the heap
    enumerate them in. *)
Theorem evict_oldest_first io s s' ok k la :
  evict io s = Some (s', ok) -> small_entry s k la -> redis_entries s' !! k = None ->
  (forall k' la', small_entry s k' la' -> (la' < la)%N -> redis_entries s' !! k' = None) /\
  (forall d m, manifests s !! d = Some m -> (m_last_used m < la)%N -> manifests s' !! d = None).
Proof.
  intros (p & Hp & -> & ->)%evict_order Hk Hnone. pose proof (oi_dropped _ _ Hp k la Hk Hnone) as Hold. split.
  - intros k' la' Hk' Hlt. destruct (oi_kept _ _ Hp k' la' Hk') as [|[n Hn]]; [done|].
    specialize (Hold _ Hn). simpl in Hold. lia.
  - intros d m Hd Hlt. destruct (oi_manifest _ _ Hp d m Hd) as [|Hn]; [done|].
    specialize (Hold _ Hn). simpl in Hold. lia.
Qed.
End order.
