(* ===== verification/EvictionDisk.v ===== *)
(** * Eviction: contents

    A pass moves bytes between memory and disk and deletes entries; it never
    changes what a surviving entry holds. *)
From S2P Require Import Prelude Digest Env Config State Disk Eviction EvictionFrame EvictionRefs.
From S2P Require Import EvictionMaps.

Section content.
Context {SHA : Sha256}.
Implicit Types (s : State) (io : Io).

(** Every owner of [s] was one of [s0], under the same id, with the same
    content. *)
Record content_inv s0 s : Prop := {
  cv_ids : ids_ok s;
  cv_owner : forall o i, owner_id s o = Some i -> owner_id s0 o = Some i /\ stored s o = stored s0 o
}.

Lemma content_inv_refl s : ids_ok s -> content_inv s s.
Proof. by split. Qed.

(** Changes of the fields contents do not depend on. *)
Lemma content_inv_same s0 s s' :
  content_inv s0 s -> config s' = config s -> next_id s' = next_id s -> spawned s' = spawned s ->
  blobs s' = blobs s -> redis_entries s' = redis_entries s -> disk s' = disk s -> content_inv s0 s'.
Proof.
  intros [Hi Ho] Hc Hn Hsp Hb Hr Hd.
  assert (Hown : forall o, owner_id s' o = owner_id s o) by (intros []; cbn; by rewrite ?Hb, ?Hr).
  split.
  - apply (ids_ok_delete s); [done|done|done| |by rewrite Hsp; left]. intros o i. by rewrite Hown.
  - intros o i. rewrite Hown. intros Hoi. destruct (Ho o i Hoi) as [? <-]. split; [done|].
    apply stored_ext; [done..|]. by rewrite Hd.
Qed.

Lemma content_inv_remove_redis s0 s k : content_inv s0 s -> content_inv s0 (remove_redis k s).2.
Proof.
  intros [Hi Ho]. split; [by apply remove_redis_ids|].
  intros o i. rewrite remove_redis_owner, remove_redis_stored. case_decide; [done|]. apply Ho.
Qed.

Lemma content_inv_remove_blob s0 s d : content_inv s0 s -> content_inv s0 (remove_blob d s).2.
Proof.
  intros [Hi Ho]. split; [by apply remove_blob_ids|].
  intros o i. rewrite remove_blob_owner, remove_blob_stored. case_decide; [done|]. apply Ho.
Qed.

(** A disk change that misses the files of on-disk owners. *)
Lemma content_inv_disk s0 s d' :
  (forall o i n, on_disk_size s o = Some (i, n) -> d' !! cache_path s i = disk s !! cache_path s i) ->
  content_inv s0 s -> content_inv s0 (set_disk d' s).
Proof.
  intros Hd [Hi Ho]. split; [by apply (ids_ok_delete s); [done..|by left]|].
  intros o i Hoi. rewrite set_disk_stored by done. by apply Ho.
Qed.

(** The file a write changes is the one at its path. *)
Lemma fs_write_other io path c d q : q <> path -> (fs_write io path c d).1 !! q = d !! q.
Proof.
  intros. unfold fs_write. destruct (io_write io path) as [|[part|]]; simpl;
    rewrite ?lookup_insert_ne by done; done.
Qed.

Lemma write_blob_disk io id c s :
  exists d', (write_blob_to_disk io id c s).1 = set_disk d' s /\
    (forall q, q <> cache_path s id -> d' !! q = disk s !! q) /\
    ((write_blob_to_disk io id c s).2 = Ok tt -> d' !! cache_path s id = Some c).
Proof.
  unfold write_blob_to_disk. destruct (io_create_dir io _).
  - pose proof (fs_write_other io (cache_path s id) c (disk s)) as Ho.
    destruct (fs_write io (cache_path s id) c (disk s)) as [d r] eqn:E. exists d.
    split_and!; [done|intros; by rewrite <- Ho|]. simpl. intros ->. unfold fs_write in E.
    destruct (io_write io _) as [|[part|]]; [|done..]. injection E as <-. apply lookup_insert_eq.
  - exists (disk s). split_and!; [by destruct s|done|done].
Qed.

(** Writing the file of an owner that is in memory. *)
Lemma content_inv_write s0 s io o id c :
  content_inv s0 s -> owner_id s o = Some id -> on_disk_size s o = None ->
  content_inv s0 (write_blob_to_disk io id c s).1.
Proof.
  intros Hs Hid Hmem. destruct (write_blob_disk io id c s) as (d' & -> & Hd & _).
  apply content_inv_disk; [|done]. intros o' i n Ho'. apply Hd.
  apply (owner_path_ne s o' o); [by destruct Hs|by eapply on_disk_owner|done|]. intros ->. congruence.
Qed.

(** Deleting the file of an id that has no owner left. *)
Lemma content_inv_unlink s0 s io id :
  content_inv s0 s -> (id < U64)%N -> (forall o, owner_id s o <> Some id) ->
  content_inv s0 (delete_disk_blob io id s).
Proof.
  intros Hs Hid Hno. apply content_inv_disk; [|done]. intros o i n Ho%on_disk_owner.
  unfold fs_remove. destruct (disk s !! cache_path s id); [|done].
  destruct (io_remove io _); [|done]. simpl. apply lookup_delete_ne.
  destruct Hs as [Hi _]. pose proof (id_lt _ Hi _ _ Ho). pose proof (id_max _ Hi).
  intros He. apply cache_path_inj in He; [|lia..]. subst i. by eapply Hno.
Qed.

Lemma content_inv_spill_blob s0 s io d id c mt la n s1 :
  content_inv s0 s -> blobs s !! d = Some (Blob.InMemory id c mt la) ->
  write_blob_to_disk io id c s = (s1, Ok tt) ->
  content_inv s0 (insert_blob d (Blob.OnDisk id n mt la) s1).
Proof.
  intros Hs Hd Hw.
  assert (Hid : owner_id s (OBlob d) = Some id) by (cbn; by rewrite Hd).
  pose proof (content_inv_write s0 s io (OBlob d) id c Hs Hid ltac:(cbn; by rewrite Hd)) as H1.
  destruct (write_blob_disk io id c s) as (d' & He & _ & Hf).
  rewrite Hw in H1, He, Hf. simpl in *. specialize (Hf eq_refl).
  destruct H1 as [Hi Ho].
  assert (Hid1 : owner_id s1 (OBlob d) = Some id) by (rewrite He; exact Hid).
  destruct (insert_blob_fields d (Blob.OnDisk id n mt la) s1) as (_ & _ & _ & Hc & Hn & Hsp).
  assert (Hown : forall o, owner_id (insert_blob d (Blob.OnDisk id n mt la) s1) o = owner_id s1 o).
  { intros o. rewrite insert_blob_owner. case_decide as Ho'; [|done]. subst o. by rewrite Hid1. }
  split.
  - apply (ids_ok_delete s1); [done..| |rewrite Hsp; by left]. intros o i. by rewrite Hown.
  - intros o i. rewrite Hown, insert_blob_stored. case_decide as Ho'; [|apply Ho].
    subst o. intros Hoi. destruct (Ho _ _ Hoi) as [? Hst]. split; [done|].
    rewrite <- Hst. subst s1. cbn [stored]. change (blobs (set_disk d' s)) with (blobs s). rewrite Hd.
    exact Hf.
Qed.

Lemma content_inv_spill_redis s0 s io k id c la0 la n s1 :
  content_inv s0 s -> redis_entries s !! k = Some (RedisEntry.InMemory c id la0) ->
  write_blob_to_disk io id c s = (s1, Ok tt) ->
  content_inv s0 (set_redis_entries (<[k := RedisEntry.OnDisk n id la]> (redis_entries s1)) s1).
Proof.
  intros Hs Hd Hw.
  assert (Hid : owner_id s (ORedis k) = Some id) by (cbn; by rewrite Hd).
  pose proof (content_inv_write s0 s io (ORedis k) id c Hs Hid ltac:(cbn; by rewrite Hd)) as H1.
  destruct (write_blob_disk io id c s) as (d' & He & _ & Hf).
  rewrite Hw in H1, He, Hf. simpl in *. specialize (Hf eq_refl).
  destruct H1 as [Hi Ho].
  assert (Hid1 : owner_id s1 (ORedis k) = Some id) by (rewrite He; exact Hid).
  set (s2 := set_redis_entries _ s1).
  assert (Hown : forall o, owner_id s2 o = owner_id s1 o).
  { intros [d|k']; [done|]. subst s2. cbn [owner_id]. state_simpl.
    destruct (decide (k' = k)) as [->|Hne]; [|by rewrite lookup_insert_ne].
    rewrite lookup_insert_eq. exact (eq_sym Hid1). }
  split.
  - apply (ids_ok_delete s1); [done..| |by left]. intros o i. by rewrite Hown.
  - intros o i. rewrite Hown. intros Hoi. destruct (Ho _ _ Hoi) as [? Hst]. split; [done|].
    rewrite <- Hst. destruct o as [d|k']; [done|]. subst s2. cbn [stored]. state_simpl.
    destruct (decide (k' = k)) as [->|Hne]; [|by rewrite lookup_insert_ne].
    rewrite lookup_insert_eq. subst s1. state_simpl. rewrite Hd. exact Hf.
Qed.

(** Removing a blob, and its file when it has one. *)
Lemma content_inv_reap s0 s d b io id :
  content_inv s0 s -> blobs s !! d = Some b -> Blob.id b = id ->
  content_inv s0 (delete_disk_blob io id (remove_blob d s).2).
Proof.
  intros Hs Hb <-. pose proof (cv_ids _ _ Hs) as Hi.
  assert (Hid : owner_id s (OBlob d) = Some (Blob.id b)) by (cbn; by rewrite Hb).
  pose proof (id_lt _ Hi _ _ Hid). pose proof (id_max _ Hi).
  apply content_inv_unlink; [by apply content_inv_remove_blob|lia|].
  intros o. rewrite remove_blob_owner. case_decide; [done|]. intros Ho.
  by pose proof (id_inj _ Hi _ _ _ Ho Hid).
Qed.
End content.

(** [content_inv] of a variant of a state that only differs in other fields. *)
Ltac content_same H := refine (content_inv_same _ _ _ H _ _ _ _ _ _); done.

Section pass_content.
Context {SHA : Sha256} {ITER : MapIter} {JSON : SerdeJson} {HEAP : BinaryHeap}.
Implicit Types (s : State) (p : Pass) (io : Io).

(** The state after removing blob [r] and, when [b] was on disk, its file. *)
Lemma content_inv_removed s0 s r b io s1 :
  content_inv s0 s -> remove_blob r s = (Some b, s1) ->
  content_inv s0 s1 /\
  forall id n mt la, b = Blob.OnDisk id n mt la -> content_inv s0 (delete_disk_blob io id s1).
Proof.
  intros Hs Hr. pose proof (content_inv_remove_blob s0 s r Hs) as H1. rewrite Hr in H1. simpl in H1.
  split; [done|]. intros id n mt la ->.
  assert (Hb : blobs s !! r = Some (Blob.OnDisk id n mt la)).
  { unfold remove_blob in Hr. destruct (blobs s !! r) as [b|]; [|done].
    destruct (blob_bucket b). congruence. }
  pose proof (content_inv_reap s0 s r _ io id Hs Hb eq_refl) as H2. by rewrite Hr in H2.
Qed.

Lemma drop_ref_content s0 io old p r :
  content_inv s0 (ps p) -> content_inv s0 (ps (drop_ref io old p r)).
Proof.
  intros Hp. unfold drop_ref. destruct (bks p !! r) as [bb|]; [|done]. cbv zeta.
  destruct (_ || _); [done|].
  destruct (remove_blob r _) as [[b|] s1] eqn:Er; [|done]. simpl in Er.
  destruct (content_inv_removed s0 (ps p) r b io s1 Hp Er) as [H1 H2].
  destruct b as [id n mt la|id c mt la].
  - specialize (H2 _ _ _ _ eq_refl). pass_simpl. content_same H2.
  - destruct (_ <? _)%N; pass_simpl; content_same H1.
Qed.

Lemma drop_manifest_content s0 io k p :
  content_inv s0 (ps p) -> content_inv s0 (ps (drop_manifest io k p)).
Proof.
  intros Hp. unfold drop_manifest, remove_manifest. destruct (manifests (ps p) !! k) as [m|]; [|done].
  apply (foldl_inv (fun q => content_inv s0 (ps q))); [|intros; by apply drop_ref_content].
  pass_simpl. content_same Hp.
Qed.

Lemma drop_redis_content s0 b k n p :
  content_inv s0 (ps p) -> content_inv s0 (ps (drop_redis b k n p)).
Proof.
  intros Hp. unfold drop_redis. pose proof (content_inv_remove_redis s0 (ps p) k Hp) as H1.
  destruct (remove_redis k (ps p)) as [[] s]; pass_simpl; [|done]. content_same H1.
Qed.

Lemma spill_ref_content s0 io old p r :
  content_inv s0 (ps p) -> content_inv s0 (ps (outcome (spill_ref io old p r))).
Proof.
  intros Hp. unfold spill_ref. destruct (bks p !! r) as [bb|]; [|done]. cbv zeta.
  destruct (_ || _); [done|]. pass_simpl.
  destruct (blobs (ps p) !! r) as [[|id c mt la]|] eqn:Er; [done| |done].
  pose proof (content_inv_write s0 (ps p) io (OBlob r) id c Hp
    ltac:(cbn; by rewrite Er) ltac:(cbn; by rewrite Er)) as H1.
  destruct (write_blob_to_disk io id c (ps p)) as [s1 [[]|e]] eqn:Ew; [|done].
  pose proof (content_inv_spill_blob s0 (ps p) io r id c mt la (blen c) s1 Hp Er Ew) as H2.
  cbn [outcome]. pass_simpl. content_same H2.
Qed.

Lemma spill_manifest_content s0 io la k p :
  content_inv s0 (ps p) -> content_inv s0 (ps (outcome (spill_manifest io la k p))).
Proof.
  intros Hp. unfold spill_manifest. destruct (manifests (ps p) !! k) as [m|]; [|done]. cbv zeta.
  set (p1 := set_ps _ p).
  assert (H1 : content_inv s0 (ps p1)) by (subst p1; pass_simpl; content_same Hp).
  pose proof (spill_refs_keep (fun q => content_inv s0 (ps q)) io (m_evicted m) p1
    (referenced_digests (m_content m))
    (fun q r Hq => spill_ref_content s0 io (m_evicted m) q r Hq) H1) as H2.
  by destruct (spill_refs _ _ _ _).
Qed.

Lemma spill_redis_content s0 io k la n p :
  content_inv s0 (ps p) -> content_inv s0 (ps (outcome (spill_redis io k la n p))).
Proof.
  intros Hp. unfold spill_redis, spill_redis_write.
  destruct (redis_entries (ps p) !! k) as [[v id la0|]|] eqn:Ek; [|done..].
  pose proof (content_inv_write s0 (ps p) io (ORedis k) id v Hp
    ltac:(cbn; by rewrite Ek) ltac:(cbn; by rewrite Ek)) as H1.
  destruct (write_blob_to_disk io id v (ps p)) as [s1 [[]|e]] eqn:Ew; [|done].
  pose proof (content_inv_spill_redis s0 (ps p) io k id v la0 la n s1 Hp Ek Ew) as H2.
  cbn [outcome]. unfold spill_redis_commit. pass_simpl. content_same H2.
Qed.

Lemma iteration_content s0 io p :
  content_inv s0 (ps p) ->
  match evict_iteration io p with
  | Continue q | Fail q => content_inv s0 (ps q)
  | Break _ => True
  end.
Proof.
  intros Hp. unfold evict_iteration.
  destruct (pop_if _ (small_memory_candidates p)) as [[[] h]|]; simpl;
    auto using drop_manifest_content, drop_redis_content.
  destruct (pop_if _ (large_memory_candidates p)) as [[[la d|k la n] h]|]; simpl.
  { pose proof (spill_manifest_content s0 io la d (set_large h p) Hp). by destruct (spill_manifest _ _ _ _). }
  { pose proof (spill_redis_content s0 io k la n (set_large h p) Hp). by destruct (spill_redis _ _ _ _ _). }
  destruct (pop_if _ (disk_candidates p)) as [[[] h]|]; simpl;
    auto using drop_manifest_content, drop_redis_content.
Qed.

Lemma sweep_blob_content s0 io s e : content_inv s0 s -> content_inv s0 (sweep_blob io s e).
Proof.
  intros Hs. unfold sweep_blob. destruct (_ || _); [done|].
  destruct (remove_blob e.1 s) as [[b|] s1] eqn:Er; [|done].
  destruct (content_inv_removed s0 s _ b io s1 Hs Er) as [H1 H2].
  destruct b as [id n mt la|]; [|content_same H1].
  specialize (H2 _ _ _ _ eq_refl). content_same H2.
Qed.

Lemma evict_content io s s' ok : ids_ok s -> evict io s = Some (s', ok) -> content_inv s s'.
Proof.
  intros Hi. unfold evict. set (sm := metric_add eviction_runs 1 s).
  assert (Hscan : content_inv s (ps (scan sm)))
    by (rewrite scan_ps; pose proof (content_inv_refl s Hi) as H; content_same H).
  destruct (evict_loop io _ (scan sm)) as [r|] eqn:El; [|done].
  apply (evict_loop_ind io (fun p => content_inv s (ps p)) (fun p => content_inv s (ps p))) in El;
    [| |done].
  - destruct r as [p|p]; intros [= <- <-]; [|done]. destruct El as [Hp _].
    assert (Hs : content_inv s (ps (sweep io p))).
    { unfold sweep. pass_simpl. apply foldl_inv; [done|]. intros; by apply sweep_blob_content. }
    content_same Hs.
  - intros p Hp. pose proof (iteration_content s io p Hp). by destruct (evict_iteration io p).
Qed.

(** C1: a pass, successful or not, keeps the content of every blob and redis
    entry that survives it, spilled or not; it invents none, keeps ids unique,
    and leaves no pending unlink that targets a live file. *)
Theorem evict_preserves_content io s s' ok :
  ids_ok s -> evict io s = Some (s', ok) ->
  ids_ok s' /\
  forall o i, owner_id s' o = Some i -> owner_id s o = Some i /\ stored s' o = stored s o.
Proof. intros Hi He. by destruct (evict_content io s s' ok Hi He). Qed.
End pass_content.
