(* ===== verification/EvictionSteps.v ===== *)
(** * A pass, one operation at a time

    [evict] runs a pass at a stroke. The program runs it next to its clients:
    here it is a program of atomic operations, which calls the methods of
    [State], awaits the writes and removals of files, and keeps its locals in
    between. Without interruption it is [evict] ([round_as_steps]); whatever
    runs in between, it ends ([pass_has_fuel]). *)
From S2P Require Import Prelude Prog Digest Env Config State Disk Eviction EvictionFrame.
From S2P Require Import EvictionRefs.

Inductive PassError : Type := WriteFailed | OutOfFuel.

(** A piece of a pass. *)
Abbreviation E := (prog State PassError).

Section steps.
Context {SHA : Sha256} {ITER : MapIter} {JSON : SerdeJson} {HEAP : BinaryHeap}.
Implicit Types (s : State) (p q : Pass) (io : Io).

(** The locals of a pass in progress are a [Pass] whose [ps] is the state it
    began in; only the clock and the limits are read from it. *)

(** ** The scan *)
Definition scan_maps s0 (bs : gmap Digest Blob.t) (ms : gmap Digest Manifest) (rs : gmap bytes RedisEntry.t) : Pass :=
  let p0 := mkPass s0 (fun _ => 0%N) [] [] [] ∅ in
  let p1 := foldl scan_blob p0 (map_iter bs) in
  let p2 := foldl scan_manifest p1 (map_iter ms) in
  foldl scan_redis p2 (map_iter rs).

Definition scan_steps : E Pass :=
  _ ← does (metric_add eviction_runs 1);
  s0 ← asks id;
  bs ← asks blobs;
  ms ← asks manifests;
  rs ← asks redis_entries;
  mret (scan_maps s0 bs ms rs).

(** ** Spilling *)

(** [last_accessed.load] of the blob object that was looked up. *)
Definition blob_touched (r : Digest) (id la : N) s : N :=
  match blobs s !! r with
  | Some (Blob.InMemory id' _ _ la') => if decide (id' = id) then la' else la
  | _ => la
  end.

Definition spill_blob_steps io (r : Digest) (id : N) (content media_type : bytes) (la : N) p : E Pass :=
  let size := blen content in
  w ← atomically (write_blob_to_disk io id content);
  match w with
  | Err _ => Done (Err WriteFailed)
  | Ok _ =>
      la' ← asks (blob_touched r id la);
      _ ← does (insert_blob r (Blob.OnDisk id size media_type la'));
      _ ← does (metric_add eviction_blobs_to_disk 1);
      mret (acc_add blob_disk_usage size (acc_sub large_blob_memory_usage size p))
  end.

Definition spill_ref_steps io (old : bool) p (r : Digest) : E Pass :=
  match bks p !! r with
  | None => mret p
  | Some bb =>
      let bb' := if old then bb
                 else mkBlobBk (bk_tier bb) (bk_refs bb)
                        (saturating_sub (bk_unevicted_refs bb) 1) (bk_last_accessed bb) in
      let p1 := set_bks (<[r := bb']> (bks p)) p in
      if negb (bk_unevicted_refs bb' =? 0)%N || negb (bool_decide (bk_tier bb' = LargeMem))
      then mret p1
      else
        blob ← asks (fun s => blobs s !! r);
        match blob with
        | Some (Blob.InMemory id content media_type la) => spill_blob_steps io r id content media_type la p1
        | _ => mret p1
        end
  end.

Fixpoint spill_refs_steps io (old : bool) p (rs : list Digest) : E Pass :=
  match rs with
  | [] => mret p
  | r :: rs => q ← spill_ref_steps io old p r; spill_refs_steps io old q rs
  end.

(** [state.manifests.get] and [evicted.swap(true)]. *)
Definition mark_evicted (digest : Digest) s : State * option Manifest :=
  match manifests s !! digest with
  | Some mb => (set_manifests (<[digest := mkManifest (m_content mb) (m_media_type mb) (m_last_used mb) true]>
                                 (manifests s)) s, Some mb)
  | None => (s, None)
  end.

Definition spill_manifest_steps io (last_accesses : N) (digest : Digest) p : E Pass :=
  manifest ← atomically (mark_evicted digest);
  match manifest with
  | None => mret p
  | Some mb =>
      q ← spill_refs_steps io (m_evicted mb) p (referenced_digests (m_content mb));
      mret (push_disk (CManifest last_accesses digest) q)
  end.

Definition spill_redis_steps io (key : bytes) (la size : N) p : E Pass :=
  entry ← asks (fun s => redis_entries s !! key);
  match entry with
  | Some (RedisEntry.InMemory value id _) =>
      w ← atomically (write_blob_to_disk io id value);
      match w with
      | Err _ => Done (Err WriteFailed)
      | Ok _ =>
          _ ← does (spill_redis_commit key id size la);
          mret (push_disk (CRedis key la size)
                  (acc_add redis_disk_usage size (acc_sub large_redis_memory_usage size p)))
      end
  | _ => mret p
  end.

(** ** Dropping *)
Definition take_blob (r : Digest) : E (option Blob.t) := atomically (fun s => ((remove_blob r s).2, (remove_blob r s).1)).

Definition drop_redis_steps (b : Bucket) (key : bytes) (size : N) p : E Pass :=
  removed ← atomically (fun s => ((remove_redis key s).2, (remove_redis key s).1));
  if removed : bool
  then _ ← does (metric_add eviction_redis_entries 1); mret (acc_sub b size p)
  else mret p.

Definition drop_ref_steps io (old : bool) p (r : Digest) : E Pass :=
  match bks p !! r with
  | None => mret p
  | Some bb =>
      let bb' := mkBlobBk (bk_tier bb) (saturating_sub (bk_refs bb) 1)
                   (if old then bk_unevicted_refs bb else saturating_sub (bk_unevicted_refs bb) 1)
                   (bk_last_accessed bb) in
      let p1 := set_bks (<[r := bb']> (bks p)) p in
      if negb (bk_refs bb' =? 0)%N ||
         (saturating_sub (now (ps p)) BLOB_GRACE_SECONDS <? bk_last_accessed bb')%N
      then mret p1
      else
        removed ← take_blob r;
        match removed with
        | None => mret p1
        | Some blob =>
            _ ← does (metric_add eviction_blobs_deleted 1);
            match blob with
            | Blob.InMemory _ content _ _ =>
                mret (if (MEMORY_TIER_THRESHOLD <? blen content)%N
                      then acc_sub large_blob_memory_usage (blen content) p1
                      else acc_sub small_blob_memory_usage (blen content) p1)
            | Blob.OnDisk id size _ _ =>
                _ ← does (delete_disk_blob io id);
                mret (acc_sub blob_disk_usage size p1)
            end
        end
  end.

Fixpoint drop_refs_steps io (old : bool) p (rs : list Digest) : E Pass :=
  match rs with
  | [] => mret p
  | r :: rs => q ← drop_ref_steps io old p r; drop_refs_steps io old q rs
  end.

Definition drop_manifest_steps io (digest : Digest) p : E Pass :=
  removed ← atomically (fun s => ((remove_manifest digest s).2, (remove_manifest digest s).1));
  match removed with
  | None => mret p
  | Some manifest =>
      _ ← does (metric_add eviction_manifests_deleted 1);
      _ ← does (fun s => set_tags (filter (fun kv => kv.2 <> digest) (tags s)) s);
      drop_refs_steps io (m_evicted manifest) (acc_sub manifest_memory_usage (blen (m_content manifest)) p)
        (referenced_digests (m_content manifest))
  end.

(** ** The loop *)
Definition pressure_steps io (b : Bucket) (c : EvictionCandidate) p : E Pass :=
  match c with
  | CManifest _ digest => drop_manifest_steps io digest p
  | CRedis key _ size => drop_redis_steps b key size p
  end.

Definition large_steps io (c : EvictionCandidate) p : E Pass :=
  match c with
  | CManifest la digest => spill_manifest_steps io la digest p
  | CRedis key la size => spill_redis_steps io key la size p
  end.

Fixpoint loop_steps io (fuel : nat) p : E Pass :=
  match fuel with
  | O => Done (Err OutOfFuel)
  | S fuel =>
      match pop_if (over_small p) (small_memory_candidates p) with
      | Some (c, h) => q ← pressure_steps io small_redis_memory_usage c (set_small h p); loop_steps io fuel q
      | None =>
          match pop_if (over_memory p) (large_memory_candidates p) with
          | Some (c, h) => q ← large_steps io c (set_large h p); loop_steps io fuel q
          | None =>
              match pop_if (over_disk p) (disk_candidates p) with
              | Some (c, h) => q ← pressure_steps io redis_disk_usage c (set_disk_cands h p); loop_steps io fuel q
              | None => mret p
              end
          end
      end
  end.

(** ** After the loop *)
Fixpoint sweep_steps io (t : N) (table : list (Digest * BlobBk)) : E unit :=
  match table with
  | [] => mret tt
  | e :: table =>
      if negb (bk_refs e.2 =? 0)%N || (saturating_sub t (bk_last_accessed e.2) <? BLOB_GRACE_SECONDS)%N
      then sweep_steps io t table
      else
        removed ← take_blob e.1;
        match removed with
        | None => sweep_steps io t table
        | Some b =>
            _ ← does (metric_add eviction_blobs_deleted 1);
            match b with
            | Blob.OnDisk id _ _ _ => _ ← does (delete_disk_blob io id); sweep_steps io t table
            | Blob.InMemory _ _ _ _ => sweep_steps io t table
            end
        end
  end.

Definition publish_steps p : E unit :=
  let t := now (ps p) in
  let st b : E unit := does (usage_store b (wrap_i64 (Z.of_N (acc p b)))) in
  _ ← does (metric_store oldest_small_memory_touch_time (oldest_touch (small_memory_candidates p) t));
  _ ← does (metric_store oldest_large_memory_touch_time (oldest_touch (large_memory_candidates p) t));
  _ ← does (metric_store oldest_disk_touch_time (oldest_touch (disk_candidates p) t));
  _ ← st small_blob_memory_usage; _ ← st large_blob_memory_usage; _ ← st blob_disk_usage;
  _ ← st small_redis_memory_usage; _ ← st large_redis_memory_usage; st redis_disk_usage.

Definition evict_steps io : E unit :=
  p ← scan_steps;
  q ← loop_steps io (S (loop_measure p)) p;
  _ ← sweep_steps io (now (ps q)) (map_iter (bks q));
  publish_steps q.

(** One round of the background loop, from its wake-up. *)
Definition round_steps io : E unit :=
  _ ← does (set_eviction_notify false);
  over ← asks over_limits;
  if over : bool then evict_steps io else mret tt.

(** ** Without interruption

    The locals of the program, put on the current state, are the pass. *)
Definition back p q : Pass := set_ps (ps p) q.
Definition synced p s : Prop := config (ps p) = config s /\ now (ps p) = now s.

Lemma synced_env p q s s' : synced p s -> same_env s s' -> ps q = ps p -> synced q s'.
Proof. intros [H1 H2] [] H. split; rewrite H; congruence. Qed.

Lemma spill_ref_run io old p r s :
  run (spill_ref_steps io old p r) s =
  match spill_ref io old (set_ps s p) r with
  | Ok q => (ps q, Ok (back p q))
  | Err q => (ps q, Err WriteFailed)
  end.
Proof.
  unfold spill_ref_steps, spill_ref. change (bks (set_ps s p)) with (bks p).
  destruct (bks p !! r) as [bb|]; [|by destruct p]. cbv zeta. destruct (_ || _); [by destruct p|].
  run_op. pass_simpl. destruct (blobs s !! r) as [[id n mt la|id c mt la]|] eqn:Er; [by destruct p| |by destruct p].
  unfold spill_blob_steps. run_op. destruct (write_blob_maps io id c s) as (_ & Hb & _).
  destruct (write_blob_to_disk io id c s) as [s1 w]. cbn [fst snd] in *.
  destruct w as [[]|e]; [|by destruct p]. run_op. unfold blob_touched. rewrite Hb, Er, decide_True by done.
  run_op. run_op. by destruct p.
Qed.

Lemma spill_refs_run io old p rs s :
  run (spill_refs_steps io old p rs) s =
  match spill_refs io old (set_ps s p) rs with
  | Ok q => (ps q, Ok (back p q))
  | Err q => (ps q, Err WriteFailed)
  end.
Proof.
  revert p s. induction rs as [|r rs IH]; intros p s; [by destruct p|]. cbn [spill_refs_steps].
  rewrite run_mbind, spill_ref_run. unfold spill_refs. cbn [foldl mbind result_bind].
  destruct (spill_ref io old (set_ps s p) r) as [q|q].
  - rewrite IH. unfold spill_refs. replace (set_ps (ps q) (back p q)) with q by by destruct q.
    by destruct (foldl _ _ _).
  - clear. by induction rs as [|r rs IH]; [|exact IH].
Qed.

Lemma spill_manifest_run io la d p s :
  run (spill_manifest_steps io la d p) s =
  match spill_manifest io la d (set_ps s p) with
  | Ok q => (ps q, Ok (back p q))
  | Err q => (ps q, Err WriteFailed)
  end.
Proof.
  unfold spill_manifest_steps, spill_manifest. run_op. unfold mark_evicted. pass_simpl.
  destruct (manifests s !! d) as [mb|]; [|by destruct p]. cbn [fst snd]. rewrite run_mbind, spill_refs_run.
  change (set_ps ?a (set_ps s p)) with (set_ps a p).
  destruct (spill_refs io _ _ _) as [q|q]; [|done]. by destruct q.
Qed.

Lemma spill_redis_run io k la n p s :
  run (spill_redis_steps io k la n p) s =
  match spill_redis io k la n (set_ps s p) with
  | Ok q => (ps q, Ok (back p q))
  | Err q => (ps q, Err WriteFailed)
  end.
Proof.
  unfold spill_redis_steps, spill_redis, spill_redis_write. run_op. pass_simpl.
  destruct (redis_entries s !! k) as [[v id l|]|]; [|by destruct p..]. run_op.
  destruct (write_blob_to_disk io id v s) as [s1 w]. cbn [fst snd]. destruct w as [[]|e]; [|done]. run_op. by destruct p.
Qed.

Lemma drop_redis_run b k n p s :
  run (drop_redis_steps b k n p) s = let q := drop_redis b k n (set_ps s p) in (ps q, Ok (back p q)).
Proof.
  unfold drop_redis_steps, drop_redis. run_op. pass_simpl.
  destruct (remove_redis k s) as [[] s1]; cbn [fst snd]; [run_op|]; by destruct p.
Qed.

(** What is not there cannot be removed. *)
Lemma remove_blob_absent r s s1 : remove_blob r s = (None, s1) -> s1 = s.
Proof. unfold remove_blob. destruct (blobs s !! r) as [b|]; [by destruct (blob_bucket b)|by intros [= <-]]. Qed.
Lemma remove_manifest_absent d s s1 : remove_manifest d s = (None, s1) -> s1 = s.
Proof. unfold remove_manifest. destruct (manifests s !! d); [done|by intros [= <-]]. Qed.

Lemma drop_ref_run io old p r s :
  synced p s -> run (drop_ref_steps io old p r) s = let q := drop_ref io old (set_ps s p) r in (ps q, Ok (back p q)).
Proof.
  intros [_ Hn]. unfold drop_ref_steps, drop_ref. change (bks (set_ps s p)) with (bks p).
  destruct (bks p !! r) as [bb|]; [|by destruct p]. cbv zeta. change (now (ps (set_ps s p))) with (now s). rewrite Hn.
  destruct (_ || _); [by destruct p|]. unfold take_blob. run_op. pass_simpl.
  destruct (remove_blob r s) as [[b|] s1] eqn:Er; cbn [fst snd];
    [|rewrite (remove_blob_absent _ _ _ Er); by destruct p]. run_op.
  destruct b as [id n mt la|id c mt la]; [run_op; by destruct p|]. destruct (MEMORY_TIER_THRESHOLD <? blen c)%N; by destruct p.
Qed.

Lemma drop_refs_run io old p rs s :
  synced p s ->
  run (drop_refs_steps io old p rs) s = let q := foldl (drop_ref io old) (set_ps s p) rs in (ps q, Ok (back p q)).
Proof.
  revert p s. induction rs as [|r rs IH]; intros p s Hs; [by destruct p|]. cbn [drop_refs_steps foldl].
  rewrite run_mbind, drop_ref_run by done. cbv zeta. set (q := drop_ref _ _ _ _). cbv beta iota.
  assert (Hq : same_env s (ps q)) by apply (pf_env _ _ (drop_ref_frame io old (set_ps s p) r)).
  rewrite IH by (by apply (synced_env p _ s)). by replace (set_ps (ps q) (back p q)) with q by by destruct q.
Qed.

Lemma drop_manifest_run io d p s :
  synced p s ->
  run (drop_manifest_steps io d p) s = let q := drop_manifest io d (set_ps s p) in (ps q, Ok (back p q)).
Proof.
  intros Hs. unfold drop_manifest_steps, drop_manifest. run_op. pass_simpl.
  pose proof (remove_manifest_env d s) as He.
  destruct (remove_manifest d s) as [[m|] s1] eqn:Er; cbn [fst snd] in *;
    [|rewrite (remove_manifest_absent _ _ _ Er); by destruct p]. run_op. run_op.
  rewrite drop_refs_run; [by destruct p|]. apply (synced_env p _ s); [done| |by destruct p]. by destruct He.
Qed.

Definition dropped io (b : Bucket) (c : EvictionCandidate) p : Pass :=
  match c with CManifest _ d => drop_manifest io d p | CRedis k _ n => drop_redis b k n p end.

Lemma small_dropped io c p : small_pressure io c p = Continue (dropped io small_redis_memory_usage c p).
Proof. by destruct c. Qed.
Lemma disk_dropped io c p : disk_pressure io c p = Continue (dropped io redis_disk_usage c p).
Proof. by destruct c. Qed.

Lemma pressure_run io b c p s :
  synced p s -> run (pressure_steps io b c p) s = let q := dropped io b c (set_ps s p) in (ps q, Ok (back p q)).
Proof. intros Hs. destruct c; [by apply drop_manifest_run|apply drop_redis_run]. Qed.

Lemma large_run io c p s :
  run (large_steps io c p) s =
  match large_pressure io c (set_ps s p) with
  | Continue q | Break q => (ps q, Ok (back p q))
  | Fail q => (ps q, Err WriteFailed)
  end.
Proof.
  destruct c; cbn [large_steps large_pressure]; [rewrite spill_manifest_run|rewrite spill_redis_run];
    by destruct (_ : result Pass Pass).
Qed.

Lemma over_synced p s : synced p s ->
  over_small (set_ps s p) = over_small p /\ over_memory (set_ps s p) = over_memory p /\ over_disk (set_ps s p) = over_disk p.
Proof.
  intros [Hc _]. unfold over_small, over_memory, over_disk, small_target, memory_target, disk_target.
  cbn [ps acc set_ps]. by rewrite Hc.
Qed.

Lemma loop_run io fuel p s r :
  synced p s -> evict_loop io fuel (set_ps s p) = Some r ->
  run (loop_steps io fuel p) s =
  match r with Ok q => (ps q, Ok (back p q)) | Err q => (ps q, Err WriteFailed) end.
Proof.
  revert p s. induction fuel as [|fuel IH]; intros p s Hs; [done|]. cbn [loop_steps evict_loop].
  assert (Hnext : forall p1 (m : E Pass) q, ps p1 = ps p ->
    run m s = (ps q, Ok (back p1 q)) -> same_env s (ps q) -> evict_loop io fuel q = Some r ->
    run (m ≫= loop_steps io fuel) s = match r with Ok q' => (ps q', Ok (back p q')) | Err q' => (ps q', Err WriteFailed) end).
  { intros p1 m q Hp Hm Hq Hr. rewrite run_mbind, Hm.
    assert (Hb : synced (back p1 q) (ps q)) by (by apply (synced_env p _ s)).
    rewrite (IH (back p1 q) (ps q) Hb) by (by destruct q). destruct r; [|done]. unfold back. cbn [ps set_ps]. by rewrite Hp. }
  pose proof (iteration_env io (set_ps s p)) as He. unfold evict_iteration in *.
  destruct (over_synced p s Hs) as (H1 & H2 & H3). rewrite H1, H2, H3 in *. clear H1 H2 H3.
  change (small_memory_candidates (set_ps s p)) with (small_memory_candidates p) in *.
  change (large_memory_candidates (set_ps s p)) with (large_memory_candidates p) in *.
  change (disk_candidates (set_ps s p)) with (disk_candidates p) in *.
  destruct (pop_if (over_small p) _) as [[c h]|].
  { rewrite small_dropped in *. intros Hr. by eapply (Hnext (set_small h p)); [|apply pressure_run| |]. }
  destruct (pop_if (over_memory p) _) as [[c h]|].
  { pose proof (large_run io c (set_large h p) s) as Hl. change (set_large h (set_ps s p)) with (set_ps s (set_large h p)) in *.
    destruct (large_pressure io c _) as [q|q|q] eqn:Ec; [intros Hr; by apply (Hnext (set_large h p) _ q)| |].
    - destruct c; cbn [large_pressure] in Ec; unfold of_result in Ec; by case_match.
    - intros [= <-]. by rewrite run_mbind, Hl. }
  destruct (pop_if (over_disk p) _) as [[c h]|].
  { rewrite disk_dropped in *. intros Hr. by eapply (Hnext (set_disk_cands h p)); [|apply pressure_run| |]. }
  intros [= <-]. by destruct p.
Qed.

Lemma sweep_run io t table s :
  now s = t -> run (sweep_steps io t table) s = (foldl (sweep_blob io) s table, Ok tt).
Proof.
  revert s. induction table as [|e table IH]; intros s Hs; [done|]. cbn [sweep_steps foldl]. subst t.
  assert (Hnow : now (sweep_blob io s e) = now s).
  { unfold sweep_blob. destruct (_ || _); [done|]. pose proof (remove_blob_env e.1 s) as [_ Hn _ _ _ _].
    destruct (remove_blob e.1 s) as [[b|] s1]; [|done]. by destruct b. }
  specialize (IH (sweep_blob io s e)). unfold sweep_blob in *. destruct (_ || _); [by apply IH|].
  unfold take_blob. run_op. destruct (remove_blob e.1 s) as [[b|] s1] eqn:Er; cbn [fst snd];
    [|rewrite (remove_blob_absent _ _ _ Er) in *; by apply IH].
  run_op. destruct b as [id n mt la|id c mt la]; [run_op|]; by apply IH.
Qed.

Lemma publish_run p s : synced p s -> run (publish_steps p) s = (publish (set_ps s p), Ok tt).
Proof.
  intros [_ Hn]. unfold publish_steps, publish. cbv zeta. repeat run_op. rewrite run_does. cbn [ps set_ps].
  by rewrite Hn.
Qed.

Lemma evict_loop_env io fuel p r : evict_loop io fuel p = Some r -> same_env (ps p) (ps (outcome r)).
Proof.
  intros El. apply (evict_loop_ind io (fun q => same_env (ps p) (ps q)) (fun q => same_env (ps p) (ps q))) in El.
  - destruct r; [by destruct El|done].
  - intros q Hq. pose proof (iteration_env io q). destruct (evict_iteration io q); [by etrans|done|by etrans].
  - done.
Qed.

Lemma evict_run io s s' ok :
  evict io s = Some (s', ok) -> run (evict_steps io) s = (s', if ok then Ok tt else Err WriteFailed).
Proof.
  unfold evict, evict_steps. set (s1 := metric_add eviction_runs 1 s).
  assert (Hscan : run scan_steps s = (s1, Ok (scan s1))) by done.
  rewrite run_mbind, Hscan. set (p := scan s1). assert (Hp : ps p = s1) by apply scan_ps.
  replace (evict_loop io (S (loop_measure p)) p) with (evict_loop io (S (loop_measure p)) (set_ps s1 p))
    by (rewrite <- Hp; by destruct p).
  assert (Hsy : synced p s1) by (by split; rewrite Hp).
  destruct (evict_loop io _ (set_ps s1 p)) as [r|] eqn:El; [|done]. rewrite run_mbind, (loop_run _ _ _ _ r Hsy El).
  pose proof (evict_loop_env io _ _ _ El) as He.
  destruct r as [q|q]; intros [= <- <-]; [|done]. cbn [outcome ps set_ps] in He.
  assert (Hq : synced (back p q) (ps q)) by (by apply (synced_env p _ s1)).
  rewrite run_mbind, sweep_run by (symmetry; apply Hq). unfold sweep. pass_simpl. change (bks (back p q)) with (bks q).
  rewrite publish_run; [done|]. apply (synced_env (back p q) _ (ps q)); [done| |done].
  apply (foldl_inv (fun s' => same_env (ps q) s')); [done|]. intros s2 e _ H. etrans; [exact H|apply sweep_blob_env].
Qed.

(** ** With interruptions: the fuel is enough

    However its operations turn out, the program does not run out of fuel, and
    its result satisfies [P] if it has one. *)
Definition ends_with {A} (P : A -> Prop) (m : E A) : Prop :=
  every_end (fun r => match r with Ok a => P a | Err e => e <> OutOfFuel end) m.

Lemma ends_bind {A B} (P : A -> Prop) (Q : B -> Prop) (m : E A) (f : A -> E B) :
  ends_with P m -> (forall a, P a -> ends_with Q (f a)) -> ends_with Q (m ≫= f).
Proof. intros Hm Hf. by eapply every_end_then; [exact Hm| |]. Qed.

Lemma ends_mono {A} (P Q : A -> Prop) (m : E A) :
  ends_with P m -> (forall a, P a -> Q a) -> ends_with Q m.
Proof. intros Hm HPQ. eapply every_end_mono; [|exact Hm]. intros [a|e]; [apply HPQ|done]. Qed.

(** One operation, whatever it returns. *)
Local Ltac any_result :=
  unfold ends_with; repeat first
    [ progress cbn [every_end mbind prog_bind prog_then asks does atomically mret prog_ret]
    | intros ? | case_match ].

(** The heaps of [q] are those of [p]. *)
Definition same_heaps p q : Prop :=
  small_memory_candidates q = small_memory_candidates p /\
  large_memory_candidates q = large_memory_candidates p /\ disk_candidates q = disk_candidates p.

Definition disk_grows p q : Prop := loop_measure q <= S (loop_measure p).

Lemma same_heaps_trans p q r : same_heaps p q -> same_heaps q r -> same_heaps p r.
Proof. intros (?&?&?) (?&?&?). split_and!; congruence. Qed.

Lemma same_heaps_measure p q : same_heaps p q -> loop_measure q = loop_measure p.
Proof. intros (H1 & H2 & H3). unfold loop_measure. by rewrite H1, H2, H3. Qed.

Lemma spill_ref_ends io old p r : ends_with (same_heaps p) (spill_ref_steps io old p r).
Proof. unfold spill_ref_steps, spill_blob_steps. by any_result. Qed.

Lemma spill_refs_ends io old p rs : ends_with (same_heaps p) (spill_refs_steps io old p rs).
Proof.
  revert p. induction rs as [|r rs IH]; intros p; [done|]. eapply ends_bind; [apply spill_ref_ends|].
  intros q Hq. eapply ends_mono; [apply IH|]. intros q'. by apply same_heaps_trans.
Qed.

Lemma drop_ref_ends io old p r : ends_with (same_heaps p) (drop_ref_steps io old p r).
Proof. unfold drop_ref_steps, take_blob. by any_result. Qed.

Lemma drop_refs_ends io old p rs : ends_with (same_heaps p) (drop_refs_steps io old p rs).
Proof.
  revert p. induction rs as [|r rs IH]; intros p; [done|]. eapply ends_bind; [apply drop_ref_ends|].
  intros q Hq. eapply ends_mono; [apply IH|]. intros q'. by apply same_heaps_trans.
Qed.

Lemma pressure_ends io b c p : ends_with (same_heaps p) (pressure_steps io b c p).
Proof.
  destruct c as [la d|k la n]; cbn [pressure_steps].
  - intros [m|]; [|done]. intros ? ?. exact (drop_refs_ends io _ (acc_sub _ _ p) _).
  - unfold drop_redis_steps. by any_result.
Qed.

Lemma large_ends io c p : ends_with (disk_grows p) (large_steps io c p).
Proof.
  assert (Hrefl : disk_grows p p) by (unfold disk_grows; lia).
  assert (Hpush : forall e q, same_heaps p q -> disk_grows p (push_disk e q)).
  { intros e q (H1 & H2 & H3). unfold disk_grows, loop_measure, push_disk. cbn. rewrite H1, H2, H3. lia. }
  destruct c as [la d|k la n]; cbn [large_steps].
  - intros [m|]; [|done]. eapply ends_bind; [apply spill_refs_ends|]. intros q Hq. by apply Hpush.
  - unfold spill_redis_steps. any_result; try done. by apply Hpush.
Qed.

Lemma loop_ends io fuel p : loop_measure p < fuel -> ends_with (fun _ => True) (loop_steps io fuel p).
Proof.
  revert p. induction fuel as [|fuel IH]; intros p Hp; [lia|]. cbn [loop_steps].
  assert (Hm : forall p1 q, loop_measure p1 < loop_measure p -> same_heaps p1 q -> loop_measure q < fuel).
  { intros p1 q H1 H2%same_heaps_measure. lia. }
  destruct (pop_if (over_small p) _) as [[c h]|] eqn:E1.
  { apply pop_if_length in E1. eapply ends_bind; [apply pressure_ends|]. intros q Hq. eapply IH, Hm; [|exact Hq].
    unfold loop_measure, set_small. cbn. lia. }
  destruct (pop_if (over_memory p) _) as [[c h]|] eqn:E2.
  { apply pop_if_length in E2. eapply ends_bind; [apply large_ends|]. intros q Hq. apply IH.
    unfold disk_grows, loop_measure, set_large in *. cbn in *. lia. }
  destruct (pop_if (over_disk p) _) as [[c h]|] eqn:E3; [|done].
  apply pop_if_length in E3. eapply ends_bind; [apply pressure_ends|]. intros q Hq. eapply IH, Hm; [|exact Hq].
  unfold loop_measure, set_disk_cands. cbn. lia.
Qed.

Lemma sweep_ends io t table : ends_with (fun _ => True) (sweep_steps io t table).
Proof.
  induction table as [|e table IH]; [done|]. cbn [sweep_steps]. destruct (_ || _); [done|].
  intros [[|]|]; [|by intros []|done]. intros ? ?. exact IH.
Qed.

Lemma publish_ends p : ends_with (fun _ => True) (publish_steps p).
Proof. unfold publish_steps. by any_result. Qed.

(** Whatever happens between its operations, a pass ends with an I/O error at
    worst. *)
Lemma pass_has_fuel io : ends_with (fun _ => True) (round_steps io).
Proof.
  intros _ over. destruct over; [|done]. unfold evict_steps.
  eapply (ends_bind (fun _ => True)); [by unfold scan_steps; any_result|].
  intros p _. eapply ends_bind; [apply loop_ends; lia|]. intros q _.
  eapply ends_bind; [apply sweep_ends|]. intros _ _. apply publish_ends.
Qed.
(** C8: run without interruption, the operations of a round of the eviction
    loop are the round that [evict_round] describes, which has a result; and
    whatever happens between them, they come to an end, with success or with a
    failed write, never for want of fuel. *)
Theorem round_as_steps io :
  (forall s, exists s' ok, evict_round io s = Some (s', ok) /\
     run (round_steps io) s = (s', if ok then Ok tt else Err WriteFailed)) /\
  every_end (fun r => r <> Err OutOfFuel) (round_steps io).
Proof.
  split; [|eapply every_end_mono; [|apply pass_has_fuel]; by intros [|e]; [|congruence]]. intros s. unfold evict_round, round_steps. run_op. run_op. set (s1 := set_eviction_notify false s).
  destruct (over_limits s1); [|by exists s1, true].
  assert (Ht : is_Some (evict io s1)).
  { unfold evict. set (p := scan _).
    destruct (evict_loop_total io (S (loop_measure p)) p) as [[q|q] ->]; [lia|done..]. }
  destruct Ht as [[s' ok] Hs']. exists s', ok. split; [done|by apply evict_run].
Qed.

End steps.
