(* ===== verification/EvictionRace.v ===== *)
(** * A pass that spills a redis entry while clients use it

    The write of the value suspends the pass, so that commands run before the
    operation that replaces the entry. *)
From S2P Require Import Prelude Prog Digest Env Config State Disk Eviction EvictionDisk.
From S2P Require Import EvictionSteps.

Section race.
Context {SHA : Sha256} {ITER : MapIter} {JSON : SerdeJson} {HEAP : BinaryHeap}.
Implicit Types s : State.

Lemma stored_committed k id size la s v :
  disk s !! cache_path s id = Some v -> stored (spill_redis_commit k id size la s) (ORedis k) = Some v.
Proof. intros Hd. cbn [stored]. unfold spill_redis_commit. state_simpl. rewrite lookup_insert_eq. exact Hd. Qed.

(** C34: a defect. A pass that spills an entry looks it up and writes its
    file: two operations. When nothing happens before the next one, the entry
    keeps its value; but a [SET] that a client was told has succeeded in
    between is lost, and an entry deleted in between comes back, both with the
    old value. *)
Theorem spill_race io k v v' id l la size p s :
  redis_entries s !! k = Some (RedisEntry.InMemory v id l) ->
  (write_blob_to_disk io id v s).2 = Ok tt ->
  let '(rest, s1) := ahead 2 (spill_redis_steps io k la size p) s in
  let set := (insert_redis k v' s1).2 in
  let del := (remove_redis k s1).2 in
  stored s (ORedis k) = Some v /\ stored (run rest s1).1 (ORedis k) = Some v /\
  stored set (ORedis k) = Some v' /\ stored (run rest set).1 (ORedis k) = Some v /\
  stored del (ORedis k) = None /\ stored (run rest del).1 (ORedis k) = Some v.
Proof.
  intros Hk Hw. unfold spill_redis_steps. cbn [ahead asks atomically mbind prog_bind prog_then fst snd]. rewrite Hk.
  destruct (write_blob_disk io id v s) as (d' & E & _ & Hfile). specialize (Hfile Hw).
  cbn [ahead atomically mbind prog_bind prog_then]. rewrite Hw, E. cbn [ahead fst snd]. set (s1 := set_disk d' s).
  assert (Hcommit : forall s2, disk s2 = disk s1 -> config s2 = config s1 ->
    stored (spill_redis_commit k id size la s2) (ORedis k) = Some v).
  { intros s2 E1 E2. apply stored_committed. rewrite E1. by rewrite (cache_path_config s2 s) by exact E2. }
  destruct (insert_redis_fields k v' s1) as (Hs1 & _ & Hs2 & Hs3 & _).
  destruct (remove_redis_fields k s1) as (Hd1 & _ & Hd2 & Hd3 & _).
  split_and!; [by cbn; rewrite Hk|by apply Hcommit| |by apply Hcommit| |by apply Hcommit].
  - cbn [stored]. by rewrite Hs1, lookup_insert_eq.
  - cbn [stored]. by rewrite Hd1, lookup_delete_eq.
Qed.
End race.
