(* ===== verification/EvictionExamples.v ===== *)
(** * Eviction on concrete states

    An executable heap, and three small caches a pass is evaluated on. They
    are the inputs at which the theorems of the eviction files are
    instantiated, and they exhibit two defects of the published counters. *)
From S2P Require Import Prelude Prog Digest Env Config State Accounting Disk Eviction.
From S2P Require Import EvictionFrame.
From S2P Require Import EvictionRefs EvictionMaps EvictionUsage EvictionBudget EvictionResult.
From S2P Require Import EvictionAccounting.
From S2P Require Import EvictionOrder EvictionSteps EvictionRace.
From S2P Require Import EvictionDisk.
Export Env.Instances.

(** ** A heap: selection of the oldest candidate *)
Fixpoint pop_oldest (h : list EvictionCandidate) : option (EvictionCandidate * list EvictionCandidate) :=
  match h with
  | [] => None
  | c :: h' =>
      match pop_oldest h' with
      | None => Some (c, [])
      | Some (c', r) =>
          if (last_access_time c <=? last_access_time c')%N then Some (c, h') else Some (c', c :: r)
      end
  end.

Lemma pop_oldest_None h : pop_oldest h = None <-> h = [].
Proof.
  split; [|by intros ->]. destruct h as [|c h]; [done|]. simpl.
  destruct (pop_oldest h) as [[c' r]|]; [by destruct (_ <=? _)%N|done].
Qed.

Lemma pop_oldest_perm h c h' : pop_oldest h = Some (c, h') -> h ≡ₚ c :: h'.
Proof.
  revert c h'. induction h as [|x h IH]; intros c h'; simpl; [done|].
  destruct (pop_oldest h) as [[c' r]|] eqn:E.
  - specialize (IH _ _ eq_refl). destruct (_ <=? _)%N; intros [= <- <-]; [done|].
    rewrite IH. constructor.
  - apply pop_oldest_None in E as ->. by intros [= <- <-].
Qed.

Lemma pop_oldest_le h c h' c' :
  pop_oldest h = Some (c, h') -> c' ∈ h -> (last_access_time c <= last_access_time c')%N.
Proof.
  revert c h' c'. induction h as [|x h IH]; intros c h' c'; simpl; [done|].
  destruct (pop_oldest h) as [[y r]|] eqn:E.
  - destruct (N.leb_spec (last_access_time x) (last_access_time y)) as [Hle|Hlt];
      intros [= <- <-] [->|Hin]%elem_of_cons; [lia| |lia|].
    + specialize (IH _ _ _ eq_refl Hin). lia.
    + exact (IH _ _ _ eq_refl Hin).
  - apply pop_oldest_None in E as ->. intros [= <- <-] ->%list_elem_of_singleton. lia.
Qed.

#[export, refine] Instance toy_heap : BinaryHeap := {| heap_pop := pop_oldest |}.
Proof.
  - exact pop_oldest_None.
  - exact pop_oldest_perm.
  - intros h c h' c' Hp Hin. unfold candidate_cmp. apply N.compare_le_iff.
    exact (pop_oldest_le _ _ _ _ Hp Hin).
Defined.

(** ** Two small caches *)
Definition example_config (memory small disk : N) : Config :=
  mkConfig None None $"/data" memory (Some small) disk [] ∅ None None.

Definition filled (n : nat) (c : ascii) : bytes := repeat c n.

Definition dg (c : ascii) : Digest := toy_digest [c].

(** One manifest [m] naming a large blob [b]; an unreferenced old blob [u] and
    an unreferenced recent one [n]; two small redis entries. *)
Definition add_blob (d : Digest) (c : bytes) (la : N) (s : State) : State :=
  insert_blob d (Blob.InMemory (next_id s) c $"t" la) (take_id s).2.
Definition example_new : State := State_new (example_config 2000 400 100000) 100000 ∅.
Definition example_b : State := add_blob (dg "b") (filled 2000 "b") 10 example_new.
Definition example_n : State := add_blob (dg "n") (filled 9 "n") 99000 example_b.
Definition example_blobs : State := add_blob (dg "u") (filled 8 "u") 20 example_n.
Definition example_manifest : State :=
  insert_manifest (dg "m") (mkManifest (digest_to_string (dg "b")) $"mt" 50000 false) example_blobs.
Definition example_tag : State :=
  time_update 10 (set_tags {[ ($"repo", $"latest") := dg "m" ]} example_manifest).
Definition example_one : State :=
  time_update 100000 (insert_redis $"key-one" (filled 300 "x") example_tag).2.
Definition example_state : State := (insert_redis $"key-two" (filled 30 "y") example_one).2.

Definition example_after : State :=
  match evict io_fine example_state with Some (s, _) => s | None => example_state end.

Lemma example_evict : evict io_fine example_state = Some (example_after, true).
Proof.
  assert (match evict io_fine example_state with Some (_, b) => b | None => false end = true) as H
    by (vm_compute; reflexivity).
  unfold example_after. destruct (evict io_fine example_state) as [[s b]|]; [by subst b|done].
Qed.

Lemma add_blob_Accounted d c la s : Accounted s -> Accounted (add_blob d c la s).
Proof. intros Hs. by apply insert_blob_Accounted, take_id_Accounted. Qed.

Lemma example_accounted : Accounted example_state.
Proof.
  assert (H : Accounted example_blobs)
    by (apply add_blob_Accounted, add_blob_Accounted, add_blob_Accounted, State_new_Accounted).
  apply insert_redis_Accounted, time_update_Accounted, insert_redis_Accounted.
  apply time_update_Accounted, set_tags_Accounted, insert_manifest_Accounted, H.
Qed.

Lemma add_blob_ids d c la s : ids_ok s -> (next_id s + 1 < U64)%N -> ids_ok (add_blob d c la s).
Proof. intros Hs Hn. by apply insert_fresh_blob_ids. Qed.

Lemma example_ids : ids_ok example_state.
Proof.
  assert (H1 : ids_ok example_b) by (apply add_blob_ids; [apply State_new_ids|by vm_compute]).
  assert (H2 : ids_ok example_n) by (apply add_blob_ids; [exact H1|by vm_compute]).
  assert (H3 : ids_ok example_blobs) by (apply add_blob_ids; [exact H2|by vm_compute]).
  assert (H4 : ids_ok example_tag) by apply time_update_ids, set_tags_ids, insert_manifest_ids, H3.
  assert (H5 : ids_ok (insert_redis $"key-one" (filled 300 "x") example_tag).2)
    by (apply insert_redis_ids; [exact H4|by vm_compute]).
  assert (H6 : ids_ok example_one) by apply time_update_ids, H5.
  apply insert_redis_ids; [exact H6|by vm_compute].
Qed.

Lemma example_fits : (total_charge example_state < I63)%Z.
Proof. vm_compute. reflexivity. Qed.

Lemma occ_le_length d l : (occ d l <= Z.of_nat (length l))%Z.
Proof.
  induction l as [|r l IH]; unfold occ in *; cbn [lsum foldr length]; [lia|].
  fold (lsum (one d) l). assert (one d r <= 1)%Z by (unfold one; case_decide; lia). lia.
Qed.

Lemma refs_fit_by_length (s : State) :
  (msum (fun _ m => Z.of_nat (length (referenced_digests (m_content m)))) (manifests s) < Z.of_N U32)%Z ->
  refs_fit s.
Proof.
  intros H d. unfold refcount. eapply Z.le_lt_trans; [|exact H].
  clear H. induction (manifests s) as [|k m ms Hk IH] using map_ind; [by rewrite !msum_empty|].
  rewrite !msum_insert_None by done. pose proof (occ_le_length d (referenced_digests (m_content m))). lia.
Qed.

Lemma example_refs_fit : refs_fit example_state.
Proof. apply refs_fit_by_length. vm_compute. reflexivity. Qed.

(** ** The theorems at this state *)
Lemma lookup_example_manifest :
  manifests example_after !! dg "m" = Some (mkManifest (digest_to_string (dg "b")) $"mt" 50000 true).
Proof. vm_compute. reflexivity. Qed.

Lemma evict_keeps_referenced_witness : is_Some (blobs example_after !! dg "b").
Proof.
  apply (evict_keeps_referenced io_fine example_state example_after true (dg "m")
    (mkManifest (digest_to_string (dg "b")) $"mt" 50000 true)).
  - exact example_refs_fit.
  - exact example_evict.
  - exact lookup_example_manifest.
  - by_decide.
  - by_decide.
Defined.

Lemma evict_keeps_recent_witness : is_Some (blobs example_after !! dg "n").
Proof.
  apply (evict_keeps_recent io_fine example_state example_after true (dg "n")
    (Blob.InMemory 1 (filled 9 "n") $"t" 99000)).
  - exact example_evict.
  - by vm_compute.
  - by vm_compute.
Defined.

Lemma example_tags_valid : tags_valid example_state.
Proof.
  intros t d Ht.
  assert (tags example_state = {[ ($"repo", $"latest") := dg "m" ]}) as E by (vm_compute; reflexivity).
  rewrite E in Ht. apply lookup_singleton_Some in Ht as [<- <-]. by_decide.
Qed.

Lemma evict_tags_witness : tags example_after !! ($"repo", $"latest") = Some (dg "m").
Proof.
  apply (evict_tags io_fine example_state example_after true example_tags_valid example_evict).
  split; [by vm_compute|by_decide].
Defined.

Lemma evict_preserves_content_witness :
  stored example_after (OBlob (dg "b")) = Some (filled 2000 "b").
Proof.
  destruct (evict_preserves_content io_fine example_state example_after true example_ids example_evict)
    as [_ H].
  destruct (H (OBlob (dg "b")) 0%N) as [_ ->]; by vm_compute.
Defined.

Lemma evict_budgets_witness :
  (charge manifest_memory_usage example_after + charge small_blob_memory_usage example_after
     + charge small_redis_memory_usage example_after <= 300 \/
   (manifests example_after = ∅ /\ forall k e, redis_entries example_after !! k = Some e ->
      (redis_value_bucket e).1 <> small_redis_memory_usage))%Z.
Proof.
  exact (proj1 (evict_budgets io_fine example_state example_after
    example_accounted example_fits example_evict)).
Defined.

Lemma evict_counters_witness :
  usage example_after small_blob_memory_usage = (charge small_blob_memory_usage example_after + 8)%Z /\
  usage example_after small_redis_memory_usage = (charge small_redis_memory_usage example_after + 7)%Z.
Proof.
  pose proof (evict_counters io_fine example_state example_after
    example_accounted example_fits example_refs_fit example_evict) as H.
  split; [rewrite (H small_blob_memory_usage)|rewrite (H small_redis_memory_usage)];
    vm_compute; reflexivity.
Defined.

(** ** What the final stores lose

    The pass starts from exact counters; the 8 bytes of the blob [u] that the
    sweep deleted stay charged, and so do the 7 bytes of the key that the loop
    dropped. *)
Lemma example_unswept :
  exists bl, blobs example_state !! dg "u" = Some bl /\ refcount (dg "u") (manifests example_state) = 0%Z /\ (BLOB_GRACE_SECONDS <= now example_state - Blob.last_accessed bl)%N /\ (blob_bucket bl).2 = 8%N.
Proof. eexists. split_and!; vm_compute; try reflexivity. discriminate. Qed.

Lemma evict_accounting_witness : ~ Accounted example_after.
Proof.
  intros Ha. destruct example_unswept as (bl & Hb & Hr & Hg & Hz).
  destruct (proj1 (evict_accounting io_fine example_state example_after
    example_accounted example_fits example_refs_fit example_evict) Ha) as [Hsw _].
  specialize (Hsw _ _ Hb Hr Hg). rewrite Hz in Hsw. discriminate Hsw.
Defined.

(** ** Oldest first *)
Definition order_state : State :=
  let put k (t : N) s := (insert_redis k (filled 200 "z") (time_update t s)).2 in
  put $"c" 100000%N (put $"b" 10%N (put $"a" 5%N example_new)).
Definition order_after : State :=
  match evict io_fine order_state with Some (s, _) => s | None => order_state end.

Lemma order_evict : evict io_fine order_state = Some (order_after, true).
Proof.
  assert (match evict io_fine order_state with Some (_, b) => b | None => false end = true) as H
    by (vm_compute; reflexivity).
  unfold order_after. destruct (evict io_fine order_state) as [[s b]|]; [by subst b|done].
Qed.

Lemma evict_oldest_first_witness :
  redis_entries order_after !! $"a" = None /\ is_Some (redis_entries order_after !! $"c").
Proof.
  split; [|by_decide].
  destruct (evict_oldest_first io_fine order_state order_after true $"b" 10 order_evict) as [H _].
  - exists (filled 200 "z"), 1%N. split; by vm_compute.
  - by vm_compute.
  - apply (H _ 5%N); [|done]. exists (filled 200 "z"), 0%N. split; by vm_compute.
Defined.

(** ** A [SET] while its entry is spilled *)
Definition spill_a : E Pass := spill_redis_steps io_fine $"a" 5 200 (scan order_state).
Definition spilling : E Pass * State := ahead 2 spill_a order_state.
Definition set_meanwhile : State := (insert_redis $"a" $"new" spilling.2).2.

Lemma entry_a : redis_entries order_state !! $"a" = Some (RedisEntry.InMemory (filled 200 "z") 0 5).
Proof. vm_compute. reflexivity. Qed.
Lemma entry_a_written : (write_blob_to_disk io_fine 0 (filled 200 "z") order_state).2 = Ok tt.
Proof. vm_compute. reflexivity. Qed.

Lemma spill_race_witness :
  stored set_meanwhile (ORedis $"a") = Some $"new" /\
  stored (run spilling.1 set_meanwhile).1 (ORedis $"a") = Some (filled 200 "z").
Proof.
  pose proof (spill_race io_fine $"a" (filled 200 "z") $"new" 0 5 5 200 (scan order_state) order_state
    entry_a entry_a_written) as H.
  unfold set_meanwhile, spilling, spill_a. destruct (ahead 2 _ _) as [rest s1].
  destruct H as (_ & _ & H1 & H2 & _). split; [exact H1|exact H2].
Defined.
