(* ===== verification/Text.v ===== *)
(** * Text: the parts of Rust's [str] and integer formatting the code uses

    UTF-8 validation and decoding ([str::from_utf8]), [split_whitespace],
    ASCII case mapping, [usize::from_str] and decimal formatting, on bytes. *)
From S2P Require Import Prelude.

Definition byte_in (lo hi : N) (c : ascii) : bool := ((lo <=? N_of_ascii c) && (N_of_ascii c <=? hi))%N.

(** ** UTF-8

    [utf8_step b]: the first character of [b], as its code point and its
    bytes, and the rest; [None] when [b] does not start with a well-formed
    sequence (the table of the Unicode standard: no overlong forms, no
    surrogates, nothing above U+10FFFF). *)
Definition cont (c : ascii) : N := N.land (N_of_ascii c) 63.

Definition utf8_step (b : bytes) : option (N * bytes * bytes) :=
  match b with
  | [] => None
  | c1 :: b1 =>
      let n1 := N_of_ascii c1 in
      if (n1 <? 128)%N then Some (n1, [c1], b1)
      else if byte_in 194 223 c1 then
        match b1 with
        | c2 :: b2 =>
            if byte_in 128 191 c2 then Some (N.land n1 31 * 64 + cont c2, [c1; c2], b2)%N else None
        | _ => None
        end
      else if byte_in 224 239 c1 then
        match b1 with
        | c2 :: c3 :: b3 =>
            let lo := if (n1 =? 224)%N then 160%N else 128%N in
            let hi := if (n1 =? 237)%N then 159%N else 191%N in
            if byte_in lo hi c2 && byte_in 128 191 c3
            then Some (N.land n1 15 * 4096 + cont c2 * 64 + cont c3, [c1; c2; c3], b3)%N else None
        | _ => None
        end
      else if byte_in 240 244 c1 then
        match b1 with
        | c2 :: c3 :: c4 :: b4 =>
            let lo := if (n1 =? 240)%N then 144%N else 128%N in
            let hi := if (n1 =? 244)%N then 143%N else 191%N in
            if byte_in lo hi c2 && byte_in 128 191 c3 && byte_in 128 191 c4
            then Some (N.land n1 7 * 262144 + cont c2 * 4096 + cont c3 * 64 + cont c4,
                       [c1; c2; c3; c4], b4)%N else None
        | _ => None
        end
      else None
  end.

(** The characters of a byte string; fuel [length b] suffices. *)
Fixpoint utf8_chars (fuel : nat) (b : bytes) : option (list (N * bytes)) :=
  match b with
  | [] => Some []
  | _ =>
      match fuel with
      | O => None
      | S fuel =>
          '(cp, w, rest) ← utf8_step b;
          l ← utf8_chars fuel rest; Some ((cp, w) :: l)
      end
  end.

Definition str_chars (b : bytes) : option (list (N * bytes)) := utf8_chars (length b) b.

(** [str::from_utf8(b).is_ok()]. *)
Definition utf8_valid (b : bytes) : bool := match str_chars b with Some _ => true | None => false end.

(** [char::is_whitespace]: the Unicode property White_Space. *)
Definition is_whitespace (cp : N) : bool :=
  ((9 <=? cp) && (cp <=? 13) || (cp =? 32) || (cp =? 133) || (cp =? 160) || (cp =? 5760)
   || (8192 <=? cp) && (cp <=? 8202) || (cp =? 8232) || (cp =? 8233) || (cp =? 8239)
   || (cp =? 8287) || (cp =? 12288))%N.

(** [str::split_whitespace]: the maximal runs of other characters. [cur] is the
    run being read, [None] between runs. *)
Fixpoint split_ws (cur : option bytes) (l : list (N * bytes)) : list bytes :=
  match l with
  | [] => match cur with Some w => [w] | None => [] end
  | (cp, w) :: l' =>
      if is_whitespace cp
      then match cur with Some r => r :: split_ws None l' | None => split_ws None l' end
      else split_ws (Some (default [] cur ++ w)) l'
  end.

Definition split_whitespace (l : list (N * bytes)) : list bytes := split_ws None l.

(** ** ASCII case *)
Definition upper_char (c : ascii) : ascii :=
  if byte_in 97 122 c then ascii_of_N (N_of_ascii c - 32) else c.
Definition to_ascii_uppercase (b : bytes) : bytes := upper_char <$> b.

(** ** Decimal numbers *)
Definition dec_digit (d : N) : ascii := ascii_of_N (48 + d).

Fixpoint dec_loop (fuel : nat) (n : N) (tail : bytes) : bytes :=
  match fuel with
  | O => tail
  | S fuel =>
      let tail := dec_digit (n mod 10) :: tail in
      if (n / 10 =? 0)%N then tail else dec_loop fuel (n / 10)%N tail
  end.

(** [format!("{n}")] of an unsigned and of a signed integer; a number has at
    most as many decimal digits as binary ones. *)
Definition dec (n : N) : bytes := dec_loop (S (N.to_nat (N.log2 n))) n [].
Definition dec_z (z : Z) : bytes :=
  if (z <? 0)%Z then "-"%char :: dec (Z.to_N (- z)) else dec (Z.to_N z).

(** [usize::from_str] (64 bits): an optional [+], at least one digit, no
    overflow at any step. *)
Definition digit_step (acc : option N) (c : ascii) : option N :=
  n ← acc;
  if byte_in 48 57 c then
    let m := (n * 10 + (N_of_ascii c - 48))%N in if (m <? U64)%N then Some m else None
  else None.

Definition parse_usize (b : bytes) : option N :=
  let digits := match b with
                | c :: b' => if decide (c = "+"%char) then b' else b
                | [] => b
                end in
  match digits with
  | [] => None
  | _ => foldl digit_step (Some 0%N) digits
  end.

(** ** Lemmas *)
Lemma N_of_dec_digit d : (d < 10)%N -> N_of_ascii (dec_digit d) = (48 + d)%N.
Proof. intros. apply N_ascii_embedding. lia. Qed.

Lemma dec_digit_in d : (d < 10)%N -> byte_in 48 57 (dec_digit d) = true.
Proof.
  intros. unfold byte_in. rewrite N_of_dec_digit by done.
  apply andb_true_intro. split; apply N.leb_le; lia.
Qed.

Lemma digit_step_dec n d :
  (d < 10)%N -> (n * 10 + d < U64)%N -> digit_step (Some n) (dec_digit d) = Some (n * 10 + d)%N.
Proof.
  intros Hd Hn. unfold digit_step, byte_in. simpl. rewrite N_of_dec_digit by done.
  replace (48 + d - 48)%N with d by lia.
  destruct (N.leb_spec 48 (48 + d)); [|lia]. destruct (N.leb_spec (48 + d) 57); [|lia].
  cbn [andb]. destruct (N.ltb_spec (n * 10 + d) U64); [done|lia].
Qed.

Lemma log2_div10 n : (n / 10 <> 0)%N -> (N.log2 (n / 10) < N.log2 n)%N.
Proof.
  intros Hnz. assert (10 <= n)%N.
  { destruct (N.le_gt_cases 10 n) as [|Hlt]; [done|]. by rewrite N.div_small in Hnz. }
  apply N.log2_lt_pow2; [by apply N.neq_0_lt_0|]. pose proof (N.log2_spec n ltac:(lia)) as [_ Hu].
  rewrite N.pow_succ_r' in Hu. apply N.Div0.div_lt_upper_bound. lia.
Qed.

(** Reading the digits of [n] before [tail] leaves [n] as the accumulator. *)
Lemma dec_loop_read fuel n tail :
  (n < U64)%N -> N.to_nat (N.log2 n) < fuel ->
  foldl digit_step (Some 0%N) (dec_loop fuel n tail) = foldl digit_step (Some n) tail.
Proof.
  revert n tail. induction fuel as [|fuel IH]; intros n tail Hn Hf; [lia|]. simpl.
  pose proof (N.mod_lt n 10 ltac:(lia)) as Hm. pose proof (N.div_mod n 10 ltac:(lia)) as Hd.
  destruct (N.eqb_spec (n / 10) 0) as [Hz|Hnz].
  - cbn [foldl]. rewrite digit_step_dec by lia. do 2 f_equal. lia.
  - rewrite IH.
    + cbn [foldl]. rewrite digit_step_dec by lia. do 2 f_equal. lia.
    + eapply N.le_lt_trans; [apply N.Div0.div_le_upper_bound|exact Hn]. lia.
    + pose proof (log2_div10 n Hnz). lia.
Qed.

Lemma dec_loop_nonempty fuel n tail : fuel <> 0 -> exists c t,
  dec_loop fuel n tail = c :: t /\ byte_in 48 57 c = true.
Proof.
  revert n tail. induction fuel as [|fuel IH]; intros n tail Hf; [done|]. simpl.
  pose proof (N.mod_lt n 10 ltac:(lia)) as Hm.
  pose proof (dec_digit_in _ Hm) as Hb.
  destruct (n / 10 =? 0)%N; [eauto|]. destruct fuel as [|fuel]; [simpl; eauto|]. by apply IH.
Qed.

(** Printing, then parsing. *)
Lemma parse_dec n : (n < U64)%N -> parse_usize (dec n) = Some n.
Proof.
  intros Hn. pose proof (dec_loop_read (S (N.to_nat (N.log2 n))) n [] Hn ltac:(lia)) as Hr.
  unfold parse_usize, dec in *. revert Hr.
  destruct (dec_loop_nonempty (S (N.to_nat (N.log2 n))) n [] ltac:(lia)) as (c & t & -> & Hc).
  rewrite decide_False by (intros ->; vm_compute in Hc; done). intros Hr. by simpl in *.
Qed.

(** The digits contain no line feed. *)
Lemma dec_loop_chars fuel n tail c : c ∈ dec_loop fuel n tail -> byte_in 48 57 c = true \/ c ∈ tail.
Proof.
  revert n tail. induction fuel as [|fuel IH]; intros n tail; simpl; [by right|].
  pose proof (N.mod_lt n 10 ltac:(lia)) as Hm.
  pose proof (dec_digit_in _ Hm) as Hb.
  destruct (n / 10 =? 0)%N.
  - intros [->|H]%elem_of_cons; [by left|by right].
  - intros [H|[->|H]%elem_of_cons]%IH; auto.
Qed.

Lemma dec_digits n c : c ∈ dec n -> byte_in 48 57 c = true.
Proof. intros [H|H%elem_of_nil]%dec_loop_chars; [done|done]. Qed.

(** ** Slicing strings *)

(** [split_once], [rsplit_once] at one ASCII character; [split] at one. *)
Fixpoint split_once (c : ascii) (b : bytes) : option (bytes * bytes) :=
  match b with
  | [] => None
  | x :: b' =>
      if decide (x = c) then Some ([], b')
      else '(l, r) ← split_once c b'; Some (x :: l, r)
  end.

Definition rsplit_once (c : ascii) (b : bytes) : option (bytes * bytes) :=
  '(l, r) ← split_once c (rev b); Some (rev r, rev l).

Fixpoint split_at_char (c : ascii) (b : bytes) : list bytes :=
  match b with
  | [] => [[]]
  | x :: b' =>
      if decide (x = c) then [] :: split_at_char c b'
      else match split_at_char c b' with
           | [] => [[x]]
           | w :: ws => (x :: w) :: ws
           end
  end.

(** [strip_suffix]. *)
Definition strip_suffix (suffix b : bytes) : option bytes :=
  if decide (drop (length b - length suffix) b = suffix)
  then Some (take (length b - length suffix) b) else None.

(** The longest prefix whose characters satisfy [p], and the rest. *)
Fixpoint span (p : ascii -> bool) (b : bytes) : bytes * bytes :=
  match b with
  | [] => ([], [])
  | c :: b' => if p c then let '(l, r) := span p b' in (c :: l, r) else ([], b)
  end.

Fixpoint skip_ws (l : list (N * bytes)) : list (N * bytes) :=
  match l with
  | (cp, w) :: l' => if is_whitespace cp then skip_ws l' else l
  | [] => []
  end.

(** [str::trim_start], [str::trim]; a [&str] always decodes. *)
Definition trim_start (b : bytes) : bytes :=
  match str_chars b with
  | Some l => concat (skip_ws l).*2
  | None => b
  end.
Definition trim (b : bytes) : bytes :=
  match str_chars b with
  | Some l => concat (rev (skip_ws (rev (skip_ws l)))).*2
  | None => b
  end.

Definition contains_char (c : ascii) (b : bytes) : bool := bool_decide (c ∈ b).

(** [join]. *)
Fixpoint join (sep : bytes) (l : list bytes) : bytes :=
  match l with
  | [] => []
  | [w] => w
  | w :: l' => w ++ sep ++ join sep l'
  end.

(** ** Cutting a text at a character it was joined with *)
Lemma split_once_app c a b : c ∉ a -> split_once c (a ++ c :: b) = Some (a, b).
Proof.
  induction a as [|x a IH]; simpl; intros Hc; [by rewrite decide_True|].
  apply not_elem_of_cons in Hc as [Hx Hc]. rewrite decide_False by congruence. by rewrite IH.
Qed.

Lemma split_once_none c b : c ∉ b -> split_once c b = None.
Proof.
  induction b as [|x b IH]; simpl; intros Hc; [done|].
  apply not_elem_of_cons in Hc as [Hx Hc]. rewrite decide_False by congruence. by rewrite IH.
Qed.

Lemma rsplit_once_app c a b : c ∉ b -> rsplit_once c (a ++ c :: b) = Some (a, b).
Proof.
  intros Hc. unfold rsplit_once. rewrite rev_app_distr. simpl. rewrite <- app_assoc. simpl.
  rewrite split_once_app by (rewrite list_elem_of_In, <- in_rev; by rewrite <- list_elem_of_In).
  simpl. by rewrite !rev_involutive.
Qed.

Lemma split_at_char_none c b : c ∉ b -> split_at_char c b = [b].
Proof.
  induction b as [|x b IH]; simpl; intros Hc; [done|].
  apply not_elem_of_cons in Hc as [Hx Hc]. rewrite decide_False by congruence. by rewrite IH.
Qed.

Lemma strip_suffix_app sfx b : strip_suffix sfx (b ++ sfx) = Some b.
Proof.
  unfold strip_suffix. rewrite length_app, Nat.add_sub.
  by rewrite drop_app_length, take_app_length, decide_True.
Qed.
