(* ===== verification/Ascii.v ===== *)
(** * ASCII texts: decoding and trimming *)
From S2P Require Import Prelude Text.

(** ** ASCII texts decode character by character *)
Definition ascii_text (b : bytes) : Prop := forall c, c ∈ b -> (N_of_ascii c < 128)%N.

Lemma ascii_chars b :
  ascii_text b -> str_chars b = Some ((fun c => (N_of_ascii c, [c])) <$> b).
Proof.
  unfold str_chars. induction b as [|c b IH]; intros Hb; [done|]. simpl.
  assert (Hc : (N_of_ascii c < 128)%N) by (apply Hb; by left).
  rewrite (proj2 (N.ltb_lt _ _) Hc). simpl. rewrite IH; [done|]. intros x Hx. apply Hb. by right.
Qed.

Lemma concat_singletons (b : bytes) : concat ((fun c => (N_of_ascii c, [c])) <$> b).*2 = b.
Proof. induction b as [|c b IH]; [done|]. exact (f_equal (cons c) IH). Qed.

Lemma skip_ws_head c b :
  is_whitespace (N_of_ascii c) = false ->
  skip_ws ((fun c => (N_of_ascii c, [c])) <$> c :: b) = (fun c => (N_of_ascii c, [c])) <$> c :: b.
Proof. simpl. by intros ->. Qed.

Lemma trim_start_at c b :
  ascii_text (c :: b) -> is_whitespace (N_of_ascii c) = false -> trim_start (c :: b) = c :: b.
Proof.
  intros Hb Hc. unfold trim_start. rewrite (ascii_chars _ Hb), skip_ws_head by done.
  apply concat_singletons.
Qed.

(** Nothing to trim at either end. *)
Lemma trim_between c b e :
  ascii_text (c :: b ++ [e]) -> is_whitespace (N_of_ascii c) = false ->
  is_whitespace (N_of_ascii e) = false -> trim (c :: b ++ [e]) = c :: b ++ [e].
Proof.
  intros Hb Hc He. unfold trim. rewrite (ascii_chars _ Hb), skip_ws_head by done.
  set (f := fun c => (N_of_ascii c, [c])).
  assert (Hr : rev (f <$> c :: b ++ [e]) = f <$> e :: rev (c :: b)).
  { change (c :: b ++ [e]) with ((c :: b) ++ [e]). rewrite fmap_app, rev_app_distr. cbn [fmap list_fmap rev app].
    f_equal. symmetry. apply (map_rev f (c :: b)). }
  rewrite Hr. subst f. rewrite skip_ws_head by done. rewrite <- Hr, rev_involutive.
  apply concat_singletons.
Qed.

Lemma ascii_text_app a b : ascii_text a -> ascii_text b -> ascii_text (a ++ b).
Proof. intros Ha Hb c [?|?]%elem_of_app; auto. Qed.
Lemma ascii_text_const b : forallb (fun c => N_of_ascii c <? 128)%N b = true -> ascii_text b.
Proof. intros H c Hc%list_elem_of_In. rewrite forallb_forall in H. by apply N.ltb_lt, H. Qed.

(** A text without white space at its ends is left as it is. *)
Lemma trim_ends b :
  ascii_text b -> (forall c, head b = Some c -> is_whitespace (N_of_ascii c) = false) ->
  (forall c, last b = Some c -> is_whitespace (N_of_ascii c) = false) -> trim b = b.
Proof.
  intros Hb Hh Hl. destruct b as [|c b]; [done|].
  destruct (decide (b = [])) as [->|Hne].
  - unfold trim. rewrite (ascii_chars _ Hb), skip_ws_head by (by apply Hh).
    cbn [fmap list_fmap rev app skip_ws]. rewrite (Hh c eq_refl). done.
  - destruct (exists_last Hne) as (b' & e & ->). apply trim_between; [done|by apply Hh|].
    apply Hl. rewrite app_comm_cons. apply last_snoc.
Qed.
