(* ===== verification/Size.v ===== *)
(** * Byte sizes ([src/size.rs])

    Parsing and printing of sizes such as [16GB], with their binary64
    arithmetic: [f64] is the standard library's specification of IEEE 754
    numbers at precision 53 and maximal exponent 1024. *)
From Stdlib Require Import SpecFloat.
From S2P Require Import Prelude Config Text.

(** ** [f64] *)
Definition f64 : Type := spec_float.
Definition f64_mul : f64 -> f64 -> f64 := SFmul 53 1024.
Definition f64_div : f64 -> f64 -> f64 := SFdiv 53 1024.

(** [n as f64]: rounded to nearest, ties to even. *)
Definition f64_of_u64 (n : N) : f64 := binary_normalize 53 1024 (Z.of_N n) 0 false.

(** [x as u64]: truncated and saturating, NaN is 0. *)
Definition f64_to_u64 (x : f64) : N :=
  match x with
  | S754_finite false m e => N.min (Z.to_N (Z.shiftl (Zpos m) e)) (U64 - 1)
  | S754_infinity false => (U64 - 1)%N
  | _ => 0%N
  end.

(** The decimal number [digits / 10 ^ places], correctly rounded. *)
Definition f64_of_decimal (digits : N) (places : nat) : f64 :=
  match digits with
  | N0 => S754_zero false
  | Npos p => f64_div (S754_finite false p 0) (S754_finite false (Z.to_pos (10 ^ Z.of_nat places)) 0)
  end.

Definition digit_value (c : ascii) : N := N_of_ascii c - 48.
Definition digits_value (b : bytes) : N := foldl (fun n c => n * 10 + digit_value c)%N 0%N b.
Definition is_digit (c : ascii) : bool := byte_in 48 57 c.

(** [f64::from_str] on a text of digits and dots: at most one dot, and at
    least one digit. *)
Inductive ParseFloatError : Type := Empty | Invalid.

Definition f64_from_str (b : bytes) : result ParseFloatError f64 :=
  let '(int, frac) := default (b, []) (split_once "."%char b) in
  if decide (b = []) then Err Empty
  else if decide (int ++ frac = []) then Err Invalid
  else if forallb is_digit (int ++ frac)
  then Ok (f64_of_decimal (digits_value (int ++ frac)) (length frac))
  else Err Invalid.

Definition f64_const (m : positive) (e : Z) : f64 := S754_finite false m e.
(** [1.0] and [1024.0]. *)
Definition f64_1 : f64 := f64_const 4503599627370496 (-52).
Definition f64_1024 : f64 := f64_const 4503599627370496 (-42).

(** ** [Size::from_str] *)
Inductive ParseSizeError : Type :=
  | InvalidNumber (e : ParseFloatError)
  | InvalidUnit (unit_str : bytes).

(** The loop over the characters: [num_str] and [unit_str]. *)
Fixpoint scan_size (cs : list (N * bytes)) (num_str unit_str : bytes) : bytes * bytes :=
  match cs with
  | [] => (num_str, unit_str)
  | (cp, w) :: cs =>
      if ((48 <=? cp) && (cp <=? 57) || (cp =? 46))%N then scan_size cs (num_str ++ w) unit_str
      else if is_whitespace cp then scan_size cs num_str unit_str
      else scan_size cs num_str (unit_str ++ w)
  end.

(** [unit_str.to_uppercase()] is compared with ASCII texts only, and no
    character outside ASCII has one of their letters as its uppercase, so
    that mapping the ASCII letters decides the comparisons. *)
Definition size_multiplier (unit_str : bytes) : option f64 :=
  let u := to_ascii_uppercase unit_str in
  if decide (u = $"B") then Some f64_1
  else if decide (u = $"KB") then Some f64_1024
  else if decide (u = $"MB") then Some (f64_mul f64_1024 f64_1024)
  else if decide (u = $"GB") then Some (f64_mul (f64_mul f64_1024 f64_1024) f64_1024)
  else if decide (u = $"TB") then Some (f64_mul (f64_mul (f64_mul f64_1024 f64_1024) f64_1024) f64_1024)
  else if decide (u = []) then Some f64_1
  else None.

Definition size_from_str (s : bytes) : result ParseSizeError Size :=
  let '(num_str, unit_str) := scan_size (default [] (str_chars (trim s))) [] [] in
  match f64_from_str num_str with
  | Err e => Err (InvalidNumber e)
  | Ok num =>
      match size_multiplier unit_str with
      | None => Err (InvalidUnit unit_str)
      | Some multiplier => Ok (f64_to_u64 (f64_mul num multiplier))
      end
  end.

(** ** [Display for Size] *)
Definition size_units : list bytes := [$"B"; $"KB"; $"MB"; $"GB"; $"TB"].

Fixpoint size_loop (unit : bytes) (units : list bytes) (size : f64) : f64 * bytes :=
  match units with
  | next :: units =>
      if SFleb f64_1024 size then size_loop next units (f64_div size f64_1024) else (size, unit)
  | [] => (size, unit)
  end.

(** [{:.2}] of a finite number that is not negative: its exact value, rounded
    to hundredths, ties to even. *)
Definition hundredths (x : f64) : N :=
  match x with
  | S754_finite _ m (Zneg p) =>
      let n := (Npos m * 100)%N in
      let d := (2 ^ Npos p)%N in
      match (2 * (n mod d) ?= d)%N with
      | Lt => n / d
      | Gt => n / d + 1
      | Eq => if N.even (n / d) then n / d else n / d + 1
      end%N
  | S754_finite _ m e => (Z.to_N (Z.shiftl (Zpos m) e) * 100)%N
  | _ => 0%N
  end.

Definition fmt_2 (x : f64) : bytes :=
  let h := hundredths x in
  dec (h / 100) ++ "."%char :: dec_digit (h / 10 mod 10) :: [dec_digit (h mod 10)].

Definition size_fmt (n : Size) : bytes :=
  let '(size, unit) :=
    match size_units with
    | u :: us => size_loop u us (f64_of_u64 n)
    | [] => (f64_of_u64 n, [])
    end in
  fmt_2 size ++ $" " ++ unit.
