(* ===== verification/SizeProps.v ===== *)
(** * Sizes: exact integers and the printed form

    Integers below 2^53, their products with a unit and their quotients by
    1024 are exact in binary64, which makes the texts of sizes exact. *)
From Stdlib Require Import SpecFloat.
From S2P Require Import Prelude Config Text Ascii Size.

(** ** binary64 on integers *)
Section binary64.
Local Open Scope Z_scope.

Lemma digits2_log2 p : Zpos (digits2_pos p) = Z.log2 (Zpos p) + 1.
Proof.
  induction p as [p IH|p IH|]; [| |done]; cbn [digits2_pos]; rewrite Pos2Z.inj_succ, IH.
  - change (Zpos p~1) with (2 * Zpos p + 1). rewrite Z.log2_succ_double; lia.
  - change (Zpos p~0) with (2 * Zpos p). rewrite Z.log2_double; lia.
Qed.

Lemma iter_pos_nat {A} (f : A -> A) p x : SpecFloat.iter_pos f p x = Nat.iter (Pos.to_nat p) f x.
Proof.
  revert x. induction p as [p IH|p IH|]; intros x; cbn [SpecFloat.iter_pos]; [| |done].
  - rewrite !IH, Pos2Nat.inj_xI. rewrite <- Nat.iter_add.
    rewrite <- Nat.iter_succ_r. f_equal. lia.
  - rewrite !IH, Pos2Nat.inj_xO. rewrite <- Nat.iter_add. f_equal. lia.
Qed.

Lemma iter_xO p d : Zpos (Pos.iter xO p d) = Zpos p * 2 ^ Zpos d.
Proof.
  revert p. induction d as [|d IH] using Pos.peano_ind; intros p; [simpl; lia|].
  rewrite Pos.iter_succ. change (Zpos (Pos.iter xO p d)~0) with (2 * Zpos (Pos.iter xO p d)).
  rewrite IH, Pos2Z.inj_succ, Z.pow_succ_r by lia. lia.
Qed.

(** Shifting out zeros keeps the number exact. *)
Lemma shr_exact m k e :
  0 < m -> 0 <= k ->
  shr (Build_shr_record (m * 2 ^ k) false false) (e - k) k = (Build_shr_record m false false, e).
Proof.
  intros Hm Hk. destruct k as [|p|p]; [| |lia]; simpl shr.
  { by rewrite Z.pow_0_r, Z.mul_1_r, Z.sub_0_r. }
  f_equal; [|lia]. rewrite iter_pos_nat. rewrite <- (positive_nat_Z p). generalize (Pos.to_nat p). clear p Hk.
  intros n. induction n as [|n IH]; [by rewrite Z.mul_1_r|].
  rewrite Nat.iter_succ_r. rewrite <- IH. f_equal. rewrite Nat2Z.inj_succ, Z.pow_succ_r by lia.
  destruct m as [|q|q]; [lia| |lia]. assert (0 < 2 ^ Z.of_nat n) by (apply Z.pow_pos_nonneg; lia).
  replace (Zpos q * (2 * 2 ^ Z.of_nat n)) with (2 * (Zpos q * 2 ^ Z.of_nat n)) by lia.
  destruct (Zpos q * 2 ^ Z.of_nat n) eqn:E; [lia|done|lia].
Qed.

(** A number with 53 bits is itself when its exponent is in range. *)
Lemma round_exact m k e :
  Z.log2 (Zpos m) = 52 -> 0 <= k -> -1074 <= e <= 971 ->
  binary_round_aux 53 1024 false (Zpos m * 2 ^ k) (e - k) loc_Exact = S754_finite false m e.
Proof.
  intros Hm Hk He. unfold binary_round_aux, shr_fexp, shr_record_of_loc.
  assert (Hpos : 0 < Zpos m * 2 ^ k) by (assert (0 < 2 ^ k) by (apply Z.pow_pos_nonneg; lia); lia).
  assert (Hd : Zdigits2 (Zpos m * 2 ^ k) = 53 + k).
  { destruct (Zpos m * 2 ^ k) as [|q|q] eqn:E; [lia| |lia]. cbn [Zdigits2]. rewrite digits2_log2, <- E.
    rewrite Z.log2_mul_pow2 by lia. lia. }
  rewrite Hd. unfold fexp at 1, emin. rewrite Z.max_l by lia.
  replace (53 + k + (e - k) - 53 - (e - k)) with k by lia. rewrite shr_exact by lia.
  cbn [shr_m loc_of_shr_record round_nearest_even Zdigits2]. rewrite digits2_log2, Hm.
  unfold fexp, emin. rewrite Z.max_l by lia. replace (52 + 1 + e - 53 - e) with 0 by lia.
  cbn [shr shr_m]. replace (e <=? 1024 - 53) with true by lia. done.
Qed.

(** The double of an integer below 2^53. *)
Definition f64_int (p : positive) : f64 :=
  S754_finite false (Z.to_pos (Zpos p * 2 ^ (52 - Z.log2 (Zpos p)))) (Z.log2 (Zpos p) - 52).

Context (p : positive) (Hp : Zpos p < 2 ^ 53).

Lemma f64_int_log2 : 0 <= Z.log2 (Zpos p) <= 52.
Proof using Hp.
  split; [apply Z.log2_nonneg|]. assert (Z.log2 (Zpos p) < 53); [|lia]. apply Z.log2_lt_pow2; lia.
Qed.

Lemma f64_int_mantissa :
  Zpos (Z.to_pos (Zpos p * 2 ^ (52 - Z.log2 (Zpos p)))) = Zpos p * 2 ^ (52 - Z.log2 (Zpos p)).
Proof using Hp.
  apply Z2Pos.id. assert (0 < 2 ^ (52 - Z.log2 (Zpos p))); [|lia].
  apply Z.pow_pos_nonneg; [lia|]. pose proof f64_int_log2. lia.
Qed.

Lemma f64_int_mantissa_log2 : Z.log2 (Zpos (Z.to_pos (Zpos p * 2 ^ (52 - Z.log2 (Zpos p))))) = 52.
Proof using Hp. rewrite f64_int_mantissa. pose proof f64_int_log2. rewrite Z.log2_mul_pow2; lia. Qed.

Lemma f64_of_decimal_int : f64_of_decimal (Npos p) 0 = f64_int p.
Proof using Hp.
  pose proof f64_int_log2 as Hl. unfold f64_of_decimal, f64_div, SFdiv, SFdiv_core_binary.
  change (Z.to_pos (10 ^ Z.of_nat 0)) with 1%positive. change (Zdigits2 1) with 1. cbn [Zdigits2].
  rewrite digits2_log2. unfold fexp, emin. rewrite Z.max_l, Z.min_l by lia.
  replace (0 - 0 - (Z.log2 (Zpos p) + 1 + 0 - (1 + 0) - 53)) with (53 - Z.log2 (Zpos p)) by lia.
  destruct (53 - Z.log2 (Zpos p)) as [|s|s] eqn:Es; [lia| |lia]. rewrite <- Es.
  rewrite Z.shiftl_mul_pow2 by lia.
  pose proof (Z.div_mod (Zpos p * 2 ^ (53 - Z.log2 (Zpos p))) 1) as Hdm.
  unfold Z.div, Z.modulo in Hdm. destruct (Z.div_eucl _ 1) as [q r] eqn:Edm.
  assert (Hr : r = 0).
  { change r with (snd (q, r)). rewrite <- Edm. apply (Z.mod_1_r (Zpos p * 2 ^ (53 - Z.log2 (Zpos p)))). }
  subst r. assert (Hq : q = Zpos p * 2 ^ (53 - Z.log2 (Zpos p))) by lia. subst q.
  change (new_location 1 0) with loc_Exact. cbn [xorb].
  unfold f64_int. rewrite <- (round_exact _ 1) by (rewrite ?f64_int_mantissa_log2; lia).
  rewrite f64_int_mantissa, <- Z.mul_assoc, <- Z.pow_add_r by lia. f_equal; [|lia]. f_equal. f_equal. lia.
Qed.

Lemma f64_mul_pow2 j :
  0 <= j <= 900 ->
  f64_mul (f64_int p) (f64_const 4503599627370496 (j - 52)) =
  match f64_int p with S754_finite s m e => S754_finite s m (e + j) | x => x end.
Proof using Hp.
  intros Hj. pose proof f64_int_log2 as Hl. unfold f64_mul, f64_int, f64_const. cbn [SFmul xorb].
  rewrite Pos2Z.inj_mul. change (Zpos 4503599627370496) with (2 ^ 52).
  replace (Z.log2 (Zpos p) - 52 + (j - 52)) with (Z.log2 (Zpos p) - 52 + j - 52) by lia.
  apply round_exact; [apply f64_int_mantissa_log2|lia|lia].
Qed.

Lemma f64_to_u64_int j :
  0 <= j ->
  f64_to_u64 (match f64_int p with S754_finite s m e => S754_finite s m (e + j) | x => x end) =
  N.min (Npos p * 2 ^ Z.to_N j) (U64 - 1).
Proof using Hp.
  intros Hj. pose proof f64_int_log2 as Hl. unfold f64_int. cbn [f64_to_u64]. f_equal.
  rewrite f64_int_mantissa. set (L := Z.log2 (Zpos p)) in *.
  assert (H : Z.shiftl (Zpos p * 2 ^ (52 - L)) (L - 52 + j) = Zpos p * 2 ^ j).
  { rewrite <- Z.shiftl_mul_pow2, Z.shiftl_shiftl by lia. rewrite Z.shiftl_mul_pow2 by lia. do 2 f_equal. lia. }
  rewrite H. rewrite Z2N.inj_mul, Z2N.inj_pow by (try apply Z.pow_nonneg; lia). done.
Qed.

(** [p * 2^k], whose exponent is above the one of [p] by [k]. *)
Definition f64_int_up (k : Z) : f64 :=
  match f64_int p with S754_finite s m e => S754_finite s m (e + k) | x => x end.

Lemma f64_of_u64_int k :
  0 <= k <= 900 -> f64_of_u64 (Npos p * 2 ^ Z.to_N k) = f64_int_up k.
Proof using Hp.
  intros Hk. pose proof f64_int_log2 as Hl. unfold f64_of_u64.
  assert (E : exists q, Z.of_N (Npos p * 2 ^ Z.to_N k) = Zpos q /\ Zpos q = Zpos p * 2 ^ k).
  { exists (Z.to_pos (Zpos p * 2 ^ k)). assert (0 < 2 ^ k) by (apply Z.pow_pos_nonneg; lia).
    rewrite Z2Pos.id by lia. rewrite N2Z.inj_mul, N2Z.inj_pow, Z2N.id by lia. done. }
  destruct E as (q & -> & Hq). cbn [binary_normalize]. unfold binary_round, shl_align.
  assert (Hlog : Z.log2 (Zpos q) = Z.log2 (Zpos p) + k) by (rewrite Hq; rewrite Z.log2_mul_pow2; lia).
  rewrite digits2_log2, Hlog. unfold fexp, emin. rewrite Z.max_l by lia.
  set (L := Z.log2 (Zpos p)) in *. unfold f64_int_up, f64_int. fold L.
  assert (Hup : forall d e, 0 <= d -> Zpos q * 2 ^ d = Zpos (Z.to_pos (Zpos p * 2 ^ (52 - L))) * 2 ^ (L + k - 52 + d) ->
    0 <= L + k - 52 + d -> e = - d -> binary_round_aux 53 1024 false (Zpos q * 2 ^ d) e loc_Exact =
    S754_finite false (Z.to_pos (Zpos p * 2 ^ (52 - L))) (L - 52 + k)).
  { intros d e Hd -> Hn ->. rewrite <- (round_exact _ (L + k - 52 + d)) by first [exact f64_int_mantissa_log2|lia].
    f_equal; lia. }
  assert (Hm : forall d, 0 <= d -> 0 <= L + k - 52 + d ->
    Zpos q * 2 ^ d = Zpos (Z.to_pos (Zpos p * 2 ^ (52 - L))) * 2 ^ (L + k - 52 + d)).
  { intros d Hd Hn. subst L. rewrite f64_int_mantissa, Hq, <- !Z.mul_assoc, <- !Z.pow_add_r by lia.
    do 2 f_equal. lia. }
  assert (Hup0 : 0 <= L + k - 52 -> binary_round_aux 53 1024 false (Zpos q) 0 loc_Exact =
    S754_finite false (Z.to_pos (Zpos p * 2 ^ (52 - L))) (L - 52 + k)).
  { intros Hn. rewrite <- (Hup 0 0) by (try apply Hm; lia). by rewrite Z.pow_0_r, Z.mul_1_r. }
  destruct (L + k + 1 + 0 - 53 - 0) as [|d|d] eqn:Ed; [apply Hup0; lia..|].
  cbv beta iota. rewrite iter_xO. apply Hup; [lia|apply Hm; lia|lia|lia].
Qed.

Lemma f64_div_1024 k : -900 <= k <= 900 -> f64_div (f64_int_up k) f64_1024 = f64_int_up (k - 10).
Proof using Hp.
  intros Hk. pose proof f64_int_log2 as Hl. unfold f64_div, f64_int_up, f64_int, f64_1024, f64_const.
  set (m := Z.to_pos _). assert (Hm : Z.log2 (Zpos m) = 52) by apply f64_int_mantissa_log2.
  unfold SFdiv, SFdiv_core_binary. cbn [Zdigits2]. rewrite digits2_log2, Hm.
  change (Zpos (digits2_pos 4503599627370496)) with 53. set (e := Z.log2 (Zpos p) - 52 + k).
  unfold fexp, emin. rewrite Z.max_l, Z.min_l by lia. replace (e - -42 - (52 + 1 + e - (53 + -42) - 53)) with 53 by lia.
  cbv iota. rewrite Z.shiftl_mul_pow2 by lia.
  pose proof (Z.div_eucl_eq (Zpos m * 2 ^ 53) 4503599627370496 ltac:(lia)) as Hdm.
  pose proof (Z.mod_pos_bound (Zpos m * 2 ^ 53) 4503599627370496 ltac:(lia)) as Hr. unfold Z.modulo in Hr.
  destruct (Z.div_eucl _ _) as [q r]. assert (q = Zpos m * 2 ^ 1) as -> by lia. assert (r = 0) as -> by lia.
  change (new_location 4503599627370496 0) with loc_Exact. cbn [xorb].
  rewrite <- (round_exact m 1 (Z.log2 (Zpos p) - 52 + (k - 10))) by lia. f_equal. lia.
Qed.

Lemma f64_leb_1024 k : SFleb f64_1024 (f64_int_up k) = (10 <=? Z.log2 (Zpos p) + k).
Proof using Hp.
  pose proof f64_int_log2 as Hl. unfold f64_int_up, f64_int, f64_1024, f64_const, SFleb. cbn [SFcompare].
  set (m := Z.to_pos _). assert (Hm : Z.log2 (Zpos m) = 52) by apply f64_int_mantissa_log2.
  pose proof (Z.log2_spec (Zpos m) ltac:(lia)) as [Hlo _]. rewrite Hm in Hlo. clearbody m.
  assert (Hc : (4503599627370496 ?= m)%positive <> Gt) by (change (4503599627370496 <= m)%positive; lia).
  destruct (Z.compare_spec (-42) (Z.log2 (Zpos p) - 52 + k)).
  - fold (Pos.compare 4503599627370496 m). revert Hc. generalize (4503599627370496 ?= m)%positive.
    intros [] Hc; [lia|lia|done].
  - lia.
  - lia.
Qed.
End binary64.

(** ** Reading a size *)
Definition number_char (c : ascii) : bool := is_digit c || (N_of_ascii c =? 46)%N.
Definition unit_char (c : ascii) : bool := negb (number_char c) && negb (is_whitespace (N_of_ascii c)).

(** The power of 1024 that a unit stands for. *)
Definition unit_power (unit_str : bytes) : option N :=
  snd <$> List.find (fun '(u, _) => bool_decide (to_ascii_uppercase unit_str = u))
    [([], 0%N); ($"B", 0%N); ($"KB", 1%N); ($"MB", 2%N); ($"GB", 3%N); ($"TB", 4%N)].

Lemma size_multiplier_power u j :
  unit_power u = Some j ->
  (j <= 4)%N /\ size_multiplier u = Some (f64_const 4503599627370496 (10 * Z.of_N j - 52)).
Proof.
  unfold unit_power, size_multiplier. cbn [List.find].
  generalize (to_ascii_uppercase u). clear u. intros u.
  repeat (case_bool_decide; [subst u; intros [= <-]; split; [by vm_compute|by vm_compute]|]). done.
Qed.

Lemma scan_size_ascii s n u :
  ascii_text s ->
  scan_size ((fun c => (N_of_ascii c, [c])) <$> s) n u =
  (n ++ List.filter number_char s, u ++ List.filter unit_char s).
Proof.
  revert n u. induction s as [|c s IH]; intros n u Hs; [by rewrite !app_nil_r|].
  assert (Hs' : ascii_text s) by (intros x Hx; apply Hs; by right).
  cbn [fmap list_fmap scan_size List.filter]. fold (is_whitespace (N_of_ascii c)).
  change ((48 <=? N_of_ascii c) && (N_of_ascii c <=? 57) || (N_of_ascii c =? 46))%N with (number_char c).
  assert (Hc : unit_char c = negb (number_char c) && negb (is_whitespace (N_of_ascii c))) by done.
  rewrite Hc, IH by done. destruct (number_char c); cbn [negb andb]; [by rewrite <- app_assoc|].
  destruct (is_whitespace _); cbn [negb]; rewrite IH by done; [done|by rewrite <- app_assoc].
Qed.

(** Trimming first makes no difference to the scan. *)
Lemma number_not_space c : is_whitespace (N_of_ascii c) = true -> number_char c = false /\ unit_char c = false.
Proof.
  assert (H : forallb (fun c => implb (is_whitespace (N_of_ascii c)) (negb (number_char c) && negb (unit_char c)))
    (ascii_of_N <$> (N.of_nat <$> seq 0 256)) = true) by (vm_compute; reflexivity).
  rewrite forallb_forall in H. intros Hc. specialize (H c). rewrite Hc in H. cbn [implb] in H.
  rewrite andb_true_iff, !negb_true_iff in H. apply H. apply list_elem_of_In, list_elem_of_fmap.
  exists (N_of_ascii c). split; [by rewrite ascii_N_embedding|]. apply list_elem_of_fmap.
  exists (N.to_nat (N_of_ascii c)). split; [by rewrite N2Nat.id|]. apply elem_of_seq.
  pose proof (N_ascii_bounded c). lia.
Qed.

Lemma skip_ws_ascii s : exists t,
  skip_ws ((fun c => (N_of_ascii c, [c])) <$> s) = (fun c => (N_of_ascii c, [c])) <$> t /\
  (ascii_text s -> ascii_text t) /\
  List.filter number_char t = List.filter number_char s /\ List.filter unit_char t = List.filter unit_char s.
Proof.
  induction s as [|c s (t & IH & Ha & Hn & Hu)]; [by exists []|].
  cbn [fmap list_fmap skip_ws]. destruct (is_whitespace (N_of_ascii c)) eqn:E; [|by exists (c :: s)].
  exists t. destruct (number_not_space c E) as [Ec Eu]. cbn [List.filter]. rewrite Ec, Eu.
  split_and!; [done| |done|done]. intros H. apply Ha. intros x Hx. apply H. by right.
Qed.

Lemma trim_ascii s :
  ascii_text s -> ascii_text (trim s) /\
    List.filter number_char (trim s) = List.filter number_char s /\
    List.filter unit_char (trim s) = List.filter unit_char s.
Proof.
  intros Hs. unfold trim. rewrite ascii_chars by done.
  pose proof skip_ws_ascii as Hskip. set (f := fun c => (N_of_ascii c, [c])) in *.
  assert (Hr : forall l, rev (f <$> l) = f <$> rev l) by (intros l; symmetry; apply (map_rev f)).
  destruct (Hskip s) as (t & -> & Ha & Hn & Hu). rewrite Hr.
  destruct (Hskip (rev t)) as (t' & -> & Ha' & Hn' & Hu'). rewrite Hr. unfold f.
  rewrite concat_singletons, !List.filter_rev, Hn', Hu', !List.filter_rev, !rev_involutive, Hn, Hu.
  split_and!; [|done|done]. intros c Hc. apply Ha'.
  - intros x Hx. apply (Ha Hs). rewrite list_elem_of_In in *. by apply in_rev.
  - rewrite list_elem_of_In in *. by apply in_rev.
Qed.

(** The text is read as its digits and dots, and as the other characters that
    are not white space. *)
Lemma size_from_str_ascii s :
  ascii_text s ->
  size_from_str s =
  match f64_from_str (List.filter number_char s) with
  | Err e => Err (InvalidNumber e)
  | Ok num =>
      match size_multiplier (List.filter unit_char s) with
      | None => Err (InvalidUnit (List.filter unit_char s))
      | Some multiplier => Ok (f64_to_u64 (f64_mul num multiplier))
      end
  end.
Proof.
  intros Hs. destruct (trim_ascii s Hs) as (Ha & Hn & Hu). unfold size_from_str.
  rewrite (ascii_chars _ Ha). cbn [from_option id].
  by rewrite (scan_size_ascii _ [] [] Ha), Hn, Hu.
Qed.

(** ** Integers *)
Lemma digits_value_step b a n :
  foldl digit_step (Some a) b = Some n -> foldl (fun n c => n * 10 + digit_value c)%N a b = n.
Proof.
  revert a. induction b as [|c b IH]; intros a; [by intros [= ->]|]. cbn [foldl]. unfold digit_step at 2.
  cbn [mbind option_bind]. destruct (byte_in 48 57 c).
  - destruct (_ <? U64)%N; [apply IH|]. intros H. exfalso. revert H. clear. induction b as [|d b IH]; done.
  - intros H. exfalso. revert H. clear. induction b as [|d b IH]; done.
Qed.

Lemma f64_from_str_dec n : (n < U64)%N -> f64_from_str (dec n) = Ok (f64_of_decimal n 0).
Proof.
  intros Hn. unfold f64_from_str, dec. fold (dec n).
  destruct (dec_loop_nonempty (S (N.to_nat (N.log2 n))) n [] ltac:(lia)) as (c & t & Hd & _). fold (dec n) in Hd.
  assert (split_once "."%char (dec n) = None) as ->.
  { apply split_once_none. intros H%dec_digits. by vm_compute in H. }
  cbn [from_option id]. rewrite app_nil_r, !decide_False by (by rewrite Hd).
  assert (forallb is_digit (dec n) = true) as ->.
  { apply forallb_forall. intros x Hx%list_elem_of_In. by apply (dec_digits n). }
  do 2 f_equal. apply digits_value_step, (dec_loop_read _ n []); [done|lia].
Qed.

Lemma size_read_integer s n j :
  ascii_text s -> List.filter number_char s = dec n -> (n < 2 ^ 53)%N ->
  unit_power (List.filter unit_char s) = Some j ->
  size_from_str s = Ok (N.min (n * 1024 ^ j) (U64 - 1)).
Proof.
  intros Hs Hd Hn Hj. destruct (size_multiplier_power _ _ Hj) as [Hj4 Hm].
  rewrite size_from_str_ascii, Hd, Hm by done. rewrite f64_from_str_dec by (unfold U64; lia). f_equal.
  destruct n as [|p]; [done|]. rewrite f64_of_decimal_int by lia. rewrite f64_mul_pow2 by lia.
  rewrite f64_to_u64_int by lia. f_equal. f_equal.
  change 1024%N with (2 ^ 10)%N. rewrite <- N.pow_mul_r. f_equal. lia.
Qed.

(** C29: a text whose digits spell an integer below 2^53 and whose other visible
    characters, in either case, spell a unit is read exactly, whatever white
    space there is and in whatever order they come; only a product beyond 64
    bits saturates. *)
Theorem size_from_str_integer s n j :
  ascii_text s -> List.filter number_char s = dec n -> (n < 2 ^ 53)%N ->
  unit_power (List.filter unit_char s) = Some j ->
  size_from_str s = Ok (N.min (n * 1024 ^ j) (U64 - 1)).
Proof. apply size_read_integer. Qed.

(** ** The printed form *)
Lemma size_loop_unit unit units x : (size_loop unit units x).2 ∈ unit :: units.
Proof.
  revert unit x. induction units as [|u us IH]; intros unit x; cbn [size_loop]; [by left|].
  destruct (SFleb _ _); [|by left]. right. apply IH.
Qed.

Lemma size_fmt_shape n : exists a b c u,
  size_fmt n = dec a ++ "."%char :: dec_digit b :: dec_digit c :: " "%char :: u /\
  (b < 10)%N /\ (c < 10)%N /\ u ∈ size_units.
Proof.
  unfold size_fmt, size_units. pose proof (size_loop_unit $"B" [$"KB"; $"MB"; $"GB"; $"TB"] (f64_of_u64 n)) as Hu.
  destruct (size_loop _ _ _) as [x u]. unfold fmt_2. rewrite <- app_assoc.
  exists (hundredths x / 100)%N, (hundredths x / 10 mod 10)%N, (hundredths x mod 10)%N, u.
  split_and!; [done|by apply N.mod_lt|by apply N.mod_lt|exact Hu].
Qed.

Lemma digit_ascii c : byte_in 48 57 c = true -> (N_of_ascii c < 128)%N /\ number_char c = true /\ unit_char c = false.
Proof.
  unfold unit_char, number_char, is_digit. intros H. rewrite H. split_and!; [|done|done].
  revert H. unfold byte_in. rewrite andb_true_iff, !N.leb_le. lia.
Qed.

Lemma filter_digits b :
  forallb (byte_in 48 57) b = true -> List.filter number_char b = b /\ List.filter unit_char b = [].
Proof.
  induction b as [|c b IH]; [done|]. cbn [forallb List.filter]. rewrite andb_true_iff. intros [Hc Hb].
  destruct (digit_ascii c Hc) as (_ & -> & ->). by destruct (IH Hb) as [-> ->].
Qed.

Lemma dec_all_digits n : forallb (byte_in 48 57) (dec n) = true.
Proof. apply forallb_forall. intros x Hx%list_elem_of_In. by apply (dec_digits n). Qed.

Lemma size_read_dec n : (n < 2 ^ 53)%N -> size_from_str (dec n) = Ok n.
Proof.
  intros Hn. destruct (filter_digits _ (dec_all_digits n)) as [H1 H2].
  rewrite (size_read_integer (dec n) n 0); [|..|done|by rewrite H2].
  - f_equal. unfold U64. lia.
  - intros x Hx%dec_digits. by apply digit_ascii.
  - exact H1.
Qed.

(** A text of the printed shape is read as its digits, scaled by its unit. *)
Lemma size_text_read a b c u mult :
  (b < 10)%N -> (c < 10)%N -> u ∈ size_units -> size_multiplier u = Some mult ->
  size_from_str (dec a ++ "."%char :: dec_digit b :: dec_digit c :: " "%char :: u) =
  Ok (f64_to_u64 (f64_mul (f64_of_decimal (digits_value (dec a ++ [dec_digit b; dec_digit c])) 2) mult)).
Proof.
  intros Hb Hc Hu Hm. set (t := [dec_digit b; dec_digit c]).
  assert (Ht : forallb (byte_in 48 57) t = true) by (cbn [t forallb]; by rewrite !dec_digit_in).
  change ("."%char :: dec_digit b :: dec_digit c :: " "%char :: u) with (["."%char] ++ t ++ [" "%char] ++ u).
  destruct (filter_digits _ (dec_all_digits a)) as [Ha1 Ha2]. destruct (filter_digits _ Ht) as [Ht1 Ht2].
  assert (Hf : List.filter number_char u = [] /\ List.filter unit_char u = u /\ ascii_text u).
  { unfold size_units in Hu.
    repeat (apply elem_of_cons in Hu as [->|Hu]; [split_and!; [done|done|by apply ascii_text_const]|]).
    by apply elem_of_nil in Hu. }
  destruct Hf as (Hf1 & Hf2 & Hf3).
  rewrite size_from_str_ascii.
  - rewrite !List.filter_app, Ha1, Ha2, Ht1, Ht2, Hf1, Hf2.
    change (List.filter number_char [" "%char] ++ []) with (@nil ascii). rewrite app_nil_r.
    change (List.filter number_char ["."%char]) with ["."%char].
change ([] ++ List.filter unit_char ["."%char] ++ [] ++ List.filter unit_char [" "%char] ++ u) with u.
    rewrite Hm. unfold f64_from_str. cbn [app].
    rewrite split_once_app by (intros H%dec_digits; by vm_compute in H). cbn [from_option id].
    rewrite !decide_False by (by destruct (dec a)).
    rewrite forallb_app. change (forallb is_digit) with (forallb (byte_in 48 57)).
    by rewrite dec_all_digits, Ht.
  - assert (Hd : forall l, forallb (byte_in 48 57) l = true -> ascii_text l).
    { intros l Hl x Hx%list_elem_of_In. rewrite forallb_forall in Hl. by apply digit_ascii, Hl. }
    repeat apply ascii_text_app; [apply Hd, dec_all_digits|by apply ascii_text_const|by apply Hd|
      by apply ascii_text_const|exact Hf3].
Qed.

Lemma size_fmt_parses n : exists m, size_from_str (size_fmt n) = Ok m.
Proof.
  destruct (size_fmt_shape n) as (a & b & c & u & -> & Hb & Hc & Hu).
  assert (exists j, unit_power u = Some j) as [j Hj].
  { unfold size_units in Hu. repeat (apply elem_of_cons in Hu as [->|Hu]; [by eexists|]). by apply elem_of_nil in Hu. }
  destruct (size_multiplier_power _ _ Hj) as [_ Hm]. eexists. by apply size_text_read.
Qed.

(** Dividing a whole number of its unit leaves exactly that number. *)
Lemma size_loop_int p j unit units :
  (Zpos p < 1024)%Z -> j <= length units -> length units <= 4 ->
  size_loop unit units (f64_int_up p (10 * Z.of_nat j)) = (f64_int_up p 0, default [] ((unit :: units) !! j)).
Proof.
  intros Hp Hj Hlen. assert (Hl : (0 <= Z.log2 (Zpos p) < 10)%Z).
  { split; [apply Z.log2_nonneg|]. apply Z.log2_lt_pow2; lia. }
  revert unit j Hj Hlen. induction units as [|u units IH]; intros unit j Hj Hlen; simpl in Hj, Hlen.
  { destruct j; [done|lia]. }
  cbn [size_loop]. rewrite f64_leb_1024 by lia. destruct j as [|j].
  - destruct (Z.leb_spec 10 (Z.log2 (Zpos p) + 10 * Z.of_nat 0)); [lia|done].
  - destruct (Z.leb_spec 10 (Z.log2 (Zpos p) + 10 * Z.of_nat (S j))); [|lia].
    rewrite f64_div_1024 by lia. replace (10 * Z.of_nat (S j) - 10)%Z with (10 * Z.of_nat j)%Z by lia.
    apply IH; lia.
Qed.

(** The numbers below 1024, one by one: printed, and read again. *)
Definition prints_exactly (k : positive) : bool :=
  bool_decide (fmt_2 (f64_int_up k 0) = dec (Npos k) ++ $".00") &&
  match f64_of_decimal (Npos k * 100) 2, f64_int k with
  | S754_finite false m e, S754_finite _ m' e' => (m =? m')%positive && (e =? e')%Z
  | _, _ => false
  end.

Lemma small_numbers_print : forallb (fun k => prints_exactly (Pos.of_nat k)) (seq 1 1023) = true.
Proof. vm_compute. reflexivity. Qed.

Lemma prints_exactly_spec k :
  (Npos k < 1024)%N ->
  fmt_2 (f64_int_up k 0) = dec (Npos k) ++ $".00" /\ f64_of_decimal (Npos k * 100) 2 = f64_int k.
Proof.
  intros Hk. pose proof small_numbers_print as H. rewrite forallb_forall in H.
  specialize (H (Pos.to_nat k) ltac:(apply in_seq; lia)). rewrite Pos2Nat.id in H.
  unfold prints_exactly in H. rewrite andb_true_iff, bool_decide_eq_true in H. destruct H as [Hf H].
  split; [exact Hf|]. revert H. unfold f64_int.
  destruct (f64_of_decimal (Npos k * 100) 2) as [| | |[] m e]; try discriminate.
  by intros [->%Pos.eqb_eq ->%Z.eqb_eq]%andb_true_iff.
Qed.

(** Every printed size is a text the configuration accepts, and a size
    that is a whole number of its unit, below 1024 of them, is read back
    exactly. *)
Lemma size_fmt_from_str n :
  (exists m, size_from_str (size_fmt n) = Ok m) /\
  forall k j, (k < 1024)%N -> j <= 4 -> n = (k * 1024 ^ N.of_nat j)%N -> size_from_str (size_fmt n) = Ok n.
Proof.
  split; [apply size_fmt_parses|]. intros k j Hk Hj ->. destruct k as [|p]; [by vm_compute|].
  assert (Hn : (Npos p * 1024 ^ N.of_nat j = Npos p * 2 ^ Z.to_N (10 * Z.of_nat j))%N).
  { f_equal. change 1024%N with (2 ^ 10)%N. rewrite <- N.pow_mul_r. f_equal. lia. }
  unfold size_fmt, size_units. rewrite Hn, f64_of_u64_int, size_loop_int by (simpl; lia).
  destruct (prints_exactly_spec p Hk) as [-> Hd]. rewrite <- app_assoc.
  set (u := default [] _). assert (Hu : u ∈ size_units).
  { subst u. do 5 (destruct j as [|j]; [by_decide|]). lia. }
  assert (Hj' : unit_power u = Some (N.of_nat j)).
  { subst u. do 5 (destruct j as [|j]; [by vm_compute|]). lia. }
  destruct (size_multiplier_power _ _ Hj') as [_ Hm].
  change ($".00" ++ $" " ++ u) with ("."%char :: dec_digit 0 :: dec_digit 0 :: " "%char :: u).
  rewrite (size_text_read (Npos p) 0 0 u _ eq_refl eq_refl Hu Hm). f_equal.
  assert (digits_value (dec (Npos p) ++ [dec_digit 0; dec_digit 0]) = Npos p * 100)%N as ->.
  { unfold digits_value. rewrite foldl_app.
    rewrite (digits_value_step _ 0 (Npos p)) by (apply (dec_loop_read _ _ []); [unfold U64|]; lia).
    cbn [foldl]. change (digit_value (dec_digit 0)) with 0%N. lia. }
  rewrite Hd, f64_mul_pow2 by lia. rewrite f64_to_u64_int by lia.
  rewrite <- Hn. replace (Z.to_N (10 * Z.of_N (N.of_nat j))) with (Z.to_N (10 * Z.of_nat j)) by lia. rewrite <- Hn.
  apply N.min_l. 
  assert (1024 ^ N.of_nat j <= 1024 ^ 4)%N by (apply N.pow_le_mono_r; lia). unfold U64. nia.
Qed.

(** ** Settings *)
Example digits_between_letters : size_from_str $"1G6B" = size_from_str $"16GB".
Proof. vm_compute. reflexivity. Qed.

Lemma size_from_str_integer_witness :
  size_from_str $" 16 Gb " = Ok 17179869184%N /\ size_from_str $"9007199254740991TB" = Ok (U64 - 1)%N.
Proof.
  split.
  - apply (size_from_str_integer $" 16 Gb " 16 3); [by apply ascii_text_const|by vm_compute|done|by vm_compute].
  - apply (size_from_str_integer $"9007199254740991TB" 9007199254740991 4);
      [by apply ascii_text_const|by vm_compute|done|by vm_compute].
Defined.

Lemma size_fmt_from_str_witness : size_from_str (size_fmt 524288) = Ok 524288%N.
Proof. exact (proj2 (size_fmt_from_str 524288) 512%N 1 eq_refl ltac:(lia) eq_refl). Defined.
