(* ===== verification/ConfigFile.v ===== *)
(** * Reading the configuration ([src/config.rs], [src/size.rs], [src/main.rs])

    What the derived [Deserialize] instances of the configuration make of a
    TOML document: required, optional and defaulted fields, rejection of
    unknown ones, and the types of the values. The TOML syntax itself is the
    [toml] crate's, a parameter. *)
From S2P Require Import Prelude Digest Env Config State Disk Text Size SizeProps.

(** The values of TOML; [TOther] are booleans, floats and dates. *)
#[warnings="-register-all"]
Inductive toml : Type :=
  | TString (b : bytes)
  | TInteger (n : Z)
  | TArray (l : list toml)
  | TTable (t : gmap bytes toml)
  | TOther.

(** The parser: the top-level table of a document. *)
Class Toml := { toml_parse : bytes -> option (gmap bytes toml) }.

(** ** Values *)
Definition de_string (v : toml) : option bytes := match v with TString b => Some b | _ => None end.
Definition de_u16 (v : toml) : option N :=
  match v with TInteger n => if ((0 <=? n) && (n <? 65536))%Z then Some (Z.to_N n) else None | _ => None end.
(** [impl Deserialize for Size]. *)
Definition de_size (v : toml) : option Size :=
  s ← de_string v; match size_from_str s with Ok n => Some n | Err _ => None end.
Definition de_vec {A} (f : toml -> option A) (v : toml) : option (list A) :=
  match v with TArray l => mapM f l | _ => None end.
Definition de_map {A} (f : toml -> option A) (v : toml) : option (gmap bytes A) :=
  match v with
  | TTable t => list_to_map <$> mapM (fun '(k, v) => pair k <$> f v) (map_to_list t)
  | _ => None
  end.

(** ** Structs

    The fields of a struct with [deny_unknown_fields]; an array stands for the
    fields in their order, when it has one for each. *)
Definition known (names : list bytes) (t : gmap bytes toml) : bool :=
  forallb (fun kv => bool_decide (kv.1 ∈ names)) (map_to_list t).
Definition fields (names : list bytes) (v : toml) : option (gmap bytes toml) :=
  match v with
  | TTable t => if known names t then Some t else None
  | TArray l => if length names <=? length l then Some (list_to_map (zip names l)) else None
  | _ => None
  end.

Definition required {A} (f : toml -> option A) (name : bytes) (t : gmap bytes toml) : option A := t !! name ≫= f.
Definition or_default {A} (d : A) (f : toml -> option A) (name : bytes) (t : gmap bytes toml) : option A :=
  match t !! name with Some v => f v | None => Some d end.
(** An [Option] field: [None] when it is missing. *)
Definition optional {A} (f : toml -> option A) : bytes -> gmap bytes toml -> option (option A) :=
  or_default None (fun v => Some <$> f v).

Definition de_docker_user (v : toml) : option DockerUser :=
  t ← fields [$"username"; $"password"] v;
  username ← required de_string $"username" t;
  password ← required de_string $"password" t;
  Some (mkDockerUser username password).

Definition de_docker_registry (v : toml) : option DockerRegistry :=
  t ← fields [$"url"; $"username"; $"password"] v;
  url ← required de_string $"url" t;
  username ← optional de_string $"username" t;
  password ← optional de_string $"password" t;
  Some (mkDockerRegistry url username password).

Definition config_fields : list bytes :=
  [$"https_port"; $"http_port"; $"data_folder"; $"memory_limit"; $"small_memory_limit"; $"disk_limit";
   $"docker_user"; $"docker_registry"; $"redis_port"; $"redis_password"].

Definition de_config (doc : gmap bytes toml) : option Config :=
  t ← fields config_fields (TTable doc);
  https ← optional de_u16 $"https_port" t;
  http ← optional de_u16 $"http_port" t;
  folder ← or_default default_data_folder de_string $"data_folder" t;
  memory ← or_default default_memory_limit de_size $"memory_limit" t;
  small ← optional de_size $"small_memory_limit" t;
  disk ← or_default default_disk_limit de_size $"disk_limit" t;
  users ← or_default [] (de_vec de_docker_user) $"docker_user" t;
  registries ← or_default ∅ (de_map de_docker_registry) $"docker_registry" t;
  redis ← optional de_u16 $"redis_port" t;
  password ← optional de_string $"redis_password" t;
  Some (mkConfig https http folder memory small disk users registries redis password).

(** [main]: the file is read as a string and parsed. *)
Definition load_config {TOML : Toml} (io : Io) (path : bytes) (d : FileSystem) : option Config :=
  match fs_read io path d with
  | Ok text => if utf8_valid text then toml_parse text ≫= de_config else None
  | Err _ => None
  end.

(** ** The types of the settings *)
Definition port_ok (p : option N) : Prop := from_option (fun p => (p < 65536)%N) True p.

(** What the types [u16] and [u64] promise of a [Config]. *)
Record config_ok (c : Config) : Prop := {
  cok_https : port_ok (https_port c);
  cok_http : port_ok (http_port c);
  cok_redis : port_ok (redis_port c);
  cok_memory : (memory_limit c < U64)%N;
  cok_small : from_option (fun n => (n < U64)%N) True (small_memory_limit_opt c);
  cok_disk : (disk_limit c < U64)%N
}.

Lemma f64_to_u64_bound x : (f64_to_u64 x < U64)%N.
Proof. unfold f64_to_u64. destruct x as [|[]| |[]]; unfold U64; lia. Qed.

Lemma de_size_bound v n : de_size v = Some n -> (n < U64)%N.
Proof.
  unfold de_size. destruct (de_string v) as [s|]; [|done]. simpl. unfold size_from_str.
  destruct (scan_size _ _ _). destruct (f64_from_str _); [|done]. destruct (size_multiplier _); [|done].
  intros [= <-]. apply f64_to_u64_bound.
Qed.

Lemma de_u16_bound v n : de_u16 v = Some n -> (n < 65536)%N.
Proof. destruct v; try done. cbn. destruct (_ && _) eqn:E; [|done]. intros [= <-]. lia. Qed.

Lemma or_default_inv {A} (P : A -> Prop) d f name t x :
  or_default d f name t = Some x -> P d -> (forall v y, f v = Some y -> P y) -> P x.
Proof. unfold or_default. destruct (t !! name); [intros ? _ Hf; by eapply Hf|by intros [= <-]]. Qed.

Lemma optional_inv {A} (P : A -> Prop) f name t x :
  optional f name t = Some x -> (forall v y, f v = Some y -> P y) -> from_option P True x.
Proof.
  intros Hx Hf. apply (or_default_inv (from_option P True) _ _ _ _ _ Hx); [done|].
  intros v y. destruct (f v) eqn:E; [|done]. intros [= <-]. by eapply Hf.
Qed.

Lemma known_spec names t : known names t = true <-> forall k, is_Some (t !! k) -> k ∈ names.
Proof.
  unfold known. rewrite forallb_forall. split.
  - intros H k [v Hv]. specialize (H (k, v)). rewrite bool_decide_eq_true in H.
    apply H. by apply list_elem_of_In, elem_of_map_to_list.
  - intros H [k v] Hk%list_elem_of_In%elem_of_map_to_list. apply bool_decide_eq_true. apply H. by exists v.
Qed.

(** C40: a configuration that is loaded is within its types: ports are 16-bit,
    sizes 64-bit numbers, whatever the texts they were written as; and no field
    outside the ten was in the document. *)
Theorem load_config_typed {TOML : Toml} io path d c :
  load_config io path d = Some c ->
  config_ok c /\ exists text doc, fs_read io path d = Ok text /\ toml_parse text = Some doc /\
    forall k, is_Some (doc !! k) -> k ∈ config_fields.
Proof.
  unfold load_config. destruct (fs_read io path d) as [text|]; [|done]. destruct (utf8_valid text); [|done].
  destruct (toml_parse text) as [doc|] eqn:Et; [|done]. cbn [mbind option_bind]. unfold de_config, fields.
  destruct (known config_fields doc) eqn:Ek; [|done]. cbn [mbind option_bind].
  repeat (intros (? & ? & H)%bind_Some; revert H). intros [= <-]. split.
  - split; cbn.
    1-3: by eapply (optional_inv (fun n => (n < 65536)%N)); [eassumption|apply de_u16_bound].
    + by eapply (or_default_inv (fun n => (n < U64)%N)); [eassumption| |apply de_size_bound].
    + by eapply (optional_inv (fun n => (n < U64)%N)); [eassumption|apply de_size_bound].
    + by eapply (or_default_inv (fun n => (n < U64)%N)); [eassumption| |apply de_size_bound].
  - exists text, doc. split; [done|]. split; [done|]. by apply known_spec.
Qed.

(** ** Writing a configuration down *)
Definition write_opt {A} (w : A -> toml) (name : bytes) (o : option A) (t : gmap bytes toml) : gmap bytes toml :=
  match o with Some a => <[name := w a]> t | None => t end.

Definition write_number (n : N) : toml := TInteger (Z.of_N n).
Definition write_size (n : Size) : toml := TString (dec n).
Definition write_docker_user (u : DockerUser) : toml :=
  TTable (write_opt TString $"username" (Some (user_name u)) (write_opt TString $"password" (Some (user_password u)) ∅)).
Definition write_docker_registry (r : DockerRegistry) : toml :=
  TTable (write_opt TString $"url" (Some (reg_url r)) (write_opt TString $"username" (reg_username r)
    (write_opt TString $"password" (reg_password r) ∅))).

(** The document that says every setting, in bytes; [None] is left out. *)
Definition write_config (c : Config) : gmap bytes toml :=
  write_opt write_number $"https_port" (https_port c) (write_opt write_number $"http_port" (http_port c)
  (write_opt TString $"data_folder" (Some (data_folder c)) (write_opt write_size $"memory_limit" (Some (memory_limit c))
  (write_opt write_size $"small_memory_limit" (small_memory_limit_opt c)
  (write_opt write_size $"disk_limit" (Some (disk_limit c))
  (write_opt (fun us => TArray (write_docker_user <$> us)) $"docker_user" (Some (docker_user c))
  (write_opt (fun rs => TTable (write_docker_registry <$> rs)) $"docker_registry" (Some (docker_registry c))
  (write_opt write_number $"redis_port" (redis_port c)
  (write_opt TString $"redis_password" (redis_password c) ∅))))))))).

Lemma write_opt_ne {A} (w : A -> toml) name k o t : k <> name -> write_opt w name o t !! k = t !! k.
Proof. intros H. destruct o; [|done]. by apply lookup_insert_ne. Qed.
Lemma write_opt_eq {A} (w : A -> toml) name o t : t !! name = None -> write_opt w name o t !! name = w <$> o.
Proof. intros H. destruct o; [|done]. apply lookup_insert_eq. Qed.

Lemma write_opt_known {A} names (w : A -> toml) name o t :
  name ∈ names -> known names t = true -> known names (write_opt w name o t) = true.
Proof.
  rewrite !known_spec. intros Hn Ht k. destruct (decide (k = name)) as [->|Hk]; [done|].
  rewrite write_opt_ne by done. apply Ht.
Qed.

Lemma fields_table names t : known names t = true -> fields names (TTable t) = Some t.
Proof. intros H. cbn. by rewrite H. Qed.

(** What a field is read as. *)
Lemma required_written {A} f (w : A -> toml) name a t : t !! name = w <$> Some a -> f (w a) = Some a -> required f name t = Some a.
Proof. unfold required. by intros ->. Qed.
Lemma or_default_written {A} d f (w : A -> toml) name a t :
  t !! name = w <$> Some a -> f (w a) = Some a -> or_default d f name t = Some a.
Proof. unfold or_default. by intros ->. Qed.
Lemma optional_written {A} f (w : A -> toml) name o t :
  t !! name = w <$> o -> (forall a, o = Some a -> f (w a) = Some a) -> optional f name t = Some o.
Proof. unfold optional, or_default. intros ->. destruct o as [a|]; simpl; [|done]. by intros ->. Qed.

Local Ltac written :=
  repeat first [ rewrite write_opt_ne by by_decide | rewrite write_opt_eq | reflexivity ].
Local Ltac all_known := repeat (apply write_opt_known; [by_decide|]); done.

Lemma de_string_written b : de_string (TString b) = Some b.
Proof. done. Qed.
Lemma de_number_written n : (n < 65536)%N -> de_u16 (write_number n) = Some n.
Proof.
  intros Hn. unfold de_u16, write_number. rewrite (proj2 (andb_true_iff _ _)) by lia. by rewrite N2Z.id.
Qed.

Lemma de_docker_user_written u : de_docker_user (write_docker_user u) = Some u.
Proof.
  unfold de_docker_user, write_docker_user. rewrite fields_table by all_known. cbn [mbind option_bind].
  rewrite (required_written _ TString $"username" (user_name u)) by (first [done|written]). cbn [mbind option_bind].
  rewrite (required_written _ TString $"password" (user_password u)) by (first [done|written]). by destruct u.
Qed.

Lemma de_docker_registry_written r : de_docker_registry (write_docker_registry r) = Some r.
Proof.
  unfold de_docker_registry, write_docker_registry. rewrite fields_table by all_known.
  cbn [mbind option_bind].
  rewrite (required_written _ TString $"url" (reg_url r)) by (first [done|written]). cbn [mbind option_bind].
  rewrite (optional_written _ TString $"username" (reg_username r)) by (first [done|written]). cbn [mbind option_bind].
  rewrite (optional_written _ TString $"password" (reg_password r)) by (first [done|written]). by destruct r.
Qed.

Lemma de_vec_written {A} f (w : A -> toml) l : (forall a, f (w a) = Some a) -> de_vec f (TArray (w <$> l)) = Some l.
Proof. intros Hf. cbn. induction l as [|a l IH]; [done|]. cbn. rewrite Hf. cbn. by rewrite IH. Qed.

Lemma de_map_written {A} f (w : A -> toml) m : (forall a, f (w a) = Some a) -> de_map f (TTable (w <$> m)) = Some m.
Proof.
  intros Hf. cbn. rewrite map_to_list_fmap. rewrite <- (list_to_map_to_list m) at 2.
  generalize (map_to_list m). intros l. assert (H : mapM (fun '(k, v) => pair k <$> f v) (prod_map id w <$> l) = Some l).
  { induction l as [|[k a] l IH]; [done|]. cbn. rewrite Hf. cbn. by rewrite IH. }
  by rewrite H.
Qed.

Lemma de_size_written n : (n < 2 ^ 53)%N -> de_size (write_size n) = Some n.
Proof. intros Hn. unfold de_size, write_size. cbn [de_string mbind option_bind]. by rewrite size_read_dec. Qed.

(** Ports and sizes that the document can say: [f64] is exact below [2 ^ 53]. *)
Record printable (c : Config) : Prop := {
  pr_ports p : p ∈ [https_port c; http_port c; redis_port c] -> port_ok p;
  pr_memory : (memory_limit c < 2 ^ 53)%N;
  pr_small n : small_memory_limit_opt c = Some n -> (n < 2 ^ 53)%N;
  pr_disk : (disk_limit c < 2 ^ 53)%N
}.

Lemma optional_port name p t :
  t !! name = write_number <$> p -> port_ok p -> optional de_u16 name t = Some p.
Proof. intros Ht Hp. apply (optional_written _ write_number); [done|]. intros n ->. by apply de_number_written. Qed.

Local Ltac setting lem :=
  rewrite lem by (first
    [ eauto using de_string_written, de_size_written, de_vec_written, de_docker_user_written,
        de_map_written, de_docker_registry_written; fail
    | written ]);
  cbn [mbind option_bind].

(** C39: every setting is read from the field of its name: a document that says
    a configuration is read back as that configuration, an option it leaves
    out as [None]. *)
Theorem config_roundtrip {TOML : Toml} io path d text c :
  fs_read io path d = Ok text -> utf8_valid text = true -> toml_parse text = Some (write_config c) ->
  printable c -> load_config io path d = Some c.
Proof.
  intros Hio Htext Hparse [Hp Hm Hs Hd]. unfold load_config. rewrite Hio, Htext, Hparse. cbn [mbind option_bind].
  assert (Hp1 : port_ok (https_port c)) by (apply Hp; set_solver).
  assert (Hp2 : port_ok (http_port c)) by (apply Hp; set_solver).
  assert (Hp3 : port_ok (redis_port c)) by (apply Hp; set_solver).
  unfold de_config, write_config. rewrite fields_table by all_known. cbn [mbind option_bind].
  setting (optional_port $"https_port" (https_port c)).
  setting (optional_port $"http_port" (http_port c)).
  setting (or_default_written default_data_folder de_string TString $"data_folder" (data_folder c)).
  setting (or_default_written default_memory_limit de_size write_size $"memory_limit" (memory_limit c)).
  setting (optional_written de_size write_size $"small_memory_limit" (small_memory_limit_opt c)).
  setting (or_default_written default_disk_limit de_size write_size $"disk_limit" (disk_limit c)).
  setting (or_default_written [] (de_vec de_docker_user) (fun us => TArray (write_docker_user <$> us))
    $"docker_user" (docker_user c)).
  setting (or_default_written ∅ (de_map de_docker_registry) (fun rs => TTable (write_docker_registry <$> rs))
    $"docker_registry" (docker_registry c)).
  setting (optional_port $"redis_port" (redis_port c)).
  setting (optional_written de_string TString $"redis_password" (redis_password c)).
  by destruct c.
Qed.
