(* ===== verification/Redis.v ===== *)
(** * The Redis-protocol server ([src/redis.rs])

    A connection is the bytes the peer still sends, the bytes written to it and
    the [authed] flag. [read_command] parses one command, [execute] runs it
    against the shared state, [conn_step] is one round of the loop of
    [handle_conn], which is the unit at which connections interleave. Only end
    of file is modelled of the failures of a socket. *)
From S2P Require Import Prelude Digest Env Config State Text.

(** How a connection ends other than by [Ok]: the two error kinds the parser
    makes, and the panic of an allocation beyond [isize::MAX] bytes. *)
Inductive conn_error : Type :=
  | UnexpectedEof
  | InvalidData
  | CapacityOverflow.

#[export] Instance conn_error_eq_dec : EqDecision conn_error.
Proof. solve_decision. Defined.

(** [size_of::<bytes::Bytes>()], which bounds [Vec::<Bytes>::with_capacity]. *)
Class BytesLayout := { size_of_Bytes : N; size_of_Bytes_pos : (0 < size_of_Bytes)%N }.

Definition CR : ascii := "013"%char.
Definition LF : ascii := "010"%char.
Definition CRLF : bytes := [CR; LF].

(** ** Reading *)

(** [read_until(b'\n')]: up to the first line feed, included, or everything. *)
Fixpoint read_until_lf (inp : bytes) : bytes * bytes :=
  match inp with
  | [] => ([], [])
  | c :: inp' =>
      if decide (c = LF) then ([c], inp')
      else let '(l, rest) := read_until_lf inp' in (c :: l, rest)
  end.

(** [None]: clean end of file. *)
Definition read_header_line (inp : bytes) : result conn_error (option bytes * bytes) :=
  let '(buf, rest) := read_until_lf inp in
  if decide (buf = []) then Ok (None, rest)
  else if negb (bool_decide (last buf = Some LF)) then Err UnexpectedEof
  else if (length buf <? 2)%nat || negb (bool_decide (buf !! (length buf - 2) = Some CR))
  then Err InvalidData
  else Ok (Some (take (length buf - 2) buf), rest).

Definition parse_len (b : bytes) : result conn_error N :=
  if utf8_valid b then ok_or (parse_usize b) InvalidData else Err InvalidData.

Definition read_exact (n : nat) (inp : bytes) : result conn_error (bytes * bytes) :=
  if (n <=? length inp)%nat then Ok (take n inp, drop n inp) else Err UnexpectedEof.

(** [vec![0u8; len]] followed by [read_exact]; the length is compared before it
    becomes a [nat]. *)
Definition read_bulk (len : N) (inp : bytes) : result conn_error (bytes * bytes) :=
  if (Z.to_N (I63 - 1) <? len)%N then Err CapacityOverflow
  else if (blen inp <? len)%N then Err UnexpectedEof
  else read_exact (N.to_nat len) inp.

(** One element of the array: a header, the bytes, the final CRLF. *)
Definition read_arg (inp : bytes) : result conn_error (bytes * bytes) :=
  '(o, inp1) ← read_header_line inp;
  match o with
  | None => Err UnexpectedEof
  | Some h =>
      if negb (bool_decide (head h = Some "$"%char)) then Err InvalidData
      else
        len ← parse_len (tail h);
        '(buf, inp2) ← read_bulk len inp1;
        '(crlf, inp3) ← read_exact 2 inp2;
        if decide (crlf = CRLF) then Ok (buf, inp3) else Err InvalidData
  end.

(** The loop [for _ in 0..n]. Every element takes bytes from the input, so the
    length of the input is fuel enough ([None]: out of fuel). *)
Fixpoint read_args (fuel : nat) (n : N) (inp : bytes) (args : list bytes)
  : option (result conn_error (list bytes * bytes)) :=
  if (n =? 0)%N then Some (Ok (args, inp))
  else
    match fuel with
    | O => None
    | S fuel =>
        match read_arg inp with
        | Err e => Some (Err e)
        | Ok (buf, inp') => read_args fuel (n - 1) inp' (args ++ [buf])
        end
    end.

Section redis.
Context {SHA : Sha256} {CT : ConstantTimeEq} {ITER : MapIter} {LAYOUT : BytesLayout}.

Definition read_command (inp : bytes)
  : option (result conn_error (option (list bytes) * bytes)) :=
  match read_header_line inp with
  | Err e => Some (Err e)
  | Ok (None, rest) => Some (Ok (None, rest))
  | Ok (Some line, rest) =>
      match line with
      | [] => Some (Ok (Some [], rest))
      | c :: payload =>
          if negb (bool_decide (c = "*"%char)) then
            match str_chars line with
            | None => Some (Err InvalidData)
            | Some chars => Some (Ok (Some (split_whitespace chars), rest))
            end
          else
            match parse_len payload with
            | Err e => Some (Err e)
            | Ok n =>
                if (Z.to_N (I63 - 1) <? n * size_of_Bytes)%N then Some (Err CapacityOverflow)
                else
                  r ← read_args (S (length rest)) n rest [];
                  Some ('(args, rest') ← r; Ok (Some args, rest'))
            end
      end
  end.

(** ** Replies *)
Definition write_simple (s : bytes) : bytes := $"+" ++ s ++ CRLF.
Definition write_error (s : bytes) : bytes := $"-" ++ s ++ CRLF.
Definition write_integer (n : Z) : bytes := $":" ++ dec_z n ++ CRLF.
Definition write_bulk (b : bytes) : bytes := $"$" ++ dec (blen b) ++ CRLF ++ b ++ CRLF.
Definition write_nil : bytes := $"$-1" ++ CRLF.

(** ** Commands *)
Inductive verb : Type :=
  | PING | QUIT | HELLO | COMMAND | AUTH | GET | SET | DEL | EXISTS | FLUSH
  | SELECT | INFO | DBSIZE
  | OTHER (cmd : bytes).

#[local] Instance verb_eq_dec : EqDecision verb.
Proof. solve_decision. Defined.

Definition verbs : list (bytes * verb) :=
  [($"PING", PING); ($"QUIT", QUIT); ($"HELLO", HELLO); ($"COMMAND", COMMAND); ($"AUTH", AUTH);
   ($"GET", GET); ($"SET", SET); ($"DEL", DEL); ($"UNLINK", DEL); ($"EXISTS", EXISTS);
   ($"FLUSHDB", FLUSH); ($"FLUSHALL", FLUSH); ($"SELECT", SELECT); ($"CLIENT", SELECT);
   ($"INFO", INFO); ($"DBSIZE", DBSIZE)].

(** [from_utf8(&args[0]).unwrap_or("").to_ascii_uppercase()]. *)
Definition cmd_of (arg0 : bytes) : bytes :=
  to_ascii_uppercase (if utf8_valid arg0 then arg0 else []).

Definition verb_of (cmd : bytes) : verb :=
  match find (fun p => bool_decide (p.1 = cmd)) verbs with
  | Some (_, v) => v
  | None => OTHER cmd
  end.

(** [GET]. *)
Definition get (io : Io) (key : bytes) (s : State) : State * bytes :=
  match redis_entries s !! key with
  | None => (metric_add redis_get_miss 1 s, write_nil)
  | Some (RedisEntry.InMemory value id _) =>
      let s1 := set_redis_entries
                  (<[key := RedisEntry.InMemory value id (now s)]> (redis_entries s)) s in
      (metric_add redis_get_hit 1 s1, write_bulk value)
  | Some (RedisEntry.OnDisk _ id _) =>
      match fs_read io (cache_path s id) (disk s) with
      | Ok value =>
          let '(ent2, s1) := insert_redis key value s in
          match ent2 with
          | RedisEntry.InMemory value2 _ _ => (metric_add redis_get_hit 1 s1, write_bulk value2)
          | RedisEntry.OnDisk _ _ _ => (s1, [])   (* unreachable!() *)
          end
      | Err _ =>
          let s1 := (remove_redis key s).2 in
          (metric_add redis_get_miss 1 s1, write_nil)
      end
  end.

(** The loop of [DEL]: the number of removed keys, and the state. *)
Definition del (keys : list bytes) (s : State) : Z * State :=
  foldl (fun '(n, s) k => let '(removed, s') := remove_redis k s in
           (if removed : bool then (n + 1)%Z else n, s')) (0%Z, s) keys.

(** The loop of [EXISTS]. *)
Definition exists_ (keys : list bytes) (s : State) : Z :=
  foldl (fun n k => if decide (is_Some (redis_entries s !! k)) then (n + 1)%Z else n) 0%Z keys.

Definition NOAUTH : bytes := $"NOAUTH Authentication required.".

(** The body of the loop for a non-empty [args]: the state, the reply, and
    [None] when the connection is closed by [QUIT], or the new [authed]. *)
Definition execute (io : Io) (authed : bool) (args : list bytes) (s0 : State)
  : State * bytes * option bool :=
  let cmd := cmd_of (default [] (head args)) in
  let s := metric_add redis_commands 1 s0 in
  let argc := length args in
  match verb_of cmd with
  | PING => (s, match args !! 1%nat with Some a => write_bulk a | None => write_simple $"PONG" end,
             Some authed)
  | QUIT => (s, write_simple $"OK", None)
  | HELLO => (s, write_error $"ERR NOPROTO unsupported protocol", Some authed)
  | COMMAND => (s, $"*0" ++ CRLF, Some authed)
  | AUTH =>
      match (if (argc =? 2)%nat then args !! 1%nat
             else if (argc =? 3)%nat then args !! 2%nat else None) with
      | None => (s, write_error $"ERR wrong number of arguments for 'auth'", Some authed)
      | Some given =>
          match redis_password (config s) with
          | None => (s, write_error $"ERR Client sent AUTH, but no password is set", Some authed)
          | Some p =>
              if ct_eq given p then (s, write_simple $"OK", Some true)
              else (metric_add redis_auth_failures 1 s,
                    write_error $"WRONGPASS invalid username-password pair", Some authed)
          end
      end
  | v =>
      if negb authed then (s, write_error NOAUTH, Some authed)
      else
        match v with
        | GET =>
            match args with
            | [_; key] => let '(s', r) := get io key s in (s', r, Some authed)
            | _ => (s, write_error $"ERR wrong number of arguments for 'get'", Some authed)
            end
        | SET =>
            match args with
            | _ :: key :: value :: _ =>
                let s1 := (insert_redis key value s).2 in
                (metric_add redis_set 1 s1, write_simple $"OK", Some authed)
            | _ => (s, write_error $"ERR wrong number of arguments for 'set'", Some authed)
            end
        | DEL =>
            let '(n, s1) := del (tail args) s in
            (metric_add redis_del (Z.to_N n) s1, write_integer n, Some authed)
        | EXISTS => (s, write_integer (exists_ (tail args) s), Some authed)
        | FLUSH => (flush_redis s, write_simple $"OK", Some authed)
        | SELECT => (s, write_simple $"OK", Some authed)
        | INFO => (s, write_bulk [], Some authed)
        | DBSIZE => (s, write_integer (Z.of_nat (size (redis_entries s))), Some authed)
        | _ => (s, write_error ($"ERR unknown command '" ++ cmd ++ $"'"), Some authed)
        end
  end.

(** ** Connections *)
Record Conn : Type := mkConn { c_authed : bool; c_in : bytes; c_out : bytes }.

Inductive conn_end : Type := Closed | Failed (e : conn_error).

(** [authed] starts true when there is no password. *)
Definition new_conn (inp : bytes) (s : State) : Conn :=
  mkConn (bool_decide (redis_password (config s) = None)) inp [].

(** An accepted connection ([serve]). *)
Definition accept (inp : bytes) (s : State) : State * Conn :=
  (metric_add redis_connections 1 s, new_conn inp s).

(** One round of the loop: the connection goes on, or has ended with the bytes
    written so far. *)
Definition conn_step (io : Io) (s : State) (c : Conn)
  : option (State * (Conn + bytes * conn_end)) :=
  match read_command (c_in c) with
  | None => None
  | Some (Err e) => Some (s, inr (c_out c, Failed e))
  | Some (Ok (None, _)) => Some (s, inr (c_out c, Closed))
  | Some (Ok (Some [], rest)) => Some (s, inl (mkConn (c_authed c) rest (c_out c)))
  | Some (Ok (Some args, rest)) =>
      let '(s', reply, o) := execute io (c_authed c) args s in
      match o with
      | Some authed => Some (s', inl (mkConn authed rest (c_out c ++ reply)))
      | None => Some (s', inr (c_out c ++ reply, Closed))
      end
  end.

(** A connection served to its end without another task in between. *)
Fixpoint conn_loop (io : Io) (fuel : nat) (s : State) (c : Conn)
  : option (State * bytes * conn_end) :=
  match fuel with
  | O => None
  | S fuel =>
      match conn_step io s c with
      | None => None
      | Some (s', inr (out, e)) => Some (s', out, e)
      | Some (s', inl c') => conn_loop io fuel s' c'
      end
  end.

Definition handle_conn (io : Io) (inp : bytes) (s : State) : option (State * bytes * conn_end) :=
  conn_loop io (S (length inp)) s (new_conn inp s).
End redis.
