(* ===== verification/RedisWire.v ===== *)
(** * The wire format of commands

    [encode_command] is what a client sends; [read_command] parses it back,
    whatever follows. Parsing always produces a result and consumes input, so
    a connection is served to its end. *)
From S2P Require Import Prelude Digest Env Config State Text Redis.

(** A command as a RESP array of bulk strings. *)
Definition encode_arg (a : bytes) : bytes := $"$" ++ dec (blen a) ++ CRLF ++ a ++ CRLF.
Definition encode_command (args : list bytes) : bytes :=
  $"*" ++ dec (N.of_nat (length args)) ++ CRLF ++ concat (encode_arg <$> args).

(** ** Header lines *)
Lemma read_until_lf_app h rest :
  LF ∉ h -> read_until_lf (h ++ LF :: rest) = (h ++ [LF], rest).
Proof.
  induction h as [|c h IH]; intros Hh; simpl; [done|].
  apply not_elem_of_cons in Hh as [Hc Hh]. rewrite decide_False by done. by rewrite IH.
Qed.

Lemma read_header_line_app h rest :
  LF ∉ h -> read_header_line (h ++ CRLF ++ rest) = Ok (Some h, rest).
Proof.
  intros Hh. unfold read_header_line. change (h ++ CRLF ++ rest) with (h ++ [CR] ++ LF :: rest).
  rewrite (app_assoc h), read_until_lf_app.
  2:{ rewrite elem_of_app, list_elem_of_singleton. intros [?|?]; done. }
  rewrite decide_False by (by destruct h).
  rewrite last_snoc, bool_decide_eq_true_2 by done. cbn [negb].
  rewrite !length_app. cbn [length].
  destruct (Nat.ltb_spec (length h + 1 + 1) 2); [lia|]. cbn [orb].
  replace (length h + 1 + 1 - 2) with (length h) by lia.
  rewrite <- !app_assoc. cbn [app]. rewrite list_lookup_middle by done.
  rewrite bool_decide_eq_true_2 by done. cbn [negb].
  by rewrite take_app_length.
Qed.

Lemma digits_no_lf n : LF ∉ dec n.
Proof. intros H%dec_digits. by vm_compute in H. Qed.

Lemma digits_ascii b : (forall c, c ∈ b -> byte_in 48 57 c = true) -> utf8_valid b = true.
Proof.
  unfold utf8_valid, str_chars. intros Hb.
  enough (forall fuel, length b <= fuel -> is_Some (utf8_chars fuel b)) as Hs
    by (by destruct (Hs (length b) (le_n _)) as [l ->]).
  induction b as [|c b IH]; intros fuel Hf; [destruct fuel; by eexists|].
  destruct fuel as [|fuel]; simpl in *; [lia|].
  assert (byte_in 48 57 c = true) as Hc by (apply Hb; left).
  unfold byte_in in Hc. apply andb_prop in Hc as [_ Hc%N.leb_le].
  destruct (N.ltb_spec (N_of_ascii c) 128); [|lia]. simpl.
  destruct (IH (fun x Hx => Hb x ltac:(by right)) fuel ltac:(lia)) as [l ->]. by eexists.
Qed.

Lemma parse_len_dec n : (n < U64)%N -> parse_len (dec n) = Ok n.
Proof.
  intros Hn. unfold parse_len. rewrite digits_ascii by apply dec_digits.
  by rewrite parse_dec.
Qed.

(** ** Arguments *)
Lemma read_exact_app a rest : read_exact (length a) (a ++ rest) = Ok (a, rest).
Proof.
  unfold read_exact. rewrite length_app. destruct (Nat.leb_spec (length a) (length a + length rest)); [|lia].
  by rewrite take_app_length, drop_app_length.
Qed.

Lemma read_arg_app a rest : (Z.of_N (blen a) < I63)%Z -> read_arg (encode_arg a ++ rest) = Ok (a, rest).
Proof.
  intros Ha. unfold read_arg, encode_arg.
  replace (($"$" ++ dec (blen a) ++ CRLF ++ a ++ CRLF) ++ rest)
    with ((("$"%char :: dec (blen a)) ++ CRLF ++ a ++ CRLF ++ rest))
    by (simpl; rewrite <- !app_assoc; simpl; rewrite <- !app_assoc; done).
  rewrite read_header_line_app.
  2:{ rewrite not_elem_of_cons. split; [done|apply digits_no_lf]. }
  cbn [mbind result_bind head tail]. rewrite bool_decide_eq_true_2 by done. cbn [negb].
  rewrite parse_len_dec by (unfold I63, U64 in *; lia). cbn [mbind result_bind].
  unfold read_bulk. destruct (N.ltb_spec (Z.to_N (I63 - 1)) (blen a)); [lia|].
  rewrite blen_app. destruct (N.ltb_spec (blen a + blen (CRLF ++ rest)) (blen a)); [lia|].
  unfold blen at 1. rewrite Nat2N.id, read_exact_app. cbn [mbind result_bind].
  rewrite (read_exact_app CRLF rest : read_exact 2 _ = _). cbn [mbind result_bind].
  by rewrite decide_True.
Qed.

Lemma read_args_app args fuel rest acc :
  (forall a, a ∈ args -> (Z.of_N (blen a) < I63)%Z) -> length args <= fuel ->
  read_args fuel (N.of_nat (length args)) (concat (encode_arg <$> args) ++ rest) acc
  = Some (Ok (acc ++ args, rest)).
Proof.
  revert fuel acc. induction args as [|a args IH]; intros fuel acc Ha Hf.
  { destruct fuel; simpl; by rewrite app_nil_r. }
  destruct fuel as [|fuel]; cbn [length] in *; [lia|]. cbn [read_args].
  destruct (N.eqb_spec (N.of_nat (S (length args))) 0); [lia|].
  cbn [fmap list_fmap concat]. rewrite <- app_assoc, read_arg_app by (apply Ha; left).
  replace (N.of_nat (S (length args)) - 1)%N with (N.of_nat (length args)) by lia.
  rewrite IH; [by rewrite <- app_assoc| |lia]. intros x Hx. apply Ha. by right.
Qed.

(** ** Consumption *)
Lemma read_until_lf_length inp :
  length (read_until_lf inp).1 + length (read_until_lf inp).2 = length inp.
Proof.
  induction inp as [|c inp IH]; simpl; [done|]. case_decide; [simpl; lia|].
  destruct (read_until_lf inp). simpl in *. lia.
Qed.

Lemma read_header_line_length inp h rest :
  read_header_line inp = Ok (Some h, rest) -> length rest < length inp.
Proof.
  unfold read_header_line. pose proof (read_until_lf_length inp) as Hl.
  destruct (read_until_lf inp) as [[|c l] r]; [done|]. simpl in Hl.
  rewrite decide_False by done. destruct (negb _); [done|]. destruct (_ || _); [done|].
  intros [= _ <-]. lia.
Qed.

Lemma read_exact_length n inp buf rest :
  read_exact n inp = Ok (buf, rest) -> length rest <= length inp.
Proof.
  unfold read_exact. destruct (_ <=? _)%nat; [|done]. intros [= _ <-]. rewrite length_drop. lia.
Qed.

Lemma read_arg_length inp buf rest : read_arg inp = Ok (buf, rest) -> length rest < length inp.
Proof.
  unfold read_arg. destruct (read_header_line inp) as [[[h|] i1]|] eqn:E1; [|done..].
  apply read_header_line_length in E1. cbn [mbind result_bind].
  destruct (negb _); [done|]. destruct (parse_len _) as [len|]; [|done]. cbn [mbind result_bind].
  destruct (read_bulk len i1) as [[b i2]|] eqn:E2; [|done]. cbn [mbind result_bind].
  assert (length i2 <= length i1).
  { unfold read_bulk in E2. destruct (_ <? _)%N; [done|]. destruct (_ <? _)%N; [done|].
    by apply read_exact_length in E2. }
  destruct (read_exact 2 i2) as [[crlf i3]|] eqn:E3; [|done]. cbn [mbind result_bind].
  apply read_exact_length in E3. case_decide; [|done]. intros [= _ <-]. lia.
Qed.

Lemma read_args_total fuel n inp acc : length inp < fuel ->
  exists r, read_args fuel n inp acc = Some r /\
    forall args rest, r = Ok (args, rest) -> length rest <= length inp.
Proof.
  revert n inp acc. induction fuel as [|fuel IH]; intros n inp acc Hf; [lia|]. cbn [read_args].
  destruct (n =? 0)%N; [eexists; split; [done|]; by intros ? ? [= _ <-]|].
  destruct (read_arg inp) as [[buf i1]|e] eqn:E; [|by eexists].
  apply read_arg_length in E. destruct (IH (n - 1)%N i1 (acc ++ [buf]) ltac:(lia)) as (r & -> & Hr).
  exists r. split; [done|]. intros args rest H. specialize (Hr args rest H). lia.
Qed.

Section wire.
Context {SHA : Sha256} {CT : ConstantTimeEq} {ITER : MapIter} {LAYOUT : BytesLayout}.

Lemma read_command_spec inp :
  exists r, read_command inp = Some r /\
    forall args rest, r = Ok (Some args, rest) -> length rest < length inp.
Proof.
  unfold read_command. destruct (read_header_line inp) as [[[line|] rest]|e] eqn:E.
  2-3: eexists; split; [done|intros ? ?; congruence].
  apply read_header_line_length in E. destruct line as [|c payload].
  { eexists; split; [done|]. by intros ? ? [= <- <-]. }
  destruct (negb _).
  { destruct (str_chars _); eexists; (split; [done|intros ? ? [= ]]). by subst. }
  destruct (parse_len payload) as [n|]; [|by eexists].
  destruct (_ <? _)%N; [by eexists|].
  destruct (read_args_total (S (length rest)) n rest [] ltac:(lia)) as (r & -> & Hr).
  eexists; split; [done|]. intros args rest'. destruct r as [[a r]|]; simpl; [|done].
  intros [= <- <-]. specialize (Hr _ _ eq_refl). lia.
Qed.

(** The sizes a request can have. *)
Definition sendable (args : list bytes) : Prop :=
  (forall a, a ∈ args -> (Z.of_N (blen a) < I63)%Z) /\
  (Z.of_N (N.of_nat (length args) * size_of_Bytes) < I63)%Z.

Lemma read_command_one args rest :
  sendable args -> read_command (encode_command args ++ rest) = Some (Ok (Some args, rest)).
Proof.
  intros [Ha Hn]. unfold read_command, encode_command. set (n := N.of_nat (length args)) in *.
  replace (($"*" ++ dec n ++ CRLF ++ concat (encode_arg <$> args)) ++ rest)
    with (("*"%char :: dec n) ++ CRLF ++ concat (encode_arg <$> args) ++ rest)
    by (simpl; rewrite <- !app_assoc; done).
  rewrite read_header_line_app.
  2:{ rewrite not_elem_of_cons. split; [done|apply digits_no_lf]. }
  rewrite bool_decide_eq_true_2 by done. cbn [negb].
  rewrite parse_len_dec.
  2:{ pose proof size_of_Bytes_pos. unfold I63, U64 in *. nia. }
  destruct (N.ltb_spec (Z.to_N (I63 - 1)) (n * size_of_Bytes)); [lia|].
  unfold n. rewrite read_args_app; [done|done|].
  rewrite length_app. enough (length args <= length (concat (encode_arg <$> args))) by lia.
  clear. induction args as [|a l IH]; [done|].
  cbn [fmap list_fmap concat length]. rewrite length_app. unfold encode_arg at 1. simpl. lia.
Qed.

(** C31: every command a client encodes is read back exactly, and nothing after
    it is touched, as long as its sizes are ones a Rust allocation can have. *)
Theorem read_encoded_command args rest :
  sendable args -> read_command (encode_command args ++ rest) = Some (Ok (Some args, rest)).
Proof. apply read_command_one. Qed.
End wire.
