(* ===== verification/RedisConn.v ===== *)
(** * Connections: termination, pipelining, authentication *)
From S2P Require Import Prelude Digest Env Config State Text Redis RedisWire.

Section conn.
Context {SHA : Sha256} {CT : ConstantTimeEq} {ITER : MapIter} {LAYOUT : BytesLayout}.
Implicit Types (s : State) (io : Io) (c : Conn).

(** ** Termination *)
Lemma conn_step_total io s c :
  exists s' r, conn_step io s c = Some (s', r) /\
    forall c', r = inl c' -> length (c_in c') < length (c_in c).
Proof.
  unfold conn_step. destruct (read_command_spec (c_in c)) as (r & -> & Hr).
  destruct r as [[[args|] rest]|e]; [|eexists _, _; by split..].
  specialize (Hr _ _ eq_refl). destruct args as [|a args].
  { eexists _, _; split; [done|]. by intros c' [= <-]. }
  destruct (execute io (c_authed c) (a :: args) s) as [[s' reply] [b|]];
    eexists _, _; (split; [done|]); [by intros c' [= <-]|done].
Qed.

Lemma conn_loop_total io fuel s c : length (c_in c) < fuel -> is_Some (conn_loop io fuel s c).
Proof.
  revert s c. induction fuel as [|fuel IH]; intros s c Hf; [lia|]. cbn [conn_loop].
  destruct (conn_step_total io s c) as (s' & r & -> & Hr).
  destruct r as [c'|[out e]]; [|by eexists]. apply IH. specialize (Hr c' eq_refl). lia.
Qed.

(** Whatever a peer sends, serving it ends: with end of file, [QUIT], or
    an error. *)
Theorem handle_conn_terminates io inp s : is_Some (handle_conn io inp s).
Proof. apply conn_loop_total. simpl. lia. Qed.

(** ** Pipelining *)

(** The commands run one after the other, with the replies appended. *)
Fixpoint run_commands io (authed : bool) (cmds : list (list bytes)) s (out : bytes) : State * bytes :=
  match cmds with
  | [] => (s, out)
  | [] :: cmds' => run_commands io authed cmds' s out
  | args :: cmds' =>
      let '(s', reply, o) := execute io authed args s in
      match o with
      | Some authed' => run_commands io authed' cmds' s' (out ++ reply)
      | None => (s', out ++ reply)
      end
  end.

Lemma conn_loop_commands io cmds authed s out fuel :
  Forall sendable cmds -> length (concat (encode_command <$> cmds)) < fuel ->
  conn_loop io fuel s (mkConn authed (concat (encode_command <$> cmds)) out) =
  Some (run_commands io authed cmds s out, Closed).
Proof.
  intros Hs. revert authed s out fuel. induction Hs as [|args cmds Ha Hs IH];
    intros authed s out fuel Hf; (destruct fuel as [|fuel]; [lia|]); cbn [conn_loop].
  { unfold conn_step. cbn. done. }
  unfold conn_step. cbn [c_in]. cbn [fmap list_fmap concat] in *.
  rewrite read_command_one by done. rewrite length_app in Hf.
  assert (0 < length (encode_command args)) by (unfold encode_command; simpl; lia).
  destruct args as [|a args].
  { cbn [c_authed c_out run_commands]. apply IH. lia. }
  cbn [run_commands c_authed c_out]. destruct (execute io authed (a :: args) s) as [[s' reply] [b|]];
    [|done]. apply IH. lia.
Qed.

(** C30: pipelining: requests sent back to back, without waiting for a reply,
    have the effect and the replies of running the commands in order, up to
    the first [QUIT]; the peer closing the stream then ends the connection
    cleanly. *)
Theorem handle_conn_pipeline io cmds s :
  Forall sendable cmds ->
  handle_conn io (concat (encode_command <$> cmds)) s =
  Some (run_commands io (bool_decide (redis_password (config s) = None)) cmds s [], Closed).
Proof. intros Hs. apply conn_loop_commands; [done|lia]. Qed.
End conn.
