(* ===== verification/RedisAuth.v ===== *)
(** * Authentication

    Every argument of a command is a substring of what the peer sent. A peer
    whose bytes do not contain the password is therefore never authenticated,
    and such a connection neither changes the cache nor learns anything
    about it. *)
From S2P Require Import Prelude Digest Env Config State Text Redis RedisWire.

(** [a] occurs in [b]. *)
Definition occurs (a b : bytes) : Prop := exists x y, b = x ++ a ++ y.

Lemma occurs_trans a b c : occurs a b -> occurs b c -> occurs a c.
Proof.
  intros (x & y & ->) (x' & y' & ->). exists (x' ++ x), (y ++ y'). by rewrite <- !app_assoc.
Qed.
Lemma occurs_app_l a b x : occurs a b -> occurs a (x ++ b).
Proof. intros (u & v & ->). exists (x ++ u), v. by rewrite <- !app_assoc. Qed.
Lemma occurs_app_r a b y : occurs a b -> occurs a (b ++ y).
Proof. intros (u & v & ->). exists u, (v ++ y). by rewrite <- !app_assoc. Qed.
Lemma occurs_refl a : occurs a a.
Proof. exists [], []. by rewrite app_nil_r. Qed.

Create HintDb occurs.
#[export] Hint Resolve occurs_app_l occurs_app_r occurs_refl : occurs.

(** ** Where arguments come from *)
Lemma read_until_lf_parts inp : (read_until_lf inp).1 ++ (read_until_lf inp).2 = inp.
Proof.
  induction inp as [|c inp IH]; simpl; [done|]. case_decide; [done|].
  destruct (read_until_lf inp). simpl in *. by rewrite IH.
Qed.

Lemma read_header_line_parts inp h rest :
  read_header_line inp = Ok (Some h, rest) -> exists t, inp = h ++ t ++ rest.
Proof.
  unfold read_header_line. pose proof (read_until_lf_parts inp) as Hl.
  destruct (read_until_lf inp) as [buf r]. simpl in Hl.
  case_decide; [done|]. destruct (negb _); [done|]. destruct (_ || _); [done|].
  intros [= <- <-]. exists (drop (length buf - 2) buf). by rewrite app_assoc, take_drop.
Qed.

Lemma read_exact_parts n inp buf rest : read_exact n inp = Ok (buf, rest) -> inp = buf ++ rest.
Proof. unfold read_exact. destruct (_ <=? _)%nat; [|done]. intros [= <- <-]. by rewrite take_drop. Qed.

Lemma read_arg_parts inp buf rest :
  read_arg inp = Ok (buf, rest) -> exists x y, inp = x ++ buf ++ y ++ rest.
Proof.
  unfold read_arg. destruct (read_header_line inp) as [[[h|] i1]|] eqn:E1; [|done..].
  apply read_header_line_parts in E1 as [t ->]. cbn [mbind result_bind].
  destruct (negb _); [done|]. destruct (parse_len _) as [len|]; [|done]. cbn [mbind result_bind].
  destruct (read_bulk len i1) as [[b i2]|] eqn:E2; [|done]. cbn [mbind result_bind].
  unfold read_bulk in E2. destruct (_ <? _)%N; [done|]. destruct (_ <? _)%N; [done|].
  apply read_exact_parts in E2 as ->.
  destruct (read_exact 2 i2) as [[crlf i3]|] eqn:E3; [|done]. cbn [mbind result_bind].
  apply read_exact_parts in E3 as ->. case_decide; [|done]. intros [= <- <-].
  exists (h ++ t), crlf. by rewrite <- !app_assoc.
Qed.

Lemma read_args_parts fuel n inp acc args rest :
  read_args fuel n inp acc = Some (Ok (args, rest)) ->
  (exists x, inp = x ++ rest) /\ forall a, a ∈ args -> a ∈ acc \/ occurs a inp.
Proof.
  revert n inp acc. induction fuel as [|fuel IH]; intros n inp acc; cbn [read_args];
    (destruct (n =? 0)%N; [intros [= <- <-]; split; [by exists []|by left]|]); [done|].
  destruct (read_arg inp) as [[buf i1]|] eqn:E; [|done].
  apply read_arg_parts in E as (x & y & ->). intros [(z & ->) Ha]%IH.
  split; [exists (x ++ buf ++ y ++ z); by rewrite <- !app_assoc|].
  intros a [Hin|Hin]%Ha; [|right; by auto with occurs].
  apply elem_of_app in Hin as [Hin| ->%list_elem_of_singleton]; [by left|right].
  by auto with occurs.
Qed.

Lemma utf8_step_parts b cp w rest : utf8_step b = Some (cp, w, rest) -> b = w ++ rest.
Proof.
  unfold utf8_step. intros H. repeat (case_match; try done; simplify_eq/=); done.
Qed.

Lemma utf8_chars_parts fuel b l : utf8_chars fuel b = Some l -> concat l.*2 = b.
Proof.
  revert b l. induction fuel as [|fuel IH]; intros [|c b] l; cbn [utf8_chars]; try congruence.
  1-2: by intros [= <-].
  destruct (utf8_step (c :: b)) as [[[cp w] rest]|] eqn:E; [|done]. cbn.
  apply utf8_step_parts in E as ->.
  destruct (utf8_chars fuel rest) as [l'|] eqn:E'; [|done]. intros [= <-].
  cbn. by rewrite (IH _ _ E').
Qed.

Lemma split_ws_parts l cur a :
  a ∈ split_ws cur l -> occurs a (default [] cur ++ concat l.*2).
Proof.
  revert cur. induction l as [|[cp w] l IH]; intros cur; cbn [split_ws].
  - destruct cur as [r|]; [|by intros ?%elem_of_nil].
    intros ->%list_elem_of_singleton. cbn. rewrite app_nil_r. apply occurs_refl.
  - cbn [fmap list_fmap concat snd]. destruct (is_whitespace cp).
    + destruct cur as [r|].
      * intros [->|Hin%IH]%elem_of_cons; [by auto with occurs|]. cbn in *. by auto with occurs.
      * intros Hin%IH. cbn in *. by auto with occurs.
    + intros Hin%IH. cbn in Hin. by rewrite <- app_assoc in Hin.
Qed.

Section auth.
Context {SHA : Sha256} {CT : ConstantTimeEq} {ITER : MapIter} {LAYOUT : BytesLayout}.
Implicit Types (s : State) (io : Io) (c : Conn).

Lemma read_command_parts inp args rest :
  read_command inp = Some (Ok (Some args, rest)) ->
  (exists x, inp = x ++ rest) /\ forall a, a ∈ args -> occurs a inp.
Proof.
  unfold read_command. destruct (read_header_line inp) as [[[line|] r1]|e] eqn:E; [|done..].
  apply read_header_line_parts in E as [t ->].
  destruct line as [|c payload].
  { intros [= <- <-]. split; [by exists t|by intros a ?%elem_of_nil]. }
  destruct (negb _).
  - destruct (str_chars _) as [chars|] eqn:Ec; [|done]. intros [= <- <-].
    split; [exists ((c :: payload) ++ t); by rewrite <- app_assoc|].
    intros a Ha%split_ws_parts. cbn [default] in Ha. rewrite (utf8_chars_parts _ _ _ Ec) in Ha.
    by auto with occurs.
  - destruct (parse_len payload) as [n|]; [|done]. destruct (_ <? _)%N; [done|].
    destruct (read_args _ n r1 []) as [[[args' r2]|]|] eqn:Ea; [|done..]. cbn.
    intros [= <- <-]. apply read_args_parts in Ea as [(x & ->) Ha].
    split; [exists ((c :: payload) ++ t ++ x); by rewrite <- !app_assoc|].
    intros a [?%elem_of_nil|Hin]%Ha; [done|]. apply (occurs_app_l _ _ (c :: payload)).
    by auto with occurs.
Qed.

(** ** One command of an unauthenticated peer *)
Definition same_but_metrics s s' : Prop := s' = set_metrics (metrics s') s.

Lemma execute_unauthenticated io args s p :
  redis_password (config s) = Some p -> (forall a, a ∈ args -> a <> p) ->
  same_but_metrics s (execute io false args s).1.1 /\
  (execute io false args s).2 <> Some true /\
  forall s2, config s2 = config s -> (execute io false args s2).1.2 = (execute io false args s).1.2 /\
    (execute io false args s2).2 = (execute io false args s).2.
Proof.
  intros Hp Ha. unfold execute. destruct (verb_of _); cbn [negb]; try (split_and!; [done..|by split]).
  set (given := if (length args =? 2)%nat then args !! 1%nat else _).
  assert (Hg : forall g, given = Some g -> g ∈ args).
  { subst given. intros g. destruct (_ =? 2)%nat; [apply list_elem_of_lookup_2|].
    destruct (_ =? 3)%nat; [apply list_elem_of_lookup_2|done]. }
  destruct given as [g|]; [|split_and!; [done..|by split]].
  specialize (Ha g (Hg g eq_refl)).
  assert (ct_eq g p = false) as Hct.
  { destruct (ct_eq g p) eqn:E; [|done]. apply ct_eq_spec in E. done. }
  split_and!.
  - state_simpl. rewrite Hp, Hct. done.
  - state_simpl. rewrite Hp, Hct. done.
  - intros s2 Hc. state_simpl. rewrite Hc, Hp, Hct. done.
Qed.

(** ** A whole connection *)
Lemma same_but_metrics_trans s1 s2 s3 :
  same_but_metrics s1 s2 -> same_but_metrics s2 s3 -> same_but_metrics s1 s3.
Proof. unfold same_but_metrics. intros -> ->. done. Qed.

Lemma conn_loop_unauthenticated io fuel inp out p s1 s2 s1' out1 e1 :
  redis_password (config s1) = Some p -> config s2 = config s1 -> ~ occurs p inp ->
  conn_loop io fuel s1 (mkConn false inp out) = Some (s1', out1, e1) ->
  same_but_metrics s1 s1' /\
  exists s2', conn_loop io fuel s2 (mkConn false inp out) = Some (s2', out1, e1).
Proof.
  revert inp out s1 s2. induction fuel as [|fuel IH]; intros inp out s1 s2 Hp Hc Hno; [done|].
  cbn [conn_loop]. unfold conn_step. cbn [c_in].
  destruct (read_command inp) as [[[[args|] rest]|e]|] eqn:Er; [| | |done].
  2-3: intros [= <- <- <-]; split; [by destruct s1|by eexists].
  apply read_command_parts in Er as [(x & ->) Ha].
  assert (Hno' : ~ occurs p rest) by (intros H; apply Hno; by auto with occurs).
  destruct args as [|a args]; [by apply IH|].
  cbn [c_authed c_out].
  destruct (execute_unauthenticated io (a :: args) s1 p Hp) as (Hs & Hn & H2).
  { intros a' Hin ->. by apply Hno, Ha. }
  specialize (H2 s2 Hc). pose proof (execute_unauthenticated io (a :: args) s2 p) as Hs2.
  rewrite Hc in Hs2. specialize (Hs2 Hp). destruct Hs2 as (Hs2 & _ & _).
  { intros a' Hin ->. by apply Hno, Ha. }
  destruct (execute io false (a :: args) s1) as [[t1 r1] o1].
  destruct (execute io false (a :: args) s2) as [[t2 r2] o2]. simpl in *.
  destruct H2 as [-> ->].
  assert (Hc1 : config t1 = config s1) by (rewrite Hs; done).
  assert (Hc2 : config t2 = config s2) by (rewrite Hs2; done).
  destruct o1 as [[]|]; [done| |].
  - intros H. rewrite <- Hc1 in Hp. destruct (IH rest (out ++ r1) t1 t2 Hp) as [Hd He].
    + congruence.
    + done.
    + exact H.
    + split; [by eapply same_but_metrics_trans|done].
  - intros [= <- <- <-]. split; [done|by eexists].
Qed.

(** C13: with a password configured, a peer whose input does not contain it
    cannot change anything but the metrics, and cannot tell two caches with
    the same configuration apart: the replies and the way the connection ends
    are the same. *)
Theorem unauthenticated_noninterference io inp p s1 s2 s1' out e :
  redis_password (config s1) = Some p -> config s2 = config s1 -> ~ occurs p inp ->
  handle_conn io inp s1 = Some (s1', out, e) ->
  same_but_metrics s1 s1' /\ exists s2', handle_conn io inp s2 = Some (s2', out, e).
Proof.
  intros Hp Hc Hno. unfold handle_conn, new_conn. rewrite Hc, Hp, bool_decide_eq_false_2 by done.
  by apply conn_loop_unauthenticated with p.
Qed.
End auth.
