(* ===== verification/RedisSpec.v ===== *)
(** * The server as a key-value store

    The abstract store is a finite map from keys to values. [spec_execute] says
    what every command does to it and what it replies; [refines] relates it to
    a state whose values are spread over memory and files. Commands simulate
    their specification; a pending unlink changes nothing, and an eviction pass
    only forgets keys. *)
From S2P Require Import Prelude Digest Env Config State Disk Text Redis RedisConn.

(** ** The specification *)
Abbreviation Store := (gmap bytes bytes).

Definition store_del (keys : list bytes) (m : Store) : Z * Store :=
  foldl (fun '(n, m) k => match m !! k with
                          | Some _ => ((n + 1)%Z, delete k m)
                          | None => (n, m)
                          end) (0%Z, m) keys.

Definition store_exists (keys : list bytes) (m : Store) : Z :=
  Z.of_nat (length (filter (fun k => is_Some (m !! k)) keys)).

Definition spec_auth `{!ConstantTimeEq} (password : option bytes) (authed : bool) (args : list bytes)
  : bytes * bool :=
  let check given :=
    match password with
    | None => (write_error $"ERR Client sent AUTH, but no password is set", authed)
    | Some p => if decide (given = p) then (write_simple $"OK", true)
                else (write_error $"WRONGPASS invalid username-password pair", authed)
    end in
  match args with
  | [_; password] => check password
  | [_; _user; password] => check password
  | _ => (write_error $"ERR wrong number of arguments for 'auth'", authed)
  end.

(** What an authenticated client may do to the store. *)
Definition spec_store (v : verb) (args : list bytes) (m : Store) : Store * bytes :=
  match v with
  | GET =>
      match args with
      | [_; k] => (m, match m !! k with Some value => write_bulk value | None => write_nil end)
      | _ => (m, write_error $"ERR wrong number of arguments for 'get'")
      end
  | SET =>
      match args with
      | _ :: k :: value :: _ => (<[k := value]> m, write_simple $"OK")
      | _ => (m, write_error $"ERR wrong number of arguments for 'set'")
      end
  | DEL => let '(n, m') := store_del (tail args) m in (m', write_integer n)
  | EXISTS => (m, write_integer (store_exists (tail args) m))
  | FLUSH => (∅, write_simple $"OK")
  | SELECT => (m, write_simple $"OK")
  | INFO => (m, write_bulk [])
  | DBSIZE => (m, write_integer (Z.of_nat (size m)))
  | _ => (m, write_error ($"ERR unknown command '" ++ cmd_of (default [] (head args)) ++ $"'"))
  end.

Definition spec_execute `{!ConstantTimeEq} (password : option bytes) (authed : bool)
    (args : list bytes) (m : Store) : Store * bytes * option bool :=
  match verb_of (cmd_of (default [] (head args))) with
  | PING => (m, match args with _ :: a :: _ => write_bulk a | _ => write_simple $"PONG" end, Some authed)
  | QUIT => (m, write_simple $"OK", None)
  | HELLO => (m, write_error $"ERR NOPROTO unsupported protocol", Some authed)
  | COMMAND => (m, $"*0" ++ CRLF, Some authed)
  | AUTH => let '(r, a) := spec_auth password authed args in (m, r, Some a)
  | v =>
      if authed then let '(m', r) := spec_store v args m in (m', r, Some authed)
      else (m, write_error NOAUTH, Some authed)
  end.

(** ** The refinement relation *)
Section spec.
Context {SHA : Sha256} {CT : ConstantTimeEq} {ITER : MapIter} {LAYOUT : BytesLayout}.
Implicit Types (s : State) (io : Io) (m : Store).

Record refines s m : Prop := {
  rf_ids : ids_ok s;
  rf_view : forall k, stored s (ORedis k) = m !! k;
  rf_dom : forall k, is_Some (redis_entries s !! k) <-> is_Some (m !! k)
}.

Lemma refines_same s s' m :
  refines s m -> config s' = config s -> next_id s' = next_id s -> spawned s' = spawned s ->
  blobs s' = blobs s -> redis_entries s' = redis_entries s -> disk s' = disk s -> refines s' m.
Proof.
  intros [Hi Hv Hd] Hc Hn Hsp Hb Hr Hdk.
  assert (Hown : forall o, owner_id s' o = owner_id s o) by (intros []; cbn; by rewrite ?Hb, ?Hr).
  split.
  - apply (ids_ok_delete s); [done|done|done| |by rewrite Hsp; left]. intros o i. by rewrite Hown.
  - intros k. rewrite <- Hv. apply stored_ext; [done..|]. by rewrite Hdk.
  - intros k. by rewrite Hr.
Qed.

(** A state without redis entries is the empty store. *)
Lemma refines_empty s : ids_ok s -> redis_entries s = ∅ -> refines s ∅.
Proof.
  intros Hi Hr. split; [done|..]; intros k; cbn; by rewrite Hr, !lookup_empty.
Qed.

Lemma refines_time t s m : refines s m -> refines (time_update t s) m.
Proof. intros Hs. by apply (refines_same s). Qed.

Lemma refines_insert k v s m :
  refines s m -> (next_id s + 1 < U64)%N -> refines (insert_redis k v s).2 (<[k := v]> m).
Proof.
  intros [Hi Hv Hd] Hn. split; [by apply insert_redis_ids|..].
  - intros k'. rewrite insert_redis_stored.
    destruct (decide (k' = k)) as [->|Hne].
    + by rewrite decide_True, lookup_insert_eq by done.
    + rewrite decide_False, lookup_insert_ne by congruence. apply Hv.
  - intros k'. destruct (insert_redis_fields k v s) as (-> & _).
    destruct (decide (k' = k)) as [->|Hne]; [by rewrite !lookup_insert_eq|].
    rewrite !lookup_insert_ne by done. apply Hd.
Qed.

Lemma refines_remove k s m : refines s m -> refines (remove_redis k s).2 (delete k m).
Proof.
  intros [Hi Hv Hd]. split; [by apply remove_redis_ids|..].
  - intros k'. rewrite remove_redis_stored.
    destruct (decide (k' = k)) as [->|Hne].
    + by rewrite decide_True, lookup_delete_eq by done.
    + rewrite decide_False, lookup_delete_ne by congruence. apply Hv.
  - intros k'. destruct (remove_redis_fields k s) as (-> & _).
    destruct (decide (k' = k)) as [->|Hne]; [by rewrite !lookup_delete_eq|].
    rewrite !lookup_delete_ne by done. apply Hd.
Qed.

Lemma remove_redis_hit k s m :
  refines s m -> (remove_redis k s).1 = true <-> is_Some (m !! k).
Proof.
  intros Hs. rewrite <- (rf_dom _ _ Hs). unfold remove_redis.
  destruct (redis_entries s !! k) as [e|]; [|split; [done|by intros []]].
  destruct (redis_value_bucket e). split; [by eexists|done].
Qed.

Lemma refines_flush s m : refines s m -> refines (flush_redis s) ∅.
Proof.
  intros [Hi _ _]. split; [by apply flush_redis_ids|..].
  - intros k. by rewrite flush_redis_stored, lookup_empty.
  - intros k. cbn. by rewrite !lookup_empty.
Qed.

(** ** The commands *)
Lemma get_refines io k s m :
  refines s m -> (next_id s + 1 < U64)%N -> (forall p, io_read io p = true) ->
  refines (get io k s).1 m /\
  (get io k s).2 = match m !! k with Some value => write_bulk value | None => write_nil end.
Proof.
  intros Hs Hn Hio. pose proof (rf_view _ _ Hs k) as Hv. pose proof (rf_dom _ _ Hs k) as Hd.
  unfold get. cbn [stored] in Hv. destruct (redis_entries s !! k) as [[v id la|n id la]|] eqn:Ek.
  - rewrite <- Hv. split; [|done].
    set (s1 := set_redis_entries _ s).
    enough (refines s1 m) as H1 by (by apply (refines_same s1)).
    assert (Hown : forall o, owner_id s1 o = owner_id s o).
    { intros [d|k']; [done|]. subst s1. cbn [owner_id]. state_simpl.
      destruct (decide (k' = k)) as [->|Hne]; [by rewrite lookup_insert_eq, Ek|].
      by rewrite lookup_insert_ne. }
    destruct Hs as [Hi Hvw Hdm]. split.
    + apply (ids_ok_delete s); [done..| |by left]. intros o i. by rewrite Hown.
    + intros k'. rewrite <- Hvw. subst s1. cbn [stored]. state_simpl.
      destruct (decide (k' = k)) as [->|Hne]; [by rewrite lookup_insert_eq, Ek|].
      by rewrite lookup_insert_ne.
    + intros k'. rewrite <- Hdm. subst s1. state_simpl.
      destruct (decide (k' = k)) as [->|Hne]; [by rewrite lookup_insert_eq, Ek|].
      by rewrite lookup_insert_ne.
  - destruct (proj1 Hd ltac:(by eexists)) as [v Hm]. rewrite Hm in Hv |- *.
    unfold fs_read. rewrite Hv, Hio.
    pose proof (refines_insert k v s m Hs Hn) as H1. rewrite insert_id in H1 by done.
    destruct (insert_redis k v s) as [e s1] eqn:Ei.
    assert (He : e = RedisEntry.InMemory v (next_id s) (now s)).
    { unfold insert_redis in Ei. cbn [take_id] in Ei. destruct (redis_value_bucket _). congruence. }
    subst e. split; [|done]. by apply (refines_same s1).
  - destruct (m !! k) as [v|]; [by destruct (proj2 Hd ltac:(by eexists))|].
    split; [|done]. by apply (refines_same s).
Qed.

Lemma del_refines keys s m :
  refines s m ->
  refines (del keys s).2 (store_del keys m).2 /\ (del keys s).1 = (store_del keys m).1.
Proof.
  unfold del, store_del. intros Hs. generalize 0%Z. revert s m Hs.
  induction keys as [|k keys IH]; intros s m Hs n; cbn [foldl]; [done|].
  pose proof (refines_remove k s m Hs) as H1. pose proof (remove_redis_hit k s m Hs) as H2.
  destruct (remove_redis k s) as [removed s'] eqn:Er. simpl in H1, H2.
  destruct (m !! k) as [v|] eqn:Ek.
  - destruct removed; [by apply IH|]. by discriminate (proj2 H2 ltac:(by eexists)).
  - rewrite delete_id in H1 by done.
    destruct removed; [by destruct (proj1 H2 eq_refl)|by apply IH].
Qed.

Lemma exists_refines keys s m : refines s m -> exists_ keys s = store_exists keys m.
Proof.
  intros Hs. unfold exists_, store_exists.
  assert (forall z, foldl (fun n k => if decide (is_Some (redis_entries s !! k)) then (n + 1)%Z else n) z keys
    = (z + Z.of_nat (length (filter (fun k => is_Some (m !! k)) keys)))%Z) as H; [|by rewrite H].
  induction keys as [|k keys IH]; intros z; cbn [foldl]; [simpl; lia|].
  rewrite IH, filter_cons. pose proof (rf_dom _ _ Hs k) as Hd.
  destruct (decide (is_Some (redis_entries s !! k))), (decide (is_Some (m !! k)));
    cbn [length]; [lia|tauto|tauto|lia].
Qed.

Lemma size_refines s m : refines s m -> size (redis_entries s) = size m.
Proof.
  intros Hs. rewrite <- !size_dom. f_equal. apply set_eq. intros k.
  rewrite !elem_of_dom. apply Hs.
Qed.

Lemma auth_refines args s : 
  let given := if (length args =? 2)%nat then args !! 1%nat
               else if (length args =? 3)%nat then args !! 2%nat else None in
  args <> [] ->
  forall authed,
  match given with
  | None => (write_error $"ERR wrong number of arguments for 'auth'", authed)
  | Some g =>
      match redis_password (config s) with
      | None => (write_error $"ERR Client sent AUTH, but no password is set", authed)
      | Some p => if ct_eq g p then (write_simple $"OK", true)
                  else (write_error $"WRONGPASS invalid username-password pair", authed)
      end
  end = spec_auth (redis_password (config s)) authed args.
Proof.
  intros given Hne authed. subst given. unfold spec_auth.
  destruct args as [|a [|b [|c [|d args]]]]; [done|done| | |done]; cbn;
    (destruct (redis_password (config s)) as [p|]; [|done]);
    match goal with |- context [ct_eq ?x ?y] => pose proof (ct_eq_spec x y); destruct (ct_eq x y) end;
    case_decide; naive_solver.
Qed.

(** A command, on a state that agrees with a map. *)
Lemma execute_simulates io authed args s m :
  refines s m -> args <> [] -> (next_id s + 1 < U64)%N -> (forall p, io_read io p = true) ->
  let '(s', reply, o) := execute io authed args s in
  let '(m', reply', o') := spec_execute (redis_password (config s)) authed args m in
  refines s' m' /\ reply = reply' /\ o = o'.
Proof.
  intros Hs Hne Hn Hio. unfold execute, spec_execute.
  assert (H0 : refines (metric_add redis_commands 1 s) m) by by apply (refines_same s).
  change (next_id s) with (next_id (metric_add redis_commands 1 s)) in Hn.
  change (redis_password (config s)) with (redis_password (config (metric_add redis_commands 1 s))).
  set (s1 := metric_add redis_commands 1 s) in *. clearbody s1. clear Hs s. rename s1 into s.
  destruct (verb_of (cmd_of (default [] (head args)))); cbn [negb].
  all: try (destruct authed; cbn [negb spec_store]; [|by split]).
  all: try by split.
  - split; [done|]. split; [|done]. by destruct args as [|a [|b args]].
  - pose proof (auth_refines args s Hne authed) as Ha. cbv zeta in Ha. rewrite <- Ha. clear Ha.
    set (given := if (length args =? 2)%nat then args !! 1%nat else _). destruct given as [g|]; [|done].
    destruct (redis_password (config s)) as [p|]; [|done].
    destruct (ct_eq g p); [done|]. split; [by apply (refines_same s)|done].
  - destruct args as [|a [|k [|b args]]]; [done|done| |done].
    destruct (get_refines io k s m H0 Hn Hio) as [H1 H2].
    destruct (get io k s) as [s' r]. simpl in *. by subst r.
  - destruct args as [|a [|k [|v args]]]; [done..|].
    pose proof (refines_insert k v s m H0 Hn) as H1. split; [|done]. by eapply refines_same.
  - destruct (del_refines (tail args) s m H0) as [H1 H2].
    destruct (del (tail args) s) as [n s'], (store_del (tail args) m) as [n' m']. simpl in *. subst n'.
    split; [|done]. by eapply refines_same.
  - rewrite (exists_refines (tail args) s m H0). by split.
  - split; [by apply (refines_flush s m)|done].
  - rewrite (size_refines s m H0). by split.
Qed.

(** C10: a command does to the cache and replies what the specification says,
    wherever the values are: in memory or spilled to files. *)
Theorem execute_refines io authed args s m :
  refines s m -> args <> [] -> (next_id s + 1 < U64)%N -> (forall p, io_read io p = true) ->
  let '(s', reply, o) := execute io authed args s in
  let '(m', reply', o') := spec_execute (redis_password (config s)) authed args m in
  refines s' m' /\ reply = reply' /\ o = o'.
Proof. apply execute_simulates. Qed.

(** A [remove_file] task that runs at any later time does not change the
    store: it never unlinks the file of a live entry. *)
Lemma run_unlink_refines io p rest s m :
  refines s m -> p ∈ spawned s -> (forall q, q ∈ rest -> q ∈ spawned s) ->
  refines (run_unlink io p rest s) m.
Proof.
  intros Hs Hp Hr. pose proof (rf_ids _ _ Hs) as Hi. split; [by apply run_unlink_ids|..].
  - intros k. rewrite run_unlink_stored by done. apply Hs.
  - intros k. apply (rf_dom _ _ Hs k).
Qed.
End spec.
