(* ===== verification/RedisSteps.v ===== *)
(** * Redis commands, one operation at a time

    [Redis.execute] runs a command at a stroke; here the same commands are
    programs of atomic operations, between which other connections and tasks
    run. Without interruption the two agree ([execute_run]); a [GET] of an
    on-disk entry that is interrupted can undo what other clients were told had
    happened ([get_race]). A [FLUSH] is its [retain] and its three stores. *)
From S2P Require Import Prelude Prog Digest Env Config State Disk Eviction EvictionRefs Text.
From S2P Require Import Redis.

(** A command: it cannot fail. *)
Abbreviation R := (prog State Empty_set).

Section steps.
Context {SHA : Sha256} {CT : ConstantTimeEq} {ITER : MapIter}.
Implicit Types s : State.

(** [last_accessed.store(now)] on the entry object that was looked up: its id
    tells it from one that has replaced it since. *)
Definition touch_redis (key : bytes) (id t : N) s : State :=
  match redis_entries s !! key with
  | Some (RedisEntry.InMemory v i _) =>
      if decide (i = id) then set_redis_entries (<[key := RedisEntry.InMemory v id t]> (redis_entries s)) s else s
  | _ => s
  end.

(** [GET] of an entry on disk, once its file has been read. *)
Definition promote (key : bytes) (read : result io_error bytes) : R bytes :=
  match read with
  | Ok value =>
      ent2 ← atomically (fun s => ((insert_redis key value s).2, (insert_redis key value s).1));
      match ent2 with
      | RedisEntry.InMemory value2 _ _ => _ ← does (metric_add redis_get_hit 1); mret (write_bulk value2)
      | RedisEntry.OnDisk _ _ _ => mret []   (* unreachable!() *)
      end
  | Err _ =>
      _ ← does (fun s => (remove_redis key s).2);
      _ ← does (metric_add redis_get_miss 1);
      mret write_nil
  end.

Definition get_steps (io : Io) (key : bytes) : R bytes :=
  t ← asks now;
  entry ← asks (fun s => redis_entries s !! key);
  match entry with
  | None => _ ← does (metric_add redis_get_miss 1); mret write_nil
  | Some (RedisEntry.InMemory value id _) =>
      _ ← does (touch_redis key id t);
      _ ← does (metric_add redis_get_hit 1);
      mret (write_bulk value)
  | Some (RedisEntry.OnDisk _ id _) =>
      read ← asks (fun s => fs_read io (cache_path s id) (disk s));
      promote key read
  end.

Fixpoint del_steps (keys : list bytes) (n : Z) : R Z :=
  match keys with
  | [] => mret n
  | k :: keys =>
      removed ← atomically (fun s => ((remove_redis k s).2, (remove_redis k s).1));
      del_steps keys (if removed : bool then (n + 1)%Z else n)
  end.

Fixpoint exists_steps (keys : list bytes) (n : Z) : R Z :=
  match keys with
  | [] => mret n
  | k :: keys =>
      found ← asks (fun s => bool_decide (is_Some (redis_entries s !! k)));
      exists_steps keys (if found : bool then (n + 1)%Z else n)
  end.

Definition auth_steps (authed : bool) (args : list bytes) : R (bytes * option bool) :=
  match (if (length args =? 2)%nat then args !! 1%nat
         else if (length args =? 3)%nat then args !! 2%nat else None) with
  | None => mret (write_error $"ERR wrong number of arguments for 'auth'", Some authed)
  | Some given =>
      expected ← asks (fun s => redis_password (config s));
      match expected with
      | None => mret (write_error $"ERR Client sent AUTH, but no password is set", Some authed)
      | Some p =>
          if ct_eq given p then mret (write_simple $"OK", Some true)
          else
            _ ← does (metric_add redis_auth_failures 1);
            mret (write_error $"WRONGPASS invalid username-password pair", Some authed)
      end
  end.

(** [FLUSHALL] and [FLUSHDB]: [retain] empties the map, then each counter is
    stored. *)
Fixpoint clear (bs : list Bucket) : R unit :=
  match bs with
  | [] => mret tt
  | b :: bs => _ ← does (usage_store b 0); clear bs
  end.
Definition flush_steps : R unit := _ ← does flush_entries; clear redis_buckets.

(** The body of the loop for a non-empty [args], as [Redis.execute]. *)
Definition execute_steps (io : Io) (authed : bool) (args : list bytes) : R (bytes * option bool) :=
  let cmd := cmd_of (default [] (head args)) in
  let reply r := mret (r, Some authed) in
  _ ← does (metric_add redis_commands 1);
  match verb_of cmd with
  | PING => reply (match args !! 1%nat with Some a => write_bulk a | None => write_simple $"PONG" end)
  | QUIT => mret (write_simple $"OK", None)
  | HELLO => reply (write_error $"ERR NOPROTO unsupported protocol")
  | COMMAND => reply ($"*0" ++ CRLF)
  | AUTH => auth_steps authed args
  | v =>
      if negb authed then reply (write_error NOAUTH)
      else
        match v with
        | GET =>
            match args with
            | [_; key] => r ← get_steps io key; reply r
            | _ => reply (write_error $"ERR wrong number of arguments for 'get'")
            end
        | SET =>
            match args with
            | _ :: key :: value :: _ =>
                _ ← does (fun s => (insert_redis key value s).2);
                _ ← does (metric_add redis_set 1);
                reply (write_simple $"OK")
            | _ => reply (write_error $"ERR wrong number of arguments for 'set'")
            end
        | DEL =>
            n ← del_steps (tail args) 0;
            _ ← does (metric_add redis_del (Z.to_N n));
            reply (write_integer n)
        | EXISTS => n ← exists_steps (tail args) 0; reply (write_integer n)
        | FLUSH => _ ← flush_steps; reply (write_simple $"OK")
        | SELECT => reply (write_simple $"OK")
        | INFO => reply (write_bulk [])
        | DBSIZE => n ← asks (fun s => Z.of_nat (size (redis_entries s))); reply (write_integer n)
        | _ => reply (write_error ($"ERR unknown command '" ++ cmd ++ $"'"))
        end
  end.

(** ** Without interruption *)
Lemma get_run io key s : run (get_steps io key) s = ((get io key s).1, Ok (get io key s).2).
Proof.
  unfold get_steps, get. run_op. run_op.
  destruct (redis_entries s !! key) as [[v id la|n id la]|] eqn:Ek; [| |done].
  - run_op. run_op. unfold touch_redis. by rewrite Ek, decide_True.
  - run_op. unfold promote. destruct (fs_read io (cache_path s id) (disk s)) as [value|e]; [|done].
    run_op. by destruct (insert_redis key value s) as [[] s1].
Qed.

Lemma del_run keys n s :
  run (del_steps keys n) s =
  let r := foldl (fun '(n, s) k => let '(removed, s') := remove_redis k s in
             (if removed : bool then (n + 1)%Z else n, s')) (n, s) keys in (r.2, Ok r.1).
Proof.
  revert n s. induction keys as [|k keys IH]; intros n s; [done|]. cbn [del_steps foldl].
  run_op. rewrite IH. by destruct (remove_redis k s).
Qed.

Lemma exists_run keys n s :
  run (exists_steps keys n) s =
  (s, Ok (foldl (fun n k => if decide (is_Some (redis_entries s !! k)) then (n + 1)%Z else n) n keys)).
Proof.
  revert n. induction keys as [|k keys IH]; intros n; [done|]. cbn [exists_steps foldl]. run_op. rewrite IH.
  destruct (decide (is_Some (redis_entries s !! k)));
    [rewrite bool_decide_eq_true_2 by done|rewrite bool_decide_eq_false_2 by done]; done.
Qed.

Lemma clear_run bs s : run (clear bs) s = (foldl (fun s b => usage_store b 0 s) s bs, Ok tt).
Proof. revert s. induction bs as [|b bs IH]; intros s; [done|]. cbn [clear foldl]. run_op. apply IH. Qed.

Lemma flush_run s : run flush_steps s = (flush_redis s, Ok tt).
Proof. unfold flush_steps. run_op. by rewrite clear_run. Qed.

(** What a command does when nothing runs in between is [execute]. *)
Lemma execute_run io authed args s :
  run (execute_steps io authed args) s =
  let '(s', reply, o) := execute io authed args s in (s', Ok (reply, o)).
Proof.
  unfold execute, execute_steps. cbv zeta. run_op.
  set (s1 := metric_add redis_commands 1 s). clearbody s1. clear s. rename s1 into s.
  destruct (verb_of _); try (destruct authed; cbn [negb]); try done.
  1,2: unfold auth_steps; destruct (if (length args =? 2)%nat then _ else _) as [g|]; [|done]; run_op;
    destruct (redis_password (config s)) as [p|]; [|done]; by destruct (ct_eq g p).
  - destruct args as [|a [|k [|b args]]]; try done.
    rewrite run_mbind, get_run. by destruct (get io k s).
  - by destruct args as [|a [|k [|v args]]].
  - rewrite run_mbind, del_run. unfold del. cbv zeta. by destruct (foldl _ _ (tail args)) as [n s1].
  - by rewrite run_mbind, exists_run.
Qed.

(** ** A [GET] that others interrupt *)
Lemma promote_stored key v s : stored (run (promote key (Ok v)) s).1 (ORedis key) = Some v.
Proof.
  unfold promote. run_op. pose proof (insert_redis_stored key v s (ORedis key)) as H.
  rewrite decide_True in H by done.
  destruct (insert_redis key v s) as [[value i l|n i l] s1]; cbn [fst snd] in *; [|exact H].
  exact H.
Qed.

Lemma promote_failed key e s : stored (run (promote key (Err e)) s).1 (ORedis key) = None.
Proof.
  unfold promote. run_op. change (stored (remove_redis key s).2 (ORedis key) = None).
  rewrite remove_redis_stored. by rewrite decide_True.
Qed.

(** The program of a [GET] that has found an entry on disk. *)
Lemma get_found io key s n id la :
  redis_entries s !! key = Some (RedisEntry.OnDisk n id la) ->
  rtc prog_step (get_steps io key, s)
    ((read ← asks (fun s => fs_read io (cache_path s id) (disk s)); promote key read), s).
Proof.
  intros Hk. eapply rtc_l; [apply (prog_op _ (fun s => (s, now s)) _ s)|].
  eapply rtc_l; [apply (prog_op _ (fun s => (s, redis_entries s !! key)) _ s)|]. cbn [fst snd]. by rewrite Hk.
Qed.

(** C35: a defect. A [GET] of an on-disk entry with value [v] whose file was read, but whose
    value is not yet back in the map ([rest] is what remains of it), undoes a
    [SET] or [DEL] that another client completes at that point: the old value
    [v] is back. When it has found the entry and a [SET] replaces it, whose
    unlink task removes the file before it is read, the [GET] takes the missing
    file for a broken entry and deletes the new value. *)
Theorem get_race io key s n id la v v' :
  redis_entries s !! key = Some (RedisEntry.OnDisk n id la) ->
  fs_read io (cache_path s id) (disk s) = Ok v -> io_remove io (cache_path s id) = true ->
  let set := (insert_redis key v' s).2 in
  let del := (remove_redis key s).2 in
  let unlinked := run_unlink io (cache_path s id) (spawned s) set in
  exists found rest,
    rtc prog_step (get_steps io key, s) (found, s) /\ rtc prog_step (found, s) (rest, s) /\
    stored (run rest s).1 (ORedis key) = Some v /\
    (stored set (ORedis key) = Some v' /\ stored (run rest set).1 (ORedis key) = Some v) /\
    (stored del (ORedis key) = None /\ stored (run rest del).1 (ORedis key) = Some v) /\
    (cache_path s id :: spawned s = spawned set /\ stored unlinked (ORedis key) = Some v' /\
     stored (run found unlinked).1 (ORedis key) = None).
Proof.
  intros Hk Hv Hrm. cbv zeta. eexists _, (promote key (Ok v)). split; [by apply (get_found io key s n id la)|].
  destruct (insert_redis_fields key v' s) as (Hr & _ & Hd & Hc & _ & Hsp).
  assert (Hset : stored (insert_redis key v' s).2 (ORedis key) = Some v')
    by (rewrite insert_redis_stored; by rewrite decide_True).
  split_and!; try apply promote_stored.
  - apply rtc_once. pose proof (prog_op _ (fun s => (s, fs_read io (cache_path s id) (disk s))) (promote key) s) as H.
    cbn [fst snd] in H. rewrite Hv in H. exact H.
  - exact Hset.
  - rewrite remove_redis_stored. by rewrite decide_True.
  - by rewrite Hsp, Hk.
  - cbn [stored run_unlink]. unfold run_unlink. state_simpl. by rewrite Hr, lookup_insert_eq.
  - run_op.
    assert (Hgone : fs_read io (cache_path (run_unlink io (cache_path s id) (spawned s) (insert_redis key v' s).2) id)
              (disk (run_unlink io (cache_path s id) (spawned s) (insert_redis key v' s).2)) = Err NotFound);
      [|rewrite Hgone; apply promote_failed].
    unfold run_unlink. rewrite (cache_path_config _ s id) by (by state_simpl). state_simpl. rewrite Hd.
    unfold fs_remove. unfold fs_read in Hv. destruct (disk s !! cache_path s id) eqn:E; [|done]. rewrite Hrm.
    unfold fs_read. cbn [fst]. by rewrite lookup_delete_eq.
Qed.
End steps.
