(* ===== verification/RedisExamples.v ===== *)
(** * The Redis server on concrete inputs *)
From S2P Require Import Prelude Prog Digest Env Config State Disk Accounting Text Redis.
From S2P Require Import RedisSteps RedisWire.
From S2P Require Import RedisConn RedisAuth RedisSpec Eviction EvictionExamples.

#[export, refine] Instance toy_layout : BytesLayout := {| size_of_Bytes := 32 |}.
Proof. lia. Defined.

Definition get_key : list bytes := [$"GET"; $"key-one"].
Definition set_key : list bytes := [$"set"; $"key-one"; $"value"].

Lemma sendable_by_length (args : list bytes) :
  forallb (fun a => (length a <? 100)%nat) args = true -> length args < 100 -> sendable args.
Proof.
  intros Ha Hn. split.
  - intros a Hin%list_elem_of_In. rewrite forallb_forall in Ha. specialize (Ha a Hin).
    apply Nat.ltb_lt in Ha. unfold blen, I63. lia.
  - unfold I63. simpl. lia.
Qed.

Lemma sendable_get : sendable get_key.
Proof. apply sendable_by_length; [done|simpl; lia]. Qed.
Lemma sendable_set : sendable set_key.
Proof. apply sendable_by_length; [done|simpl; lia]. Qed.

Lemma read_encoded_command_witness :
  read_command ($"*2" ++ CRLF ++ $"$3" ++ CRLF ++ $"GET" ++ CRLF ++ $"$7" ++ CRLF ++ $"key-one" ++ CRLF
                ++ $"rest") = Some (Ok (Some get_key, $"rest")).
Proof. exact (read_encoded_command get_key $"rest" sendable_get). Defined.

(** SET, then GET, sent together. *)
Lemma handle_conn_pipeline_witness :
  exists s', handle_conn io_fine (concat (encode_command <$> [set_key; get_key])) example_new =
    Some (s', write_simple $"OK" ++ write_bulk $"value", Closed).
Proof.
  rewrite (handle_conn_pipeline io_fine [set_key; get_key] example_new
    (Forall_cons_2 _ _ _ sendable_set (Forall_cons_2 _ _ _ sendable_get (Forall_nil_2 _)))).
  assert (H : (run_commands io_fine (bool_decide (redis_password (config example_new) = None))
    [set_key; get_key] example_new []).2 = write_simple $"OK" ++ write_bulk $"value")
    by (vm_compute; reflexivity).
  revert H. destruct (run_commands _ _ _ _ _) as [s' out]. simpl snd. intros ->. by exists s'.
Defined.

(** A cache with two keys. *)
Definition example_store : Store :=
  <[$"key-two" := filled 30 "y"]> (<[$"key-one" := filled 300 "x"]> ∅).

Lemma example_refines : refines example_state example_store.
Proof.
  assert (Ht : ids_ok example_tag).
  { apply time_update_ids, set_tags_ids, insert_manifest_ids.
    repeat (apply add_blob_ids; [|by vm_compute]). apply State_new_ids. }
  apply refines_insert; [apply refines_time, refines_insert; [apply refines_empty; [exact Ht|]|]|].
  - by vm_compute.
  - by vm_compute.
  - by vm_compute.
Qed.

Lemma execute_refines_witness :
  (execute io_fine true get_key example_state).1.2 = write_bulk (filled 300 "x").
Proof.
  pose proof (execute_refines io_fine true get_key example_state example_store example_refines
    ltac:(done) ltac:(by vm_compute) ltac:(done)) as H.
  destruct (execute io_fine true get_key example_state) as [[s' r] o].
  assert (Hs : spec_execute (redis_password (config example_state)) true get_key example_store =
    (example_store, write_bulk (filled 300 "x"), Some true)) by (vm_compute; reflexivity).
  rewrite Hs in H. by destruct H as (_ & -> & _).
Defined.

(** An unlink of id 0 that is still pending. *)
Definition example_pending : State :=
  let s := (take_id example_new).2 in spawn_remove (cache_path s 0) s.

Lemma example_pending_refines : refines example_pending ∅.
Proof.
  apply refines_empty; [|by vm_compute]. apply spawn_remove_ids; [|by vm_compute|].
  - split; [intros [] i; cbn; by rewrite lookup_empty|intros [] o' i; cbn; by rewrite lookup_empty|by vm_compute|].
    intros p Hp. by apply elem_of_nil in Hp.
  - intros [] ; cbn; by rewrite lookup_empty.
Qed.

Lemma run_unlink_refines_witness :
  refines (run_unlink io_fine (cache_path example_new 0) [] example_pending) ∅.
Proof.
  apply (run_unlink_refines io_fine (cache_path example_new 0) [] example_pending ∅ example_pending_refines).
  - left.
  - intros q Hq. by apply elem_of_nil in Hq.
Defined.

(** A server with a password, and a peer that does not know it. *)
Definition protected_config : Config :=
  mkConfig None None $"/data" 2000 (Some 400%N) 100000 [] ∅ None (Some $"a long password").
Definition protected : State := State_new protected_config 0 ∅.
Definition protected_full : State := (insert_redis $"key" $"secret" protected).2.

Lemma unauthenticated_noninterference_witness :
  exists s', handle_conn io_fine ($"GET key" ++ CRLF) protected_full =
    Some (s', write_error NOAUTH, Closed).
Proof.
  assert (H : exists s', handle_conn io_fine ($"GET key" ++ CRLF) protected =
    Some (s', write_error NOAUTH, Closed)) by (eexists; vm_compute; reflexivity).
  destruct H as [s' H].
  apply (unauthenticated_noninterference io_fine ($"GET key" ++ CRLF) $"a long password" protected
    protected_full s' (write_error NOAUTH) Closed); [done|done| |exact H].
  intros (x & y & He). apply (f_equal length) in He. rewrite !length_app in He. simpl in He. lia.
Defined.

(** A spilled entry, whose [GET] is interrupted. *)
Definition spilled_file : bytes := cache_path example_new 5.
Definition spilled_state : State :=
  set_disk {[ spilled_file := $"old" ]}
    (set_redis_entries {[ $"key-one" := RedisEntry.OnDisk 3 5 0 ]} example_new).

Lemma get_race_witness :
  let set := (insert_redis $"key-one" $"new" spilled_state).2 in
  let del := (remove_redis $"key-one" spilled_state).2 in
  let unlinked := run_unlink io_fine spilled_file (spawned spilled_state) set in
  exists found rest,
    rtc prog_step (get_steps io_fine $"key-one", spilled_state) (found, spilled_state) /\
    rtc prog_step (found, spilled_state) (rest, spilled_state) /\
    stored (run rest spilled_state).1 (ORedis $"key-one") = Some $"old" /\
    (stored set (ORedis $"key-one") = Some $"new" /\ stored (run rest set).1 (ORedis $"key-one") = Some $"old") /\
    (stored del (ORedis $"key-one") = None /\ stored (run rest del).1 (ORedis $"key-one") = Some $"old") /\
    (spilled_file :: spawned spilled_state = spawned set /\ stored unlinked (ORedis $"key-one") = Some $"new" /\
     stored (run found unlinked).1 (ORedis $"key-one") = None).
Proof.
  exact (get_race io_fine $"key-one" spilled_state 3 5 0 $"old" $"new"
    (lookup_singleton_eq _ _) ltac:(vm_compute; reflexivity) ltac:(reflexivity)).
Defined.
