(* ===== verification/Snapshot.v ===== *)
(** * Snapshots ([src/snapshot.rs])

    [save] at shutdown, [load_or_wipe] at startup. CBOR is an interface: what
    was encoded decodes to itself. The statistics that are only logged are
    left out. *)
From S2P Require Import Prelude Digest Env Config State.

Definition SNAPSHOT_VERSION : N := 2.
Definition SNAPSHOT_FILENAME : bytes := $"snapshot.cbor".
Definition SNAPSHOT_TMP : bytes := $"snapshot.cbor.tmp".
Definition SNAPSHOT_INLINE_THRESHOLD : N := 1024.

(** ** The format *)
Record TagEntry : Type := mkTagEntry { te_repo : bytes; te_reference : bytes; te_digest : bytes }.

Record ManifestEntry : Type := mkManifestEntry {
  me_digest : bytes; me_media_type : bytes; me_last_used : N; me_content : bytes; me_evicted : bool
}.

Record BlobEntry : Type := mkBlobEntry {
  be_digest : bytes; be_media_type : bytes; be_size : N; be_last_accessed : N; be_id : N;
  be_content : option bytes
}.

Record RedisEntryEntry : Type := mkRedisEntryEntry {
  re_key : bytes; re_id : N; re_value : option bytes; re_last_accessed : N; re_size : N
}.

Record Snapshot : Type := mkSnapshot {
  sn_version : N;
  sn_tags : list TagEntry;
  sn_manifests : list ManifestEntry;
  sn_blobs : list BlobEntry;
  sn_redis_entries : list RedisEntryEntry;
  sn_next_id : N
}.

(** [ciborium::into_writer] into a vector, and [ciborium::from_reader]. *)
Class Cbor := {
  into_writer : Snapshot -> option bytes;
  from_reader : bytes -> option Snapshot;
  cbor_law : forall sn b, into_writer sn = Some b -> from_reader b = Some sn
}.

Section snapshot.
Context {SHA : Sha256} {ITER : MapIter} {CBOR : Cbor}.

Definition snapshot_path (s : State) : bytes := path_join (data_folder (config s)) SNAPSHOT_FILENAME.
Definition snapshot_tmp_path (s : State) : bytes := path_join (data_folder (config s)) SNAPSHOT_TMP.

(** ** Saving *)

(** The shard directory of an id, and a spill into it. *)
Definition shard_dir (s : State) (id : N) : bytes :=
  path_join (blobs_dir s) (drop 14 (hex_pad 16 id)).

Definition spill (io : Io) (id : N) (content : bytes) (s : State) : State * bool :=
  if io_create_dir io (shard_dir s id) then
    let '(d, r) := fs_write io (cache_path s id) content (disk s) in (set_disk d s, is_ok r)
  else (s, false).

(** The loop over the blobs; [None] is the early return. *)
Definition save_blob (io : Io) (digest : Digest) (blob : Blob.t) (s : State)
  : State * option BlobEntry :=
  let d := digest_to_string digest in
  match blob with
  | Blob.OnDisk id size mt la => (s, Some (mkBlobEntry d mt size la id None))
  | Blob.InMemory id content mt la =>
      if (blen content <=? SNAPSHOT_INLINE_THRESHOLD)%N
      then (s, Some (mkBlobEntry d mt (blen content) la id (Some content)))
      else
        let '(s1, ok) := spill io id content s in
        (s1, if ok : bool then Some (mkBlobEntry d mt (blen content) la id None) else None)
  end.

Fixpoint save_blobs (io : Io) (l : list (Digest * Blob.t)) (s : State)
  : State * option (list BlobEntry) :=
  match l with
  | [] => (s, Some [])
  | (d, b) :: l' =>
      match save_blob io d b s with
      | (s1, None) => (s1, None)
      | (s1, Some e) => let '(s2, r) := save_blobs io l' s1 in (s2, cons e <$> r)
      end
  end.

(** The loop over the redis entries. *)
Definition save_redis_entry (io : Io) (key : bytes) (entry : RedisEntry.t) (s : State)
  : State * option RedisEntryEntry :=
  match entry with
  | RedisEntry.InMemory value id la =>
      if (blen value <=? SNAPSHOT_INLINE_THRESHOLD)%N
      then (s, Some (mkRedisEntryEntry key id (Some value) la (blen value)))
      else
        let '(s1, ok) := spill io id value s in
        (s1, if ok : bool then Some (mkRedisEntryEntry key id None la (blen value)) else None)
  | RedisEntry.OnDisk size id la => (s, Some (mkRedisEntryEntry key id None la size))
  end.

Fixpoint save_redis (io : Io) (l : list (bytes * RedisEntry.t)) (s : State)
  : State * option (list RedisEntryEntry) :=
  match l with
  | [] => (s, Some [])
  | (k, e) :: l' =>
      match save_redis_entry io k e s with
      | (s1, None) => (s1, None)
      | (s1, Some x) => let '(s2, r) := save_redis io l' s1 in (s2, cons x <$> r)
      end
  end.

Definition manifest_entry (e : Digest * Manifest) : ManifestEntry :=
  mkManifestEntry (digest_to_string e.1) (m_media_type e.2) (m_last_used e.2) (m_content e.2)
    (m_evicted e.2).
Definition tag_entry (e : (bytes * bytes) * Digest) : TagEntry :=
  mkTagEntry e.1.1 e.1.2 (digest_to_string e.2).

(** The write of the temporary file and the rename. *)
Definition commit_snapshot (io : Io) (buf : bytes) (s : State) : State * bool :=
  let '(d, r) := fs_write io (snapshot_tmp_path s) buf (disk s) in
  match r with
  | Err _ => (set_disk d s, false)
  | Ok _ =>
      let '(d', r') := fs_rename io (snapshot_tmp_path s) (snapshot_path s) d in
      (set_disk d' s, is_ok r')
  end.

(** [save]: the state (its disk) after the call, and whether it returned [Ok]. *)
Definition save (io : Io) (s : State) : State * bool :=
  match save_blobs io (map_iter (blobs s)) s with
  | (s1, None) => (s1, false)
  | (s1, Some blob_entries) =>
      let ms := map manifest_entry (map_iter (manifests s1)) in
      let ts := map tag_entry (map_iter (tags s1)) in
      match save_redis io (map_iter (redis_entries s1)) s1 with
      | (s2, None) => (s2, false)
      | (s2, Some redis) =>
          let snap := mkSnapshot SNAPSHOT_VERSION ts ms blob_entries redis (next_id s2) in
          if negb (io_create_dir io (data_folder (config s2))) then (s2, false)
          else
            match into_writer snap with
            | None => (s2, false)
            | Some buf => commit_snapshot io buf s2
            end
      end
  end.

(** ** [recompute_usage]

    The locals: seven [i64] counters, three oldest times. *)
Record Totals : Type := mkTotals { t_usage : Bucket -> Z; t_small : N; t_large : N; t_disk : N }.

Definition t_add (b : Bucket) (n : N) (t : Totals) : Totals :=
  mkTotals (<[b := wrap_i64 (t_usage t b + wrap_i64 (Z.of_N n))]> (t_usage t))
    (t_small t) (t_large t) (t_disk t).
Definition touch_small (la : N) (t : Totals) : Totals :=
  mkTotals (t_usage t) (N.min (t_small t) la) (t_large t) (t_disk t).
Definition touch_large (la : N) (t : Totals) : Totals :=
  mkTotals (t_usage t) (t_small t) (N.min (t_large t) la) (t_disk t).
Definition touch_disk (la : N) (t : Totals) : Totals :=
  mkTotals (t_usage t) (t_small t) (t_large t) (N.min (t_disk t) la).

Definition total_manifest (t : Totals) (e : Digest * Manifest) : Totals :=
  touch_small (m_last_used e.2) (t_add manifest_memory_usage (blen (m_content e.2)) t).

Definition total_blob (t : Totals) (e : Digest * Blob.t) : Totals :=
  let la := Blob.last_accessed e.2 in
  match e.2 with
  | Blob.InMemory _ content _ _ =>
      if (MEMORY_TIER_THRESHOLD <? blen content)%N
      then touch_large la (t_add large_blob_memory_usage (blen content) t)
      else touch_small la (t_add small_blob_memory_usage (blen content) t)
  | Blob.OnDisk _ size _ _ => touch_disk la (t_add blob_disk_usage size t)
  end.

Definition total_redis (t : Totals) (e : bytes * RedisEntry.t) : Totals :=
  let t1 := t_add small_redis_memory_usage (blen e.1) t in
  match e.2 with
  | RedisEntry.InMemory value _ la =>
      if (MEMORY_TIER_THRESHOLD <? blen value)%N
      then touch_large la (t_add large_redis_memory_usage (blen value) t1)
      else touch_small la (t_add small_redis_memory_usage (blen value) t1)
  | RedisEntry.OnDisk size _ la => touch_disk la (t_add redis_disk_usage size t1)
  end.

Definition totals (s : State) : Totals :=
  let t0 := mkTotals (fun _ => 0%Z) (U64 - 1) (U64 - 1) (U64 - 1) in
  let t1 := foldl total_manifest t0 (map_iter (manifests s)) in
  let t2 := foldl total_blob t1 (map_iter (blobs s)) in
  foldl total_redis t2 (map_iter (redis_entries s)).

Definition fallback (s : State) (v : N) : N := if (v =? U64 - 1)%N then now s else v.

Definition recompute_usage (s : State) : State :=
  let t := totals s in
  let s1 := usage_store redis_disk_usage (t_usage t redis_disk_usage)
    (usage_store blob_disk_usage (t_usage t blob_disk_usage)
      (usage_store large_redis_memory_usage (t_usage t large_redis_memory_usage)
        (usage_store small_redis_memory_usage (t_usage t small_redis_memory_usage)
          (usage_store large_blob_memory_usage (t_usage t large_blob_memory_usage)
            (usage_store small_blob_memory_usage (t_usage t small_blob_memory_usage)
              (usage_store manifest_memory_usage (t_usage t manifest_memory_usage) s)))))) in
  metric_store oldest_disk_touch_time (fallback s (t_disk t))
    (metric_store oldest_large_memory_touch_time (fallback s (t_large t))
      (metric_store oldest_small_memory_touch_time (fallback s (t_small t)) s1)).

(** ** Loading *)
Inductive LoadError : Type := Missing | Other.

Definition load_manifest (s : State) (m : ManifestEntry) : State :=
  match digest_from_str (me_digest m) with
  | None => s
  | Some d =>
      set_manifests (<[d := mkManifest (me_content m) (me_media_type m) (me_last_used m)
                              (me_evicted m)]> (manifests s)) s
  end.

Definition load_blob (io : Io) (s : State) (b : BlobEntry) : State :=
  match digest_from_str (be_digest b) with
  | None => s
  | Some d =>
      match be_content b with
      | Some content =>
          set_blobs (<[d := Blob.InMemory (be_id b) content (be_media_type b) (be_last_accessed b)]>
                       (blobs s)) s
      | None =>
          match fs_metadata_len io (cache_path s (be_id b)) (disk s) with
          | Ok len =>
              if (len =? be_size b)%N
              then set_blobs (<[d := Blob.OnDisk (be_id b) (be_size b) (be_media_type b)
                                       (be_last_accessed b)]> (blobs s)) s
              else s
          | Err _ => s
          end
      end
  end.

Definition load_tag (s : State) (t : TagEntry) : State :=
  match digest_from_str (te_digest t) with
  | None => s
  | Some d => set_tags (<[(te_repo t, te_reference t) := d]> (tags s)) s
  end.

Definition load_redis (s : State) (r : RedisEntryEntry) : State :=
  let e := match re_value r with
           | Some value => RedisEntry.InMemory value (re_id r) (re_last_accessed r)
           | None => RedisEntry.OnDisk (re_size r) (re_id r) (re_last_accessed r)
           end in
  set_redis_entries (<[re_key r := e]> (redis_entries s)) s.

Definition load_snapshot (io : Io) (snap : Snapshot) (s : State) : State :=
  let s1 := foldl load_manifest s (sn_manifests snap) in
  let s2 := foldl (load_blob io) s1 (sn_blobs snap) in
  let s3 := foldl load_tag s2 (sn_tags snap) in
  let s4 := foldl load_redis s3 (sn_redis_entries snap) in
  set_next_id (sn_next_id snap) (recompute_usage s4).

Definition load (io : Io) (s : State) : result LoadError State :=
  match fs_read io (snapshot_path s) (disk s) with
  | Err NotFound => Err Missing
  | Err OtherError => Err Other
  | Ok buf =>
      match from_reader buf with
      | None => Err Other
      | Some snap =>
          if negb (sn_version snap =? SNAPSHOT_VERSION)%N then Err Other
          else Ok (load_snapshot io snap s)
      end
  end.

Definition wipe_cache (io : Io) (s : State) : State :=
  let s1 := set_disk (fs_remove_dir_all io (blobs_dir s) (disk s)) s in
  let s2 := set_redis_entries ∅ (set_tags ∅ (set_manifests ∅ (set_blobs ∅ s1))) in
  set_next_id 0 (recompute_usage s2).

(** The state, and whether [load_or_wipe] returned [Ok]. *)
Definition load_or_wipe (io : Io) (s : State) : State * bool :=
  match load io s with
  | Ok s1 =>
      let '(d, r) := fs_remove io (snapshot_path s1) (disk s1) in (set_disk d s1, is_ok r)
  | Err Missing => (wipe_cache io s, true)
  | Err Other =>
      let s1 := wipe_cache io s in
      (set_disk (fs_remove io (snapshot_path s1) (disk s1)).1 s1, true)
  end.
End snapshot.
