(* ===== verification/SnapshotUsage.v ===== *)
(** * Snapshots: the recomputed counters *)
From S2P Require Import Prelude Digest Env Config State Accounting Snapshot.

Local Open Scope Z_scope.

Section usage.
Context {SHA : Sha256} {ITER : MapIter} {CBOR : Cbor}.
Implicit Types (s : State) (t : Totals).

(** The locals follow [f]. *)
Definition follows t (f : Bucket -> Z) : Prop := forall b, t_usage t b = wrap_i64 (f b).

Lemma follows_add t f b n :
  follows t f -> follows (t_add b n t) (fun b' => f b' + share b' (b, n)).
Proof.
  intros Ht b'. unfold t_add, share; simpl. destruct (decide (b = b')) as [->|Hne].
  - rewrite fn_lookup_insert, (Ht b'). apply wrap_i64_add.
  - rewrite fn_lookup_insert_ne, Z.add_0_r by done. apply Ht.
Qed.

Lemma follows_ext t f g : (forall b, f b = g b) -> follows t f -> follows t g.
Proof. intros Hfg Ht b. by rewrite (Ht b), Hfg. Qed.

Lemma follows_fold {A} (step : Totals -> A -> Totals) (sh : Bucket -> A -> Z) l t f :
  (forall t f a, follows t f -> follows (step t a) (fun b => f b + sh b a)) ->
  follows t f -> follows (foldl step t l) (fun b => f b + lsum (sh b) l).
Proof.
  intros Hstep. revert t f. induction l as [|a l IH]; intros t f Ht; simpl.
  - eapply follows_ext; [|exact Ht]. intros b. simpl. lia.
  - eapply follows_ext; [|apply IH, Hstep, Ht]. intros b. simpl. lia.
Qed.

Lemma totals_follow s : follows (totals s) (fun b => charge b s).
Proof.
  unfold totals.
  assert (H0 : follows (mkTotals (fun _ => 0) (U64 - 1) (U64 - 1) (U64 - 1)) (fun _ => 0))
    by (intros b; by rewrite wrap_i64_small by (unfold I63; lia)).
  pose proof (follows_fold total_manifest (fun b e => manifest_share b e.2) (map_iter (manifests s)) _ _
    (fun t f e H => follows_add _ _ manifest_memory_usage (blen (m_content e.2)) H) H0) as H1.
  assert (Hb : forall t f e, follows t f -> follows (total_blob t e) (fun b => f b + blob_share b e.2)).
  { intros t f [d b] Ht. unfold total_blob, blob_share. cbn [snd blob_bucket].
    destruct b as [id n mt la|id c mt la]; [exact (follows_add _ _ _ _ Ht)|]. cbn [blob_bucket].
    destruct (_ <? _)%N; exact (follows_add _ _ _ _ Ht). }
  pose proof (follows_fold total_blob _ (map_iter (blobs s)) _ _ Hb H1) as H2.
  assert (Hr : forall t f e, follows t f -> follows (total_redis t e) (fun b => f b + redis_share b e.1 e.2)).
  { intros t f [k e] Ht. unfold total_redis, redis_share. cbn [fst snd].
    pose proof (follows_add _ _ small_redis_memory_usage (blen k) Ht) as Hk.
    destruct e as [v id la|n id la]; cbn [redis_value_bucket]; [destruct (_ <? _)%N|];
      (eapply follows_ext; [|exact (follows_add _ _ _ _ Hk)]); intros b; simpl; lia. }
  pose proof (follows_fold total_redis _ (map_iter (redis_entries s)) _ _ Hr H2) as H3.
  eapply follows_ext; [|exact H3]. intros b. simpl. unfold charge.
  rewrite (lsum_map_iter (fun _ m => manifest_share b m)), (lsum_map_iter (fun _ bl => blob_share b bl)),
    (lsum_map_iter (redis_share b)). lia.
Qed.

Lemma recompute_usage_counter s b : usage (recompute_usage s) b = t_usage (totals s) b.
Proof.
  unfold recompute_usage. state_simpl.
  destruct b; repeat first [rewrite fn_lookup_insert | rewrite fn_lookup_insert_ne by done]; done.
Qed.

Lemma recompute_usage_Accounted s : Accounted (recompute_usage s).
Proof. intros b. rewrite recompute_usage_counter. exact (totals_follow s b). Qed.

(** Whatever the disk holds and whatever fails, startup ends with counters
    that are the bytes of the loaded (or emptied) maps. *)
Lemma load_or_wipe_Accounted io s : Accounted (load_or_wipe io s).1.
Proof.
  assert (Hwipe : Accounted (wipe_cache io s)) by apply set_next_id_Accounted, recompute_usage_Accounted.
  unfold load_or_wipe, load.
  destruct (fs_read io (snapshot_path s) (disk s)) as [buf|[]]; cbn [fst];
    [|exact Hwipe|by apply set_disk_Accounted].
  destruct (from_reader buf) as [snap|]; cbn [fst]; [|by apply set_disk_Accounted].
  destruct (negb _); cbn [fst]; [by apply set_disk_Accounted|].
  assert (Hl : Accounted (load_snapshot io snap s)) by apply set_next_id_Accounted, recompute_usage_Accounted.
  destruct (fs_remove _ _ _) as [d r]. cbn [fst]. by apply set_disk_Accounted.
Qed.

End usage.
