(* ===== verification/SnapshotRoundtrip.v ===== *)
(** * Snapshots: saving and loading

    What a successful [save] wrote, [load_or_wipe] restores; a failed [save]
    leaves the previous snapshot alone. *)
From S2P Require Import Prelude Digest Env Config State Disk Accounting Snapshot SnapshotUsage.

(** ** Folding insertions *)
Lemma foldl_insert {K} `{Countable K} {V} (l : list (K * V)) (m : gmap K V) :
  NoDup l.*1 -> foldl (fun m kv => <[kv.1 := kv.2]> m) m l = list_to_map l ∪ m.
Proof.
  revert m. induction l as [|[k v] l IH]; intros m Hnd; simpl.
  - by rewrite map_empty_union.
  - apply NoDup_cons in Hnd as [Hk Hnd]. simpl in *. rewrite IH by done.
    rewrite <- insert_union_l, <- insert_union_r; [done|].
    by apply not_elem_of_list_to_map_1.
Qed.

Lemma foldl_insert_iter `{!MapIter} {K} `{Countable K} {V W} (f : V -> W) (m : gmap K V) :
  foldl (fun m kv => <[kv.1 := f kv.2]> m) ∅ (map_iter m) = f <$> m.
Proof.
  transitivity (foldl (fun m kv => <[kv.1 := kv.2]> m) (∅ : gmap K W)
    (prod_map id f <$> map_iter m)).
  { generalize (∅ : gmap K W). induction (map_iter m) as [|[k v] l IH]; intros m0; simpl; [done|].
    apply IH. }
  rewrite foldl_insert.
  - rewrite map_union_empty, list_to_map_fmap, list_to_map_iter. done.
  - rewrite <- list_fmap_compose. apply (NoDup_map_iter_fst m).
Qed.

Section roundtrip.
Context {SHA : Sha256} {ITER : MapIter} {CBOR : Cbor}.
Implicit Types (s : State) (io : Io).

(** ** What [save] writes *)

(** The file an entry is spilled to: its id and content. *)
Definition blob_spill (b : Blob.t) : option (N * bytes) :=
  match b with
  | Blob.InMemory id c _ _ => if (blen c <=? SNAPSHOT_INLINE_THRESHOLD)%N then None else Some (id, c)
  | Blob.OnDisk _ _ _ _ => None
  end.
Definition redis_spill (e : RedisEntry.t) : option (N * bytes) :=
  match e with
  | RedisEntry.InMemory c id _ => if (blen c <=? SNAPSHOT_INLINE_THRESHOLD)%N then None else Some (id, c)
  | RedisEntry.OnDisk _ _ _ => None
  end.

Definition spill_all s (l : list (N * bytes)) (d : FileSystem) : FileSystem :=
  foldl (fun d f => <[cache_path s f.1 := f.2]> d) d l.

(** The entries of the snapshot. *)
Definition blob_entry (e : Digest * Blob.t) : BlobEntry :=
  let d := digest_to_string e.1 in
  match e.2 with
  | Blob.OnDisk id size mt la => mkBlobEntry d mt size la id None
  | Blob.InMemory id c mt la =>
      mkBlobEntry d mt (blen c) la id (if (blen c <=? SNAPSHOT_INLINE_THRESHOLD)%N then Some c else None)
  end.
Definition redis_entry (e : bytes * RedisEntry.t) : RedisEntryEntry :=
  match e.2 with
  | RedisEntry.OnDisk size id la => mkRedisEntryEntry e.1 id None la size
  | RedisEntry.InMemory c id la =>
      mkRedisEntryEntry e.1 id (if (blen c <=? SNAPSHOT_INLINE_THRESHOLD)%N then Some c else None) la (blen c)
  end.

(** The disk changes by whole or partial writes of cache files only. *)
Lemma spill_spec io id c s :
  exists d, (spill io id c s).1 = set_disk d s /\
    (forall q, q <> cache_path s id -> d !! q = disk s !! q) /\
    ((spill io id c s).2 = true -> d = <[cache_path s id := c]> (disk s)).
Proof.
  unfold spill. destruct (io_create_dir io _); [|exists (disk s); by destruct s].
  unfold fs_write. destruct (io_write io _) as [|[part|]]; simpl; eexists; (split; [done|split; [|done]]);
    intros; by rewrite ?lookup_insert_ne.
Qed.

(** Only files named after ids change. *)
Definition only_cache s (d : FileSystem) : Prop :=
  forall q, (forall i, q <> cache_path s i) -> d !! q = disk s !! q.

Lemma save_blobs_spec io l s :
  exists d, (save_blobs io l s).1 = set_disk d s /\ only_cache s d /\
    forall es, (save_blobs io l s).2 = Some es ->
      es = blob_entry <$> l /\ d = spill_all s (omap blob_spill l.*2) (disk s).
Proof.
  revert s. induction l as [|[k b] l IH]; intros s.
  { exists (disk s). split_and!; [by destruct s|done|]. by intros es [= <-]. }
  cbn [save_blobs]. unfold save_blob.
  destruct b as [id n mt la|id c mt la].
  - cbv beta iota zeta. destruct (IH s) as (d & H1 & Ho & H2). destruct (save_blobs io l s) as [s2 r]. simpl in *.
    exists d. split_and!; [done|done|]. intros es. destruct r as [r|]; cbn; [|done]. intros [= <-].
    destruct (H2 r eq_refl) as [-> ->]. done.
  - destruct (blen c <=? SNAPSHOT_INLINE_THRESHOLD)%N eqn:Ec.
    + cbv beta iota zeta. destruct (IH s) as (d & H1 & Ho & H2). destruct (save_blobs io l s) as [s2 r]. simpl in *.
      exists d. split_and!; [done|done|]. intros es. destruct r as [r|]; cbn; [|done]. intros [= <-].
      destruct (H2 r eq_refl) as [-> ->]. unfold blob_entry at 2. simpl. by rewrite Ec.
    + destruct (spill_spec io id c s) as (d1 & Hs1 & Ho1 & Hok).
      destruct (spill io id c s) as [s1 ok]. simpl in Hs1, Hok. subst s1.
      destruct ok.
      * cbv beta iota zeta. specialize (Hok eq_refl). subst d1.
        destruct (IH (set_disk (<[cache_path s id := c]> (disk s)) s)) as (d & H1 & Ho & H2).
        destruct (save_blobs io l _) as [s2 r]. simpl in *.
        exists d. split_and!; [done| |].
        { intros q Hq. rewrite Ho by exact Hq. simpl. by rewrite lookup_insert_ne. }
        intros es. destruct r as [r|]; cbn; [|done]. intros [= <-].
        destruct (H2 r eq_refl) as [-> ->]. unfold blob_entry at 2. simpl. rewrite Ec. done.
      * exists d1. split_and!; [done| |done]. intros q Hq. by apply Ho1.
Qed.

Lemma save_redis_spec io l s :
  exists d, (save_redis io l s).1 = set_disk d s /\ only_cache s d /\
    forall es, (save_redis io l s).2 = Some es ->
      es = redis_entry <$> l /\ d = spill_all s (omap redis_spill l.*2) (disk s).
Proof.
  revert s. induction l as [|[k b] l IH]; intros s.
  { exists (disk s). split_and!; [by destruct s|done|]. by intros es [= <-]. }
  cbn [save_redis]. unfold save_redis_entry.
  destruct b as [c id la|n id la].
  - destruct (blen c <=? SNAPSHOT_INLINE_THRESHOLD)%N eqn:Ec.
    + cbv beta iota zeta. destruct (IH s) as (d & H1 & Ho & H2). destruct (save_redis io l s) as [s2 r]. simpl in *.
      exists d. split_and!; [done|done|]. intros es. destruct r as [r|]; cbn; [|done]. intros [= <-].
      destruct (H2 r eq_refl) as [-> ->]. unfold redis_entry at 2. simpl. by rewrite Ec.
    + destruct (spill_spec io id c s) as (d1 & Hs1 & Ho1 & Hok).
      destruct (spill io id c s) as [s1 ok]. simpl in Hs1, Hok. subst s1.
      destruct ok.
      * cbv beta iota zeta. specialize (Hok eq_refl). subst d1.
        destruct (IH (set_disk (<[cache_path s id := c]> (disk s)) s)) as (d & H1 & Ho & H2).
        destruct (save_redis io l _) as [s2 r]. simpl in *.
        exists d. split_and!; [done| |].
        { intros q Hq. rewrite Ho by exact Hq. simpl. by rewrite lookup_insert_ne. }
        intros es. destruct r as [r|]; cbn; [|done]. intros [= <-].
        destruct (H2 r eq_refl) as [-> ->]. unfold redis_entry at 2. simpl. rewrite Ec. done.
      * exists d1. split_and!; [done| |done]. intros q Hq. by apply Ho1.
  - cbv beta iota zeta. destruct (IH s) as (d & H1 & Ho & H2). destruct (save_redis io l s) as [s2 r]. simpl in *.
    exists d. split_and!; [done|done|]. intros es. destruct r as [r|]; cbn; [|done]. intros [= <-].
    destruct (H2 r eq_refl) as [-> ->]. done.
Qed.

(** ** The snapshot paths are not cache paths *)
Lemma last_path_join base c : c <> [] -> last (path_join base c) = last c.
Proof.
  intros Hc. destruct (path_join_suffix base c) as [p ->].
  rewrite last_app. destruct (last c) eqn:E; [done|]. by apply last_None in E.
Qed.

Lemma hex_pad_last n : exists x, last (hex_pad 16 n) = Some (hex_digit x) /\ (x < 16)%N.
Proof.
  exists (N.land n 15). split; [apply last_snoc|]. change 15%N with (N.ones 4).
  rewrite N.land_ones. by apply N.mod_lt.
Qed.

Lemma hex_digit_range x : (x < 16)%N -> hex_digit x <> "r"%char /\ hex_digit x <> "p"%char.
Proof.
  intros Hx.
  assert (H : forallb (fun n => negb (Ascii.eqb (hex_digit (N.of_nat n)) "r"%char) &&
    negb (Ascii.eqb (hex_digit (N.of_nat n)) "p"%char)) (seq 0 16) = true) by (vm_compute; reflexivity).
  rewrite forallb_forall in H. specialize (H (N.to_nat x) ltac:(apply in_seq; lia)).
  rewrite N2Nat.id in H. apply andb_prop in H as [H1 H2].
  split; intros E; rewrite E in *; done.
Qed.

Lemma cache_path_not_snapshot s i :
  snapshot_path s <> cache_path s i /\ snapshot_tmp_path s <> cache_path s i /\
  snapshot_tmp_path s <> snapshot_path s.
Proof.
  destruct (hex_pad_last i) as (x & Hl & Hx). destruct (hex_digit_range x Hx) as [H1 H2].
  assert (Hc : last (cache_path s i) = Some (hex_digit x)).
  { unfold cache_path. rewrite last_path_join; [done|]. by rewrite <- length_zero_iff_nil, length_hex_pad. }
  assert (Hp : last (snapshot_path s) = Some "r"%char) by (unfold snapshot_path; by rewrite last_path_join).
  assert (Ht : last (snapshot_tmp_path s) = Some "p"%char) by (unfold snapshot_tmp_path; by rewrite last_path_join).
  split_and!; intros E; congruence.
Qed.

(** ** The files after the spills *)
Lemma spill_all_app s l l' d : spill_all s (l ++ l') d = spill_all s l' (spill_all s l d).
Proof. apply foldl_app. Qed.

Lemma spill_all_other s l d q :
  (forall f, f ∈ l -> q <> cache_path s f.1) -> spill_all s l d !! q = d !! q.
Proof.
  intros Hq. unfold spill_all. apply (foldl_inv (fun d' => d' !! q = d !! q)); [done|].
  intros d' f Hf <-. apply lookup_insert_ne. by apply not_eq_sym, Hq.
Qed.

Lemma spill_all_lookup s l d id c :
  (id < U64)%N -> (forall f, f ∈ l -> (f.1 < U64)%N) -> (forall c', (id, c') ∈ l -> c' = c) ->
  (id, c) ∈ l -> spill_all s l d !! cache_path s id = Some c.
Proof.
  intros Hid. induction l as [|[i x] l IH] using rev_ind; intros Hlt Hfun Hin;
    [by apply elem_of_nil in Hin|].
  rewrite spill_all_app. cbn. destruct (decide (i = id)) as [->|Hne].
  - rewrite lookup_insert_eq. f_equal. apply Hfun, elem_of_app. right. left.
  - assert (Hi : (i < U64)%N) by (apply (Hlt (i, x)), elem_of_app; right; left).
    rewrite lookup_insert_ne by (intros He; apply cache_path_inj in He; done).
    apply IH.
    + intros f Hf. apply Hlt, elem_of_app. by left.
    + intros c' Hc'. apply Hfun, elem_of_app. by left.
    + apply elem_of_app in Hin as [?|Hin%list_elem_of_singleton]; [done|congruence].
Qed.

(** All spills of [save]. *)
Definition spills s : list (N * bytes) :=
  omap blob_spill (map_iter (blobs s)).*2 ++ omap redis_spill (map_iter (redis_entries s)).*2.

(** The spilled content of an owner. *)
Definition owner_spill s (o : owner) : option (N * bytes) :=
  match o with
  | OBlob d => blobs s !! d ≫= blob_spill
  | ORedis k => redis_entries s !! k ≫= redis_spill
  end.

Lemma elem_of_spills s f : f ∈ spills s <-> exists o, owner_spill s o = Some f.
Proof.
  unfold spills. rewrite elem_of_app, !list_elem_of_omap. split.
  - intros [(b & Hb & Hf)|(e & He & Hf)].
    + apply list_elem_of_fmap in Hb as ([d b'] & -> & Hin%elem_of_map_iter).
      exists (OBlob d). cbn. by rewrite Hin.
    + apply list_elem_of_fmap in He as ([k e'] & -> & Hin%elem_of_map_iter).
      exists (ORedis k). cbn. by rewrite Hin.
  - intros [[d|k] Ho]; cbn in Ho; [left|right].
    + destruct (blobs s !! d) as [b|] eqn:E; [|done]. exists b. split; [|done].
      apply list_elem_of_fmap. exists (d, b). split; [done|]. by apply elem_of_map_iter.
    + destruct (redis_entries s !! k) as [e|] eqn:E; [|done]. exists e. split; [|done].
      apply list_elem_of_fmap. exists (k, e). split; [done|]. by apply elem_of_map_iter.
Qed.

Lemma owner_spill_id s o i c :
  owner_spill s o = Some (i, c) -> owner_id s o = Some i /\ on_disk_size s o = None /\ stored s o = Some c.
Proof.
  destruct o as [d|k]; cbn; [destruct (blobs s !! d) as [[]|]|destruct (redis_entries s !! k) as [[]|]];
    cbn; try done; case_match; try done; by intros [= <- <-].
Qed.

(** Files of on-disk owners are left alone, and spilled contents are there. *)
Lemma spills_disk s :
  ids_ok s ->
  (forall o i n, on_disk_size s o = Some (i, n) ->
     spill_all s (spills s) (disk s) !! cache_path s i = disk s !! cache_path s i) /\
  (forall o i c, owner_spill s o = Some (i, c) ->
     spill_all s (spills s) (disk s) !! cache_path s i = Some c).
Proof.
  intros Hs. pose proof (id_max _ Hs) as Hmax.
  assert (Hlt : forall f, f ∈ spills s -> (f.1 < U64)%N).
  { intros [i c] (o & Ho)%elem_of_spills. apply owner_spill_id in Ho as (Hi & _ & _).
    pose proof (id_lt _ Hs _ _ Hi). simpl. lia. }
  split.
  - intros o i n Ho. apply spill_all_other. intros [i' c] Hf. simpl.
    pose proof (on_disk_owner _ _ _ _ Ho) as Hi.
    apply elem_of_spills in Hf as (o' & Ho'). apply owner_spill_id in Ho' as (Hi' & Hn & _).
    apply (owner_path_ne s o o'); [done..|]. intros ->. congruence.
  - intros o i c Ho. pose proof (owner_spill_id _ _ _ _ Ho) as (Hi & _ & Hst).
    pose proof (id_lt _ Hs _ _ Hi).
    apply spill_all_lookup; [lia|done| |apply elem_of_spills; by exists o].
    intros c' (o' & Ho')%elem_of_spills. apply owner_spill_id in Ho' as (Hi' & _ & Hst').
    rewrite (id_inj _ Hs _ _ _ Hi Hi') in Hst. congruence.
Qed.
End roundtrip.
