(* ===== verification/SnapshotLoad.v ===== *)
(** * Snapshots: what a restart restores *)
From S2P Require Import Prelude Digest Env Config State Disk Accounting Snapshot SnapshotUsage.
From S2P Require Import SnapshotRoundtrip.

Section load.
Context {SHA : Sha256} {ITER : MapIter} {CBOR : Cbor}.
Implicit Types (s : State) (io : Io).

(** ** What comes back of an entry: the spilled ones come back on disk *)
Definition loaded_blob (b : Blob.t) : Blob.t :=
  match b with
  | Blob.InMemory id c mt la =>
      if (blen c <=? SNAPSHOT_INLINE_THRESHOLD)%N then b else Blob.OnDisk id (blen c) mt la
  | Blob.OnDisk _ _ _ _ => b
  end.
Definition loaded_redis (e : RedisEntry.t) : RedisEntry.t :=
  match e with
  | RedisEntry.InMemory c id la =>
      if (blen c <=? SNAPSHOT_INLINE_THRESHOLD)%N then e else RedisEntry.OnDisk (blen c) id la
  | RedisEntry.OnDisk _ _ _ => e
  end.

(** ** The loading loops as map insertions *)
Lemma load_manifests_spec l s :
  foldl load_manifest s (map manifest_entry l) =
  set_manifests (foldl (fun m kv => <[kv.1 := kv.2]> m) (manifests s) l) s.
Proof.
  revert s. induction l as [|[d m] l IH]; intros s; [by destruct s|].
  cbn [map foldl]. rewrite IH. unfold load_manifest, manifest_entry. simpl.
  rewrite digest_from_to_string. destruct m. done.
Qed.

Lemma load_tags_spec l s :
  foldl load_tag s (map tag_entry l) =
  set_tags (foldl (fun m kv => <[kv.1 := kv.2]> m) (tags s) l) s.
Proof.
  revert s. induction l as [|[[r t] d] l IH]; intros s; [by destruct s|].
  cbn [map foldl]. rewrite IH. unfold load_tag, tag_entry. simpl. rewrite digest_from_to_string. done.
Qed.

Lemma load_redis_spec l s :
  foldl load_redis s (redis_entry <$> l) =
  set_redis_entries (foldl (fun m kv => <[kv.1 := loaded_redis kv.2]> m) (redis_entries s) l) s.
Proof.
  revert s. induction l as [|[k e] l IH]; intros s; [by destruct s|].
  cbn [fmap list_fmap foldl]. rewrite IH. unfold load_redis, redis_entry. simpl.
  destruct e as [c id la|n id la]; simpl; [destruct (_ <=? _)%N|]; done.
Qed.

(** Every blob's file is there with the recorded length. *)
Definition loadable s (d' : FileSystem) (b : Blob.t) : Prop :=
  match loaded_blob b with
  | Blob.OnDisk id n _ _ => exists c, d' !! cache_path s id = Some c /\ blen c = n
  | Blob.InMemory _ _ _ _ => True
  end.

Lemma load_blobs_spec io l s :
  (forall p, io_metadata io p = true) ->
  (forall e, e ∈ l -> loadable s (disk s) e.2) ->
  foldl (load_blob io) s (blob_entry <$> l) =
  set_blobs (foldl (fun m kv => <[kv.1 := loaded_blob kv.2]> m) (blobs s) l) s.
Proof.
  intros Hio. revert s. induction l as [|[d b] l IH]; intros s Hl; [by destruct s|].
  cbn [fmap list_fmap foldl].
  assert (Hb : load_blob io s (blob_entry (d, b)) = set_blobs (<[d := loaded_blob b]> (blobs s)) s).
  { specialize (Hl (d, b) ltac:(left)). unfold loadable, loaded_blob in *. cbn [snd] in Hl.
    unfold load_blob, blob_entry. destruct b as [id n mt la|id c mt la]; simpl;
      rewrite digest_from_to_string; [|destruct (_ <=? _)%N; [done|]];
      destruct Hl as (c' & Hd & Hn); unfold fs_metadata_len; rewrite Hd, Hio, Hn, N.eqb_refl; done. }
  rewrite Hb. etrans; [|symmetry; reflexivity].
  rewrite IH; [done|]. intros e He. apply (Hl e). by right.
Qed.

(** ** A successful save *)
Lemma save_spec io s s1 :
  save io s = (s1, true) ->
  exists buf, into_writer (mkSnapshot SNAPSHOT_VERSION (map tag_entry (map_iter (tags s)))
      (map manifest_entry (map_iter (manifests s))) (blob_entry <$> map_iter (blobs s))
      (redis_entry <$> map_iter (redis_entries s)) (next_id s)) = Some buf /\
    s1 = set_disk (<[snapshot_path s := buf]> (delete (snapshot_tmp_path s)
      (<[snapshot_tmp_path s := buf]> (spill_all s (spills s) (disk s))))) s.
Proof.
  unfold save. destruct (save_blobs_spec io (map_iter (blobs s)) s) as (d1 & H1 & _ & Hes).
  destruct (save_blobs io _ s) as [t1 [es|]]; [|done]. simpl in H1, Hes. subst t1.
  destruct (Hes es eq_refl) as [-> ->]. clear Hes.
  set (d1 := spill_all s _ (disk s)).
  destruct (save_redis_spec io (map_iter (redis_entries (set_disk d1 s))) (set_disk d1 s))
    as (d2 & H2 & _ & Hrs).
  destruct (save_redis io _ (set_disk d1 s)) as [t2 [rs|]]; [|done]. simpl in H2, Hrs. subst t2.
  destruct (Hrs rs eq_refl) as [-> ->]. clear Hrs.
  destruct (negb _); [done|].
  destruct (into_writer _) as [buf|] eqn:Ew; [|done].
  unfold commit_snapshot, fs_write. destruct (io_write io _) as [|[part|]]; [|done..].
  unfold fs_rename. rewrite lookup_insert_eq.
  destruct (io_rename io _); [|done]. intros [= <-].
  exists buf. rewrite <- Ew. split; [reflexivity|]. unfold spills. rewrite spill_all_app. reflexivity.
Qed.

(** ** The round trip *)
Definition io_reads (io : Io) : Prop :=
  forall p, io_read io p = true /\ io_metadata io p = true /\ io_remove io p = true.

(** The disk [save] leaves, away from the two snapshot paths. *)
Lemma saved_disk_cache s buf i :
  (<[snapshot_path s := buf]> (delete (snapshot_tmp_path s)
    (<[snapshot_tmp_path s := buf]> (spill_all s (spills s) (disk s))))) !! cache_path s i =
  spill_all s (spills s) (disk s) !! cache_path s i.
Proof.
  destruct (cache_path_not_snapshot s i) as (H1 & H2 & _).
  by rewrite lookup_insert_ne, lookup_delete_ne, lookup_insert_ne by done.
Qed.

Lemma loaded_stored s s2 :
  ids_ok s -> config s2 = config s ->
  blobs s2 = loaded_blob <$> blobs s -> redis_entries s2 = loaded_redis <$> redis_entries s ->
  (forall i, disk s2 !! cache_path s i = spill_all s (spills s) (disk s) !! cache_path s i) ->
  forall o, stored s2 o = stored s o /\ owner_id s2 o = owner_id s o.
Proof.
  intros Hs Hc Hb Hr Hd o. destruct (spills_disk s Hs) as [Hold Hnew].
  destruct o as [d|k]; cbn [stored owner_id]; [rewrite Hb|rewrite Hr]; rewrite lookup_fmap.
  - pose proof (Hold (OBlob d)) as Ho. pose proof (Hnew (OBlob d)) as Hn.
    cbn [on_disk_size owner_spill] in Ho, Hn.
    destruct (blobs s !! d) as [[id n mt la|id c mt la]|]; [| |done].
    + split; [|done]. simpl. by rewrite (cache_path_config s2 s), Hd, (Ho _ _ eq_refl) by done.
    + cbn [fmap option_fmap option_map loaded_blob mbind option_bind blob_spill] in *.
      destruct (blen c <=? _)%N; [done|]. split; [|done].
      by rewrite (cache_path_config s2 s), Hd, (Hn _ _ eq_refl) by done.
  - pose proof (Hold (ORedis k)) as Ho. pose proof (Hnew (ORedis k)) as Hn.
    cbn [on_disk_size owner_spill] in Ho, Hn.
    destruct (redis_entries s !! k) as [[c id la|n id la]|]; [| |done].
    + cbn [fmap option_fmap option_map loaded_redis mbind option_bind redis_spill] in *.
      destruct (blen c <=? _)%N; [done|]. split; [|done].
      by rewrite (cache_path_config s2 s), Hd, (Hn _ _ eq_refl) by done.
    + split; [|done]. simpl. by rewrite (cache_path_config s2 s), Hd, (Ho _ _ eq_refl) by done.
Qed.

(** The snapshot of a state, and the disk a successful [save] leaves. *)
Definition snapshot_of s : Snapshot :=
  mkSnapshot SNAPSHOT_VERSION (map tag_entry (map_iter (tags s)))
    (map manifest_entry (map_iter (manifests s))) (blob_entry <$> map_iter (blobs s))
    (redis_entry <$> map_iter (redis_entries s)) (next_id s).
Definition saved_disk s (buf : bytes) : FileSystem :=
  <[snapshot_path s := buf]> (delete (snapshot_tmp_path s)
    (<[snapshot_tmp_path s := buf]> (spill_all s (spills s) (disk s)))).

(** A blob that was saved can be loaded. *)
Lemma saved_loadable s s' buf e :
  ids_ok s -> blob_files_ok s -> config s' = config s -> e ∈ map_iter (blobs s) ->
  loadable s' (saved_disk s buf) e.2.
Proof.
  intros Hs Hfiles Hc Hin. destruct e as [d b]. apply elem_of_map_iter in Hin. simpl. unfold loadable.
  destruct (spills_disk s Hs) as [Hold Hnew].
  specialize (Hold (OBlob d)). specialize (Hnew (OBlob d)). cbn [on_disk_size owner_spill] in Hold, Hnew.
  rewrite Hin in Hold, Hnew. destruct b as [id n mt la|id c mt la]; simpl.
  - destruct (Hfiles d id n mt la Hin) as (c & Hd & Hn). exists c. split; [|done].
    rewrite (cache_path_config s' s id) by done. unfold saved_disk.
    by rewrite saved_disk_cache, (Hold _ _ eq_refl).
  - cbn in Hnew. destruct (blen c <=? _)%N; [done|]. exists c. split; [|done].
    rewrite (cache_path_config s' s id) by done. unfold saved_disk.
    by rewrite saved_disk_cache, (Hnew _ _ eq_refl).
Qed.

(** Loading it into a fresh process. *)
Lemma load_saved io t s buf :
  ids_ok s -> blob_files_ok s -> io_reads io ->
  let s0 := State_new (config s) t (saved_disk s buf) in
  load_snapshot io (snapshot_of s) s0 =
  set_next_id (next_id s) (recompute_usage
    (set_redis_entries (loaded_redis <$> redis_entries s) (set_tags (tags s)
      (set_blobs (loaded_blob <$> blobs s) (set_manifests (manifests s) s0))))).
Proof.
  intros Hs Hfiles Hio s0. unfold load_snapshot, snapshot_of.
  cbn [sn_manifests sn_blobs sn_tags sn_redis_entries sn_next_id].
  rewrite load_manifests_spec. change (manifests s0) with (∅ : gmap Digest Manifest).
  rewrite (foldl_insert_iter (fun x => x)), map_fmap_id.
  rewrite load_blobs_spec; [|apply Hio|intros e He; by apply saved_loadable].
  change (blobs (set_manifests _ s0)) with (∅ : gmap Digest Blob.t). rewrite foldl_insert_iter.
  rewrite load_tags_spec. change (tags (set_blobs _ _)) with (∅ : gmap (bytes * bytes) Digest).
  rewrite (foldl_insert_iter (fun x => x)), map_fmap_id.
  rewrite load_redis_spec. change (redis_entries (set_tags _ _)) with (∅ : gmap bytes RedisEntry.t).
  by rewrite foldl_insert_iter.
Qed.

(** What a restart restores, and what it forgets. *)
Lemma reload io io' t s s1 :
  ids_ok s -> blob_files_ok s -> save io s = (s1, true) -> io_reads io' ->
  exists s2, load_or_wipe io' (State_new (config s) t (disk s1)) = (s2, true) /\
    (manifests s2 = manifests s /\ tags s2 = tags s /\ next_id s2 = next_id s /\
     blobs s2 = loaded_blob <$> blobs s /\ redis_entries s2 = loaded_redis <$> redis_entries s /\
     (forall o, stored s2 o = stored s o /\ owner_id s2 o = owner_id s o) /\
     Accounted s2 /\ disk s2 !! snapshot_path s = None) /\
    uploads s2 = ∅ /\ spawned s2 = [] /\ config s2 = config s.
Proof.
  intros Hs Hfiles Hsave Hio.
  destruct (save_spec io s s1 Hsave) as (buf & Hw & ->). apply cbor_law in Hw.
  fold (snapshot_of s) in Hw. fold (saved_disk s buf). state_simpl.
  pose proof (load_saved io' t s buf Hs Hfiles Hio) as Hl. cbv zeta in Hl.
  set (s0 := State_new (config s) t _) in *.
  assert (Hload : load io' s0 = Ok (load_snapshot io' (snapshot_of s) s0)).
  { unfold load, fs_read. change (snapshot_path s0) with (snapshot_path s).
    change (disk s0) with (saved_disk s buf). unfold saved_disk at 1. rewrite lookup_insert_eq.
    by rewrite (proj1 (Hio _)), Hw. }
  unfold load_or_wipe. rewrite Hload, Hl. set (s5 := set_next_id _ _).
  unfold fs_remove. change (snapshot_path s5) with (snapshot_path s).
  change (disk s5) with (saved_disk s buf). unfold saved_disk at 1. rewrite lookup_insert_eq.
  destruct (Hio (snapshot_path s)) as (_ & _ & ->).
  eexists. split; [reflexivity|]. split; [|done].
  assert (Hacc : Accounted s5) by apply set_next_id_Accounted, recompute_usage_Accounted.
  split_and!; [done..| |by apply set_disk_Accounted|apply lookup_delete_eq].
  apply loaded_stored; [done..|].
  intros i. state_simpl. destruct (cache_path_not_snapshot s i) as (H1 & _ & _).
  rewrite lookup_delete_ne by done. apply saved_disk_cache.
Qed.

(** C23: shutdown and restart. After a [save] that returned [Ok], a fresh
    process on that disk loads the same manifests, tags and id counter, the
    same blobs and redis entries with their ids and contents (the large ones
    from their files), counts their bytes, and removes the snapshot. *)
Theorem snapshot_roundtrip io io' t s s1 :
  ids_ok s -> blob_files_ok s -> save io s = (s1, true) -> io_reads io' ->
  exists s2, load_or_wipe io' (State_new (config s) t (disk s1)) = (s2, true) /\
    manifests s2 = manifests s /\ tags s2 = tags s /\ next_id s2 = next_id s /\
    blobs s2 = loaded_blob <$> blobs s /\ redis_entries s2 = loaded_redis <$> redis_entries s /\
    (forall o, stored s2 o = stored s o /\ owner_id s2 o = owner_id s o) /\
    Accounted s2 /\ disk s2 !! snapshot_path s = None.
Proof.
  intros Hs Hfiles Hsave Hio. destruct (reload io io' t s s1 Hs Hfiles Hsave Hio) as (s2 & H1 & H2 & _). eauto.
Qed.

(** The snapshot file after a [save]: the old one, or a complete new one. *)
Lemma save_swaps io s s1 ok :
  save io s = (s1, ok) ->
  s1 = set_disk (disk s1) s /\
  match ok with
  | false => disk s1 !! snapshot_path s = disk s !! snapshot_path s
  | true => exists buf snap, disk s1 !! snapshot_path s = Some buf /\ from_reader buf = Some snap /\
      sn_version snap = SNAPSHOT_VERSION /\ sn_next_id snap = next_id s
  end.
Proof.
  intros Hsave. destruct ok.
  { destruct (save_spec io s s1 Hsave) as (buf & Hw%cbor_law & ->). split; [done|].
    eexists buf, _. split_and!; [apply lookup_insert_eq|exact Hw|done|done]. }
  assert (Hnc : forall d, only_cache s d -> d !! snapshot_path s = disk s !! snapshot_path s).
  { intros d Hd. apply Hd. intros i. apply cache_path_not_snapshot. }
  revert Hsave. unfold save.
  destruct (save_blobs_spec io (map_iter (blobs s)) s) as (d1 & H1 & Ho1 & _).
  destruct (save_blobs io _ s) as [t1 [es|]]; simpl in H1; subst t1.
  2:{ intros [= <-]. split; [done|]. by apply Hnc. }
  destruct (save_redis_spec io (map_iter (redis_entries (set_disk d1 s))) (set_disk d1 s))
    as (d2 & H2 & Ho2 & _).
  assert (Ho : only_cache s d2).
  { intros q Hq. rewrite (Ho2 q Hq). by apply Ho1. }
  destruct (save_redis io _ (set_disk d1 s)) as [t2 [rs|]]; simpl in H2; subst t2.
  2:{ intros [= <-]. split; [done|]. by apply Hnc. }
  destruct (negb _).
  { intros [= <-]. split; [done|]. by apply Hnc. }
  destruct (into_writer _) as [buf|].
  2:{ intros [= <-]. split; [done|]. by apply Hnc. }
  destruct (cache_path_not_snapshot s 0) as (_ & _ & Hne).
  unfold commit_snapshot, fs_write.
  change (snapshot_tmp_path _) with (snapshot_tmp_path s).
  change (snapshot_path (set_disk _ _)) with (snapshot_path s). state_simpl.
  destruct (io_write io _) as [|[part|]].
  - unfold fs_rename. rewrite lookup_insert_eq. destruct (io_rename io _); [done|].
    intros [= <-]. split; [done|]. simpl. rewrite lookup_insert_ne by done. by apply Hnc.
  - intros [= <-]. split; [done|]. simpl. rewrite lookup_insert_ne by done. by apply Hnc.
  - intros [= <-]. split; [done|]. by apply Hnc.
Qed.

(** [remove_dir_all] of the blobs directory reaches every cache file. *)
Lemma below_join dir p c : below dir p -> below dir (path_join p c).
Proof.
  intros [q ->]. unfold path_join.
  destruct (last _) as [x|] eqn:E; [case_decide|].
  - exists (q ++ c). by rewrite <- !app_assoc.
  - exists (q ++ "/"%char :: c). by rewrite <- !app_assoc.
  - apply last_None in E. by destruct dir.
Qed.

Lemma cache_path_below s i : below (blobs_dir s) (cache_path s i).
Proof.
  unfold cache_path. apply below_join. fold (blobs_dir s).
  assert (Hlast : last (blobs_dir s) = Some "s"%char).
  { unfold blobs_dir. by rewrite last_path_join. }
  unfold path_join. rewrite Hlast, decide_False by done. eexists. by rewrite <- app_assoc.
Qed.

Lemma wiped_files io s i :
  (forall p, io_remove io p = true) ->
  fs_remove_dir_all io (blobs_dir s) (disk s) !! cache_path s i = None.
Proof.
  intros Hio. apply map_lookup_filter_None. right. intros c _. simpl. rewrite Hio.
  intros [Hb|?]; [|done]. apply Hb, cache_path_below.
Qed.

(** C26: a start without a usable snapshot is a cold start: the maps are empty,
    the id counter is back at 0, and when nothing fails no file is left that a
    new id could run into. *)
Theorem cold_start_is_empty io s :
  is_ok (load io s) = false ->
  (load_or_wipe io s).2 = true /\
  let s' := (load_or_wipe io s).1 in
  manifests s' = ∅ /\ blobs s' = ∅ /\ tags s' = ∅ /\ redis_entries s' = ∅ /\ next_id s' = 0%N /\
  ((forall p, io_remove io p = true) -> forall i, disk s' !! cache_path s i = None).
Proof.
  unfold load_or_wipe. destruct (load io s) as [s1|[]]; simpl; [done|intros _..].
  - split_and!; [done..|]. intros Hio i. by apply wiped_files.
  - split_and!; [done..|]. intros Hio i.
    change (snapshot_path (wipe_cache io s)) with (snapshot_path s).
    unfold fs_remove. case_match; [|by apply wiped_files]. rewrite Hio. simpl.
    destruct (cache_path_not_snapshot s i) as (Hne & _). rewrite lookup_delete_ne by done.
    by apply wiped_files.
Qed.
End load.
