(* ===== verification/SnapshotSteps.v ===== *)
(** * Saving, one operation at a time

    [save] runs at a stroke. The program runs it when its listeners have
    stopped, but the connections that are still open are served on: here it is
    a program of atomic operations, which reads one entry of a map at a time,
    awaits the writes of files, and keeps the snapshot in its locals.
    Uninterrupted it is [save] ([save_as_steps]). *)
From S2P Require Import Prelude Prog Digest Env Config State Eviction EvictionSteps Snapshot.
From S2P Require Import SnapshotUsage.
From S2P Require Import SnapshotRoundtrip SnapshotLoad.

(** A piece of a save; [Err tt] is the early return of [?]. *)
Abbreviation V := (prog State unit).

Section steps.
Context {SHA : Sha256} {ITER : MapIter} {CBOR : Cbor}.
Implicit Types (s : State) (io : Io).

(** [last_accessed.load] of the redis entry that was looked up. *)
Definition redis_touched (k : bytes) (id la : N) s : N :=
  match redis_entries s !! k with
  | Some (RedisEntry.InMemory _ id' la') => if decide (id' = id) then la' else la
  | _ => la
  end.

(** [create_dir_all] and [write], the second [?]. *)
Definition spill_steps io (id : N) (content : bytes) : V unit :=
  ok ← atomically (spill io id content);
  if ok : bool then mret tt else Done (Err tt).

(** The body of the loop over [state.blobs]. *)
Definition save_blob_steps io (digest : Digest) : V (option BlobEntry) :=
  let d := digest_to_string digest in
  blob ← asks (fun s => blobs s !! digest);
  match blob with
  | None => mret None
  | Some (Blob.OnDisk id size mt la) => mret (Some (mkBlobEntry d mt size la id None))
  | Some (Blob.InMemory id content mt la) =>
      if (blen content <=? SNAPSHOT_INLINE_THRESHOLD)%N
      then mret (Some (mkBlobEntry d mt (blen content) la id (Some content)))
      else
        _ ← spill_steps io id content;
        la' ← asks (blob_touched digest id la);
        mret (Some (mkBlobEntry d mt (blen content) la' id None))
  end.

(** The entries of a map, in the order in which its iterator comes to the
    keys [ks]; others may come and go meanwhile. *)
Fixpoint each {K R} (f : K -> V (option R)) (ks : list K) : V (list R) :=
  match ks with
  | [] => mret []
  | k :: ks => e ← f k; es ← each f ks; mret (option_list e ++ es)
  end.

(** The body of the loop over [state.redis_entries]. *)
Definition save_redis_steps io (key : bytes) : V (option RedisEntryEntry) :=
  entry ← asks (fun s => redis_entries s !! key);
  match entry with
  | None => mret None
  | Some (RedisEntry.InMemory value id la) =>
      if (blen value <=? SNAPSHOT_INLINE_THRESHOLD)%N
      then mret (Some (mkRedisEntryEntry key id (Some value) la (blen value)))
      else
        _ ← spill_steps io id value;
        la' ← asks (redis_touched key id la);
        mret (Some (mkRedisEntryEntry key id None la' (blen value)))
  | Some (RedisEntry.OnDisk size id la) => mret (Some (mkRedisEntryEntry key id None la size))
  end.

(** The write of the temporary file, and the rename. *)
Definition write_tmp io (buf : bytes) s : State * result io_error unit :=
  let '(d, r) := fs_write io (snapshot_tmp_path s) buf (disk s) in (set_disk d s, r).
Definition rename_tmp io s : State * result io_error unit :=
  let '(d, r) := fs_rename io (snapshot_tmp_path s) (snapshot_path s) (disk s) in (set_disk d s, r).

Definition commit_steps io (snap : Snapshot) : V unit :=
  dir ← asks (fun s => io_create_dir io (data_folder (config s)));
  if negb dir then Done (Err tt)
  else
    match into_writer snap with
    | None => Done (Err tt)
    | Some buf =>
        w ← atomically (write_tmp io buf);
        match w with
        | Err _ => Done (Err tt)
        | Ok _ =>
            r ← atomically (rename_tmp io);
            match r with Err _ => Done (Err tt) | Ok _ => mret tt end
        end
    end.

Definition save_steps io (ds : list Digest) (ks : list bytes) : V unit :=
  blob_entries ← each (save_blob_steps io) ds;
  ms ← asks (fun s => map manifest_entry (map_iter (manifests s)));
  ts ← asks (fun s => map tag_entry (map_iter (tags s)));
  redis ← each (save_redis_steps io) ks;
  id ← asks next_id;
  commit_steps io (mkSnapshot SNAPSHOT_VERSION ts ms blob_entries redis id).

(** ** Without interruption *)
Lemma spill_disk io id c s : exists d, (spill io id c s).1 = set_disk d s.
Proof. destruct (spill_spec io id c s) as (d & H & _). by exists d. Qed.

Lemma save_blob_run io d b s :
  blobs s !! d = Some b ->
  run (save_blob_steps io d) s =
  match save_blob io d b s with (s1, Some e) => (s1, Ok (Some e)) | (s1, None) => (s1, Err tt) end.
Proof.
  intros Hd. unfold save_blob_steps, save_blob. cbv zeta. run_op. rewrite Hd.
  destruct b as [id n mt la|id c mt la]; [done|]. destruct (blen c <=? _)%N; [done|].
  unfold spill_steps. rewrite !run_mbind, run_atomically. destruct (spill_disk io id c s) as [d' Hs].
  destruct (spill io id c s) as [s1 ok]. cbn [fst snd] in *. subst s1. destruct ok; [|done].
  rewrite run_mret. run_op. unfold blob_touched. state_simpl. by rewrite Hd, decide_True.
Qed.

Lemma save_redis_run io k e s :
  redis_entries s !! k = Some e ->
  run (save_redis_steps io k) s =
  match save_redis_entry io k e s with (s1, Some x) => (s1, Ok (Some x)) | (s1, None) => (s1, Err tt) end.
Proof.
  intros Hk. unfold save_redis_steps, save_redis_entry. run_op. rewrite Hk.
  destruct e as [c id la|n id la]; [|done]. destruct (blen c <=? _)%N; [done|].
  unfold spill_steps. rewrite !run_mbind, run_atomically. destruct (spill_disk io id c s) as [d' Hs].
  destruct (spill io id c s) as [s1 ok]. cbn [fst snd] in *. subst s1. destruct ok; [|done].
  rewrite run_mret. run_op. unfold redis_touched. state_simpl. by rewrite Hk, decide_True.
Qed.

Lemma save_blob_disk io d b s : exists d', (save_blob io d b s).1 = set_disk d' s.
Proof.
  unfold save_blob. destruct b as [|id c mt la]; [exists (disk s); by destruct s|].
  destruct (blen c <=? _)%N; [exists (disk s); by destruct s|]. destruct (spill_disk io id c s) as [d' H].
  destruct (spill io id c s). by exists d'.
Qed.

Lemma save_redis_entry_disk io k e s : exists d', (save_redis_entry io k e s).1 = set_disk d' s.
Proof.
  unfold save_redis_entry. destruct e as [c id la|]; [|exists (disk s); by destruct s].
  destruct (blen c <=? _)%N; [exists (disk s); by destruct s|]. destruct (spill_disk io id c s) as [d' H].
  destruct (spill io id c s). by exists d'.
Qed.

Lemma each_blob_run io l s :
  (forall e, e ∈ l -> blobs s !! e.1 = Some e.2) ->
  run (each (save_blob_steps io) l.*1) s =
  match save_blobs io l s with (s1, Some es) => (s1, Ok es) | (s1, None) => (s1, Err tt) end.
Proof.
  revert s. induction l as [|[d b] l IH]; intros s Hl; [done|]. cbn [fmap list_fmap fst each save_blobs].
  rewrite run_mbind, (save_blob_run io d b) by (apply (Hl (d, b)); by left).
  destruct (save_blob_disk io d b s) as [d' Hd]. destruct (save_blob io d b s) as [s1 [e|]]; [|done].
  cbn [fst] in Hd. subst s1. rewrite run_mbind, IH by (intros x Hx; apply (Hl x); by right).
  by destruct (save_blobs io l _) as [s2 [es|]].
Qed.

Lemma each_redis_run io l s :
  (forall e, e ∈ l -> redis_entries s !! e.1 = Some e.2) ->
  run (each (save_redis_steps io) l.*1) s =
  match save_redis io l s with (s1, Some es) => (s1, Ok es) | (s1, None) => (s1, Err tt) end.
Proof.
  revert s. induction l as [|[k e] l IH]; intros s Hl; [done|]. cbn [fmap list_fmap fst each save_redis].
  rewrite run_mbind, (save_redis_run io k e) by (apply (Hl (k, e)); by left).
  destruct (save_redis_entry_disk io k e s) as [d' Hd]. destruct (save_redis_entry io k e s) as [s1 [x|]]; [|done].
  cbn [fst] in Hd. subst s1. rewrite run_mbind, IH by (intros y Hy; apply (Hl y); by right).
  by destruct (save_redis io l _) as [s2 [es|]].
Qed.

Lemma commit_run io snap s :
  run (commit_steps io snap) s =
  if negb (io_create_dir io (data_folder (config s))) then (s, Err tt)
  else match into_writer snap with
       | None => (s, Err tt)
       | Some buf => let '(s', ok) := commit_snapshot io buf s in (s', if ok then Ok tt else Err tt)
       end.
Proof.
  unfold commit_steps. run_op. destruct (negb _); [done|]. destruct (into_writer snap) as [buf|]; [|done]. run_op.
  unfold write_tmp, commit_snapshot. destruct (fs_write io _ buf (disk s)) as [d [[]|e]]; cbn [fst snd]; [|done]. run_op.
  unfold rename_tmp. state_simpl. change (snapshot_tmp_path (set_disk d s)) with (snapshot_tmp_path s).
  change (snapshot_path (set_disk d s)) with (snapshot_path s).
  by destruct (fs_rename io _ _ d) as [d' [[]|e]].
Qed.

(** Run alone, in the order of the iterators, it is [save]. *)
Lemma save_as_steps io s :
  run (save_steps io (map_iter (blobs s)).*1 (map_iter (redis_entries s)).*1) s =
  let '(s', ok) := save io s in (s', if ok then Ok tt else Err tt).
Proof.
  unfold save_steps, save. rewrite run_mbind, each_blob_run by (by intros [d b] H%elem_of_map_iter).
  destruct (save_blobs_spec io (map_iter (blobs s)) s) as (d & Hd & _). destruct (save_blobs io _ s) as [s1 [es|]]; [|done].
  cbn [fst] in Hd. subst s1. do 2 run_op. state_simpl.
  rewrite run_mbind, each_redis_run by (by intros [k e] H%elem_of_map_iter).
  destruct (save_redis_spec io (map_iter (redis_entries s)) (set_disk d s)) as (d2 & Hd2 & _).
  destruct (save_redis io _ _) as [s2 [rs|]]; [|done]. run_op. rewrite commit_run.
  destruct (negb _); [done|]. by destruct (into_writer _).
Qed.

(** ** With interruptions: every operation, whatever happens between them *)
Section every.
Context (Q : State -> State -> Prop) (io : Io).
Context (Q_refl : forall s, Q s s) (Q_spill : forall i c s, Q s (spill io i c s).1).
Context (Q_write : forall buf s, Q s (write_tmp io buf s).1) (Q_rename : forall s, Q s (rename_tmp io s).1).
#[local] Set Default Proof Using "All".

Lemma spill_steps_every i c : every_op Q (spill_steps io i c).
Proof. split; [done|]. by intros []. Qed.

Lemma save_blob_every d : every_op Q (save_blob_steps io d).
Proof.
  unfold save_blob_steps. cbv zeta. apply every_op_asks; [done|].
  intros [[id n mt la|id c mt la]|]; [done| |done]. destruct (blen c <=? _)%N; [done|].
  apply every_op_then; [apply spill_steps_every|]. intros _. by apply every_op_asks.
Qed.

Lemma save_redis_every k : every_op Q (save_redis_steps io k).
Proof.
  unfold save_redis_steps. apply every_op_asks; [done|].
  intros [[c id la|n id la]|]; [|done..]. destruct (blen c <=? _)%N; [done|].
  apply every_op_then; [apply spill_steps_every|]. intros _. by apply every_op_asks.
Qed.

Lemma each_every {K R} (f : K -> V (option R)) ks : (forall k, every_op Q (f k)) -> every_op Q (each f ks).
Proof.
  intros Hf. induction ks as [|k ks IH]; [done|]. cbn [each]. apply every_op_then; [done|]. intros e.
  by apply every_op_then.
Qed.

Lemma commit_every snap : every_op Q (commit_steps io snap).
Proof.
  unfold commit_steps. apply every_op_asks; [done|]. intros dir. destruct (negb dir); [done|].
  destruct (into_writer snap) as [buf|]; [|done]. split; [done|]. intros [[]|]; [|done]. split; [done|]. by intros [[]|].
Qed.

Lemma save_every ds ks : every_op Q (save_steps io ds ks).
Proof.
  apply every_op_then; [apply each_every, save_blob_every|]. intros bes.
  do 2 (apply every_op_asks; [done|]; intros ?).
  apply every_op_then; [apply each_every, save_redis_every|]. intros res.
  apply every_op_asks; [done|]. intros id. apply commit_every.
Qed.
End every.

(** Nothing but files changes. *)
Definition disk_only s s' : Prop := exists d, s' = set_disk d s.

Lemma save_disk_only io ds ks : every_op disk_only (save_steps io ds ks).
Proof.
  apply save_every; intros; [exists (disk s); by destruct s|apply spill_disk|unfold write_tmp|unfold rename_tmp].
  - destruct (fs_write _ _ _ _). by eexists.
  - destruct (fs_rename _ _ _ _). by eexists.
Qed.

(** The file at the path of the snapshot stays, or the temporary file, as it
    is, replaces it. *)
Definition swaps s s' : Prop :=
  disk s' !! snapshot_path s = disk s !! snapshot_path s \/
  exists buf, disk s !! snapshot_tmp_path s = Some buf /\ disk s' !! snapshot_path s = Some buf.

Lemma save_steps_swap io ds ks : every_op swaps (save_steps io ds ks).
Proof.
  apply save_every; [by left|intros i c s|intros buf s|intros s].
  - left. destruct (spill_spec io i c s) as (d & -> & Hd & _). apply Hd, (cache_path_not_snapshot s i).
  - left. unfold write_tmp. destruct (cache_path_not_snapshot s 0) as (_ & _ & Hne).
    unfold fs_write. destruct (io_write io _) as [|[part|]]; simpl; rewrite ?lookup_insert_ne by done; done.
  - unfold rename_tmp, fs_rename. destruct (disk s !! snapshot_tmp_path s) as [buf|] eqn:Et; [|by left].
    destruct (io_rename io _); [|by left]. right. exists buf. split; [done|]. apply lookup_insert_eq.
Qed.

(** C25: the swap is atomic. After [save] the snapshot file is, when it failed
    anywhere, the one that was there before, and when it succeeded, a complete
    snapshot of the current version and id counter; the caches themselves are
    not touched. That is what the operations of a save do when nothing
    interrupts them; and whatever happens between them, none changes the
    snapshot file but by putting the temporary one in its place. *)
Theorem save_atomic io :
  (forall s, let '(s1, ok) := save io s in
     run (save_steps io (map_iter (blobs s)).*1 (map_iter (redis_entries s)).*1) s = (s1, if ok then Ok tt else Err tt) /\
     s1 = set_disk (disk s1) s /\
     match ok with
     | false => disk s1 !! snapshot_path s = disk s !! snapshot_path s
     | true => exists buf snap, disk s1 !! snapshot_path s = Some buf /\ from_reader buf = Some snap /\
         sn_version snap = SNAPSHOT_VERSION /\ sn_next_id snap = next_id s
     end) /\
  forall ds ks, every_op swaps (save_steps io ds ks).
Proof.
  split; [|intros; apply save_steps_swap]. intros s. pose proof (save_as_steps io s) as Hr.
  pose proof (save_swaps io s) as Hs. destruct (save io s) as [s1 ok]. split; [exact Hr|]. by apply Hs.
Qed.
End steps.
