(* ===== verification/SnapshotExamples.v ===== *)
(** * Snapshots on a concrete state

    A codec with the law of the CBOR interface: a numbering of snapshots,
    written in binary. *)
From S2P Require Import Prelude Digest Env Config State Disk Accounting Snapshot SnapshotUsage.
From S2P Require Import SnapshotRoundtrip SnapshotLoad Eviction EvictionExamples.

#[export] Instance TagEntry_countable_dec : EqDecision TagEntry.
Proof. solve_decision. Defined.
#[export] Instance ManifestEntry_eq_dec : EqDecision ManifestEntry.
Proof. solve_decision. Defined.
#[export] Instance BlobEntry_eq_dec : EqDecision BlobEntry.
Proof. solve_decision. Defined.
#[export] Instance RedisEntryEntry_eq_dec : EqDecision RedisEntryEntry.
Proof. solve_decision. Defined.
#[export] Instance Snapshot_eq_dec : EqDecision Snapshot.
Proof. solve_decision. Defined.

#[export] Instance TagEntry_countable : Countable TagEntry :=
  inj_countable' (fun t => (te_repo t, te_reference t, te_digest t))
    (fun '(a, b, c) => mkTagEntry a b c) ltac:(by intros []).
#[export] Instance ManifestEntry_countable : Countable ManifestEntry :=
  inj_countable' (fun m => (me_digest m, me_media_type m, me_last_used m, me_content m, me_evicted m))
    (fun '(a, b, c, d, e) => mkManifestEntry a b c d e) ltac:(by intros []).
#[export] Instance BlobEntry_countable : Countable BlobEntry :=
  inj_countable' (fun b => (be_digest b, be_media_type b, be_size b, be_last_accessed b, be_id b, be_content b))
    (fun '(a, b, c, d, e, f) => mkBlobEntry a b c d e f) ltac:(by intros []).
#[export] Instance RedisEntryEntry_countable : Countable RedisEntryEntry :=
  inj_countable' (fun r => (re_key r, re_id r, re_value r, re_last_accessed r, re_size r))
    (fun '(a, b, c, d, e) => mkRedisEntryEntry a b c d e) ltac:(by intros []).
#[export] Instance Snapshot_countable : Countable Snapshot :=
  inj_countable' (fun s => (sn_version s, sn_tags s, sn_manifests s, sn_blobs s, sn_redis_entries s, sn_next_id s))
    (fun '(a, b, c, d, e, f) => mkSnapshot a b c d e f) ltac:(by intros []).

Fixpoint bits_of (p : positive) : bytes :=
  match p with xH => [] | xO p => "0"%char :: bits_of p | xI p => "1"%char :: bits_of p end.
Fixpoint of_bits (b : bytes) : positive :=
  match b with
  | [] => xH
  | c :: b => if decide (c = "1"%char) then xI (of_bits b) else xO (of_bits b)
  end.
Lemma of_bits_of p : of_bits (bits_of p) = p.
Proof. induction p as [p IH|p IH|]; simpl; by rewrite ?IH. Qed.

#[export, refine] Instance toy_cbor : Cbor := {|
  into_writer sn := Some (bits_of (encode sn));
  from_reader b := decode (of_bits b)
|}.
Proof. intros sn b [= <-]. by rewrite of_bits_of, decode_encode. Defined.

(** ** The theorems at a small cache *)
Definition saved : State := (save io_fine example_state).1.

Lemma example_save : save io_fine example_state = (saved, true).
Proof.
  assert (H : (save io_fine example_state).2 = true) by (vm_compute; reflexivity).
  unfold saved. destruct (save io_fine example_state). simpl in *. by subst.
Qed.

Lemma example_files : blob_files_ok example_state.
Proof.
  intros d id n mt la Hd. exfalso.
  assert (H : map_Forall (fun _ b => match b with Blob.OnDisk _ _ _ _ => false | _ => true end = true)
    (blobs example_state)) by by_decide.
  discriminate (H d _ Hd).
Qed.

Lemma snapshot_roundtrip_witness :
  exists s2, load_or_wipe io_fine (State_new (config example_state) 200000 (disk saved)) = (s2, true) /\
    stored s2 (OBlob (dg "b")) = Some (filled 2000 "b") /\
    stored s2 (ORedis $"key-two") = Some (filled 30 "y").
Proof.
  destruct (snapshot_roundtrip io_fine io_fine 200000 example_state saved example_ids example_files
    example_save ltac:(done)) as (s2 & Hl & _ & _ & _ & _ & _ & Hs & _).
  exists s2. split; [exact Hl|]. split.
  - rewrite (proj1 (Hs _)). by vm_compute.
  - rewrite (proj1 (Hs _)). by vm_compute.
Defined.

Lemma cold_start_is_empty_witness :
  redis_entries (load_or_wipe io_fine example_state).1 = ∅.
Proof.
  apply (cold_start_is_empty io_fine example_state). by vm_compute.
Defined.
