(* ===== verification/Http.v ===== *)
(** * HTTP: messages, errors and the handler monad

    The vocabulary of [src/docker.rs]. Codecs of third-party crates (header
    values, base64, percent encoding, UUIDs, the JSON of a token response) are
    one interface. A handler is a program of operations on the shared state; it
    may call upstream servers, spawn cache fills, fail with a [DockerError], or
    panic. [Http.M] is its monad. *)
From S2P Require Import Prelude Prog Digest Env Config State Text.

Module Method.
Inductive t : Type := GET | HEAD | PUT | POST | PATCH | DELETE | Other (name : bytes).
End Method.

#[export] Instance Method_eq_dec : EqDecision Method.t.
Proof. solve_decision. Defined.

(** ** Codecs *)
Class HttpCodecs := {
  (** [HeaderValue::to_str().ok()], and whether a text is a header value. *)
  header_to_str : bytes -> option bytes;
  header_value_ok : bytes -> bool;
  (** [base64::STANDARD], [Uuid::parse_str] and [Uuid::to_string]. *)
  base64_decode : bytes -> option bytes;
  base64_encode : bytes -> bytes;
  uuid_parse_str : bytes -> option N;
  uuid_to_string : N -> bytes;
  (** [percent_decode_str(..).decode_utf8_lossy()], [utf8_percent_encode]. *)
  urldecode : bytes -> bytes;
  urlencode : bytes -> bytes;
  (** [Response::json::<TokenResponse>]: the fields [token], [access_token]. *)
  token_response : bytes -> option (option bytes * option bytes);
  (** [StatusCode]'s [Display], with the canonical reason. *)
  status_display : N -> bytes;
  base64_law : forall b, base64_decode (base64_encode b) = Some b;
  uuid_law : forall u, uuid_parse_str (uuid_to_string u) = Some u;
  uuid_no_slash : forall u, "/"%char ∉ uuid_to_string u;
  uuid_visible : forall u c, c ∈ uuid_to_string u -> byte_in 32 126 c = true;
  (** Printable ASCII is a header value, and so is what [to_str] yields. *)
  header_visible : forall b, (forall c, c ∈ b -> byte_in 32 126 c = true) -> header_value_ok b = true;
  header_to_str_ok : forall b t, header_to_str b = Some t -> header_value_ok t = true
}.

(** ** Messages *)

(** The body is [None] when reading it fails. *)
Record Request : Type := mkRequest {
  req_method : Method.t;
  req_path : bytes;
  req_query : option bytes;
  req_header : bytes -> option bytes;
  req_body : option bytes
}.

(** A response body: complete, or frames that are streamed ([None]: an error
    ends the stream). *)
Inductive Body : Type :=
  | Full (b : bytes)
  | Streaming (frames : list (option bytes)).

Record Response : Type := mkResponse {
  resp_status : N;
  resp_headers : list (bytes * bytes);
  resp_body : Body
}.

Definition empty : Body := Full [].

(** A request to an upstream server, and what comes back. *)
Record UpRequest : Type := mkUpRequest {
  ur_method : Method.t;
  ur_url : bytes;
  ur_accept : option bytes;
  ur_authorization : option bytes
}.

Record UpResponse : Type := mkUpResponse {
  us_status : N;
  us_header : bytes -> option bytes;
  us_body : list (option bytes)
}.

(** [StatusCode::is_success]. *)
Definition is_success (status : N) : bool := ((200 <=? status) && (status <? 300))%N.

(** The chunks up to the first error; [Err] when there is one. *)
Fixpoint collect (frames : list (option bytes)) : option bytes :=
  match frames with
  | [] => Some []
  | Some c :: fs => b ← collect fs; Some (c ++ b)
  | None :: _ => None
  end.

(** ** Errors *)
Module DockerError.
Inductive t : Type :=
  | InvalidAuth
  | NotFound
  | MethodNotAllowed (m : Method.t)
  | InvalidHost (host : bytes)
  | Hyper
  | HyperHttp
  | Upstream (msg : bytes)
  | Panic.    (* a failed [expect]: not an error value of the code *)
End DockerError.

(** ** The monad *)

(** A cache fill that was spawned and runs later. *)
Record Fill : Type := mkFill {
  fill_digest : Digest;
  fill_media_type : bytes;
  fill_frames : list (option bytes)
}.

Section http.
Context {SHA : Sha256}.

(** The shared state, the number of upstream calls made so far, the fills
    spawned so far. *)
Record World : Type := mkWorld { w_state : State; w_calls : nat; w_fills : list Fill }.

(** A handler is a sequence of operations; other tasks run between any two. *)
Definition M (A : Type) : Type := prog World DockerError.t A.

#[export] Instance M_ret : MRet M := prog_ret.
#[export] Instance M_bind : MBind M := prog_bind.

Lemma run_bind {A B} (m : M A) (f : A -> M B) w :
  run (m ≫= f) w =
  match run m w with
  | (w', Ok a) => run (f a) w'
  | (w', Err e) => (w', Err e)
  end.
Proof. exact (run_then m f w). Qed.

Definition lift {A} (r : result DockerError.t A) : M A := Done r.
Definition throw {A} (e : DockerError.t) : M A := Done (Err e).

(** One operation on the shared state. *)
Definition on_state {A} (f : State -> State * A) : M A := atomically (fun w =>
  (mkWorld (f (w_state w)).1 (w_calls w) (w_fills w), (f (w_state w)).2)).
Definition get_state : M State := on_state (fun s => (s, s)).
Definition modify (f : State -> State) : M unit := on_state (fun s => (f s, tt)).
Definition spawn_fill (f : Fill) : M unit := atomically (fun w =>
  (mkWorld (w_state w) (w_calls w) (w_fills w ++ [f]), tt)).

(** What the network answers to each call. *)
Definition Network : Type := nat -> UpRequest -> option UpResponse.

Definition send (net : Network) (r : UpRequest) : M (option UpResponse) := atomically (fun w =>
  (mkWorld (w_state w) (S (w_calls w)) (w_fills w), net (w_calls w) r)).

(** ** Building responses *)
Context {HC : HttpCodecs}.

Definition build (status : N) (headers : list (bytes * bytes)) (body : Body) : option Response :=
  if forallb (fun h => header_value_ok h.2) headers
  then Some (mkResponse status headers body) else None.

(** [.body(..)?] and [.body(..).expect(..)]. *)
Definition build_try status headers body : M Response :=
  lift (ok_or (build status headers body) DockerError.HyperHttp).
Definition build_expect status headers body : M Response :=
  lift (ok_or (build status headers body) DockerError.Panic).

(** [error_response]; its header is a constant. *)
Definition error_response (status : N) (msg : bytes) : Response :=
  mkResponse status [($"content-type", $"text/plain; charset=utf-8")] (Full msg).
End http.
