(* ===== verification/DockerUpstream.v ===== *)
(** * Talking to upstream registries ([src/docker.rs])

    Host aliases and credentials, the [Accept] header, the bearer challenge and
    the token exchange, and the request loop around them. The texts of upstream
    errors are only logged, and are shortened here. *)
From S2P Require Import Prelude Prog Digest Env Config State Text Http.

(** ** Hosts *)
Definition validate_host (host : bytes) : result DockerError.t unit :=
  if contains_char "/" host || contains_char "@" host || contains_char " " host
  then Err (DockerError.InvalidHost host) else Ok tt.

(** ** [manifest_accept] *)
Definition MANIFEST_ACCEPT_TYPES : list bytes :=
  [$"application/vnd.oci.image.index.v1+json";
   $"application/vnd.oci.image.manifest.v1+json";
   $"application/vnd.docker.distribution.manifest.list.v2+json";
   $"application/vnd.docker.distribution.manifest.v2+json";
   $"application/vnd.docker.distribution.manifest.v1+json";
   $"application/vnd.docker.distribution.manifest.v1+prettyjws"].

Definition eq_ignore_ascii_case (a b : bytes) : bool :=
  bool_decide (ascii_lower <$> a = ascii_lower <$> b).

(** One [part] of the client's header. *)
Definition accept_part (out : list bytes) (part : bytes) : list bytes :=
  let t := trim (default [] (head (split_at_char ";" part))) in
  if bool_decide (t = []) || bool_decide (t = $"*/*") then out
  else if existsb (fun e => eq_ignore_ascii_case e t) out then out
  else out ++ [t].

Definition accept_types (client_accept : option bytes) : list bytes :=
  match client_accept with
  | Some a => foldl accept_part MANIFEST_ACCEPT_TYPES (split_at_char "," a)
  | None => MANIFEST_ACCEPT_TYPES
  end.

Definition manifest_accept (client_accept : option bytes) : bytes :=
  join $", " (accept_types client_accept).

(** ** Challenges *)
Record BearerChallenge : Type := mkBearerChallenge {
  ch_realm : bytes;
  ch_service : option bytes;
  ch_scope : option bytes
}.

(** The inside of a quoted string, up to the closing quote, and the rest from
    there; a backslash takes the next character along. *)
Fixpoint quoted (l : bytes) : bytes * bytes :=
  match l with
  | [] => ([], [])
  | c :: l' =>
      if decide (c = "034"%char) then ([], l)
      else
        match l' with
        | d :: l'' =>
            if decide (c = "092"%char)
            then let '(v, r) := quoted l'' in (c :: d :: v, r)
            else let '(v, r) := quoted l' in (c :: v, r)
        | [] => ([c], [])
        end
  end.

Definition is_separator (c : ascii) : bool :=
  bool_decide (c = " "%char) || bool_decide (c = "009"%char) || bool_decide (c = ","%char).
Definition not_eq_or_comma (c : ascii) : bool :=
  negb (bool_decide (c = "="%char)) && negb (bool_decide (c = ","%char)).
Definition not_comma (c : ascii) : bool := negb (bool_decide (c = ","%char)).

(** The value after the [=], and the rest. *)
Definition challenge_value (l : bytes) : bytes * bytes :=
  match l with
  | c :: l' =>
      if decide (c = "034"%char)
      then let '(v, r) := quoted l' in (v, tail r)
      else let '(v, r) := span not_comma l in (trim v, r)
  | [] => (trim [], [])
  end.

(** The outer loop; every round consumes input. *)
Fixpoint challenge_loop (fuel : nat) (input : bytes) : option (list (bytes * bytes)) :=
  match fuel with
  | O => None
  | S fuel =>
      match input with
      | [] => Some []
      | _ =>
          let '(_, l1) := span is_separator input in
          let '(key, l2) := span not_eq_or_comma l1 in
          match l2 with
          | c :: l3 =>
              if decide (c = "="%char) then
                let '(v, l4) := challenge_value l3 in
                out ← challenge_loop fuel l4;
                Some ((ascii_lower <$> trim key, v) :: out)
              else Some []
          | [] => Some []
          end
      end
  end.

Definition iter_challenge_params (input : bytes) : option (list (bytes * bytes)) :=
  challenge_loop (S (length input)) input.

(** The last parameter of a name wins. *)
Definition last_param (k : bytes) (ps : list (bytes * bytes)) : option bytes :=
  foldl (fun acc p => if decide (p.1 = k) then Some p.2 else acc) None ps.

Definition parse_bearer_challenge (header : bytes) : option BearerChallenge :=
  let rest := trim header in
  rest ← match strip_prefix $"Bearer" rest with
         | Some r => Some r
         | None => strip_prefix $"bearer" rest
         end;
  ps ← iter_challenge_params (trim_start rest);
  realm ← last_param $"realm" ps;
  Some (mkBearerChallenge realm (last_param $"service" ps) (last_param $"scope" ps)).

Section upstream.
Context {SHA : Sha256} {ITER : MapIter} {HC : HttpCodecs}.

Definition alias_host (s : State) (host : bytes) : bytes :=
  if decide (host = $"self") then $"self"
  else
    match docker_registry (config s) !! host with
    | Some reg => reg_url reg
    | None =>
        if decide (host = $"docker.io" \/ host = $"index.docker.io")
        then $"registry-1.docker.io" else host
    end.

(** [values().find(..)]. *)
Definition registry_for_host (s : State) (host : bytes) : option DockerRegistry :=
  snd <$> find (fun e => bool_decide (reg_url e.2 = host)) (map_iter (docker_registry (config s))).

Definition basic_auth_header (user pass : bytes) : bytes :=
  $"Basic " ++ base64_encode (user ++ $":" ++ pass).

(** The credentials configured for a host, when both parts are. *)
Definition basic_creds (s : State) (host : bytes) : option (bytes * bytes) :=
  r ← registry_for_host s host;
  match reg_username r, reg_password r with
  | Some u, Some p => Some (u, p)
  | _, _ => None
  end.

(** The URL of the token request. *)
Definition token_url (ch : BearerChallenge) : bytes :=
  let url := ch_realm ch in
  let sep := if contains_char "?" url then "&"%char else "?"%char in
  let '(url1, sep1) := match ch_service ch with
                       | Some s => (url ++ sep :: $"service=" ++ urlencode s, "&"%char)
                       | None => (url, sep)
                       end in
  match ch_scope ch with
  | Some s => url1 ++ sep1 :: $"scope=" ++ urlencode s
  | None => url1
  end.

Definition fetch_token (net : Network) (ch : BearerChallenge) (creds : option (bytes * bytes))
  : M bytes :=
  resp ← send net (mkUpRequest Method.GET (token_url ch) None
                     ((fun c => basic_auth_header c.1 c.2) <$> creds));
  match resp with
  | None => throw (DockerError.Upstream $"token request")
  | Some resp =>
      if negb (is_success (us_status resp)) then throw (DockerError.Upstream $"token endpoint")
      else
        match collect (us_body resp) ≫= token_response with
        | None => throw (DockerError.Upstream $"decode token response")
        | Some (token, access_token) =>
            match (match token with Some t => Some t | None => access_token end) with
            | Some t => mret t
            | None => throw (DockerError.Upstream $"token response missing token field")
            end
        end
  end.

Definition token_key (host name : bytes) : TokenKey :=
  mkTokenKey host ($"repository:" ++ name ++ $":pull").

Definition WWW_AUTHENTICATE : bytes := $"www-authenticate".

(** The header of an upstream response, when it is a visible text. *)
Definition up_text_header (resp : UpResponse) (name : bytes) : option bytes :=
  us_header resp name ≫= header_to_str.

(** The attempts that are left. *)
Fixpoint pull_attempts (net : Network) (attempts : nat) (key : TokenKey) (req : UpRequest)
    (creds : option (bytes * bytes)) (token : option bytes) (had_cached : bool) : M UpResponse :=
  match attempts with
  | O => throw (DockerError.Upstream $"exceeded auth retry budget")
  | S attempts =>
      _ ← modify (metric_add docker_upstream_requests 1);
      let authorization :=
        match token with
        | Some t => Some ($"Bearer " ++ t)
        | None => (fun c => basic_auth_header c.1 c.2) <$> creds
        end in
      o ← send net (mkUpRequest (ur_method req) (ur_url req) (ur_accept req) authorization);
      match o with
      | None =>
          _ ← modify (metric_add docker_upstream_errors 1);
          throw (DockerError.Upstream $"send")
      | Some resp =>
          if negb (us_status resp =? 401)%N then mret resp
          else
            _ ← (if had_cached then modify (fun s => set_tokens (delete key (tokens s)) s)
                 else mret tt);
            match up_text_header resp WWW_AUTHENTICATE ≫= parse_bearer_challenge with
            | None => mret resp
            | Some ch =>
                fresh ← fetch_token net ch creds;
                _ ← modify (fun s => set_tokens (<[key := fresh]> (tokens s)) s);
                pull_attempts net attempts key req creds (Some fresh) false
            end
      end
  end.

Definition upstream_pull_request (net : Network) (host name : bytes) (method : Method.t)
    (sub_path : bytes) (accept : option bytes) : M UpResponse :=
  s ← get_state;
  let url := $"https://" ++ host ++ $"/v2/" ++ name ++ $"/" ++ sub_path in
  let key := token_key host name in
  let token := tokens s !! key in
  pull_attempts net 3 key (mkUpRequest method url accept None) (basic_creds s host) token
    (bool_decide (is_Some token)).
End upstream.
