(* ===== verification/Docker.v ===== *)
(** * The Docker registry ([src/docker.rs]): handlers and dispatch *)
From S2P Require Import Prelude Prog Digest Env Config State Text Http DockerUpstream.

Section docker.
Context {SHA : Sha256} {CT : ConstantTimeEq} {ITER : MapIter} {HC : HttpCodecs}.

(** ** Authentication *)
Definition user_matches (username password : bytes) (u : DockerUser) : bool :=
  ct_eq (user_name u) username && ct_eq (user_password u) password.

(** The credentials of a request. *)
Definition request_credentials (req : Request) : option (bytes * bytes) :=
  auth ← req_header req $"authorization";
  auth ← header_to_str auth;
  basic ← strip_prefix $"Basic " auth;
  decoded ← base64_decode basic;
  if utf8_valid decoded then split_once ":" decoded else None.

Definition check_auth (req : Request) : M unit :=
  s ← get_state;
  match docker_user (config s) with
  | [] => mret tt
  | users =>
      match request_credentials req with
      | None => throw DockerError.InvalidAuth
      | Some (username, password) =>
          if existsb (user_matches username password) users then mret tt
          else
            _ ← modify (metric_add docker_auth_failures 1);
            throw DockerError.InvalidAuth
      end
  end.

(** ** Helpers *)
Definition ensure_self (upstream_host : bytes) (method : Method.t) : result DockerError.t unit :=
  if decide (upstream_host = $"self") then Ok tt else Err (DockerError.MethodNotAllowed method).

Definition digest_from_query (req : Request) : option bytes :=
  q ← req_query req;
  v ← head (omap (strip_prefix $"digest=") (split_at_char "&" q));
  Some (urldecode v).

Definition read_body (req : Request) : M bytes :=
  lift (ok_or (req_body req) (DockerError.Upstream $"read body")).

Definition octet_stream : bytes := $"application/octet-stream".

(** The status an upstream failure is passed on with, and its response. *)
Definition upstream_failure (status : N) : Response :=
  error_response (if ((100 <=? status) && (status <? 1000))%N then status else 502)
    ($"upstream returned " ++ status_display status).

Definition content_type (resp : UpResponse) : bytes :=
  default octet_stream (up_text_header resp $"content-type").

(** ** Manifests *)
Definition serve_manifest (m : Manifest) (head : bool) (digest : Digest) : M Response :=
  build_expect 200
    [($"content-type", m_media_type m);
     ($"docker-content-digest", digest_to_string digest);
     ($"content-length", dec (blen (m_content m)))]
    (if head then empty else Full (m_content m)).

(** The digest a reference stands for; [inr] is an early response. *)
Definition resolve_reference (net : Network) (upstream_host name reference : bytes)
    (accept : option bytes) : M (Digest + Response) :=
  match digest_from_str reference with
  | Some d => mret (inl d)
  | None =>
      if decide (upstream_host = $"self") then
        s ← get_state;
        match tags s !! (name, reference) with
        | Some d => mret (inl d)
        | None => throw DockerError.NotFound
        end
      else
        resp ← upstream_pull_request net upstream_host name Method.HEAD
                 ($"manifests/" ++ reference) accept;
        if negb (is_success (us_status resp)) then mret (inr (upstream_failure (us_status resp)))
        else
          match up_text_header resp $"docker-content-digest" ≫= digest_from_str with
          | Some d => mret (inl d)
          | None => throw (DockerError.Upstream $"HEAD response missing Docker-Content-Digest")
          end
  end.

(** The bump of a manifest on a cache hit. *)
Definition touch_manifest (digest : Digest) (m : Manifest) (s : State) : State :=
  metric_add docker_manifest_cache_hit 1
    (set_manifests (<[digest := mkManifest (m_content m) (m_media_type m) (now s) false]>
                      (manifests s)) s).

(** A cache hit, under the guard of [state.manifests.get]. *)
Definition cached_manifest (digest : Digest) (head : bool) : M (option Response) :=
  guarded (
    s ← get_state;
    match manifests s !! digest with
    | Some entry =>
        _ ← modify (touch_manifest digest entry);
        response ← serve_manifest entry head digest;
        mret (Some response)
    | None => mret None
    end).

Definition get_head_manifest (net : Network) (req : Request) (upstream_host name reference : bytes)
    (head : bool) : M Response :=
  let client_accept := req_header req $"accept" ≫= header_to_str in
  let accept := Some (manifest_accept client_accept) in
  r ← resolve_reference net upstream_host name reference accept;
  match r with
  | inr response => mret response
  | inl digest =>
      hit ← cached_manifest digest head;
      match hit with
      | Some response => mret response
      | None =>
          if decide (upstream_host = $"self") then throw DockerError.NotFound
          else
            _ ← modify (metric_add docker_manifest_cache_miss 1);
            resp ← upstream_pull_request net upstream_host name Method.GET
                     ($"manifests/" ++ digest_to_string digest) accept;
            if negb (is_success (us_status resp)) then mret (upstream_failure (us_status resp))
            else
              match collect (us_body resp) with
              | None => throw (DockerError.Upstream $"read manifest body")
              | Some body =>
                  s ← get_state;
                  let entry := mkManifest body (content_type resp) (now s) false in
                  _ ← modify (insert_manifest digest entry);
                  serve_manifest entry head digest
              end
      end
  end.

Definition put_manifest (req : Request) (upstream_host name reference : bytes) : M Response :=
  _ ← lift (ensure_self upstream_host (req_method req));
  let media_type := default $"application/vnd.docker.distribution.manifest.v2+json"
                      (req_header req $"content-type" ≫= header_to_str) in
  body ← read_body req;
  let digest := sha256_digest body in
  s ← get_state;
  _ ← modify (insert_manifest digest (mkManifest body media_type (now s) false));
  _ ← (if digest_from_str reference is Some _ then mret tt
       else modify (fun s => set_tags (<[(name, reference) := digest]> (tags s)) s));
  _ ← modify (fun s => set_tags (<[(name, digest_to_string digest) := digest]> (tags s)) s);
  build_try 201
    [($"Location", $"/v2/self/" ++ name ++ $"/manifests/" ++ digest_to_string digest);
     ($"Docker-Content-Digest", digest_to_string digest);
     ($"Content-Length", $"0")] empty.

(** ** Uploads *)

(** Under the lock of an upload: append a chunk; finish, where a success takes
    the buffer out and leaves the hasher as it is. *)
Definition append_chunk (chunk : bytes) (u : Upload) : Upload :=
  mkUpload (up_buf u ++ chunk) (hasher_update (up_hasher u) chunk).

Definition finish_upload (expected : Digest) (chunk : bytes) (u : Upload)
  : Upload * result Digest bytes :=
  let u1 := if decide (chunk = []) then u else append_chunk chunk u in
  let got := hasher_finalize (up_hasher u1) in
  if decide (got = expected) then (mkUpload [] (up_hasher u1), Ok (up_buf u1))
  else (u1, Err got).

(** What [upload.inner.lock().await] guards. The handler holds an [Arc] of the
    object [upload] it has looked up, which is in the map still or has been
    dropped from it ([upload] itself is what a lookup found, if neither). *)
Definition lock_upload {A} (uuid : N) (upload : Upload) (f : Upload -> Upload * A) (s : State) : State * A :=
  match uploads s !! uuid, dropped_uploads s !! uuid with
  | Some u, _ => (set_uploads (<[uuid := (f u).1]> (uploads s)) s, (f u).2)
  | None, Some u => (set_dropped_uploads (<[uuid := (f u).1]> (dropped_uploads s)) s, (f u).2)
  | None, None => (s, (f upload).2)
  end.

(** [state.uploads.remove(&uuid)]. *)
Definition remove_upload (uuid : N) (s : State) : State :=
  match uploads s !! uuid with
  | Some u => set_dropped_uploads (<[uuid := u]> (dropped_uploads s))
                (set_uploads (delete uuid (uploads s)) s)
  | None => s
  end.

(** A blob that arrived completely, under a fresh id. *)
Definition store_blob (digest : Digest) (content media_type : bytes) (s : State) : State :=
  let '(id, s1) := take_id s in
  insert_blob digest (Blob.InMemory id content media_type (now s)) s1.

Definition digest_mismatch (expected got : Digest) : Response :=
  error_response 400 ($"digest mismatch: expected " ++ digest_to_string expected
                      ++ $" got " ++ digest_to_string got).

Definition blob_created (name : bytes) (digest : Digest) : M Response :=
  build_try 201
    [($"Location", $"/v2/self/" ++ name ++ $"/blobs/" ++ digest_to_string digest);
     ($"Docker-Content-Digest", digest_to_string digest);
     ($"Content-Length", $"0")] empty.

Definition upload_location (name : bytes) (uuid : N) : bytes :=
  $"/v2/self/" ++ name ++ $"/blobs/uploads/" ++ uuid_to_string uuid.

(** [new_uuid] is the value of [Uuid::new_v4()]. *)
Definition post_blob_upload (new_uuid : N) (req : Request) (upstream_host name : bytes) : M Response :=
  _ ← lift (ensure_self upstream_host (req_method req));
  match digest_from_query req with
  | Some digest_str =>
      match digest_from_str digest_str with
      | None => mret (error_response 400 $"invalid digest")
      | Some expected =>
          body ← read_body req;
          let got := sha256_digest body in
          if decide (got = expected) then
            _ ← modify (store_blob got body octet_stream);
            blob_created name got
          else mret (digest_mismatch expected got)
      end
  | None =>
      _ ← modify (fun s => set_uploads (<[new_uuid := mkUpload [] hasher_new]> (uploads s)) s);
      build_try 202
        [($"Location", upload_location name new_uuid);
         ($"Range", $"0-0");
         ($"Content-Length", $"0");
         ($"Docker-Upload-UUID", uuid_to_string new_uuid)] empty
  end.

Definition upload_range (u : Upload) : bytes := $"0-" ++ dec (saturating_sub (blen (up_buf u)) 1).

Definition patch_blob_upload (req : Request) (upstream_host name uuid_str : bytes) : M Response :=
  _ ← lift (ensure_self upstream_host (req_method req));
  match uuid_parse_str uuid_str with
  | None => mret (error_response 400 $"invalid upload id")
  | Some uuid =>
      s ← get_state;
      match uploads s !! uuid with
      | None => mret (error_response 404 $"unknown upload")
      | Some upload =>
          chunk ← read_body req;
          u1 ← on_state (lock_upload uuid upload (fun u => (append_chunk chunk u, append_chunk chunk u)));
          build_try 202
            [($"Location", upload_location name uuid);
             ($"Range", upload_range u1);
             ($"Content-Length", $"0");
             ($"Docker-Upload-UUID", uuid_to_string uuid)] empty
      end
  end.

Definition put_blob_upload (req : Request) (upstream_host name uuid_str : bytes) : M Response :=
  _ ← lift (ensure_self upstream_host (req_method req));
  match uuid_parse_str uuid_str with
  | None => mret (error_response 400 $"invalid upload id")
  | Some uuid =>
      match digest_from_query req with
      | None => mret (error_response 400 $"missing ?digest")
      | Some expected_str =>
          match digest_from_str expected_str with
          | None => mret (error_response 400 $"invalid digest")
          | Some expected =>
              s ← get_state;
              match uploads s !! uuid with
              | None => mret (error_response 404 $"unknown upload")
              | Some upload =>
                  chunk ← read_body req;
                  r ← on_state (lock_upload uuid upload (finish_upload expected chunk));
                  match r with
                  | Err got => mret (digest_mismatch expected got)
                  | Ok buf =>
                      _ ← modify (remove_upload uuid);
                      _ ← modify (store_blob expected buf octet_stream);
                      blob_created name expected
                  end
              end
          end
      end
  end.

Definition get_blob_upload_status (upstream_host name uuid_str : bytes) : M Response :=
  _ ← lift (ensure_self upstream_host Method.GET);
  match uuid_parse_str uuid_str with
  | None => mret (error_response 400 $"invalid upload id")
  | Some uuid =>
      s ← get_state;
      match uploads s !! uuid with
      | None => mret (error_response 404 $"unknown upload")
      | Some upload =>
          u ← on_state (lock_upload uuid upload (fun u => (u, u)));
          build_try 204
            [($"Location", upload_location name uuid);
             ($"Range", upload_range u);
             ($"Docker-Upload-UUID", uuid_to_string uuid)] empty
      end
  end.

Definition delete_blob_upload (upstream_host uuid_str : bytes) : M Response :=
  _ ← lift (ensure_self upstream_host Method.DELETE);
  match uuid_parse_str uuid_str with
  | None => mret (error_response 400 $"invalid upload id")
  | Some uuid =>
      _ ← modify (remove_upload uuid);
      build_try 204 [($"Content-Length", $"0")] empty
  end.
End docker.
