(* ===== verification/DockerServe.v ===== *)
(** * The Docker registry ([src/docker.rs]): blobs, dispatch, error mapping *)
From S2P Require Import Prelude Prog Digest Env Config State Text Http DockerUpstream Docker.

Section serve.
Context {SHA : Sha256} {CT : ConstantTimeEq} {ITER : MapIter} {HC : HttpCodecs}.

(** ** Filling the cache

    The spawned task: it drains the stream and hashes it; a stream error or a
    digest mismatch keeps the bytes out of the cache. [run_fill] is its effect
    when it completes; what the client was sent is [fill_frames]. *)
Fixpoint drain (frames : list (option bytes)) (buf : bytes) (h : hasher) : option (bytes * hasher) :=
  match frames with
  | [] => Some (buf, h)
  | Some chunk :: fs => drain fs (buf ++ chunk) (hasher_update h chunk)
  | None :: _ => None
  end.

Definition run_fill (f : Fill) (s : State) : State :=
  match drain (fill_frames f) [] hasher_new with
  | None => s
  | Some (buf, h) =>
      let got := hasher_finalize h in
      if decide (got = fill_digest f) then store_blob (fill_digest f) buf (fill_media_type f) s
      else s
  end.

(** Frames up to and including the first error. *)
Fixpoint client_frames (frames : list (option bytes)) : list (option bytes) :=
  match frames with
  | [] => []
  | Some c :: fs => Some c :: client_frames fs
  | None :: _ => [None]
  end.

Definition spawn_blob_fill (digest : Digest) (media_type : bytes) (resp : UpResponse) : M Body :=
  _ ← spawn_fill (mkFill digest media_type (us_body resp));
  mret (Streaming (client_frames (us_body resp))).

(** ** Serving blobs *)
Definition blob_headers (media_type : bytes) (digest : Digest) (len : bytes) : list (bytes * bytes) :=
  [($"content-type", media_type);
   ($"docker-content-digest", digest_to_string digest);
   ($"content-length", len)].

Definition serve_blob_bytes (content media_type : bytes) (digest : Digest) (head : bool) : M Response :=
  build_expect 200 (blob_headers media_type digest (dec (blen content)))
    (if head then empty else Full content).

(** [File::open], and the stream of the opened file: the spawned task sends its
    pieces, and the error that may end it. *)
Definition serve_disk_blob (io : Io) (digest : Digest) (id size : N) (media_type : bytes)
    (head : bool) : M Response :=
  if head then build_expect 200 (blob_headers media_type digest (dec size)) empty
  else
    s ← get_state;
    match fs_stream io (cache_path s id) (disk s) with
    | Err _ => mret (error_response 500 $"blob unavailable")
    | Ok frames =>
        build_expect 200 (blob_headers media_type digest (dec size)) (Streaming frames)
    end.

(** The bump of a blob on a cache hit. *)
Definition touch_blob (digest : Digest) (b : Blob.t) (s : State) : State :=
  set_blobs (<[digest := Blob.set_last_accessed (now s) b]> (blobs s)) s.

(** A cache hit; the guard of [state.blobs.get] is held until the response is
    there. *)
Definition cached_blob (io : Io) (d : Digest) (head : bool) : M (option Response) :=
  guarded (
    s ← get_state;
    match blobs s !! d with
    | Some entry =>
        _ ← modify (touch_blob d entry);
        response ← match entry with
                   | Blob.InMemory _ content media_type _ =>
                       _ ← modify (metric_add docker_blob_cache_hit_memory 1);
                       serve_blob_bytes content media_type d head
                   | Blob.OnDisk id size media_type _ =>
                       _ ← modify (metric_add docker_blob_cache_hit_disk 1);
                       serve_disk_blob io d id size media_type head
                   end;
        mret (Some response)
    | None => mret None
    end).

Definition get_head_blob (io : Io) (net : Network) (upstream_host name digest : bytes) (head : bool)
  : M Response :=
  match digest_from_str digest with
  | None => mret (error_response 400 $"invalid digest")
  | Some d =>
      hit ← cached_blob io d head;
      match hit with
      | Some response => mret response
      | None =>
          if decide (upstream_host = $"self") then throw DockerError.NotFound
          else
            _ ← modify (metric_add docker_blob_cache_miss 1);
            resp ← upstream_pull_request net upstream_host name
                     (if head then Method.HEAD else Method.GET)
                     ($"blobs/" ++ digest_to_string d) None;
            if negb (is_success (us_status resp)) then mret (upstream_failure (us_status resp))
            else if head then
              build_expect 200
                (blob_headers (content_type resp) d
                   (default $"0" (up_text_header resp $"content-length"))) empty
            else
              let len := up_text_header resp $"content-length" ≫= parse_usize in
              body ← spawn_blob_fill d (content_type resp) resp;
              build_expect 200
                ([($"content-type", content_type resp);
                  ($"docker-content-digest", digest_to_string d)]
                 ++ match len with Some n => [($"content-length", dec n)] | None => [] end) body
      end
  end.

(** ** Dispatch *)

(** [/v2/<host>/<name>/<kind>/<tail>]: host, name, kind, tail. *)
Definition parse_route (path : bytes) : result DockerError.t (bytes * bytes * bytes * bytes) :=
  suffix ← ok_or (strip_prefix $"/v2/" path) DockerError.NotFound;
  '(host, rest) ← ok_or (split_once "/" suffix) DockerError.NotFound;
  if bool_decide (host = []) || bool_decide (rest = []) then Err DockerError.NotFound
  else
    _ ← validate_host host;
    '(rest, tail) ← ok_or (rsplit_once "/" rest) DockerError.NotFound;
    '(rest, tag) ← ok_or (rsplit_once "/" rest) DockerError.NotFound;
    Ok (host, rest, tag, tail).

(** A counter, then the handler. *)
Definition counted (m : Metric) (h : M Response) : M Response := _ ← modify (metric_add m 1); h.

Definition handle_request_inner (io : Io) (net : Network) (new_uuid : N) (req : Request) : M Response :=
  _ ← check_auth req;
  let path := req_path req in
  if bool_decide (path = $"/v2") || bool_decide (path = $"/v2/") then
    build_try 200 [($"Docker-Distribution-Api-Version", $"registry/2.0")] empty
  else
    '(host, rest, tag, tail) ← lift (parse_route path);
    s ← get_state;
    let upstream_host := alias_host s host in
    let not_allowed := throw (DockerError.MethodNotAllowed (req_method req)) in
    if decide (tag = $"manifests") then
      match req_method req with
      | Method.GET => counted docker_manifest_get (get_head_manifest net req upstream_host rest tail false)
      | Method.HEAD => counted docker_manifest_head (get_head_manifest net req upstream_host rest tail true)
      | Method.PUT => counted docker_manifest_put (put_manifest req upstream_host rest tail)
      | _ => not_allowed
      end
    else if decide (tag = $"uploads") then
      name ← lift (ok_or (strip_suffix $"/blobs" rest) DockerError.NotFound);
      match req_method req with
      | Method.POST => counted docker_blob_upload_post (post_blob_upload new_uuid req upstream_host name)
      | Method.PATCH => counted docker_blob_upload_patch (patch_blob_upload req upstream_host name tail)
      | Method.PUT => counted docker_blob_upload_put (put_blob_upload req upstream_host name tail)
      | Method.DELETE => counted docker_blob_upload_delete (delete_blob_upload upstream_host tail)
      | Method.GET => get_blob_upload_status upstream_host name tail
      | _ => not_allowed
      end
    else if decide (tag = $"blobs") then
      match req_method req with
      | Method.GET => counted docker_blob_get (get_head_blob io net upstream_host rest tail false)
      | Method.HEAD => counted docker_blob_head (get_head_blob io net upstream_host rest tail true)
      | _ => not_allowed
      end
    else throw DockerError.NotFound.

(** The response for an error; [None] for a panic, which ends the task. *)
Definition error_to_response (e : DockerError.t) : option Response :=
  match e with
  | DockerError.InvalidAuth =>
      Some (mkResponse 401 [($"content-type", $"text/plain; charset=utf-8");
                            (WWW_AUTHENTICATE, $"Basic realm=" ++ ["034"%char] ++ $"dockfoxprox" ++ ["034"%char])] (Full $"Unauthorized"))
  | DockerError.NotFound => Some (error_response 404 $"Not found")
  | DockerError.InvalidHost _ => Some (error_response 400 $"Invalid host")
  | DockerError.Hyper | DockerError.HyperHttp => Some (error_response 500 $"Internal Server Error")
  | DockerError.Upstream _ => Some (error_response 502 $"Bad Gateway")
  | DockerError.MethodNotAllowed _ => Some (error_response 405 $"Method Not Allowed")
  | DockerError.Panic => None
  end.

(** What the client of a finished handler gets. *)
Definition answer (r : result DockerError.t Response) : option Response :=
  match r with Ok resp => Some resp | Err e => error_to_response e end.

(** One request against a state: the state, the fills it spawned, the response. *)
Definition handle_request (io : Io) (net : Network) (new_uuid : N) (req : Request) (s : State)
  : State * list Fill * option Response :=
  let '(w, r) := run (handle_request_inner io net new_uuid req) (mkWorld s 0 []) in
  (w_state w, w_fills w, answer r).
End serve.
