(* ===== verification/DockerLogic.v ===== *)
(** * Reasoning about handlers

    A weakest-precondition calculus for [Http.M], and what an upstream exchange
    can change: tokens and metrics, with at most six calls. *)
From S2P Require Import Prelude Prog Digest Env Config State Text Http DockerUpstream Docker.
From S2P Require Import DockerServe.

Section wp.
Context {SHA : Sha256}.
Implicit Types w : World.

(** [Q] holds of the world and the result [m] ends with. *)
Definition wp {A} (m : M A) w (Q : World -> result DockerError.t A -> Prop) : Prop :=
  Q (run m w).1 (run m w).2.

Lemma wp_bind {A B} (m : M A) (f : A -> M B) w Q :
  wp m w (fun w' r => match r with Ok a => wp (f a) w' Q | Err e => Q w' (Err e) end) ->
  wp (m ≫= f) w Q.
Proof.
  unfold wp. rewrite run_bind. destruct (run m w) as [w' [a|e]]; simpl; auto.
Qed.

Lemma wp_mono {A} (m : M A) w (Q Q' : World -> result DockerError.t A -> Prop) :
  wp m w Q -> (forall w' r, Q w' r -> Q' w' r) -> wp m w Q'.
Proof. unfold wp. auto. Qed.

Lemma wp_ret {A} (a : A) w Q : Q w (Ok a) -> wp (mret a) w Q.
Proof. done. Qed.
Lemma wp_throw {A} e w (Q : World -> result DockerError.t A -> Prop) : Q w (Err e) -> wp (throw e) w Q.
Proof. done. Qed.
Lemma wp_lift {A} (r : result DockerError.t A) w Q : Q w r -> wp (lift r) w Q.
Proof. done. Qed.
Lemma wp_get w Q : Q w (Ok (w_state w)) -> wp get_state w Q.
Proof. by destruct w. Qed.
Lemma wp_modify f w Q :
  Q (mkWorld (f (w_state w)) (w_calls w) (w_fills w)) (Ok tt) -> wp (modify f) w Q.
Proof. done. Qed.
Lemma wp_on_state {A} (f : State -> State * A) w Q :
  Q (mkWorld (f (w_state w)).1 (w_calls w) (w_fills w)) (Ok (f (w_state w)).2) -> wp (on_state f) w Q.
Proof. done. Qed.
Lemma wp_send net r w Q :
  Q (mkWorld (w_state w) (S (w_calls w)) (w_fills w)) (Ok (net (w_calls w) r)) -> wp (send net r) w Q.
Proof. done. Qed.
Lemma wp_spawn f w Q :
  Q (mkWorld (w_state w) (w_calls w) (w_fills w ++ [f])) (Ok tt) -> wp (spawn_fill f) w Q.
Proof. done. Qed.
Lemma wp_guarded {A} (m : M A) w Q : wp m w Q -> wp (guarded m) w Q.
Proof. unfold wp. by rewrite run_guarded. Qed.
End wp.

(** One step through a handler. *)
Ltac wp_step :=
  cbv beta zeta;
  lazymatch goal with
  | |- wp (_ ≫= _) _ _ => apply wp_bind
  | |- wp (mret _) _ _ => apply wp_ret
  | |- wp (throw _) _ _ => apply wp_throw
  | |- wp (lift _) _ _ => apply wp_lift
  | |- wp get_state _ _ => apply wp_get
  | |- wp (modify _) _ _ => apply wp_modify
  | |- wp (on_state _) _ _ => apply wp_on_state
  | |- wp (guarded _) _ _ => apply wp_guarded
  | |- wp (send _ _) _ _ => apply wp_send
  | |- wp (spawn_fill _) _ _ => apply wp_spawn
  end; cbn [w_state w_calls w_fills].

(** The equations of [run], for handlers run on a known world. *)
Section run.
Context {SHA : Sha256}.
Implicit Types w : World.

Lemma run_ret {A} (a : A) w : run (mret a : M A) w = (w, Ok a).
Proof. done. Qed.
Lemma run_lift {A} (r : result DockerError.t A) w : run (lift r) w = (w, r).
Proof. done. Qed.
Lemma run_get w : run get_state w = (w, Ok (w_state w)).
Proof. by destruct w. Qed.
Lemma run_modify f w : run (modify f) w = (mkWorld (f (w_state w)) (w_calls w) (w_fills w), Ok tt).
Proof. done. Qed.
Lemma run_on_state {A} (f : State -> State * A) w :
  run (on_state f) w = (mkWorld (f (w_state w)).1 (w_calls w) (w_fills w), Ok (f (w_state w)).2).
Proof. done. Qed.
Lemma run_send net r w :
  run (send net r) w = (mkWorld (w_state w) (S (w_calls w)) (w_fills w), Ok (net (w_calls w) r)).
Proof. done. Qed.
Lemma run_spawn f w : run (spawn_fill f) w = (mkWorld (w_state w) (w_calls w) (w_fills w ++ [f]), Ok tt).
Proof. done. Qed.
End run.

Ltac run_step :=
  repeat (rewrite ?run_bind; first
    [ rewrite run_get | rewrite run_modify | rewrite run_on_state | rewrite run_lift | rewrite run_ret
    | rewrite run_send | rewrite run_spawn | rewrite run_guarded ]; cbn [w_state w_calls w_fills]).

Section exchange.
Context {SHA : Sha256} {CT : ConstantTimeEq} {ITER : MapIter} {HC : HttpCodecs}.
Implicit Types w : World.

(** Only metrics and tokens differ. *)
Definition only_tokens (s s' : State) : Prop := s' = set_metrics (metrics s') (set_tokens (tokens s') s).

#[export] Instance only_tokens_preorder : PreOrder only_tokens.
Proof.
  split; [by intros []|]. unfold only_tokens. intros s1 s2 s3 -> ->. done.
Qed.

(** What an exchange does to the world: at most [n] calls. *)
Definition exchange (n : nat) w w' : Prop :=
  only_tokens (w_state w) (w_state w') /\ w_fills w' = w_fills w /\
  w_calls w <= w_calls w' <= w_calls w + n.

Lemma exchange_refl w : exchange 0 w w.
Proof. split_and!; [apply only_tokens_preorder|done|lia..]. Qed.

Lemma exchange_trans n m w1 w2 w3 : exchange n w1 w2 -> exchange m w2 w3 -> exchange (n + m) w1 w3.
Proof.
  intros (H1 & F1 & C1) (H2 & F2 & C2). split_and!; [by etrans|congruence|lia|lia].
Qed.

Lemma exchange_mono n m w1 w2 : exchange n w1 w2 -> n <= m -> exchange m w1 w2.
Proof. intros (H & F & C) Hn. split_and!; [done|done|lia|lia]. Qed.

Lemma fetch_token_exchange net ch creds w :
  wp (fetch_token net ch creds) w (fun w' _ => exchange 1 w w').
Proof.
  unfold fetch_token. wp_step. wp_step.
  set (w1 := mkWorld _ _ _).
  assert (H : exchange 1 w w1) by (split_and!; [apply only_tokens_preorder|done|simpl; lia..]).
  destruct (net _ _) as [resp|]; [|by wp_step].
  destruct (negb _); [by wp_step|].
  destruct (collect _ ≫= _) as [[t a]|]; [|by wp_step].
  destruct t; [by wp_step|]. destruct a; by wp_step.
Qed.

Lemma pull_attempts_exchange net n key req creds token had w :
  wp (pull_attempts net n key req creds token had) w (fun w' _ => exchange (2 * n) w w').
Proof.
  revert token had w. induction n as [|n IH]; intros token had w; cbn [pull_attempts].
  { wp_step. apply exchange_refl. }
  wp_step. wp_step. wp_step. wp_step.
  set (w1 := mkWorld _ _ _).
  assert (H1 : exchange 1 w w1) by (split_and!; [done|done|simpl; lia..]).
  destruct (net _ _) as [resp|].
  2:{ wp_step. wp_step. wp_step. split_and!; [done|done|simpl; lia..]. }
  destruct (negb _); [wp_step; apply (exchange_mono 1); [done|lia]|].
  wp_step.
  assert (H2 : wp (if had then modify (fun s => set_tokens (delete key (tokens s)) s) else mret tt) w1
    (fun w' r => exchange 1 w w' /\ r = Ok tt)).
  { destruct had; wp_step; [|done]. split; [|done]. split_and!; [done|done|simpl; lia..]. }
  eapply wp_mono; [exact H2|]. intros w2 r [Hw2 ->].
  destruct (_ ≫= parse_bearer_challenge) as [ch|]; [|wp_step; apply (exchange_mono 1); [done|lia]].
  wp_step. eapply wp_mono; [apply fetch_token_exchange|]. intros w3 [fresh|e] Hw3.
  2:{ apply (exchange_mono (1 + 1)); [by eapply exchange_trans|lia]. }
  wp_step. wp_step. eapply wp_mono; [apply IH|]. intros w4 r Hw4. simpl in Hw4.
  set (w3' := mkWorld _ _ _) in Hw4.
  assert (H3 : exchange 0 w3 w3') by (split_and!; [done|done|simpl; lia..]).
  pose proof (exchange_trans _ _ _ _ _ Hw2 (exchange_trans _ _ _ _ _ Hw3
    (exchange_trans _ _ _ _ _ H3 Hw4))) as H. apply (exchange_mono _ _ _ _ H). lia.
Qed.

Lemma upstream_exchange net host name method sub accept w :
  wp (upstream_pull_request net host name method sub accept) w (fun w' _ => exchange 6 w w').
Proof. unfold upstream_pull_request. wp_step. wp_step. apply (pull_attempts_exchange net 3). Qed.
End exchange.
