(* ===== verification/DockerAuth.v ===== *)
(** * The Docker registry: who may do what *)
From S2P Require Import Prelude Prog Digest Env Config State Text Http DockerUpstream Docker.
From S2P Require Import DockerServe.
From S2P Require Import DockerLogic.

Section auth.
Context {SHA : Sha256} {CT : ConstantTimeEq} {ITER : MapIter} {HC : HttpCodecs}.
Implicit Types (s : State) (w : World).

(** A request is authorized when no users are configured, or when it carries
    the exact name and password of one. *)
Definition authorized s (req : Request) : Prop :=
  docker_user (config s) = [] \/
  exists u, u ∈ docker_user (config s) /\ request_credentials req = Some (user_name u, user_password u).

(** Only metrics differ. *)
Definition metrics_only s s' : Prop := s' = set_metrics (metrics s') s.

Lemma metrics_only_refl s : metrics_only s s.
Proof. by destruct s. Qed.

Lemma user_matches_spec n p u : user_matches n p u = true <-> user_name u = n /\ user_password u = p.
Proof. unfold user_matches. by rewrite andb_true_iff, !ct_eq_spec. Qed.

Lemma check_auth_spec req w :
  wp (check_auth req) w (fun w' r =>
    (authorized (w_state w) req /\ r = Ok tt /\ w' = w) \/
    (~ authorized (w_state w) req /\ r = Err DockerError.InvalidAuth /\
     metrics_only (w_state w) (w_state w') /\ w_fills w' = w_fills w /\ w_calls w' = w_calls w)).
Proof.
  unfold check_auth. wp_step. wp_step. unfold authorized.
  destruct (docker_user (config (w_state w))) as [|u0 us] eqn:Eu; [wp_step; by left; auto|].
  destruct (request_credentials req) as [[n p]|].
  2:{ wp_step. right. split_and!; [|done|apply metrics_only_refl|done|done].
      by intros [?|(u & _ & ?)]. }
  destruct (existsb _ _) eqn:Ex.
  - wp_step. left. split; [right|done]. apply existsb_exists in Ex as (u & Hu & Hm).
    apply user_matches_spec in Hm as [<- <-]. exists u. split; [by apply list_elem_of_In|done].
  - wp_step. wp_step. wp_step. right. split_and!; [|done..].
    intros [?|(u & Hu & [= -> ->])]; [done|].
    assert (existsb (user_matches (user_name u) (user_password u)) (u0 :: us) = true); [|congruence].
    apply existsb_exists. exists u. split; [by apply list_elem_of_In|by apply user_matches_spec].
Qed.

Definition unauthorized_response : Response :=
  mkResponse 401 [($"content-type", $"text/plain; charset=utf-8");
    (WWW_AUTHENTICATE, $"Basic realm=" ++ ["034"%char] ++ $"dockfoxprox" ++ ["034"%char])]
    (Full $"Unauthorized").

(** C14: a request without the credentials of a configured user is answered by
    the same constant 401, whatever the cache and the network hold; nothing but
    metrics changes, no upstream call is made and no fill is started. *)
Theorem docker_requires_auth io net uuid req s :
  ~ authorized s req ->
  exists s', handle_request io net uuid req s = (s', [], Some unauthorized_response) /\
    metrics_only s s' /\
    w_calls (run (handle_request_inner io net uuid req) (mkWorld s 0 [])).1 = 0.
Proof.
  intros Hn. unfold handle_request, handle_request_inner.
  pose proof (check_auth_spec req (mkWorld s 0 [])) as H. unfold wp in H. cbn [w_state w_fills w_calls] in H.
  rewrite run_bind. destruct (run (check_auth req) (mkWorld s 0 [])) as [w r]. simpl in H.
  destruct H as [(? & _)|(_ & -> & Hm & Hf & Hc)]; [done|].
  exists (w_state w). split; [|done]. by rewrite Hf.
Qed.

(** ** The registries upstream are read-only *)
Definition writes (m : Method.t) : bool :=
  match m with Method.GET | Method.HEAD => false | _ => true end.

Lemma counted_405 (m : Metric) (h : M Response) w (Q : World -> result DockerError.t Response -> Prop) :
  (forall w', metrics_only (w_state w) (w_state w') -> w_fills w' = w_fills w -> wp h w' Q) ->
  wp (counted m h) w Q.
Proof. intros H. unfold counted. wp_step. wp_step. apply H; done. Qed.

(** C21: push is only for the [self] registry: a request with a writing method
    whose host resolves to anything else changes nothing but metrics, starts
    no fill and is answered with an error status. *)
Theorem upstream_is_read_only io net uuid req s host name tag tail s' fills resp :
  parse_route (req_path req) = Ok (host, name, tag, tail) -> alias_host s host <> $"self" ->
  writes (req_method req) = true ->
  handle_request io net uuid req s = (s', fills, resp) ->
  metrics_only s s' /\ fills = [] /\
  exists r, resp = Some r /\ (resp_status r = 401 \/ resp_status r = 404 \/ resp_status r = 405)%N.
Proof.
  intros Hroute Hself Hw Hr.
  assert (H : wp (handle_request_inner io net uuid req) (mkWorld s 0 []) (fun w' r =>
    metrics_only s (w_state w') /\ w_fills w' = [] /\
    exists e, r = Err e /\ (e = DockerError.InvalidAuth \/ e = DockerError.NotFound \/
      exists m, e = DockerError.MethodNotAllowed m))).
  { unfold handle_request_inner. wp_step.
    eapply wp_mono; [apply check_auth_spec|]. intros w r H. simpl in H.
    destruct H as [(_ & -> & ->)|(_ & -> & Hm & Hf & _)]; [|by split_and!; eauto].
    assert (Hpath : bool_decide (req_path req = $"/v2") || bool_decide (req_path req = $"/v2/") = false).
    { apply orb_false_iff. split; apply bool_decide_eq_false_2; intros E; rewrite E in Hroute; vm_compute in Hroute; done. }
    cbv zeta. rewrite Hpath. wp_step. wp_step. rewrite Hroute. wp_step. wp_step.
    assert (He : forall m, ensure_self (alias_host s host) m = Err (DockerError.MethodNotAllowed m))
      by (intros m; unfold ensure_self; by rewrite decide_False).
    pose proof (metrics_only_refl s).
    destruct (decide (tag = _)).
    { destruct (req_method req); try done; try (wp_step; by eauto 10).
      apply counted_405. intros w' Hm Hf. unfold put_manifest. wp_step. wp_step. rewrite He. by eauto 10. }
    destruct (decide (tag = _)).
    { wp_step. wp_step. destruct (strip_suffix _ _) as [nm|]; [|simpl; by eauto 10]. simpl ok_or. cbv iota.
      destruct (req_method req); try done; try (wp_step; by eauto 10); apply counted_405; intros w' Hm Hf.
      - unfold put_blob_upload. wp_step. wp_step. rewrite He. by eauto 10.
      - unfold post_blob_upload. wp_step. wp_step. rewrite He. by eauto 10.
      - unfold patch_blob_upload. wp_step. wp_step. rewrite He. by eauto 10.
      - unfold delete_blob_upload. wp_step. wp_step. rewrite He. by eauto 10. }
    destruct (decide (tag = _)).
    { destruct (req_method req); try done; wp_step; by eauto 10. }
    wp_step. by eauto 10. }
  unfold handle_request in Hr. unfold wp in H. destruct (run (handle_request_inner _ _ _ _) _) as [w r].
  simpl in H. destruct H as (Hm & Hf & e & -> & He). injection Hr as <- <- <-.
  split_and!; [done|done|].
  destruct He as [->|[->|[m ->]]]; eexists; (split; [reflexivity|simpl; auto]).
Qed.
End auth.
