(* ===== verification/DockerContent.v ===== *)
(** * The Docker registry: blobs are what their digest says

    [addressed]: the content stored under a digest hashes to it; an upload
    object agrees with its hasher. What storing, touching and fills do to
    that. *)
From S2P Require Import Prelude Prog Digest Env Config State Disk Text Http DockerUpstream.
From S2P Require Import Docker.
From S2P Require Import DockerServe Eviction EvictionFrame EvictionDisk.

Section content.
Context {SHA : Sha256} {CT : ConstantTimeEq} {ITER : MapIter} {HC : HttpCodecs}.
Implicit Types (s : State) (w : World).

Definition addressed s : Prop :=
  forall d c, stored s (OBlob d) = Some c -> sha256_digest c = d.

(** The hasher of an upload has seen exactly its buffer. *)
Definition hashed (buf : bytes) (h : hasher) : Prop :=
  exists chunks, buf = concat chunks /\ h = foldl hasher_update hasher_new chunks.

Definition upload_ok (up : Upload) : Prop := hashed (up_buf up) (up_hasher up).

Record registry_ok s : Prop := {
  ro_ids : ids_ok s;
  ro_blobs : addressed s;
  ro_files : blob_files_ok s
}.

(** ** Uploads *)
Lemma hashed_new : hashed [] hasher_new.
Proof. by exists []. Qed.

Lemma hashed_update buf h c : hashed buf h -> hashed (buf ++ c) (hasher_update h c).
Proof.
  intros (cs & -> & ->). exists (cs ++ [c]). rewrite concat_app, foldl_snoc. simpl.
  by rewrite app_nil_r.
Qed.

Lemma hashed_finalize buf h : hashed buf h -> hasher_finalize h = sha256_digest buf.
Proof. intros (cs & -> & ->). apply hasher_law. Qed.

Lemma append_chunk_ok c up : upload_ok up -> upload_ok (append_chunk c up).
Proof. apply hashed_update. Qed.

(** A finished upload hands out bytes with the expected digest; after a
    mismatch the upload still is what was hashed. *)
Lemma finish_upload_spec d c up :
  upload_ok up ->
  match finish_upload d c up with
  | (_, Ok buf) => buf = up_buf up ++ c /\ sha256_digest buf = d
  | (up', Err got) => up_buf up' = up_buf up ++ c /\ upload_ok up' /\
      got = sha256_digest (up_buf up') /\ got <> d
  end.
Proof.
  intros Hu. unfold finish_upload.
  assert (H : exists u1, (if decide (c = []) then up else append_chunk c up) = u1 /\
    up_buf u1 = up_buf up ++ c /\ upload_ok u1).
  { case_decide as Hc; [subst c; exists up; by rewrite app_nil_r|].
    eexists. split; [reflexivity|]. split; [done|]. by apply append_chunk_ok. }
  destruct H as (u1 & -> & Hb & Hh). rewrite (hashed_finalize _ _ Hh).
  case_decide; [by rewrite <- Hb|done].
Qed.

(** ** Steps that do not touch blobs *)
Lemma registry_ok_same s s' :
  registry_ok s -> config s' = config s -> next_id s' = next_id s -> spawned s' = spawned s ->
  blobs s' = blobs s -> redis_entries s' = redis_entries s -> disk s' = disk s -> registry_ok s'.
Proof.
  intros [Hi Hb Hf] Hc Hn Hsp Hbl Hr Hd.
  assert (Hst : forall o, stored s' o = stored s o) by (intros; apply stored_ext; done || intros; by rewrite Hd).
  split.
  - by apply (ids_ok_same s).
  - intros d c. rewrite Hst. apply Hb.
  - by apply (blob_files_ok_ext s).
Qed.

(** ** Storing and touching blobs *)
Lemma store_blob_stored d c mt s o :
  stored (store_blob d c mt s) o = if decide (o = OBlob d) then Some c else stored s o.
Proof. unfold store_blob. cbn [take_id]. rewrite insert_blob_stored. done. Qed.

Lemma store_blob_ids d c mt s :
  ids_ok s -> (next_id s + 1 < U64)%N -> ids_ok (store_blob d c mt s).
Proof. intros Hi Hn. by apply insert_fresh_blob_ids. Qed.


Lemma registry_ok_store d c mt s :
  registry_ok s -> (next_id s + 1 < U64)%N -> sha256_digest c = d ->
  registry_ok (store_blob d c mt s).
Proof.
  intros [Hi Hb Hf] Hn Hd. split; [by apply store_blob_ids|..].
  - intros d' c'. rewrite store_blob_stored. case_decide as E; [|apply Hb].
    injection E as ->. by intros [= <-].
  - intros d' id n mt' la. unfold store_blob. cbn [take_id].
    destruct (insert_blob_fields d (Blob.InMemory (next_id s) c mt (now s)) (set_next_id (u64_add (next_id s) 1) s))
      as (Hbl & _ & Hdk & Hc & _).
    rewrite Hbl, Hdk, (cache_path_config _ s id) by done.
    intros [[_ ?]|[_ Hl]]%lookup_insert_Some; [done|]. by eapply Hf.
Qed.

Lemma touch_blob_stored d b s o :
  blobs s !! d = Some b -> stored (touch_blob d b s) o = stored s o /\
  owner_id (touch_blob d b s) o = owner_id s o.
Proof.
  intros Hd. unfold touch_blob. destruct o as [d'|k]; cbn [stored owner_id]; state_simpl; [|done].
  destruct (decide (d' = d)) as [->|Hne]; [|by rewrite lookup_insert_ne].
  rewrite lookup_insert_eq, Hd. by destruct b.
Qed.

Lemma registry_ok_touch d b s : registry_ok s -> blobs s !! d = Some b -> registry_ok (touch_blob d b s).
Proof.
  intros [Hi Hb Hf] Hd. split.
  - apply (ids_ok_delete s); [done..| |by left]. intros o i. by rewrite (proj2 (touch_blob_stored d b s o Hd)).
  - intros d' c. rewrite (proj1 (touch_blob_stored d b s _ Hd)). apply Hb.
  - intros d' id n mt la. unfold touch_blob. state_simpl.
    intros [[<- Hl]|[_ Hl]]%lookup_insert_Some; [|by eapply Hf].
    destruct b as [id' n' mt' la'|]; [|done]. injection Hl as -> -> -> _. by eapply Hf.
Qed.

(** ** Fills *)
Lemma drain_spec frames buf h buf' h' :
  hashed buf h -> drain frames buf h = Some (buf', h') ->
  hashed buf' h' /\ exists body, collect frames = Some body /\ buf' = buf ++ body.
Proof.
  revert buf h. induction frames as [|[c|] fs IH]; intros buf h Hh; simpl; [| |done].
  - intros [= <- <-]. split; [done|]. exists []. by rewrite app_nil_r.
  - intros Hd. destruct (IH _ _ (hashed_update _ _ c Hh) Hd) as (Hh' & body & -> & ->).
    split; [done|]. exists (c ++ body). by rewrite app_assoc.
Qed.

(** A completed fill caches nothing but a complete body with the digest
    that was asked for, under that digest. *)
Lemma fill_caches_verified f s :
  run_fill f s = s \/
  exists body, collect (fill_frames f) = Some body /\ sha256_digest body = fill_digest f /\
    run_fill f s = store_blob (fill_digest f) body (fill_media_type f) s.
Proof.
  unfold run_fill. destruct (drain _ _ _) as [[buf h]|] eqn:E; [|by left].
  destruct (drain_spec _ _ _ _ _ hashed_new E) as (Hh & body & Hc & ->). simpl in *.
  rewrite (hashed_finalize _ _ Hh). case_decide; [right|by left]. by exists body.
Qed.

Lemma run_fill_ok f s : registry_ok s -> (next_id s + 1 < U64)%N -> registry_ok (run_fill f s).
Proof.
  intros Hs Hn. unfold run_fill. destruct (drain _ _ _) as [[buf h]|] eqn:E; [|done].
  destruct (drain_spec _ _ _ _ _ hashed_new E) as (Hh & body & Hc & ->). simpl in *.
  rewrite (hashed_finalize _ _ Hh). case_decide; [|done]. by apply registry_ok_store.
Qed.
End content.
