(* ===== verification/DockerObjects.v ===== *)
(** * Upload objects

    An upload is an object that several requests may hold at once: the map of
    uploads has it, and a handler that has looked it up keeps it when it is
    dropped from the map. For a property [U] of uploads, [live_ok] is [U] of
    the upload in the map, [object_ok] [U] of the object, wherever it is, and
    [kept] what a step preserves of them. *)
From S2P Require Import Prelude Prog Digest Env Config State Text Http DockerUpstream Docker.
From S2P Require Import DockerServe.

Section uploads.
Context {SHA : Sha256} {CT : ConstantTimeEq} {ITER : MapIter} {HC : HttpCodecs}.
Context (U : Upload -> Prop).
Implicit Types (s : State).

(** The upload in the map, and the object a handler that looked it up holds,
    which may have been dropped from the map since. *)
Definition live_ok s (u : N) : Prop := forall up, uploads s !! u = Some up -> U up.
Definition object_ok s (u : N) : Prop := forall up,
  uploads s !! u = Some up \/ uploads s !! u = None /\ dropped_uploads s !! u = Some up -> U up.

(** All uploads in the map but those that are being closed. *)
Definition uploads_ok (closing : gset N) s : Prop := forall u, u ∉ closing -> live_ok s u.

(** What a step has to keep of the upload [u]. *)
Definition kept s s' (u : N) : Prop :=
  (live_ok s u -> live_ok s' u) /\ (object_ok s u -> object_ok s' u).

Lemma kept_trans s1 s2 s3 u : kept s1 s2 u -> kept s2 s3 u -> kept s1 s3 u.
Proof. intros [] []. split; auto. Qed.

Lemma kept_same s s' u :
  uploads s' = uploads s -> dropped_uploads s' = dropped_uploads s -> kept s s' u.
Proof. intros Hu Hd. split; intros H up; rewrite Hu, ?Hd; apply H. Qed.

Lemma kept_uploads_ok X s s' : (forall u, u ∉ X -> kept s s' u) -> uploads_ok X s -> uploads_ok X s'.
Proof. intros Hk Hs u Hu. by apply Hk, Hs. Qed.

Lemma new_upload_kept s u0 up u : U up -> kept s (set_uploads (<[u0 := up]> (uploads s)) s) u.
Proof.
  intros Hup. split; intros H x; simpl; destruct (decide (u = u0)) as [->|Hne];
    rewrite ?lookup_insert_eq, ?lookup_insert_ne by done; [|apply H| |apply H].
  - by intros [= <-].
  - by intros [[= <-]|[? _]].
Qed.

Lemma remove_upload_kept s u0 u : kept s (remove_upload u0 s) u.
Proof.
  unfold remove_upload. destruct (uploads s !! u0) as [up|] eqn:E; [|by apply kept_same].
  split; intros H x; simpl; destruct (decide (u = u0)) as [->|Hne];
    rewrite ?lookup_delete_eq, ?lookup_insert_eq, ?lookup_delete_ne, ?lookup_insert_ne by done;
    [done|apply H| |apply H].
  intros [?|[_ [= <-]]]; [done|]. apply H. by left.
Qed.

Lemma lock_upload_kept {A} s u0 up (f : Upload -> Upload * A) u :
  u <> u0 \/ (forall x, U x -> U (f x).1) -> kept s (lock_upload u0 up f s).1 u.
Proof.
  intros Hf. unfold lock_upload. destruct (uploads s !! u0) as [x|] eqn:E; [|destruct (dropped_uploads s !! u0) as [x|] eqn:Ed];
    [| |by apply kept_same]; split; intros H y; simpl;
    (destruct (decide (u = u0)) as [->|Hne];
      [destruct Hf as [?|Hf]; [done|]|rewrite ?lookup_insert_ne by done; apply H]);
    rewrite ?lookup_insert_eq.
  - intros [= <-]. by apply Hf, H.
  - intros [[= <-]|[? _]]; [|done]. apply Hf, H. by left.
  - rewrite E. done.
  - rewrite E. intros [?|[_ [= <-]]]; [done|]. apply Hf, H. by right.
Qed.

(** What is done under the lock is done to an object that is as it should be. *)
Lemma lock_upload_object {A} s u up (f : Upload -> Upload * A) :
  object_ok s u -> U up ->
  exists x, U x /\ (lock_upload u up f s).2 = (f x).2 /\
    (U (f x).1 -> object_ok (lock_upload u up f s).1 u).
Proof.
  intros Ho Hup. unfold lock_upload. destruct (uploads s !! u) as [x|] eqn:E; [|destruct (dropped_uploads s !! u) as [x|] eqn:Ed].
  - exists x. split_and!; [apply Ho; by left|done|]. intros Hx y. simpl. rewrite lookup_insert_eq.
    by intros [[= <-]|[? _]].
  - exists x. split_and!; [apply Ho; by right|done|]. intros Hx y. simpl. rewrite E, lookup_insert_eq.
    by intros [?|[_ [= <-]]].
  - exists up. done.
Qed.

Lemma remove_upload_live s u : live_ok (remove_upload u s) u.
Proof.
  unfold remove_upload, live_ok. intros x. destruct (uploads s !! u) eqn:E; simpl; [by rewrite lookup_delete_eq|by rewrite E].
Qed.

Lemma insert_blob_uploads d b s :
  uploads (insert_blob d b s) = uploads s /\ dropped_uploads (insert_blob d b s) = dropped_uploads s.
Proof.
  unfold insert_blob. destruct (blob_bucket b). state_simpl.
  destruct (blobs s !! d) as [o|]; [destruct (blob_bucket o)|]; done.
Qed.

Lemma store_blob_kept d c mt s u : kept s (store_blob d c mt s) u.
Proof.
  unfold store_blob. cbn [take_id]. apply kept_same.
  - by rewrite (proj1 (insert_blob_uploads _ _ _)).
  - by rewrite (proj2 (insert_blob_uploads _ _ _)).
Qed.

Lemma insert_manifest_kept d m s u : kept s (insert_manifest d m s) u.
Proof. by apply kept_same. Qed.

Lemma run_fill_kept f s u : kept s (run_fill f s) u.
Proof.
  unfold run_fill. destruct (drain _ _ _) as [[buf h]|]; [|by apply kept_same].
  case_decide; [apply store_blob_kept|by apply kept_same].
Qed.
End uploads.
