(* ===== verification/DockerMedia.v ===== *)
(** * The Docker registry: header values

    The builders of cached responses [expect] their headers to be valid. They
    are: a media type enters the cache as a text taken from a header
    ([media_ok]), and the other headers are printed. *)
From S2P Require Import Prelude Prog Digest Env Config State Disk Text Http DockerUpstream.
From S2P Require Import Docker.
From S2P Require Import DockerServe.

(** ** Printed texts are header values *)
Definition visible (b : bytes) : Prop := forall c, c ∈ b -> byte_in 32 126 c = true.

Lemma visible_app a b : visible a -> visible b -> visible (a ++ b).
Proof. intros Ha Hb c [?|?]%elem_of_app; auto. Qed.

Lemma visible_const b : forallb (byte_in 32 126) b = true -> visible b.
Proof. intros H c Hc. rewrite forallb_forall in H. apply H. by apply list_elem_of_In. Qed.

Lemma byte_in_mono lo hi lo' hi' c :
  (lo' <= lo)%N -> (hi <= hi')%N -> byte_in lo hi c = true -> byte_in lo' hi' c = true.
Proof. unfold byte_in. rewrite !andb_true_iff, !N.leb_le. lia. Qed.

Lemma visible_dec n : visible (dec n).
Proof. intros c Hc%dec_digits. revert Hc. apply byte_in_mono; lia. Qed.

Lemma visible_digest d : visible (digest_to_string d).
Proof.
  unfold digest_to_string. apply visible_app; [by apply visible_const|].
  intros c Hc. apply list_elem_of_In, in_concat in Hc as (h & Hh & Hc).
  apply in_map_iff in Hh as (x & <- & _). revert c Hc.
  pose proof (ascii_forall (fun x => forallb (byte_in 32 126) (hex2 x))) as H.
  intros c Hc. assert (Hx : forallb (byte_in 32 126) (hex2 x) = true) by (apply H; by vm_compute).
  rewrite forallb_forall in Hx. by apply Hx.
Qed.

Section media.
Context {SHA : Sha256} {CT : ConstantTimeEq} {ITER : MapIter} {HC : HttpCodecs}.
Implicit Types (s : State) (w : World).

Definition blob_media_type (b : Blob.t) : bytes :=
  match b with Blob.OnDisk _ _ mt _ => mt | Blob.InMemory _ _ mt _ => mt end.

Record media_ok s : Prop := {
  mo_manifests : forall d m, manifests s !! d = Some m -> header_value_ok (m_media_type m) = true;
  mo_blobs : forall d b, blobs s !! d = Some b -> header_value_ok (blob_media_type b) = true
}.

Definition fill_ok (f : Fill) : Prop := header_value_ok (fill_media_type f) = true.

Lemma text_ok b : visible b -> header_value_ok b = true.
Proof. apply header_visible. Qed.

Lemma content_type_ok resp : header_value_ok (content_type resp) = true.
Proof.
  unfold content_type, up_text_header. destruct (us_header resp _) as [v|]; simpl.
  - destruct (header_to_str v) as [t|] eqn:E; simpl; [by eapply header_to_str_ok|].
    by apply text_ok, visible_const.
  - by apply text_ok, visible_const.
Qed.

(** ** Steps that keep [media_ok] *)
Lemma media_ok_same s s' : media_ok s -> manifests s' = manifests s -> blobs s' = blobs s -> media_ok s'.
Proof. intros [Hm Hb] Em Eb. split; [rewrite Em|rewrite Eb]; done. Qed.

Lemma media_ok_manifest d m s s' :
  media_ok s -> manifests s' = <[d := m]> (manifests s) -> blobs s' = blobs s ->
  header_value_ok (m_media_type m) = true -> media_ok s'.
Proof.
  intros [Hm Hb] Em Eb Hok. split; [rewrite Em|rewrite Eb; done].
  intros d' m' [[<- <-]|[_ Hl]]%lookup_insert_Some; [done|by eapply Hm].
Qed.

Lemma media_ok_blob d b s s' :
  media_ok s -> manifests s' = manifests s -> blobs s' = <[d := b]> (blobs s) ->
  header_value_ok (blob_media_type b) = true -> media_ok s'.
Proof.
  intros [Hm Hb] Em Eb Hok. split; [rewrite Em; done|rewrite Eb].
  intros d' m' [[<- <-]|[_ Hl]]%lookup_insert_Some; [done|by eapply Hb].
Qed.

Lemma store_blob_media d c mt s :
  media_ok s -> header_value_ok mt = true -> media_ok (store_blob d c mt s).
Proof.
  intros Hs Hmt. unfold store_blob. cbn [take_id].
  set (b := Blob.InMemory _ _ _ _). set (s1 := set_next_id _ _).
  apply (media_ok_blob d b s); try done.
  - unfold insert_blob. destruct (blob_bucket b). state_simpl.
    destruct (blobs s1 !! d) as [o|]; [destruct (blob_bucket o)|]; done.
  - apply (insert_blob_fields d b s1).
Qed.

Lemma run_fill_media f s : media_ok s -> fill_ok f -> media_ok (run_fill f s).
Proof.
  intros Hs Hf. unfold run_fill. destruct (drain _ _ _) as [[buf h]|]; [|done].
  cbv zeta. case_decide; [|done]. by apply store_blob_media.
Qed.

Lemma build_ok status headers body :
  Forall (fun h => header_value_ok h.2 = true) headers ->
  build status headers body = Some (mkResponse status headers body).
Proof.
  intros H. unfold build.
  assert (forallb (fun h => header_value_ok h.2) headers = true) as ->; [|done].
  apply forallb_forall. intros h Hh%list_elem_of_In. by rewrite Forall_forall in H; apply H.
Qed.
End media.

(** The bytes of [$"..."] and printed texts, as header values. *)
Ltac header_ok :=
  apply text_ok; first [apply visible_dec | apply visible_digest | by apply visible_const].
Ltac headers_ok :=
  repeat first [apply Forall_nil; exact I | apply Forall_cons; split]; cbn [snd]; try header_ok.

Section headers.
Context {SHA : Sha256} {CT : ConstantTimeEq} {ITER : MapIter} {HC : HttpCodecs}.
Implicit Types (s : State).

Lemma blob_headers_ok mt d len :
  header_value_ok mt = true -> header_value_ok len = true ->
  Forall (fun h => header_value_ok h.2 = true) (blob_headers mt d len).
Proof. intros Hm Hl. unfold blob_headers. headers_ok; done. Qed.

Lemma touch_manifest_media d m s :
  media_ok s -> header_value_ok (m_media_type m) = true -> media_ok (touch_manifest d m s).
Proof. intros Hs Hm. by eapply (media_ok_manifest d _ s). Qed.

Lemma insert_manifest_media d m s :
  media_ok s -> header_value_ok (m_media_type m) = true -> media_ok (insert_manifest d m s).
Proof.
  intros Hs Hm. apply (media_ok_manifest d m s); [done|..|done];
    unfold insert_manifest; destruct (manifests s !! d); done.
Qed.

Lemma octet_stream_ok : header_value_ok octet_stream = true.
Proof. by apply text_ok, visible_const. Qed.

Lemma touch_blob_media d b s : media_ok s -> header_value_ok (blob_media_type b) = true -> media_ok (touch_blob d b s).
Proof. intros Hs Hb. eapply (media_ok_blob d _ s); [done..|]. by destruct b. Qed.

Lemma up_text_header_ok resp name t : up_text_header resp name = Some t -> header_value_ok t = true.
Proof. unfold up_text_header. destruct (us_header resp name); simpl; [apply header_to_str_ok|done]. Qed.

(** The media type of a pushed manifest. *)
Lemma manifest_type_ok req :
  header_value_ok (default $"application/vnd.docker.distribution.manifest.v2+json"
                     (req_header req $"content-type" ≫= header_to_str)) = true.
Proof.
  destruct (req_header req _) as [v|]; simpl; [|by apply text_ok, visible_const].
  destruct (header_to_str v) eqn:E; simpl; [by eapply header_to_str_ok|by apply text_ok, visible_const].
Qed.

Lemma upstream_length_ok resp :
  header_value_ok (default $"0" (up_text_header resp $"content-length")) = true.
Proof.
  destruct (up_text_header resp _) eqn:E; simpl; [by eapply up_text_header_ok|by apply text_ok, visible_const].
Qed.
End headers.
