(* ===== verification/DockerSafe.v ===== *)
(** * Handlers under interference

    Between any two operations of a handler other tasks change the state.
    [StateInv] is what an invariant of the state has to promise about the
    operations of [State]; every handler then keeps it, operation by
    operation, whatever happens in between, and ends in no panic. Uploads need
    a discipline: [closing] is the upload that the request may close, and no
    other request closes it meanwhile. *)
From S2P Require Import Prelude Prog Digest Env Config State Text Http DockerUpstream Docker.
From S2P Require Import DockerServe DockerLogic DockerObjects DockerMedia.

(** The interface between an invariant and the handlers. [J g] is an invariant of
    the state, for every [g] (what other tasks claim of it), [U] of uploads; [content d b] is what has to be known of bytes
    [b] that are stored under [d], [avail] what a store needs of its moment. *)
Class StateInv {SHA : Sha256} {Gh : Type} (avail : State -> Prop) (J : Gh -> State -> Prop)
    (U : Upload -> Prop) (content : Digest -> bytes -> Prop) : Prop := {
  si_metric g m n s : J g s -> J g (metric_add m n s);
  si_tokens g v s : J g s -> J g (set_tokens v s);
  si_tags g v s : J g s -> J g (set_tags v s);
  si_uploads g v s : J g s -> J g (set_uploads v s);
  si_dropped g v s : J g s -> J g (set_dropped_uploads v s);
  si_insert_manifest g d m s : J g s -> J g (insert_manifest d m s);
  si_touch_manifest g d m s : manifests s !! d = Some m -> J g s -> J g (touch_manifest d m s);
  si_touch_blob g d b s : blobs s !! d = Some b -> J g s -> J g (touch_blob d b s);
  si_store_blob g d b mt s : avail s -> content d b -> J g s -> J g (store_blob d b mt s);
  si_new : U (mkUpload [] hasher_new);
  si_append b up : U up -> U (append_chunk b up);
  si_finish d b up : U up ->
    match finish_upload d b up with (_, Ok buf) => content d buf | (up', Err _) => U up' end;
  si_hashed b : content (sha256_digest b) b
}.

(** A second invariant, which asks nothing of uploads, on top of a first. *)
Lemma state_inv_and {SHA : Sha256} {Gh} avail (J J' : Gh -> State -> Prop) U content :
  StateInv avail J U content -> StateInv avail J' (fun _ => True) (fun _ _ => True) ->
  StateInv avail (fun g s => J g s /\ J' g s) U content.
Proof.
  intros [] []. split; try done; intros; try (destruct_and?; split); eauto.
Qed.

Section logic.
Context {SHA : Sha256} {CT : ConstantTimeEq} {ITER : MapIter} {HC : HttpCodecs}.
Context {Gh : Type} (avail : State -> Prop) (J : Gh -> State -> Prop).
Context (U : Upload -> Prop) (content : Digest -> bytes -> Prop) (closing : option N).
Implicit Types (s : State) (w : World).

(** The shared invariant, for a set [X.1] of uploads that are being closed. *)
Record inv (X : gset N * Gh) w : Prop := {
  inv_state : J X.2 (w_state w);
  inv_media : media_ok (w_state w);
  inv_fills : Forall fill_ok (w_fills w);
  inv_uploads : uploads_ok U X.1 (w_state w);
  inv_closing : from_option (fun u => u ∈ X.1) True closing
}.

(** Nobody harms an upload that somebody else closes. *)
Definition guar w w' : Prop := forall u, closing <> Some u -> kept U (w_state w) (w_state w') u.
Definition rely w w' : Prop := forall u, closing = Some u -> kept U (w_state w) (w_state w') u.

#[export] Instance rely_preorder : PreOrder rely.
Proof.
  split; [by intros w u _; apply kept_same|]. intros w1 w2 w3 H1 H2 u Hu. eapply kept_trans; [by apply H1|by apply H2].
Qed.

Definition live w : Prop := forall u, closing = Some u -> live_ok U (w_state w) u.

Lemma rely_live w w' : rely w w' -> live w -> live w'.
Proof. intros Hr Hl u Hu. by apply (Hr u Hu), Hl. Qed.

(** The end of a handler. *)
Definition ends {A} (φ : A -> Prop) (r : result DockerError.t A) w : Prop :=
  live w /\ r <> Err DockerError.Panic /\ forall a, r = Ok a -> φ a.

Definition safely {A} (h : M A) (Q : result DockerError.t A -> World -> Prop) w : Prop :=
  safe inv (fun w => avail (w_state w)) guar rely h Q w.

Definition keeps {A} (h : M A) (φ : A -> Prop) : Prop := forall w, live w -> safely h (ends φ) w.

(** ** Rules *)
Lemma keeps_mono {A} (h : M A) (φ ψ : A -> Prop) : keeps h φ -> (forall a, φ a -> ψ a) -> keeps h ψ.
Proof.
  intros Hh Hφ w Hw. eapply safe_mono; [by apply Hh|]. intros r w' (H1 & H2 & H3). split_and!; eauto.
Qed.

Lemma keeps_bind {A B} (h : M A) (f : A -> M B) (φ : A -> Prop) (ψ : B -> Prop) :
  keeps h φ -> (forall a, φ a -> keeps (f a) ψ) -> keeps (h ≫= f) ψ.
Proof.
  intros Hh Hf w Hw. apply safe_then. eapply safe_mono; [by apply Hh|].
  intros [a|e] w' (H1 & H2 & H3); [apply Hf; auto|]. split_and!; [done|congruence|done].
Qed.

Lemma keeps_lift {A} (r : result DockerError.t A) (φ : A -> Prop) :
  r <> Err DockerError.Panic -> (forall a, r = Ok a -> φ a) -> keeps (lift r) φ.
Proof. by intros Hr Hφ w Hw. Qed.
Lemma keeps_ret {A} (a : A) (φ : A -> Prop) : φ a -> keeps (mret a) φ.
Proof. intros Ha w Hw. split_and!; [done|done|by intros _ [= <-]]. Qed.
Lemma keeps_throw {A} e (φ : A -> Prop) : e <> DockerError.Panic -> keeps (throw e) φ.
Proof. intros He w Hw. split_and!; [done|congruence|done]. Qed.

(** One operation on the state. *)
Lemma keeps_on_state {A} (f : State -> State * A) (φ : A -> Prop) :
  (forall g s, avail s -> J g s -> media_ok s -> J g (f s).1 /\ media_ok (f s).1 /\ φ (f s).2) ->
  (forall s u, kept U s (f s).1 u) -> keeps (on_state f) φ.
Proof.
  intros Hf Hk w Hw. apply safe_atomically. intros X w' Hr [Hj Hm Hfl Hu Hc] Ha. cbn [fst snd w_state].
  destruct (Hf _ _ Ha Hj Hm) as (H1 & H2 & H3). split_and!.
  - split; [done..| |done]. by apply (kept_uploads_ok _ _ (w_state w')).
  - intros u _. apply Hk.
  - split_and!; [|done|by intros a [= <-]]. intros u Hc'. apply (Hk (w_state w') u). by apply (rely_live w w').
Qed.

Lemma keeps_get : keeps get_state media_ok.
Proof. apply keeps_on_state; [done|]. intros s u. by apply kept_same. Qed.

Lemma keeps_modify f :
  (forall g s, avail s -> J g s -> media_ok s -> J g (f s) /\ media_ok (f s)) ->
  (forall s u, kept U s (f s) u) -> keeps (modify f) (fun _ => True).
Proof. intros Hf Hk. apply keeps_on_state; [|done]. intros g s Ha Hj Hm. by destruct (Hf g s Ha Hj Hm). Qed.

(** An operation that is of no concern to blobs, manifests and uploads. *)
Lemma keeps_modify_same f :
  (forall g s, J g s -> J g (f s)) ->
  (forall s, manifests (f s) = manifests s /\ blobs (f s) = blobs s) ->
  (forall s, uploads (f s) = uploads s /\ dropped_uploads (f s) = dropped_uploads s) ->
  keeps (modify f) (fun _ => True).
Proof.
  intros Hj Hb Hu. apply keeps_modify.
  - intros g s _ Hs Hm. split; [by apply Hj|]. by apply (media_ok_same s); [|apply Hb..].
  - intros s u. by apply kept_same; apply Hu.
Qed.

Lemma keeps_send net r : keeps (send net r) (fun _ => True).
Proof.
  intros w Hw. apply safe_atomically. intros X w' Hr [] Ha. cbn [fst snd w_state w_fills].
  split_and!; [by split|by intros u _; apply kept_same|]. split_and!; [by apply (rely_live w w')|done|done].
Qed.

Lemma keeps_spawn_fill f : fill_ok f -> keeps (spawn_fill f) (fun _ => True).
Proof.
  intros Hf w Hw. apply safe_atomically. intros X w' Hr [] Ha. cbn [fst snd w_state w_fills].
  split_and!; [|by intros u _; apply kept_same|split_and!; [by apply (rely_live w w')|done|done]].
  split; [done..| |done|done]. by apply Forall_app_2; [|constructor].
Qed.

(** What happens under a guard. *)
Lemma keeps_guarded {A} (h : M A) (φ : A -> Prop) :
  (forall g w, J g (w_state w) -> media_ok (w_state w) -> wp h w (fun w' r =>
     J g (w_state w') /\ media_ok (w_state w') /\ w_fills w' = w_fills w /\
     (forall u, kept U (w_state w) (w_state w') u) /\ r <> Err DockerError.Panic /\ forall a, r = Ok a -> φ a)) ->
  keeps (guarded h) φ.
Proof.
  intros Hh w Hw. apply safe_guarded. intros X w' Hr [Hj Hm Hf Hu Hc] Ha.
  destruct (Hh X.2 w' Hj Hm) as (H1 & H2 & H3 & H4 & H5 & H6). split_and!.
  - split; [done|done|by rewrite H3| |done]. by apply (kept_uploads_ok _ _ (w_state w')).
  - intros u _. apply H4.
  - split_and!; [|done|done]. intros u Hc'. apply (H4 u). by apply (rely_live w w').
Qed.

Lemma keeps_try status headers body : keeps (build_try status headers body) (fun _ => True).
Proof. unfold build_try. apply keeps_lift; [|done]. by destruct (build _ _ _). Qed.

Lemma keeps_expect status headers body :
  Forall (fun h => header_value_ok h.2 = true) headers -> keeps (build_expect status headers body) (fun _ => True).
Proof. intros H. unfold build_expect. rewrite build_ok by done. by apply keeps_lift. Qed.

Lemma keeps_ok_or {A} (o : option A) e : e <> DockerError.Panic -> keeps (lift (ok_or o e)) (fun a => o = Some a).
Proof. intros He. apply keeps_lift; [|by destruct o; intros b [= <-]]. destruct o; simpl; congruence. Qed.

Lemma keeps_ensure_self host m : keeps (lift (ensure_self host m)) (fun _ => True).
Proof. apply keeps_lift; [|done]. unfold ensure_self. by case_decide. Qed.
End logic.

Create HintDb keeps.
#[export] Hint Resolve keeps_try keeps_ensure_self keeps_send : keeps.
#[export] Hint Extern 1 (keeps _ _ _ _ (mret _) _) => apply keeps_ret; done : keeps.
#[export] Hint Extern 1 (keeps _ _ _ _ (throw _) _) => apply keeps_throw; discriminate : keeps.

(** The upload that a request may close. *)
Definition closes `{HttpCodecs} (req : Request) : option N :=
  match req_method req, parse_route (req_path req) with
  | Method.PUT, Ok (_, _, tag, tail) => if decide (tag = $"uploads") then uuid_parse_str tail else None
  | _, _ => None
  end.

Section handlers.
Context {SHA : Sha256} {CT : ConstantTimeEq} {ITER : MapIter} {HC : HttpCodecs}.
Context {Gh : Type} (avail : State -> Prop) (J : Gh -> State -> Prop).
Context (U : Upload -> Prop) (content : Digest -> bytes -> Prop).
Context `{!StateInv avail J U content} (closing : option N).
#[local] Set Default Proof Using "All".
#[local] Abbreviation keeps := (keeps avail J U closing).
#[local] Abbreviation any := (fun _ => True).

Lemma keeps_metric m n : keeps (modify (metric_add m n)) any.
Proof. apply keeps_modify_same; [intros g s; apply si_metric|done..]. Qed.
Lemma keeps_tokens f : keeps (modify (fun s => set_tokens (f s) s)) any.
Proof. apply keeps_modify_same; [intros g s; apply si_tokens|done..]. Qed.
Lemma keeps_tags f : keeps (modify (fun s => set_tags (f s) s)) any.
Proof. apply keeps_modify_same; [intros g s; apply si_tags|done..]. Qed.

Lemma keeps_store d b mt : content d b -> header_value_ok mt = true -> keeps (modify (store_blob d b mt)) any.
Proof.
  intros Hd Hmt. apply keeps_modify; [|intros s u; apply store_blob_kept]. intros g s Ha Hj Hm.
  split; [by apply si_store_blob|by apply store_blob_media].
Qed.

Lemma keeps_insert_manifest d m : header_value_ok (m_media_type m) = true -> keeps (modify (insert_manifest d m)) any.
Proof.
  intros Hmt. apply keeps_modify; [|intros s u; apply insert_manifest_kept]. intros g s Ha Hj Hm.
  split; [by apply si_insert_manifest|by apply insert_manifest_media].
Qed.

Lemma lock_upload_inv {A} u up (f : Upload -> Upload * A) g s :
  J g s -> media_ok s -> J g (lock_upload u up f s).1 /\ media_ok (lock_upload u up f s).1.
Proof.
  intros Hj Hm. unfold lock_upload. destruct (uploads s !! u); [|destruct (dropped_uploads s !! u); [|done]];
    (split; [first [by apply si_uploads|by apply si_dropped]|by apply (media_ok_same s)]).
Qed.

Lemma keeps_lock_upload {A} u up (f : Upload -> Upload * A) :
  (forall x, U x -> U (f x).1) -> keeps (on_state (lock_upload u up f)) any.
Proof.
  intros Hf. apply keeps_on_state; [|intros s v; apply lock_upload_kept; by right].
  intros g s Ha Hj Hm. by destruct (lock_upload_inv u up f g s Hj Hm).
Qed.

Lemma remove_upload_inv u g s : J g s -> media_ok s -> J g (remove_upload u s) /\ media_ok (remove_upload u s).
Proof.
  intros Hj Hm. unfold remove_upload. destruct (uploads s !! u); [|done].
  split; [by apply si_dropped, si_uploads|by apply (media_ok_same s)].
Qed.

Lemma keeps_remove_upload u : keeps (modify (remove_upload u)) any.
Proof. apply keeps_modify; [intros g s _; apply remove_upload_inv|intros s v; apply remove_upload_kept]. Qed.

Lemma keeps_new_upload u :
  keeps (modify (fun s => set_uploads (<[u := mkUpload [] hasher_new]> (uploads s)) s)) any.
Proof.
  apply keeps_modify; [|intros s v; apply new_upload_kept, si_new].
  intros g s _ Hj Hm. split; [by apply si_uploads|by apply (media_ok_same s)].
Qed.

#[local] Hint Resolve keeps_metric keeps_tokens keeps_tags keeps_remove_upload keeps_new_upload : keeps.
#[local] Ltac next := eapply keeps_bind; [solve [eauto with keeps]|intros ? _].

Lemma read_body_keeps req : keeps (read_body req) any.
Proof. eapply keeps_mono; [by apply keeps_ok_or|done]. Qed.

Lemma fetch_token_keeps net ch creds : keeps (fetch_token net ch creds) any.
Proof.
  unfold fetch_token. next. destruct a as [resp|]; [|auto with keeps].
  destruct (negb _); [auto with keeps|].
  destruct (collect _ ≫= _) as [[t a]|]; [|auto with keeps].
  destruct t; [auto with keeps|]. destruct a; auto with keeps.
Qed.
#[local] Hint Resolve read_body_keeps fetch_token_keeps : keeps.

Lemma pull_attempts_keeps net n key req creds token had : keeps (pull_attempts net n key req creds token had) any.
Proof.
  revert token had. induction n as [|n IH]; intros token had; cbn [pull_attempts]; [auto with keeps|].
  next. cbv zeta. next. destruct a0 as [resp|]; [|next; auto with keeps].
  destruct (negb _); [auto with keeps|].
  eapply (keeps_bind _ _ _ _ _ _ any); [destruct had; auto with keeps|intros _ _].
  destruct (_ ≫= parse_bearer_challenge) as [ch|]; [|auto with keeps].
  next. next. apply IH.
Qed.

Lemma upstream_keeps net host name m sub accept : keeps (upstream_pull_request net host name m sub accept) any.
Proof. unfold upstream_pull_request. eapply keeps_bind; [apply keeps_get|]. intros s _. apply pull_attempts_keeps. Qed.

Lemma check_auth_keeps req : keeps (check_auth req) any.
Proof.
  unfold check_auth. eapply keeps_bind; [apply keeps_get|]. intros s _.
  destruct (docker_user _); [auto with keeps|].
  destruct (request_credentials req) as [[]|]; [|auto with keeps].
  destruct (existsb _ _); [auto with keeps|]. next. auto with keeps.
Qed.
#[local] Hint Resolve upstream_keeps check_auth_keeps : keeps.

Lemma resolve_reference_keeps net host name reference accept :
  keeps (resolve_reference net host name reference accept) any.
Proof.
  unfold resolve_reference. destruct (digest_from_str reference); [auto with keeps|]. case_decide.
  - eapply keeps_bind; [apply keeps_get|]. intros s _. destruct (tags s !! _); auto with keeps.
  - next. destruct (negb _); [auto with keeps|]. destruct (_ ≫= digest_from_str); auto with keeps.
Qed.

Lemma serve_manifest_lift m head d :
  header_value_ok (m_media_type m) = true -> exists resp, serve_manifest m head d = lift (Ok resp).
Proof.
  intros Hm. unfold serve_manifest, build_expect. rewrite build_ok; [by eexists|]. headers_ok. done.
Qed.

Lemma serve_manifest_keeps m head d : header_value_ok (m_media_type m) = true -> keeps (serve_manifest m head d) any.
Proof. intros Hm. apply keeps_expect. headers_ok. done. Qed.

Lemma cached_manifest_keeps d head : keeps (cached_manifest d head) any.
Proof.
  apply keeps_guarded. intros g w Hj Hm. wp_step. wp_step. destruct (manifests _ !! d) as [m|] eqn:Em.
  - pose proof (mo_manifests _ Hm _ _ Em) as Hmt. wp_step. wp_step. wp_step.
    destruct (serve_manifest_lift m head d Hmt) as [resp ->]. wp_step. wp_step.
    split_and!; [by apply si_touch_manifest|by apply touch_manifest_media|done|intros u; by apply kept_same|done..].
  - wp_step. split_and!; [done..|intros u; by apply kept_same|done|done].
Qed.

Lemma get_head_manifest_keeps net req host name reference head :
  keeps (get_head_manifest net req host name reference head) any.
Proof.
  unfold get_head_manifest. cbv zeta.
  eapply keeps_bind; [apply resolve_reference_keeps|intros [d|r] _]; [|auto with keeps].
  eapply keeps_bind; [apply cached_manifest_keeps|intros [resp|] _]; [auto with keeps|].
  case_decide; [auto with keeps|]. next. next. destruct (negb _); [auto with keeps|].
  destruct (collect _) as [body|]; [|auto with keeps].
  eapply keeps_bind; [apply keeps_get|]. intros s _. cbv zeta. pose proof (content_type_ok a0) as Hm.
  eapply keeps_bind; [by apply keeps_insert_manifest|intros _ _]. by apply serve_manifest_keeps.
Qed.

Lemma put_manifest_keeps req host name reference : keeps (put_manifest req host name reference) any.
Proof.
  unfold put_manifest. next. cbv zeta. next. eapply keeps_bind; [apply keeps_get|]. intros s _.
  eapply keeps_bind; [apply keeps_insert_manifest, manifest_type_ok|intros _ _].
  eapply (keeps_bind _ _ _ _ _ _ any); [destruct (digest_from_str _); auto with keeps|intros _ _].
  next. auto with keeps.
Qed.

Lemma blob_created_keeps name d : keeps (blob_created name d) any.
Proof. unfold blob_created. auto with keeps. Qed.
#[local] Hint Resolve blob_created_keeps : keeps.

Lemma post_blob_upload_keeps u req host name : keeps (post_blob_upload u req host name) any.
Proof.
  unfold post_blob_upload. next. destruct (digest_from_query req) as [ds|].
  - destruct (digest_from_str ds); [|auto with keeps]. next. cbv zeta.
    case_decide as E; [|auto with keeps].
    eapply keeps_bind; [apply keeps_store; [apply si_hashed|apply octet_stream_ok]|intros _ _]. auto with keeps.
  - next. auto with keeps.
Qed.

Lemma patch_blob_upload_keeps req host name uuid : keeps (patch_blob_upload req host name uuid) any.
Proof.
  unfold patch_blob_upload. next. destruct (uuid_parse_str uuid); [|auto with keeps].
  eapply keeps_bind; [apply keeps_get|]. intros s _. destruct (uploads s !! _); [|auto with keeps].
  next. eapply keeps_bind; [apply keeps_lock_upload; intros x; apply si_append|intros u1 _]. auto with keeps.
Qed.

Lemma get_blob_upload_status_keeps host name uuid : keeps (get_blob_upload_status host name uuid) any.
Proof.
  unfold get_blob_upload_status. next. destruct (uuid_parse_str uuid); [|auto with keeps].
  eapply keeps_bind; [apply keeps_get|]. intros s _. destruct (uploads s !! _); [|auto with keeps].
  eapply keeps_bind; [by apply keeps_lock_upload|intros u1 _]. auto with keeps.
Qed.

Lemma delete_blob_upload_keeps host uuid : keeps (delete_blob_upload host uuid) any.
Proof.
  unfold delete_blob_upload. next. destruct (uuid_parse_str uuid); [|auto with keeps]. next. auto with keeps.
Qed.

(** ** Closing an upload *)
Lemma store_created_keeps d b name :
  content d b -> keeps (_ ← modify (store_blob d b octet_stream); blob_created name d) any.
Proof. intros Hd. eapply keeps_bind; [apply keeps_store; [done|apply octet_stream_ok]|intros _ _]. auto with keeps. Qed.

Lemma close_keeps uuid expected chunk up name :
  closing = Some uuid -> U up -> forall w, object_ok U (w_state w) uuid ->
  safely avail J U closing (
    r ← on_state (lock_upload uuid up (finish_upload expected chunk));
    match r with
    | Err got => mret (digest_mismatch expected got)
    | Ok buf =>
        _ ← modify (remove_upload uuid);
        _ ← modify (store_blob expected buf octet_stream);
        blob_created name expected
    end) (ends U closing any) w.
Proof.
  intros Hc Hup w Ho. apply safe_then, safe_atomically. intros X w1 Hr1 [Hj Hm Hf Hu HX] Ha.
  destruct (lock_upload_object U (w_state w1) uuid up (finish_upload expected chunk)) as (x & Hx & Hres & Hobj);
    [by apply (Hr1 uuid Hc)|done|].
  destruct (lock_upload_inv uuid up (finish_upload expected chunk) _ (w_state w1) Hj Hm) as [Hj1 Hm1].
  assert (Hother : forall u, closing <> Some u ->
      kept U (w_state w1) (lock_upload uuid up (finish_upload expected chunk) (w_state w1)).1 u).
  { intros u Hu'. apply lock_upload_kept. left. congruence. }
  cbn [fst snd w_state w_calls w_fills]. split_and!; [|done|].
  - split; [done..| |done]. apply (kept_uploads_ok _ _ (w_state w1)); [|done].
    intros u Hu'. apply Hother. intros E. rewrite E in HX. done.
  - rewrite Hres. pose proof (si_finish expected chunk x Hx) as Hfin.
    destruct (finish_upload expected chunk x) as [x' [buf|got]]; cbn [fst snd] in *.
    + apply safe_then, safe_atomically. intros X2 w2 Hr2 [Hj2 Hm2 Hf2 Hu2 HX2] Ha2. cbn [fst snd w_state w_calls w_fills].
      destruct (remove_upload_inv uuid _ (w_state w2) Hj2 Hm2) as [Hj3 Hm3]. split_and!.
      * split; [done..| |done]. apply (kept_uploads_ok _ _ (w_state w2)); [|done]. intros u _. apply remove_upload_kept.
      * intros u _. apply remove_upload_kept.
      * apply (store_created_keeps expected buf name Hfin). intros u Hu'.
        replace u with uuid by congruence. apply remove_upload_live.
    + split_and!; [|done|done]. intros u Hu' y Hy. replace u with uuid in * by congruence.
      apply (Hobj Hfin). by left.
Qed.

Lemma put_blob_upload_keeps req host name uuid :
  closing = uuid_parse_str uuid -> keeps (put_blob_upload req host name uuid) any.
Proof.
  intros Hc. unfold put_blob_upload. next. destruct (uuid_parse_str uuid) as [u|]; [|auto with keeps].
  destruct (digest_from_query req) as [ds|]; [|auto with keeps].
  destruct (digest_from_str ds) as [d|]; [|auto with keeps].
  intros w Hw. apply safe_then, safe_atomically. intros X w1 Hr [] Ha. cbn [fst snd].
  pose proof (rely_live U closing w w1 Hr Hw) as Hl. split_and!; [by split|intros v _; by apply kept_same|].
  destruct (uploads (w_state w1) !! u) as [up|] eqn:Eu; [|split_and!; done].
  unfold read_body. destruct (req_body req) as [chunk|]; [|split_and!; done].
  apply (close_keeps u d chunk up name Hc); [by apply (Hl u)|].
  intros x [Hx|[Hx _]]; [by apply (Hl u)|]. cbn [w_state] in Hx. congruence.
Qed.

(** ** Blobs *)
Lemma serve_disk_blob_wp io d id size mt head w :
  header_value_ok mt = true -> wp (serve_disk_blob io d id size mt head) w (fun w' r => w' = w /\ exists resp, r = Ok resp).
Proof.
  intros Hmt. pose proof (blob_headers_ok mt d (dec size) Hmt (text_ok _ (visible_dec size))) as Hh.
  unfold serve_disk_blob, build_expect. destruct head; cbv iota.
  { rewrite build_ok by done. wp_step. by eauto. }
  wp_step. wp_step. destruct (fs_stream _ _ _); [rewrite build_ok by done|]; wp_step; [|by eauto].
  destruct w; by eauto.
Qed.

Lemma cached_blob_keeps io d head : keeps (cached_blob io d head) any.
Proof.
  apply keeps_guarded. intros g w Hj Hm. wp_step. wp_step. destruct (blobs _ !! d) as [b|] eqn:Eb.
  2:{ wp_step. split_and!; [done..|intros u; by apply kept_same|done|done]. }
  pose proof (mo_blobs _ Hm _ _ Eb) as Hmt. wp_step. wp_step. wp_step.
  set (s1 := touch_blob d b (w_state w)).
  assert (Hj1 : J g s1) by by apply si_touch_blob.
  assert (Hm1 : media_ok s1) by by apply touch_blob_media.
  destruct b as [id n mt la|id c mt la]; simpl in Hmt; wp_step; wp_step.
  - eapply wp_mono; [by apply serve_disk_blob_wp|]. intros w' r (-> & resp & ->). wp_step.
    split_and!; [by apply si_metric|by apply (media_ok_same s1)|done|intros u; by apply kept_same|done|done].
  - unfold serve_blob_bytes, build_expect.
    rewrite build_ok by (apply blob_headers_ok; [done|apply text_ok, visible_dec]). wp_step. cbn [ok_or]. wp_step.
    split_and!; [by apply si_metric|by apply (media_ok_same s1)|done|intros u; by apply kept_same|done|done].
Qed.

Lemma get_head_blob_keeps io net host name digest head : keeps (get_head_blob io net host name digest head) any.
Proof.
  unfold get_head_blob. destruct (digest_from_str digest) as [d|]; [|auto with keeps].
  eapply keeps_bind; [apply cached_blob_keeps|intros [resp|] _]; [auto with keeps|].
  case_decide; [auto with keeps|]. next. next. rename a0 into resp.
  destruct (negb _); [auto with keeps|]. destruct head.
  - apply keeps_expect, blob_headers_ok; [apply content_type_ok|apply upstream_length_ok].
  - cbv zeta. eapply (keeps_bind _ _ _ _ _ _ any); [|intros body _].
    { unfold spawn_blob_fill. eapply keeps_bind; [apply keeps_spawn_fill, content_type_ok|auto with keeps]. }
    apply keeps_expect, Forall_app_2; [headers_ok; apply content_type_ok|].
    destruct (_ ≫= parse_usize); headers_ok.
Qed.

(** ** Dispatch *)
Lemma counted_keeps m (h : M Response) : keeps h any -> keeps (counted m h) any.
Proof. intros Hh. unfold counted. next. done. Qed.

Lemma parse_route_keeps path : keeps (lift (parse_route path)) (fun r => parse_route path = Ok r).
Proof.
  apply keeps_lift; [|done]. unfold parse_route.
  destruct (strip_prefix _ _) as [x|]; [simpl|done].
  destruct (split_once _ _) as [[host rest]|]; [simpl|done].
  destruct (_ || _); [done|]. unfold validate_host. destruct (_ || _ || _); [done|]. simpl.
  destruct (rsplit_once _ rest) as [[a b]|]; [simpl|done].
  by destruct (rsplit_once _ a) as [[? ?]|].
Qed.

Lemma handle_request_inner_keeps io net u req :
  closing = closes req -> keeps (handle_request_inner io net u req) any.
Proof.
  intros Hc. unfold handle_request_inner. next. cbv zeta. destruct (_ || _); [auto with keeps|].
  eapply keeps_bind; [apply parse_route_keeps|]. intros [[[host name] tag] tl] Hroute. cbn beta iota.
  eapply keeps_bind; [apply keeps_get|]. intros s _.
  case_decide as H1.
  { destruct (req_method req); try (by auto with keeps); apply counted_keeps;
      (apply get_head_manifest_keeps || apply put_manifest_keeps). }
  case_decide as H2.
  { unfold closes in Hc. rewrite Hroute, decide_True in Hc by done.
    eapply keeps_bind; [by apply keeps_ok_or|intros nm _].
    destruct (req_method req); try (by auto with keeps); try apply get_blob_upload_status_keeps;
      apply counted_keeps; first [by apply put_blob_upload_keeps|apply post_blob_upload_keeps
        |apply patch_blob_upload_keeps|apply delete_blob_upload_keeps]. }
  case_decide; [|auto with keeps].
  destruct (req_method req); try (by auto with keeps); apply counted_keeps; apply get_head_blob_keeps.
Qed.
End handlers.
