(* ===== verification/DockerAnswers.v ===== *)
(** * The Docker registry: every request is answered

    The consequence of [handle_request_inner_keeps] for a request that runs
    without interruption, with no invariant but [media_ok]. *)
From S2P Require Import Prelude Prog Digest Env Config State Text Http DockerUpstream Docker.
From S2P Require Import DockerServe DockerObjects DockerMedia DockerSafe.

Section answers.
Context {SHA : Sha256} {CT : ConstantTimeEq} {ITER : MapIter} {HC : HttpCodecs}.
Implicit Types (s : State).

#[local] Abbreviation anything := (fun _ => True).

#[local] Abbreviation no_claim := (fun (_ : unit) (_ : State) => True).

#[local] Instance no_inv : StateInv (SHA := SHA) anything no_claim anything (fun _ _ => True).
Proof. split; try done. intros d b up _. by destruct (finish_upload d b up) as [? []]. Qed.

Lemma handle_request_media io net u req s s' fills resp :
  media_ok s -> handle_request io net u req s = (s', fills, resp) ->
  is_Some resp /\ media_ok s' /\ Forall fill_ok fills.
Proof.
  intros Hs. unfold handle_request.
  pose proof (handle_request_inner_keeps anything no_claim anything _ (closes req) io net u req eq_refl
    (mkWorld s 0 []) ltac:(done)) as H.
  assert (Hi : inv no_claim anything (closes req) (from_option singleton ∅ (closes req), tt) (mkWorld s 0 [])).
  { split; [done|done|by apply Forall_nil_2|done|]. destruct (closes req); [|done]. by apply elem_of_singleton. }
  destruct (safe_run _ _ _ _ _ _ _ _ H ltac:(intros w v _; by apply kept_same) ltac:(done) Hi)
    as ([_ H1 H2 _ _] & _ & H3 & _).
  destruct (run _ _) as [w r]. cbn [fst snd] in *.
  intros [= <- <- <-]. split_and!; [|done|done]. destruct r as [a|[]]; try done; by eexists.
Qed.

(** C19: every request gets a response: no [expect] of a handler can fail,
    whatever the request and the network say, and the cache and the fills the
    request starts stay such that this remains so. *)
Theorem handle_request_answers io net u req s s' fills resp :
  media_ok s -> handle_request io net u req s = (s', fills, resp) ->
  is_Some resp /\ media_ok s' /\ forall f s2, f ∈ fills -> media_ok s2 -> media_ok (run_fill f s2).
Proof.
  intros Hs He. destruct (handle_request_media io net u req s s' fills resp Hs He) as (H1 & H2 & H3).
  split_and!; [done..|]. intros f s2 Hf Hs2. rewrite Forall_forall in H3. by apply run_fill_media, H3.
Qed.
End answers.
