(* ===== verification/DockerCalls.v ===== *)
(** * The Docker registry: how often a request goes upstream *)
From S2P Require Import Prelude Prog Digest Env Config State Text Http DockerUpstream Docker.
From S2P Require Import DockerServe.
From S2P Require Import DockerLogic.

Section calls.
Context {SHA : Sha256} {CT : ConstantTimeEq} {ITER : MapIter} {HC : HttpCodecs}.
Implicit Types (s : State) (w : World).

(** [h] sends at most [n] upstream requests. *)
Definition within {A} (n : nat) (h : M A) : Prop :=
  forall w, wp h w (fun w' _ => w_calls w' <= w_calls w + n).

Lemma within_bind {A B} n k (m : M A) (f : A -> M B) :
  within n m -> (forall a, within k (f a)) -> within (n + k) (m ≫= f).
Proof.
  intros Hm Hf w. apply wp_bind. eapply wp_mono; [apply Hm|]. intros w' [a|e] Hw'; [|simpl in *; lia].
  eapply wp_mono; [apply Hf|]. intros w2 r Hw2. simpl in *. lia.
Qed.

(** The first part sends nothing. *)
Lemma within_then {A B} n (m : M A) (f : A -> M B) :
  within 0 m -> (forall a, within n (f a)) -> within n (m ≫= f).
Proof. apply (within_bind 0). Qed.

Lemma within_mono {A} n k (h : M A) : within n h -> n <= k -> within k h.
Proof. intros Hh Hn w. eapply wp_mono; [apply Hh|]. simpl. lia. Qed.

Lemma within_ret {A} n (a : A) : within n (mret a).
Proof. intros w. wp_step. lia. Qed.
Lemma within_throw {A} n e : within n (throw (A := A) e).
Proof. intros w. wp_step. lia. Qed.
Lemma within_lift {A} n (r : result DockerError.t A) : within n (lift r).
Proof. intros w. wp_step. lia. Qed.
Lemma within_modify n f : within n (modify f).
Proof. intros w. wp_step. lia. Qed.
Lemma within_on_state {A} n (f : State -> State * A) : within n (on_state f).
Proof. intros w. wp_step. lia. Qed.
Lemma within_guarded {A} n (m : M A) : within n m -> within n (guarded m).
Proof. intros Hm w. wp_step. apply Hm. Qed.
Lemma within_get n : within n get_state.
Proof. intros w. wp_step. lia. Qed.
Lemma within_spawn n f : within n (spawn_fill f).
Proof. intros w. wp_step. lia. Qed.

Lemma upstream_within net host name m sub accept : within 6 (upstream_pull_request net host name m sub accept).
Proof. intros w. eapply wp_mono; [apply upstream_exchange|]. intros w' r (_ & _ & H). lia. Qed.
End calls.

Create HintDb calls.
#[export] Hint Resolve within_ret within_throw within_lift within_modify within_on_state within_get within_spawn : calls.

(** Steps that send nothing, on every branch. *)
Ltac silent :=
  repeat first
    [ solve [auto with calls]
    | apply within_then; [|intros ?]
    | match goal with |- within _ (guarded _) => apply within_guarded end
    | progress cbv beta zeta
    | case_match
    | progress unfold build_try, build_expect, read_body, blob_created, serve_manifest ].

Section handlers.
Context {SHA : Sha256} {CT : ConstantTimeEq} {ITER : MapIter} {HC : HttpCodecs}.
Implicit Types (s : State) (w : World).

Lemma check_auth_within req : within 0 (check_auth req).
Proof. unfold check_auth. silent. Qed.
Lemma put_manifest_within req host name reference : within 0 (put_manifest req host name reference).
Proof. unfold put_manifest. silent. Qed.
Lemma post_within u req host name : within 0 (post_blob_upload u req host name).
Proof. unfold post_blob_upload. silent. Qed.
Lemma patch_within req host name uuid : within 0 (patch_blob_upload req host name uuid).
Proof. unfold patch_blob_upload. silent. Qed.
Lemma put_within req host name uuid : within 0 (put_blob_upload req host name uuid).
Proof. unfold put_blob_upload. silent. Qed.
Lemma status_within host name uuid : within 0 (get_blob_upload_status host name uuid).
Proof. unfold get_blob_upload_status. silent. Qed.
Lemma delete_within host uuid : within 0 (delete_blob_upload host uuid).
Proof. unfold delete_blob_upload. silent. Qed.

(** Six when the host is upstream, none for [self]. *)
Definition budget (host : bytes) : nat := if decide (host = $"self") then 0 else 6.

Lemma resolve_within net host name reference accept :
  within (budget host) (resolve_reference net host name reference accept).
Proof.
  unfold resolve_reference, budget. destruct (digest_from_str reference); [auto with calls|].
  case_decide; [silent|]. apply (within_bind 6 0); [apply upstream_within|intros resp; silent].
Qed.

Lemma get_head_manifest_within net req host name reference head :
  within (2 * budget host) (get_head_manifest net req host name reference head).
Proof.
  unfold get_head_manifest. cbv zeta. replace (2 * budget host) with (budget host + budget host) by lia.
  apply within_bind; [apply resolve_within|intros [d|r]]; [|auto with calls].
  apply within_then; [unfold cached_manifest; silent|intros [resp|]]; [silent|].
  unfold budget. case_decide; [auto with calls|]. apply within_then; [auto with calls|intros _].
  apply (within_bind 6 0); [apply upstream_within|intros resp; silent].
Qed.

Lemma get_head_blob_within io net host name digest head :
  within (budget host) (get_head_blob io net host name digest head).
Proof.
  unfold get_head_blob. destruct (digest_from_str digest) as [d|]; [|auto with calls].
  apply within_then; [unfold cached_blob, serve_disk_blob, serve_blob_bytes; silent|intros [resp|]]; [silent|].
  unfold budget. case_decide; [auto with calls|]. apply within_then; [auto with calls|intros _].
  apply (within_bind 6 0); [apply upstream_within|intros resp]. unfold spawn_blob_fill. silent.
Qed.

Lemma counted_within n m (h : M Response) : within n h -> within n (counted m h).
Proof. intros Hh. unfold counted. apply within_then; [auto with calls|done]. Qed.

Lemma self_within {A} n (h : M A) : within 0 h -> within n h.
Proof. intros Hh. apply (within_mono 0); [done|lia]. Qed.

(** C20: a request sends at most twelve upstream requests, tokens included (a
    tag that has to be resolved, then its manifest; three attempts each), at
    most six when it is not for a manifest, and none when its host resolves to
    [self] or its path is no route. *)
Theorem request_calls_bounded io net u req s :
  w_calls (run (handle_request_inner io net u req) (mkWorld s 0 [])).1 <=
  match parse_route (req_path req) with
  | Ok (host, _, tag, _) =>
      if decide (tag = $"manifests") then 2 * budget (alias_host s host) else budget (alias_host s host)
  | Err _ => 0
  end.
Proof.
  change (wp (handle_request_inner io net u req) (mkWorld s 0 []) (fun w' _ => w_calls w' <=
    match parse_route (req_path req) with
    | Ok (host, _, tag, _) =>
        if decide (tag = $"manifests") then 2 * budget (alias_host s host) else budget (alias_host s host)
    | Err _ => 0
    end)).
  unfold handle_request_inner. wp_step.
  assert (Hc : wp (check_auth req) (mkWorld s 0 []) (fun w' _ =>
    w_calls w' = 0 /\ config (w_state w') = config s)).
  { unfold check_auth. wp_step. wp_step. destruct (docker_user _); [by wp_step|].
    destruct (request_credentials req) as [[]|]; [|by wp_step].
    destruct (existsb _ _); [by wp_step|]. by do 3 wp_step. }
  eapply wp_mono; [exact Hc|]. intros w [[]|e] [Hw Hcfg]; [|lia]. cbv zeta.
  destruct (_ || _); [unfold build_try; wp_step; lia|]. wp_step. wp_step.
  destruct (parse_route _) as [[[[host name] tag] tl]|e]; [|lia]. wp_step. wp_step.
  assert (Ha : alias_host (w_state w) host = alias_host s host) by (unfold alias_host; by rewrite Hcfg).
  rewrite Ha. set (h := alias_host s host).
  assert (Hin : forall n (m : M Response), within n m -> wp m w (fun w' _ => w_calls w' <= n)).
  { intros n m Hm. eapply wp_mono; [apply Hm|]. simpl. lia. }
  case_decide.
  { apply Hin. destruct (req_method req); try (by auto with calls); apply counted_within;
      try apply get_head_manifest_within. apply self_within, put_manifest_within. }
  apply Hin. case_decide.
  { apply self_within. apply within_then; [auto with calls|intros nm].
    destruct (req_method req); try (by auto with calls); try apply status_within;
      apply counted_within; (apply put_within || apply post_within || apply patch_within || apply delete_within). }
  case_decide; [|auto with calls].
  destruct (req_method req); try (by auto with calls); apply counted_within; apply get_head_blob_within.
Qed.
End handlers.
