(* ===== verification/DockerRoutes.v ===== *)
(** * The Docker registry: from a request to its handler

    The paths of the registry API lead to the handler they name, for every
    repository name, slashes included, and authorized requests reach it. *)
From S2P Require Import Prelude Prog Digest Env Config State Disk Text Http DockerUpstream.
From S2P Require Import Docker.
From S2P Require Import DockerServe DockerLogic DockerAuth DockerMedia DockerAnswers.

Section routes.
Context {SHA : Sha256} {CT : ConstantTimeEq} {ITER : MapIter} {HC : HttpCodecs}.
Implicit Types (s : State) (w : World).

(** ** Parsing paths *)
Lemma parse_route_app host name tag tail :
  host <> [] -> "/"%char ∉ host -> "/"%char ∉ tag -> "/"%char ∉ tail -> validate_host host = Ok tt ->
  parse_route ($"/v2/" ++ host ++ "/"%char :: name ++ "/"%char :: tag ++ "/"%char :: tail)
  = Ok (host, name, tag, tail).
Proof.
  intros Hne Hh Htag Htail Hv. unfold parse_route.
  rewrite (proj2 (strip_prefix_Some $"/v2/" _ _) eq_refl). cbn [ok_or mbind result_bind].
  rewrite split_once_app by done. cbn [ok_or mbind result_bind].
  rewrite !bool_decide_eq_false_2 by (done || by destruct name). cbn [orb].
  rewrite Hv. cbn [mbind result_bind].
  replace (name ++ "/"%char :: tag ++ "/"%char :: tail) with ((name ++ "/"%char :: tag) ++ "/"%char :: tail)
    by (by rewrite <- app_assoc).
  rewrite rsplit_once_app by done. cbn [ok_or mbind result_bind].
  by rewrite rsplit_once_app by done.
Qed.


Lemma no_slash_digest d : "/"%char ∉ digest_to_string d.
Proof.
  unfold digest_to_string. intros [Hin|Hin]%elem_of_app; [by revert Hin; by_decide|].
  apply list_elem_of_In, in_concat in Hin as (h & Hh & Hc). apply in_map_iff in Hh as (x & <- & _).
  pose proof (ascii_forall (fun x => forallb (fun c => negb (bool_decide (c = "/"%char))) (hex2 x))) as Hx.
  assert (H : forallb (fun c => negb (bool_decide (c = "/"%char))) (hex2 x) = true) by (apply Hx; by vm_compute).
  rewrite forallb_forall in H. by specialize (H _ Hc).
Qed.

(** ** Handlers by kind of path *)
Definition manifest_handler (net : Network) (req : Request) (host name reference : bytes) : M Response :=
  match req_method req with
  | Method.GET => counted docker_manifest_get (get_head_manifest net req host name reference false)
  | Method.HEAD => counted docker_manifest_head (get_head_manifest net req host name reference true)
  | Method.PUT => counted docker_manifest_put (put_manifest req host name reference)
  | m => throw (DockerError.MethodNotAllowed m)
  end.

Definition blob_handler (io : Io) (net : Network) (req : Request) (host name digest : bytes) : M Response :=
  match req_method req with
  | Method.GET => counted docker_blob_get (get_head_blob io net host name digest false)
  | Method.HEAD => counted docker_blob_head (get_head_blob io net host name digest true)
  | m => throw (DockerError.MethodNotAllowed m)
  end.

Definition upload_handler (u : N) (req : Request) (host name uuid : bytes) : M Response :=
  match req_method req with
  | Method.POST => counted docker_blob_upload_post (post_blob_upload u req host name)
  | Method.PATCH => counted docker_blob_upload_patch (patch_blob_upload req host name uuid)
  | Method.PUT => counted docker_blob_upload_put (put_blob_upload req host name uuid)
  | Method.DELETE => counted docker_blob_upload_delete (delete_blob_upload host uuid)
  | Method.GET => get_blob_upload_status host name uuid
  | m => throw (DockerError.MethodNotAllowed m)
  end.

Lemma check_auth_ok req w : authorized (w_state w) req -> run (check_auth req) w = (w, Ok tt).
Proof.
  intros Ha. pose proof (check_auth_spec req w) as H. unfold wp in H.
  destruct (run (check_auth req) w) as [w' r]. simpl in H.
  destruct H as [(_ & -> & ->)|(Hn & _)]; done.
Qed.


(** After authentication and routing. *)
Lemma inner_routed io net u req w host name tag tail :
  authorized (w_state w) req -> parse_route (req_path req) = Ok (host, name, tag, tail) ->
  run (handle_request_inner io net u req) w =
  run (let h := alias_host (w_state w) host in
   if decide (tag = $"manifests") then manifest_handler net req h name tail
   else if decide (tag = $"uploads") then
     (nm ← lift (ok_or (strip_suffix $"/blobs" name) DockerError.NotFound);
      upload_handler u req h nm tail)
   else if decide (tag = $"blobs") then blob_handler io net req h name tail
   else throw DockerError.NotFound) w.
Proof.
  intros Ha Hr. unfold handle_request_inner. rewrite run_bind, check_auth_ok by done. cbv zeta.
  assert (Hp : bool_decide (req_path req = $"/v2") || bool_decide (req_path req = $"/v2/") = false).
  { apply orb_false_iff. split; apply bool_decide_eq_false_2; intros E; rewrite E in Hr; vm_compute in Hr; done. }
  rewrite Hp, Hr. run_step.
  unfold manifest_handler, upload_handler, blob_handler.
  destruct (decide (tag = $"manifests")); [by destruct (req_method req)|].
  destruct (decide (tag = $"uploads")); [by destruct (req_method req)|].
  destruct (decide (tag = $"blobs")); [by destruct (req_method req)|done].
Qed.

Lemma inner_upload io net u req w host name uuid :
  authorized (w_state w) req ->
  parse_route (req_path req) = Ok (host, name ++ $"/blobs", $"uploads", uuid) ->
  run (handle_request_inner io net u req) w = run (upload_handler u req (alias_host (w_state w) host) name uuid) w.
Proof.
  intros Ha Hr. rewrite (inner_routed _ _ _ _ _ _ _ _ _ Ha Hr). cbv zeta.
  rewrite decide_False by (by vm_compute). rewrite decide_True by done. by rewrite strip_suffix_app.
Qed.

Lemma inner_manifest io net u req w host name reference :
  authorized (w_state w) req ->
  parse_route (req_path req) = Ok (host, name, $"manifests", reference) ->
  run (handle_request_inner io net u req) w =
  run (manifest_handler net req (alias_host (w_state w) host) name reference) w.
Proof.
  intros Ha Hr. rewrite (inner_routed _ _ _ _ _ _ _ _ _ Ha Hr). cbv zeta. by rewrite decide_True.
Qed.

Lemma inner_blob io net u req w host name digest :
  authorized (w_state w) req ->
  parse_route (req_path req) = Ok (host, name, $"blobs", digest) ->
  run (handle_request_inner io net u req) w =
  run (blob_handler io net req (alias_host (w_state w) host) name digest) w.
Proof.
  intros Ha Hr. rewrite (inner_routed _ _ _ _ _ _ _ _ _ Ha Hr). cbv zeta.
  do 2 rewrite decide_False by (by vm_compute). by rewrite decide_True.
Qed.

Lemma alias_self s : alias_host s $"self" = $"self".
Proof. unfold alias_host. by rewrite decide_True. Qed.

(** A handler's run is the request's. *)
Lemma handle_ok io net u req s w resp :
  run (handle_request_inner io net u req) (mkWorld s 0 []) = (w, Ok resp) ->
  handle_request io net u req s = (w_state w, w_fills w, Some resp).
Proof. intros H. unfold handle_request. by rewrite H. Qed.

(** ** Requests and responses *)
Record is_request (m : Method.t) (path body : bytes) (req : Request) : Prop := {
  is_method : req_method req = m;
  is_path : req_path req = path;
  is_body : req_body req = Some body
}.

Lemma build_try_visible status headers body w :
  Forall (fun h => visible h.2) headers ->
  run (build_try status headers body) w = (w, Ok (mkResponse status headers body)).
Proof.
  intros H. unfold build_try, build, lift.
  assert (forallb (fun h => header_value_ok h.2) headers = true) as ->; [|done].
  apply forallb_forall. intros h Hh%list_elem_of_In. rewrite Forall_forall in H. by apply text_ok, H.
Qed.

Lemma build_expect_ok status headers body w :
  Forall (fun h => header_value_ok h.2 = true) headers ->
  run (build_expect status headers body) w = (w, Ok (mkResponse status headers body)).
Proof.
  intros H. unfold build_expect, build, lift.
  assert (forallb (fun h => header_value_ok h.2) headers = true) as ->; [|done].
  apply forallb_forall. intros h Hh%list_elem_of_In. rewrite Forall_forall in H. by apply H.
Qed.

(** What the client receives. *)
Definition body_bytes (b : Body) : option bytes :=
  match b with Full c => Some c | Streaming frames => collect frames end.

(** What it has received when the stream ends or breaks off. *)
Fixpoint received (frames : list (option bytes)) : bytes :=
  match frames with Some c :: fs => c ++ received fs | _ => [] end.

(** The stream of an open file is its content, or breaks off after a part of
    it. *)
Lemma stream_frames_collect chunks content : collect (stream_frames chunks false content) = Some content.
Proof.
  revert content. induction chunks as [|n chunks IH]; intros content; cbn [stream_frames].
  - destruct content; [done|]. cbn. by rewrite app_nil_r.
  - destruct (take n content) as [|x l] eqn:E; [apply IH|]. cbn [collect]. rewrite IH. cbn.
    by rewrite app_comm_cons, <- E, take_drop.
Qed.

Lemma stream_frames_broken chunks content :
  collect (stream_frames chunks true content) = None /\ received (stream_frames chunks true content) `prefix_of` content.
Proof.
  revert content. induction chunks as [|n chunks IH]; intros content; cbn [stream_frames].
  - split; [done|]. apply prefix_nil.
  - destruct (take n content) as [|x l] eqn:E; [apply IH|]. destruct (IH (drop n content)) as [Hc Hr].
    cbn [collect received]. rewrite Hc. split; [done|]. rewrite <- E. rewrite <- (take_drop n content) at 3.
    by apply prefix_app.
Qed.

Lemma authorized_config s s' req : config s' = config s -> authorized s req -> authorized s' req.
Proof. unfold authorized. by intros ->. Qed.
End routes.
