(* ===== verification/DockerUploads.v ===== *)
(** * The Docker registry: pushing a blob

    The paths the server hands out lead back to the upload they name, and a
    session POST, PATCH*, PUT stores the concatenation of its chunks. *)
From S2P Require Import Prelude Prog Digest Env Config State Disk Text Http DockerUpstream.
From S2P Require Import Docker.
From S2P Require Import DockerServe DockerLogic DockerAuth DockerContent DockerMedia.
From S2P Require Import DockerAnswers.
From S2P Require Import DockerObjects DockerRoutes.

Section uploads.
Context {SHA : Sha256} {CT : ConstantTimeEq} {ITER : MapIter} {HC : HttpCodecs}.
Implicit Types (s : State) (w : World).

(** ** Routes *)
Lemma upload_location_route name u :
  parse_route (upload_location name u) = Ok ($"self", name ++ $"/blobs", $"uploads", uuid_to_string u).
Proof.
  rewrite <- (parse_route_app $"self" (name ++ $"/blobs") $"uploads" (uuid_to_string u));
    [|done|by_decide|by_decide|apply uuid_no_slash|reflexivity].
  unfold upload_location. by rewrite <- !app_assoc.
Qed.

Definition uploads_path (name : bytes) : bytes := $"/v2/self/" ++ name ++ $"/blobs/uploads/".

Lemma uploads_path_route name :
  parse_route (uploads_path name) = Ok ($"self", name ++ $"/blobs", $"uploads", []).
Proof.
  rewrite <- (parse_route_app $"self" (name ++ $"/blobs") $"uploads" []);
    [|done|by_decide|by_decide|by_decide|reflexivity].
  unfold uploads_path. by rewrite <- !app_assoc.
Qed.

Lemma handle_upload io net u req s name uuid w resp :
  authorized s req -> parse_route (req_path req) = Ok ($"self", name ++ $"/blobs", $"uploads", uuid) ->
  run (upload_handler u req $"self" name uuid) (mkWorld s 0 []) = (w, Ok resp) ->
  handle_request io net u req s = (w_state w, w_fills w, Some resp).
Proof.
  intros Ha Hr Hh. apply handle_ok.
  rewrite (inner_upload io net u req (mkWorld s 0 []) $"self" name uuid) by done.
  cbn [w_state]. by rewrite alias_self.
Qed.

(** ** The three steps of a session *)
Lemma visible_location name u : visible name -> visible (upload_location name u).
Proof.
  intros Hn. unfold upload_location. repeat apply visible_app; try done;
    try (by apply visible_const). exact (uuid_visible u).
Qed.

Ltac visible_headers :=
  repeat first [apply Forall_nil; exact I | apply Forall_cons; split]; cbn [snd];
  first [by apply visible_location | by apply visible_const | exact (uuid_visible _)
        | apply visible_app; [by apply visible_const|apply visible_dec] | idtac].

Lemma post_step io net u name body req s :
  visible name -> authorized s req -> is_request Method.POST (uploads_path name) body req ->
  digest_from_query req = None ->
  exists resp, resp_status resp = 202%N /\
    handle_request io net u req s =
    (set_uploads (<[u := mkUpload [] hasher_new]> (uploads s)) (metric_add docker_blob_upload_post 1 s),
     [], Some resp).
Proof.
  intros Hn Ha [Hm Hp Hb] Hq. eexists. split; [|apply (handle_upload _ _ _ _ _ name [] (mkWorld _ 0 [])); [done|..]].
  2:{ rewrite Hp. apply uploads_path_route. }
  2:{ unfold upload_handler, counted, post_blob_upload. rewrite Hm, Hq.
      unfold ensure_self. rewrite decide_True by done.
      run_step. rewrite build_try_visible by visible_headers. reflexivity. }
  done.
Qed.

Lemma patch_step io net u name chunk req s up :
  visible name -> authorized s req -> is_request Method.PATCH (upload_location name u) chunk req ->
  uploads s !! u = Some up ->
  exists resp, resp_status resp = 202%N /\
    handle_request io net u req s =
    (set_uploads (<[u := append_chunk chunk up]> (uploads s)) (metric_add docker_blob_upload_patch 1 s),
     [], Some resp).
Proof.
  intros Hn Ha [Hm Hp Hb] Hu.
  eexists. split; [|apply (handle_upload _ _ _ _ _ name (uuid_to_string u) (mkWorld _ 0 [])); [done|..]].
  2:{ rewrite Hp. apply upload_location_route. }
  2:{ unfold upload_handler, counted, patch_blob_upload. rewrite Hm, uuid_law.
      unfold ensure_self, read_body. rewrite decide_True, Hb by done.
      run_step. state_simpl. rewrite Hu. cbn [ok_or]. run_step. unfold lock_upload. state_simpl. rewrite Hu.
      rewrite build_try_visible by visible_headers. reflexivity. }
  done.
Qed.

(** What is left of a closing request once it has found the upload and read
    its body: it takes the lock. *)
Definition close_found name u d chunk (upload : Upload) : M Response :=
  r ← on_state (lock_upload u upload (finish_upload d chunk));
  match r with
  | Err got => mret (digest_mismatch d got)
  | Ok buf =>
      _ ← modify (remove_upload u);
      _ ← modify (store_blob d buf octet_stream);
      blob_created name d
  end.

(** A request that closes the upload [u] with the digest [d]. *)
Record closes_with name u chunk d req : Prop := {
  cw_request : is_request Method.PUT (upload_location name u) chunk req;
  cw_digest : digest_from_query req = Some (digest_to_string d)
}.

Lemma put_blob_upload_eq name u chunk d req :
  closes_with name u chunk d req ->
  put_blob_upload req $"self" name (uuid_to_string u) =
  (s ← get_state;
   match uploads s !! u with
   | None => mret (error_response 404 $"unknown upload")
   | Some upload => close_found name u d chunk upload
   end).
Proof.
  intros [[Hm Hp Hb] Hq]. unfold put_blob_upload, ensure_self, read_body.
  rewrite Hm, uuid_law, Hq, digest_from_to_string, decide_True, Hb by done. reflexivity.
Qed.

Lemma close_found_run name u d chunk upload s n fs s1 buf :
  visible name -> lock_upload u upload (finish_upload d chunk) s = (s1, Ok buf) ->
  exists resp, resp_status resp = 201%N /\
    run (close_found name u d chunk upload) (mkWorld s n fs) =
    (mkWorld (store_blob d buf octet_stream (remove_upload u s1)) n fs, Ok resp).
Proof.
  intros Hn Hl. eexists. split; [|unfold close_found, blob_created; run_step; rewrite Hl; cbn [fst snd]; run_step;
    rewrite build_try_visible; [reflexivity|visible_headers]].
  - done.
  - do 2 (apply visible_app; [first [exact Hn | by apply visible_const]|]).
    apply visible_app; [by apply visible_const|apply visible_digest].
  - apply visible_digest.
Qed.

Lemma lock_upload_found {A} u up (f : Upload -> Upload * A) s :
  uploads s !! u = Some up ->
  lock_upload u up f s = (set_uploads (<[u := (f up).1]> (uploads s)) s, (f up).2).
Proof. intros Hu. unfold lock_upload. by rewrite Hu. Qed.

Lemma put_step io net u name chunk req s up d up' buf :
  visible name -> authorized s req -> closes_with name u chunk d req ->
  uploads s !! u = Some up -> finish_upload d chunk up = (up', Ok buf) ->
  exists resp, resp_status resp = 201%N /\
    handle_request io net u req s =
    (store_blob d buf octet_stream
       (remove_upload u (lock_upload u up (finish_upload d chunk) (metric_add docker_blob_upload_put 1 s)).1),
     [], Some resp).
Proof.
  intros Hn Ha Hreq Hu Hf. set (s0 := metric_add docker_blob_upload_put 1 s).
  assert (Hl : lock_upload u up (finish_upload d chunk) s0 = (set_uploads (<[u := up']> (uploads s0)) s0, Ok buf))
    by (rewrite lock_upload_found by done; by rewrite Hf).
  destruct (close_found_run name u d chunk up s0 0 [] _ buf Hn Hl) as (resp & Hst & Hrun).
  exists resp. split; [done|]. rewrite Hl. destruct (cw_request _ _ _ _ _ Hreq) as [Hm Hp _].
  rewrite (handle_upload io net u req s name (uuid_to_string u)
    (mkWorld (store_blob d buf octet_stream (remove_upload u (set_uploads (<[u := up']> (uploads s0)) s0))) 0 []) resp);
    [done|done|rewrite Hp; apply upload_location_route|].
  unfold upload_handler, counted. rewrite Hm. run_step. rewrite (put_blob_upload_eq name u chunk d req) by done.
  run_step. fold s0. by rewrite (Hu : uploads s0 !! u = Some up).
Qed.

Lemma remove_upload_gone u s : uploads (remove_upload u s) !! u = None.
Proof. unfold remove_upload. destruct (uploads s !! u) eqn:E; [apply lookup_delete_eq|done]. Qed.

(** ** Whole sessions *)

(** Requests one after the other; [u] is the UUID a POST would draw. *)
Fixpoint serve_all io net u (reqs : list Request) s : State * list (option Response) :=
  match reqs with
  | [] => (s, [])
  | req :: reqs =>
      let '(s1, _, resp) := handle_request io net u req s in
      let '(s2, resps) := serve_all io net u reqs s1 in
      (s2, resp :: resps)
  end.

Definition statuses (resps : list (option Response)) : list (option N) := option_map resp_status <$> resps.

Lemma statuses_cons resp resps : statuses (resp :: resps) = option_map resp_status resp :: statuses resps.
Proof. done. Qed.
Lemma statuses_app l l' : statuses (l ++ l') = statuses l ++ statuses l'.
Proof. apply fmap_app. Qed.

Lemma serve_all_app io net u l l' s :
  serve_all io net u (l ++ l') s =
  let '(s1, r) := serve_all io net u l s in
  let '(s2, r') := serve_all io net u l' s1 in (s2, r ++ r').
Proof.
  revert s. induction l as [|req l IH]; intros s; simpl.
  - by destruct (serve_all io net u l' s).
  - destruct (handle_request io net u req s) as [[s1 f] resp]. rewrite IH.
    destruct (serve_all io net u l s1) as [s2 r]. by destruct (serve_all io net u l' s2).
Qed.

(** The upload collects what it is sent. *)
Lemma patches_step io net u name chunks patches s up :
  visible name -> Forall (authorized s) patches ->
  Forall2 (is_request Method.PATCH (upload_location name u)) chunks patches ->
  uploads s !! u = Some up -> hashed (up_buf up) (up_hasher up) ->
  exists s' resps up', serve_all io net u patches s = (s', resps) /\
    statuses resps = (fun _ => Some 202%N) <$> chunks /\ config s' = config s /\
    uploads s' !! u = Some up' /\ up_buf up' = up_buf up ++ concat chunks /\
    hashed (up_buf up') (up_hasher up').
Proof.
  intros Hn Ha Hc. revert s up Ha. induction Hc as [|c req chunks patches Hreq _ IH]; intros s up Ha Hu Hh.
  { exists s, [], up. by rewrite app_nil_r. }
  apply Forall_cons in Ha as [Ha Has].
  destruct (patch_step io net u name c req s up) as (resp & Hst & Hreq'); [done..|].
  simpl. rewrite Hreq'. set (s1 := set_uploads _ _).
  destruct (IH s1 (append_chunk c up)) as (s' & resps & up' & Hs & Hsts & Hcfg & Hu' & Hb & Hh');
    [done|by apply lookup_insert_eq|by apply append_chunk_ok|].
  rewrite Hs. exists s', (Some resp :: resps), up'. split_and!; [done| |done|done| |done].
  - rewrite statuses_cons, Hsts. simpl. by rewrite Hst.
  - rewrite Hb. simpl. by rewrite app_assoc.
Qed.

(** C15: a push in pieces: opening an upload, sending any chunks to the
    location it was given and closing it with the digest of their
    concatenation and the last body is answered 202, 202, ..., 201, leaves the
    concatenation stored under its digest, and ends the upload. *)
Theorem chunked_upload io net u name post patches put body chunks last s :
  visible name -> authorized s post -> Forall (authorized s) patches -> authorized s put ->
  is_request Method.POST (uploads_path name) body post -> digest_from_query post = None ->
  Forall2 (is_request Method.PATCH (upload_location name u)) chunks patches ->
  closes_with name u last (sha256_digest (concat chunks ++ last)) put ->
  exists s' resps, serve_all io net u (post :: patches ++ [put]) s = (s', resps) /\
    statuses resps = Some 202%N :: ((fun _ => Some 202%N) <$> chunks) ++ [Some 201%N] /\
    stored s' (OBlob (sha256_digest (concat chunks ++ last))) = Some (concat chunks ++ last) /\
    uploads s' !! u = None.
Proof.
  intros Hn Ha1 Ha2 Ha3 Hpost Hq1 Hpatch Hput.
  destruct (post_step io net u name body post s) as (r1 & Hr1 & H1); [done..|].
  cbn [serve_all]. rewrite H1. set (s1 := set_uploads _ _).
  destruct (patches_step io net u name chunks patches s1 (mkUpload [] hasher_new))
    as (s2 & rs & up & H2 & Hrs & Hcfg & Hu & Hb & Hh);
    [done|done|done|by apply lookup_insert_eq|apply hashed_new|].
  rewrite serve_all_app, H2. simpl in Hb.
  set (d := sha256_digest _) in *.
  pose proof (finish_upload_spec d last up Hh) as Hf.
  destruct (finish_upload d last up) as [up' [buf|got]] eqn:Ef.
  2:{ destruct Hf as (Hb' & _ & -> & Hd). destruct Hd. by rewrite Hb', Hb. }
  destruct Hf as [-> _]. rewrite Hb in Ef.
  destruct (put_step io net u name last put s2 up d up' (concat chunks ++ last)) as (r3 & Hr3 & H3);
    [done|by apply (authorized_config s1)|done..|].
  cbn [serve_all]. rewrite H3. eexists _, _. split; [reflexivity|]. split_and!.
  - rewrite statuses_cons, statuses_app, Hrs. simpl. by rewrite Hr1, Hr3.
  - rewrite store_blob_stored. by rewrite decide_True.
  - unfold store_blob. cbn [take_id]. rewrite (proj1 (insert_blob_uploads _ _ _)). state_simpl. apply remove_upload_gone.
Qed.

(** ** Two clients closing one upload *)

Lemma finish_again d chunk up up1 buf :
  finish_upload d chunk up = (up1, Ok buf) -> finish_upload d [] up1 = (up1, Ok []).
Proof.
  unfold finish_upload. cbv zeta. rewrite (decide_True (P := [] = [])) by done.
  set (up0 := if decide (chunk = []) then up else append_chunk chunk up).
  destruct (decide (hasher_finalize (up_hasher up0) = d)) as [E|E]; [|done].
  intros [= <- _]. cbn [up_hasher up_buf]. by rewrite decide_True.
Qed.

Lemma get_state_step {A} (k : State -> M A) w : prog_step (get_state ≫= k, w) (k (w_state w), w).
Proof. 
  destruct w as [s n fs].
  exact (prog_op State (fun w => (mkWorld (w_state w) (w_calls w) (w_fills w), w_state w)) k (mkWorld s n fs)).
Qed.

(** C22: a defect. Two requests close one upload: the second finds it, and
    waits for its lock while the first closes it. The first close empties the
    buffer but not the hasher, so the second, without a body of its own, passes
    the digest check with no bytes: both are answered 201, and the blob that
    the first stored is replaced by an empty one under the digest of the
    non-empty content. *)
Theorem second_close_empties_blob name u chunk d req1 req2 up up1 buf s n fs :
  visible name -> closes_with name u chunk d req1 -> closes_with name u [] d req2 ->
  uploads s !! u = Some up -> finish_upload d chunk up = (up1, Ok buf) -> d <> sha256_digest [] ->
  let put req := put_blob_upload req $"self" name (uuid_to_string u) in
  exists waiting s1 s2 r1 r2,
    rtc prog_step (put req2, mkWorld s n fs) (waiting, mkWorld s n fs) /\
    run (put req1) (mkWorld s n fs) = (mkWorld s1 n fs, Ok r1) /\ resp_status r1 = 201%N /\
    stored s1 (OBlob d) = Some buf /\
    run waiting (mkWorld s1 n fs) = (mkWorld s2 n fs, Ok r2) /\ resp_status r2 = 201%N /\
    stored s2 (OBlob d) = Some [] /\ ~ addressed s2.
Proof.
  intros Hn H1 H2 Hu Hf Hd. cbv zeta.
  pose proof (lock_upload_found u up (finish_upload d chunk) s Hu) as Hl. rewrite Hf in Hl. cbn [fst snd] in Hl.
  destruct (close_found_run name u d chunk up s n fs _ buf Hn Hl) as (r1 & Hst1 & Hrun1).
  set (s1 := store_blob d buf octet_stream _) in Hrun1.
  assert (Hl2 : lock_upload u up (finish_upload d []) s1 =
    (set_dropped_uploads (<[u := up1]> (dropped_uploads s1)) s1, Ok [])).
  { unfold s1, store_blob. cbn [take_id]. unfold lock_upload. set (s0 := remove_upload u _).
    destruct (insert_blob_uploads d (Blob.InMemory (next_id s0) buf octet_stream (now s0)) (set_next_id (u64_add (next_id s0) 1) s0)) as [-> ->].
    state_simpl. assert (Hs0 : uploads s0 !! u = None /\ dropped_uploads s0 !! u = Some up1).
    { unfold s0, remove_upload. state_simpl. rewrite lookup_insert_eq. state_simpl.
      split; [apply lookup_delete_eq|apply lookup_insert_eq]. }
    destruct Hs0 as [-> ->]. by rewrite (finish_again d chunk up up1 buf). }
  destruct (close_found_run name u d [] up s1 n fs _ [] Hn Hl2) as (r2 & Hst2 & Hrun2).
  set (s2 := store_blob d [] octet_stream _) in Hrun2.
  assert (Hs2 : stored s2 (OBlob d) = Some []) by (unfold s2; rewrite store_blob_stored; by rewrite decide_True).
  exists (close_found name u d [] up), s1, s2, r1, r2. split_and!; try done.
  - rewrite (put_blob_upload_eq name u [] d req2) by done. apply rtc_once.
    match goal with |- prog_step (get_state ≫= ?k, _) _ => pose proof (get_state_step k (mkWorld s n fs)) as H end.
    cbn [w_state] in H. by rewrite Hu in H.
  - rewrite (put_blob_upload_eq name u chunk d req1) by done. run_step. by rewrite Hu.
  - unfold s1. rewrite store_blob_stored. by rewrite decide_True.
  - intros Ha. destruct Hd. symmetry. by apply Ha.
Qed.
End uploads.
