(* ===== verification/DockerManifests.v ===== *)
(** * The Docker registry: manifests, pushed and pulled *)
From S2P Require Import Prelude Prog Digest Env Config State Disk Text Http DockerUpstream.
From S2P Require Import Docker.
From S2P Require Import DockerServe DockerLogic DockerAuth DockerMedia DockerAnswers.
From S2P Require Import DockerRoutes.

Section manifests.
Context {SHA : Sha256} {CT : ConstantTimeEq} {ITER : MapIter} {HC : HttpCodecs}.
Implicit Types (s : State) (w : World).

Definition manifest_path (name reference : bytes) : bytes :=
  $"/v2/self/" ++ name ++ $"/manifests/" ++ reference.

Lemma manifest_path_route name reference :
  "/"%char ∉ reference ->
  parse_route (manifest_path name reference) = Ok ($"self", name, $"manifests", reference).
Proof.
  intros Hr. rewrite <- (parse_route_app $"self" name $"manifests" reference);
    [done|done|by_decide|by_decide|done|reflexivity].
Qed.

Lemma handle_manifest io net u req s name reference w resp :
  authorized s req -> parse_route (req_path req) = Ok ($"self", name, $"manifests", reference) ->
  run (manifest_handler net req $"self" name reference) (mkWorld s 0 []) = (w, Ok resp) ->
  handle_request io net u req s = (w_state w, w_fills w, Some resp).
Proof.
  intros Ha Hr Hh. apply handle_ok.
  rewrite (inner_manifest io net u req (mkWorld s 0 []) $"self" name reference) by done.
  cbn [w_state]. by rewrite alias_self.
Qed.

(** The media type a pushed manifest is stored with. *)
Definition pushed_type (req : Request) : bytes :=
  default $"application/vnd.docker.distribution.manifest.v2+json"
    (req_header req $"content-type" ≫= header_to_str).

Lemma pushed_type_ok req : header_value_ok (pushed_type req) = true.
Proof. apply manifest_type_ok. Qed.

(** A push that was accepted under a name. *)
Record pushed s name reference (d : Digest) (content mt : bytes) : Prop := {
  pu_manifest : exists la ev, manifests s !! d = Some (mkManifest content mt la ev);
  pu_tag : digest_from_str reference = None -> tags s !! (name, reference) = Some d
}.

Lemma insert_manifest_lookup d m s :
  manifests (insert_manifest d m s) = <[d := m]> (manifests s) /\
  tags (insert_manifest d m s) = tags s /\ config (insert_manifest d m s) = config s.
Proof. unfold insert_manifest. by destruct (manifests s !! d). Qed.

Lemma put_manifest_step io net u name reference body req s :
  visible name -> "/"%char ∉ reference -> authorized s req ->
  is_request Method.PUT (manifest_path name reference) body req ->
  exists s' resp, handle_request io net u req s = (s', [], Some resp) /\ resp_status resp = 201%N /\
    pushed s' name reference (sha256_digest body) body (pushed_type req) /\ config s' = config s.
Proof.
  intros Hn Hr Ha [Hm Hp Hb]. set (d := sha256_digest body).
  set (s1 := insert_manifest d (mkManifest body (pushed_type req) (now s) false)
               (metric_add docker_manifest_put 1 s)).
  set (s2 := if digest_from_str reference is Some _ then s1
             else set_tags (<[(name, reference) := d]> (tags s1)) s1).
  set (s3 := set_tags (<[(name, digest_to_string d) := d]> (tags s2)) s2).
  exists s3. eexists. split; [apply (handle_manifest _ _ _ _ _ name reference (mkWorld s3 0 [])); [done|..]|].
  - rewrite Hp. by apply manifest_path_route.
  - unfold manifest_handler, counted, put_manifest. rewrite Hm.
    unfold ensure_self, read_body. rewrite decide_True, Hb by done.
    cbn [ok_or]. cbv zeta. run_step. fold d. fold (pushed_type req). subst s3 s2.
    destruct (digest_from_str reference); run_step; fold s1;
      (rewrite build_try_visible; [reflexivity|]);
      (constructor; [|constructor; [|constructor; [|done]]]; cbn [snd];
        [|apply visible_digest|by apply visible_const]);
      do 2 (apply visible_app; [first [exact Hn | by apply visible_const]|]);
      (apply visible_app; [by apply visible_const|apply visible_digest]).
  - split; [done|]. destruct (insert_manifest_lookup d (mkManifest body (pushed_type req) (now s) false)
      (metric_add docker_manifest_put 1 s)) as (Hman & Htag & Hcfg). fold s1 in Hman, Htag, Hcfg.
    assert (H2 : manifests s2 = manifests s1 /\ config s2 = config s1) by (subst s2; by case_match).
    destruct H2 as [Hman2 Hcfg2]. split; [split|].
    + exists (now s), false. subst s3. state_simpl. rewrite Hman2, Hman. by rewrite lookup_insert_eq.
    + intros Href. subst s3 s2. state_simpl. rewrite Href. state_simpl.
      rewrite lookup_insert_ne; [by rewrite lookup_insert_eq|].
      intros [= E]. rewrite <- E, digest_from_to_string in Href. done.
    + subst s3. state_simpl. by rewrite Hcfg2, Hcfg.
Qed.

(** The headers of a served manifest. *)
Definition manifest_headers (mt : bytes) (d : Digest) (content : bytes) : list (bytes * bytes) :=
  [($"content-type", mt); ($"docker-content-digest", digest_to_string d);
   ($"content-length", dec (blen content))].

Lemma serve_manifest_ok m head d w :
  header_value_ok (m_media_type m) = true ->
  run (serve_manifest m head d) w =
  (w, Ok (mkResponse 200 (manifest_headers (m_media_type m) d (m_content m))
            (if head then empty else Full (m_content m)))).
Proof.
  intros Hm. unfold serve_manifest. apply build_expect_ok.
  constructor; [done|]. constructor; [apply text_ok, visible_digest|].
  constructor; [apply text_ok, visible_dec|constructor].
Qed.

(** A hit is served from the cache. *)
Lemma get_step io net u name reference d content mt req s :
  "/"%char ∉ reference -> authorized s req -> header_value_ok mt = true ->
  req_method req = Method.GET \/ req_method req = Method.HEAD ->
  req_path req = manifest_path name reference ->
  digest_from_str reference = Some d \/ digest_from_str reference = None /\ tags s !! (name, reference) = Some d ->
  (exists la ev, manifests s !! d = Some (mkManifest content mt la ev)) ->
  exists s', handle_request io net u req s = (s', [], Some (mkResponse 200 (manifest_headers mt d content)
    (if decide (req_method req = Method.HEAD) then empty else Full content))) /\
    manifests s' !! d = Some (mkManifest content mt (now s) false).
Proof.
  intros Hr Ha Hmt Hm Hp Href (la & ev & Hman).
  set (head := bool_decide (req_method req = Method.HEAD)).
  set (s1 := metric_add (if head then docker_manifest_head else docker_manifest_get) 1 s).
  set (s2 := touch_manifest d (mkManifest content mt la ev) s1).
  exists s2. split; [|by apply lookup_insert_eq].
  apply (handle_manifest _ _ _ _ _ name reference (mkWorld s2 0 [])); [done|rewrite Hp; by apply manifest_path_route|].
  assert (Hres : run (resolve_reference net $"self" name reference
    (Some (manifest_accept (req_header req $"accept" ≫= header_to_str)))) (mkWorld s1 0 []) = (mkWorld s1 0 [], Ok (inl d))).
  { unfold resolve_reference. destruct Href as [->|[-> Htag]]; [done|].
    rewrite decide_True by done. run_step. subst s1. state_simpl. by rewrite Htag. }
  assert (Hget : run (get_head_manifest net req $"self" name reference head) (mkWorld s1 0 []) =
    (mkWorld s2 0 [], Ok (mkResponse 200 (manifest_headers mt d content) (if head then empty else Full content)))).
  { unfold get_head_manifest. cbv zeta. rewrite run_bind, Hres, run_bind. unfold cached_manifest. run_step.
    replace (manifests s1 !! d) with (Some (mkManifest content mt la ev)) by done. run_step.
    rewrite run_bind, serve_manifest_ok by done. run_step. done. }
  clear Hres. unfold manifest_handler, counted. revert s1 s2 Hget. subst head.
  destruct Hm as [-> | ->]; cbv zeta; intros Hget; exact Hget.
Qed.

(** C16: pushing a manifest and pulling it: after a PUT under a name, GET with
    the same reference or with the digest of the body returns the body, with
    the media type it was pushed with, its digest and its length; HEAD returns
    the same headers. A reference that is itself a digest has to be the one of
    the body. *)
Theorem manifest_roundtrip io net u u' name reference body put get s ref' :
  visible name -> "/"%char ∉ reference -> authorized s put ->
  is_request Method.PUT (manifest_path name reference) body put ->
  digest_from_str reference = None \/ digest_from_str reference = Some (sha256_digest body) ->
  ref' = reference \/ ref' = digest_to_string (sha256_digest body) ->
  authorized s get -> req_method get = Method.GET \/ req_method get = Method.HEAD ->
  req_path get = manifest_path name ref' ->
  exists s1 s2 created, handle_request io net u put s = (s1, [], Some created) /\
    resp_status created = 201%N /\
    handle_request io net u' get s1 = (s2, [], Some (mkResponse 200
      (manifest_headers (pushed_type put) (sha256_digest body) body)
      (if decide (req_method get = Method.HEAD) then empty else Full body))).
Proof.
  intros Hn Hr Ha Hput Href Hgetref Hag Hmg Hpg.
  destruct (put_manifest_step io net u name reference body put s Hn Hr Ha Hput) as (s1 & created & H1 & Hst & Hpu & Hcfg).
  destruct (get_step io net u' name ref' (sha256_digest body) body (pushed_type put) get s1) as (s2 & H2 & _).
  - destruct Hgetref as [-> | ->]; [done|apply no_slash_digest].
  - by apply (authorized_config s).
  - apply pushed_type_ok.
  - done.
  - done.
  - destruct Hgetref as [-> | ->]; [|left; apply digest_from_to_string].
    destruct Href as [E|E]; [right|by left]. split; [done|]. by apply (pu_tag _ _ _ _ _ _ Hpu).
  - apply (pu_manifest _ _ _ _ _ _ Hpu).
  - eauto 10.
Qed.
End manifests.
