(* ===== verification/DockerBlobs.v ===== *)
(** * The Docker registry: serving blobs, from the cache and through it *)
From S2P Require Import Prelude Prog Digest Env Config State Disk Text Http DockerUpstream.
From S2P Require Import Docker.
From S2P Require Import DockerServe DockerLogic DockerAuth DockerContent DockerMedia.
From S2P Require Import DockerAnswers.
From S2P Require Import DockerRoutes.

Section blobs.
Context {SHA : Sha256} {CT : ConstantTimeEq} {ITER : MapIter} {HC : HttpCodecs}.
Implicit Types (s : State) (w : World).

Definition is_head (req : Request) : bool := bool_decide (req_method req = Method.HEAD).

Definition reads (req : Request) : Prop := req_method req = Method.GET \/ req_method req = Method.HEAD.

(** The counter of the request itself. *)
Definition counted_state (req : Request) s : State :=
  metric_add (if is_head req then docker_blob_head else docker_blob_get) 1 s.

Lemma inner_blob_read io net u req s host name d :
  authorized s req -> parse_route (req_path req) = Ok (host, name, $"blobs", digest_to_string d) ->
  reads req ->
  run (handle_request_inner io net u req) (mkWorld s 0 []) =
  run (get_head_blob io net (alias_host s host) name (digest_to_string d) (is_head req))
    (mkWorld (counted_state req s) 0 []).
Proof.
  intros Ha Hr Hm. rewrite (inner_blob io net u req (mkWorld s 0 []) host name (digest_to_string d)) by done.
  unfold blob_handler, counted, counted_state, is_head. by destruct Hm as [-> | ->].
Qed.

Lemma blob_headers_valid mt d n :
  header_value_ok mt = true -> Forall (fun h => header_value_ok h.2 = true) (blob_headers mt d (dec n)).
Proof. intros Hmt. apply blob_headers_ok; [done|apply text_ok, visible_dec]. Qed.

(** A hit: the response, and the state it leaves. *)
Lemma cached_blob_run io d head b c s calls fills :
  blobs s !! d = Some b -> stored s (OBlob d) = Some c -> blob_files_ok s ->
  header_value_ok (blob_media_type b) = true -> (forall p, io_open io p = true /\ io_read io p = true) ->
  exists body m, run (cached_blob io d head) (mkWorld s calls fills) =
    (mkWorld (metric_add m 1 (touch_blob d b s)) calls fills,
     Ok (Some (mkResponse 200 (blob_headers (blob_media_type b) d (dec (blen c))) body))) /\
    body_bytes body = Some (if head then [] else c).
Proof.
  intros Hb Hst Hfiles Hmt Hio. unfold cached_blob. run_step. rewrite Hb. run_step. rewrite run_bind.
  cbn [stored] in Hst. rewrite Hb in Hst.
  destruct b as [id n mt la|id c' mt la]; cbn [blob_media_type] in Hmt |- *; run_step.
  - assert (Hn : n = blen c).
    { destruct (Hfiles d id n mt la Hb) as (c' & Hc' & <-). congruence. }
    subst n. unfold serve_disk_blob. destruct head; cbv iota.
    + rewrite build_expect_ok by (by apply blob_headers_valid). run_step. by eexists _, _.
    + run_step. change (fs_stream io _ _) with (fs_stream io (cache_path s id) (disk s)).
      unfold fs_stream. rewrite Hst, (proj1 (Hio _)), (proj2 (Hio _)). rewrite build_expect_ok by (by apply blob_headers_valid). run_step.
      eexists _, _. split; [done|]. apply stream_frames_collect.
  - injection Hst as ->. unfold serve_blob_bytes.
    rewrite build_expect_ok by (by apply blob_headers_valid). run_step. eexists _, _. split; [done|by destruct head].
Qed.

Lemma hit_run io net host name d b c req s :
  blobs s !! d = Some b -> stored s (OBlob d) = Some c -> blob_files_ok s ->
  header_value_ok (blob_media_type b) = true -> (forall p, io_open io p = true /\ io_read io p = true) ->
  exists s' body, run (get_head_blob io net host name (digest_to_string d) (is_head req))
      (mkWorld (counted_state req s) 0 []) =
    (mkWorld s' 0 [], Ok (mkResponse 200 (blob_headers (blob_media_type b) d (dec (blen c))) body)) /\
    body_bytes body = Some (if is_head req then [] else c) /\
    exists m, s' = metric_add m 1 (touch_blob d b (counted_state req s)).
Proof.
  intros Hb Hst Hfiles Hmt Hio. unfold get_head_blob. rewrite digest_from_to_string, run_bind.
  destruct (cached_blob_run io d (is_head req) b c (counted_state req s) 0 []) as (body & m & -> & Hbody); [done..|].
  run_step. by eauto 10.
Qed.

Lemma blob_hit io net u req s host name d c :
  authorized s req -> parse_route (req_path req) = Ok (host, name, $"blobs", digest_to_string d) ->
  reads req -> stored s (OBlob d) = Some c -> blob_files_ok s -> media_ok s ->
  (forall p, io_open io p = true /\ io_read io p = true) ->
  exists s' resp mt, handle_request io net u req s = (s', [], Some resp) /\
    resp_status resp = 200%N /\ resp_headers resp = blob_headers mt d (dec (blen c)) /\
    body_bytes (resp_body resp) = Some (if is_head req then [] else c) /\
    (forall o, stored s' o = stored s o) /\ Blob.last_accessed <$> blobs s' !! d = Some (now s) /\
    w_calls (run (handle_request_inner io net u req) (mkWorld s 0 [])).1 = 0.
Proof.
  intros Ha Hr Hm Hst Hfiles Hmedia Hio.
  destruct (blobs s !! d) as [b|] eqn:Eb; [|by simpl in Hst; rewrite Eb in Hst].
  destruct (hit_run io net (alias_host s host) name d b c req s) as (s' & body & Hrun & Hbody & m & ->);
    [done..|by eapply mo_blobs|done|].
  rewrite <- (inner_blob_read io net u req s host name d) in Hrun by done. rewrite Hrun.
  eexists _, _, (blob_media_type b). split; [exact (handle_ok _ _ _ _ _ _ _ Hrun)|].
  split_and!; [done|done|done| | |done].
  - intros o. apply (touch_blob_stored d b (counted_state req s) o Eb).
  - change (Blob.last_accessed <$> <[d := Blob.set_last_accessed (now s) b]> (blobs s) !! d = Some (now s)).
    rewrite lookup_insert_eq. by destruct b.
Qed.

(** C17: a cached blob, in memory or in a file, is served to a GET in full,
    with its length and digest, and to a HEAD with the same headers, without
    any upstream request, whatever host the path names; the read marks it as
    used now and changes no stored content. *)
Theorem cached_blob_served io net u req s host name d c :
  authorized s req -> parse_route (req_path req) = Ok (host, name, $"blobs", digest_to_string d) ->
  reads req -> stored s (OBlob d) = Some c -> blob_files_ok s -> media_ok s ->
  (forall p, io_open io p = true /\ io_read io p = true) ->
  exists s' resp mt, handle_request io net u req s = (s', [], Some resp) /\
    resp_status resp = 200%N /\ resp_headers resp = blob_headers mt d (dec (blen c)) /\
    body_bytes (resp_body resp) = Some (if is_head req then [] else c) /\
    (forall o, stored s' o = stored s o) /\ Blob.last_accessed <$> blobs s' !! d = Some (now s) /\
    w_calls (run (handle_request_inner io net u req) (mkWorld s 0 [])).1 = 0.
Proof. apply blob_hit. Qed.

(** ** Pulling through *)

(** The first upstream request of an exchange: a cached token, or the
    configured credentials, or neither. *)
Definition first_request s (host name : bytes) (m : Method.t) (sub_path : bytes) (accept : option bytes)
  : UpRequest :=
  mkUpRequest m ($"https://" ++ host ++ $"/v2/" ++ name ++ $"/" ++ sub_path) accept
    (match tokens s !! token_key host name with
     | Some t => Some ($"Bearer " ++ t)
     | None => (fun c => basic_auth_header c.1 c.2) <$> basic_creds s host
     end).

Lemma exchange_at_once net s host name m sub accept resp calls fills :
  net calls (first_request s host name m sub accept) = Some resp -> us_status resp <> 401%N ->
  run (upstream_pull_request net host name m sub accept) (mkWorld s calls fills) =
  (mkWorld (metric_add docker_upstream_requests 1 s) (S calls) fills, Ok resp).
Proof.
  intros Hnet Hst. unfold upstream_pull_request. run_step. cbn [pull_attempts]. run_step.
  cbn [ur_method ur_url ur_accept]. unfold first_request in Hnet. cbv zeta. rewrite Hnet.
  by rewrite (proj2 (N.eqb_neq _ _) Hst).
Qed.

(** C18: a GET of a blob that is not cached asks the upstream host for it, hands
    the body to the client as it arrives, and starts one fill; when it has
    run, the cache holds the blob if the body was complete and had the digest
    asked for, and is unchanged otherwise. *)
Theorem pull_through io net u req s host name d resp :
  authorized s req -> parse_route (req_path req) = Ok (host, name, $"blobs", digest_to_string d) ->
  req_method req = Method.GET -> blobs s !! d = None -> alias_host s host <> $"self" ->
  net 0 (first_request s (alias_host s host) name Method.GET ($"blobs/" ++ digest_to_string d) None) = Some resp ->
  is_success (us_status resp) = true ->
  exists s1 fill r, handle_request io net u req s = (s1, [fill], Some r) /\
    metrics_only s s1 /\ resp_status r = 200%N /\
    resp_body r = Streaming (client_frames (us_body resp)) /\
    forall s2,
      match collect (us_body resp) with
      | Some body =>
          if decide (sha256_digest body = d) then stored (run_fill fill s2) (OBlob d) = Some body
          else run_fill fill s2 = s2
      | None => run_fill fill s2 = s2
      end.
Proof.
  intros Ha Hr Hm Hmiss Hself Hnet Hok.
  set (s1 := metric_add docker_upstream_requests 1
               (metric_add docker_blob_cache_miss 1 (counted_state req s))).
  set (fill := mkFill d (content_type resp) (us_body resp)).
  assert (Hst : us_status resp <> 401%N).
  { intros E. rewrite E in Hok. by vm_compute in Hok. }
  assert (Hrun : exists hs, run (handle_request_inner io net u req) (mkWorld s 0 []) =
    (mkWorld s1 1 [fill], Ok (mkResponse 200 hs (Streaming (client_frames (us_body resp)))))).
  { rewrite (inner_blob_read io net u req s host name d) by (done || by left).
    unfold get_head_blob, is_head. rewrite Hm, digest_from_to_string.
    rewrite run_bind. unfold cached_blob. run_step.
    replace (blobs (counted_state req s) !! d) with (@None Blob.t) by done. run_step.
    rewrite (decide_False (P := alias_host s host = $"self")) by done. run_step.
    rewrite bool_decide_eq_false_2 by done.
    rewrite run_bind, (exchange_at_once _ _ _ _ _ _ _ resp) by done. rewrite Hok. cbn [negb].
    unfold spawn_blob_fill. rewrite run_bind. run_step. rewrite build_expect_ok; [by eexists|].
    constructor; [apply content_type_ok|]. constructor; [apply text_ok, visible_digest|].
    destruct (_ ≫= parse_usize); [|constructor]. constructor; [apply text_ok, visible_dec|constructor]. }
  destruct Hrun as [hs Hrun]. exists s1, fill. eexists. split; [exact (handle_ok _ _ _ _ _ _ _ Hrun)|].
  split_and!; [done..|]. intros s2. unfold run_fill. subst fill. cbn [fill_frames fill_digest fill_media_type].
  destruct (drain (us_body resp) [] hasher_new) as [[buf h]|] eqn:E.
  - destruct (drain_spec _ _ _ _ _ hashed_new E) as (Hh & body & -> & Hbuf). simpl in Hbuf. subst buf.
    cbv zeta. rewrite (hashed_finalize _ _ Hh). case_decide; [|done].
    rewrite store_blob_stored. by rewrite decide_True.
  - assert (Hn : collect (us_body resp) = None); [|by rewrite Hn].
    clear -E. revert E. generalize ([] : bytes), hasher_new.
    induction (us_body resp) as [|[c|] fs IH]; intros b h; simpl; [done| |done].
    intros E. by rewrite (IH _ _ E).
Qed.
End blobs.
