(* ===== verification/DockerText.v ===== *)
(** * The Docker registry: headers sent upstream and challenges received *)
From S2P Require Import Prelude Prog Digest Env Config State Text Ascii Http DockerUpstream.

(** ** [manifest_accept] *)
Definition lower (t : bytes) : bytes := ascii_lower <$> t.
Definition same_type (a b : bytes) : Prop := lower a = lower b.

(** What a part of the client's header asks for. *)
Definition part_type (part : bytes) : bytes := trim (default [] (head (split_at_char ";" part))).
Definition asks (t : bytes) : Prop := t <> [] /\ t <> $"*/*".

Lemma eq_ignore_ascii_case_spec a b : eq_ignore_ascii_case a b = true <-> same_type a b.
Proof. apply bool_decide_eq_true. Qed.

Lemma accept_part_cases out part :
  let t := part_type part in
  (accept_part out part = out /\ (asks t -> exists e, e ∈ out /\ same_type e t)) \/
  (accept_part out part = out ++ [t] /\ asks t /\ forall e, e ∈ out -> ~ same_type e t).
Proof.
  cbv zeta. unfold accept_part. fold (part_type part). set (t := part_type part).
  destruct (bool_decide (t = []) || bool_decide (t = $"*/*")) eqn:E.
  { left. split; [done|]. intros [H1 H2].
    by apply orb_true_iff in E as [E%bool_decide_eq_true|E%bool_decide_eq_true]. }
  apply orb_false_iff in E as [E1%bool_decide_eq_false E2%bool_decide_eq_false].
  destruct (existsb _ _) eqn:Ex; [left|right]; (split; [done|]).
  - intros _. apply existsb_exists in Ex as (e & He & Hs). exists e.
    split; [by apply list_elem_of_In|by apply eq_ignore_ascii_case_spec].
  - split; [done|]. intros e He Hs. apply not_true_iff_false in Ex. destruct Ex.
    apply existsb_exists. exists e. split; [by apply list_elem_of_In|by apply eq_ignore_ascii_case_spec].
Qed.

(** The types sent upstream with a manifest request are the six known
    ones, in their order, and then exactly those the client asked for and that
    are not listed yet, letter case aside; none is listed twice. *)
Lemma manifest_accept_types a :
  MANIFEST_ACCEPT_TYPES `prefix_of` accept_types (Some a) /\
  (forall part, part ∈ split_at_char "," a -> asks (part_type part) ->
     exists e, e ∈ accept_types (Some a) /\ same_type e (part_type part)) /\
  (forall e, e ∈ accept_types (Some a) -> e ∈ MANIFEST_ACCEPT_TYPES \/
     exists part, part ∈ split_at_char "," a /\ asks (part_type part) /\ e = part_type part) /\
  NoDup (lower <$> accept_types (Some a)).
Proof.
  unfold accept_types. apply (foldl_prefix_ind (fun l out =>
    MANIFEST_ACCEPT_TYPES `prefix_of` out /\
    (forall part, part ∈ l -> asks (part_type part) -> exists e, e ∈ out /\ same_type e (part_type part)) /\
    (forall e, e ∈ out -> e ∈ MANIFEST_ACCEPT_TYPES \/
       exists part, part ∈ l /\ asks (part_type part) /\ e = part_type part) /\
    NoDup (lower <$> out))).
  - split_and!; [done|by intros ? ?%elem_of_nil|by left|by_decide].
  - intros l part l2 out _ (H1 & H2 & H3 & H4).
    destruct (accept_part_cases out part) as [[-> Ht]|(-> & Ha & Hne)].
    + split_and!; [done| | |done].
      * intros p [Hp| ->%list_elem_of_singleton]%elem_of_app; auto.
      * intros e [He|(p & Hp & ?)]%H3; [by left|]. right. exists p. set_solver.
    + split_and!.
      * by apply prefix_app_r.
      * intros p [Hp| ->%list_elem_of_singleton]%elem_of_app Hask.
        -- destruct (H2 p Hp Hask) as (e & He & Hs). exists e. set_solver.
        -- exists (part_type part). split; [set_solver|done].
      * intros e [[He|(p & Hp & ?)]%H3| ->%list_elem_of_singleton]%elem_of_app; [by left|right..].
        -- exists p. set_solver.
        -- exists part. set_solver.
      * rewrite fmap_app. apply NoDup_app. split_and!; [done| |apply NoDup_singleton].
        intros x (e & -> & He)%list_elem_of_fmap. intros Hin%list_elem_of_singleton. by apply (Hne e He).
Qed.

(** ** Challenges *)
Lemma span_length p b l r : span p b = (l, r) -> length r <= length b.
Proof.
  revert l r. induction b as [|c b IH]; intros l r; simpl; [by intros [= <- <-]|].
  destruct (p c); [|by intros [= <- <-]]. destruct (span p b) as [l' r'].
  intros [= <- <-]. specialize (IH _ _ eq_refl). lia.
Qed.

Lemma quoted_length n b v r : length b <= n -> quoted b = (v, r) -> length r <= length b.
Proof.
  revert b v r. induction n as [|n IH]; intros [|c b] v r Hn; simpl in *; try lia; try (by intros [= <- <-]).
  case_decide; [by intros [= <- <-]|]. destruct b as [|d b]; [intros [= <- <-]; simpl; lia|].
  case_decide.
  - destruct (quoted b) as [v' r'] eqn:E. intros [= <- <-]. simpl in *. apply IH in E; lia.
  - destruct (quoted (d :: b)) as [v' r'] eqn:E. intros [= <- <-]. apply IH in E; simpl in *; lia.
Qed.

Lemma challenge_value_length b v r : challenge_value b = (v, r) -> length r <= length b.
Proof.
  unfold challenge_value. destruct b as [|c b]; [by intros [= <- <-]|]. case_decide.
  - destruct (quoted b) as [v' r'] eqn:E. intros [= <- <-]. apply (quoted_length (length b)) in E; [|lia].
    simpl. destruct r'; simpl in *; lia.
  - destruct (span _ _) as [v' r'] eqn:E. intros [= <- <-]. by eapply span_length.
Qed.

Lemma challenge_loop_enough fuel b : length b < fuel -> is_Some (challenge_loop fuel b).
Proof.
  revert b. induction fuel as [|fuel IH]; intros b Hb; [lia|]. cbn [challenge_loop].
  destruct b as [|c0 b0]; [by eexists|].
  destruct (span is_separator (c0 :: b0)) as [sp l1] eqn:E1. apply span_length in E1.
  destruct (span not_eq_or_comma l1) as [key l2] eqn:E2. apply span_length in E2.
  destruct l2 as [|c l3]; [by eexists|]. case_decide; [|by eexists].
  destruct (challenge_value l3) as [v l4] eqn:E3. apply challenge_value_length in E3.
  destruct (IH l4) as [out ->]; [simpl in *; lia|by eexists].
Qed.

(** Walking the parameters of a challenge ends, on any input. *)
Lemma iter_challenge_params_total input : is_Some (iter_challenge_params input).
Proof. apply challenge_loop_enough. lia. Qed.

(** A text that can stand between quotes as it is. *)
Definition quotable (v : bytes) : Prop :=
  forall c, c ∈ v -> c <> "034"%char /\ c <> "092"%char /\ (N_of_ascii c < 128)%N.

Lemma quoted_app v r : quotable v -> quoted (v ++ "034"%char :: r) = (v, "034"%char :: r).
Proof.
  induction v as [|c v IH]; intros Hv; [done|].
  destruct (Hv c) as (H1 & H2 & _); [by left|].
  assert (IH' : quoted (v ++ "034"%char :: r) = (v, "034"%char :: r)) by (apply IH; intros x Hx; apply Hv; by right).
  cbn [app]. cbn [quoted]. rewrite decide_False by done.
  destruct (v ++ "034"%char :: r) as [|d rest] eqn:E; [by destruct v|].
  rewrite decide_False by done. by rewrite IH'.
Qed.

(** One parameter, as registries print it. *)
Definition param (k v : bytes) : bytes := k ++ ["="%char; "034"%char] ++ v ++ ["034"%char].

Lemma challenge_param fuel sp k c v r :
  forallb is_separator sp = true -> forallb not_eq_or_comma (c :: k) = true -> is_separator c = false ->
  quotable v ->
  challenge_loop (S fuel) (sp ++ param (c :: k) v ++ r) =
  (out ← challenge_loop fuel r; Some ((ascii_lower <$> trim (c :: k), v) :: out)).
Proof.
  intros Hsp Hk Hc Hv. cbn [challenge_loop].
  assert (Hspan : forall p l x b, forallb p l = true -> p x = false -> span p (l ++ x :: b) = (l, x :: b)).
  { intros p l x b. induction l as [|y l IH]; simpl; intros Hl Hx; [by rewrite Hx|].
    apply andb_true_iff in Hl as [-> Hl]. by rewrite IH. }
  assert (Hne : exists x b, sp ++ param (c :: k) v ++ r = x :: b) by (destruct sp; simpl; eauto).
  destruct Hne as (x & b & Hne). rewrite Hne. rewrite <- Hne. clear x b Hne.
  unfold param. cbn [app]. rewrite Hspan by done.
  replace (c :: (k ++ "="%char :: "034"%char :: v ++ ["034"%char]) ++ r)
    with ((c :: k) ++ "="%char :: "034"%char :: v ++ "034"%char :: r).
  2:{ cbn [app]. f_equal. rewrite <- app_assoc. cbn [app]. do 3 f_equal. by rewrite <- app_assoc. }
  rewrite Hspan by done. rewrite decide_True by done. cbn [challenge_value].
  rewrite decide_True by done. rewrite quoted_app by done. done.
Qed.

(** A challenge header with its three parameters. *)
Definition bearer_header (realm service scope : bytes) : bytes :=
  $"Bearer " ++ param $"realm" realm ++ $"," ++ param $"service" service ++ $"," ++ param $"scope" scope.

Lemma ascii_text_quotable v : quotable v -> ascii_text v.
Proof. intros Hv c Hc. by apply Hv in Hc as (_ & _ & ?). Qed.

Lemma ascii_text_param k v : ascii_text k -> quotable v -> ascii_text (param k v).
Proof.
  intros Hk Hv. unfold param.
  apply ascii_text_app; [done|]. apply ascii_text_app; [by apply ascii_text_const|].
  apply ascii_text_app; [by apply ascii_text_quotable|by apply ascii_text_const].
Qed.

Lemma trim_start_skip c b :
  ascii_text (c :: b) -> is_whitespace (N_of_ascii c) = true -> trim_start (c :: b) = trim_start b.
Proof.
  intros Hb Hc. unfold trim_start. rewrite (ascii_chars _ Hb), (ascii_chars b) by (intros x Hx; apply Hb; by right).
  by rewrite fmap_cons; cbn [skip_ws]; rewrite Hc.
Qed.

Section bearer.
Context (realm service scope : bytes).
Context (Hrealm : quotable realm) (Hservice : quotable service) (Hscope : quotable scope).

Definition three_params : bytes :=
  param $"realm" realm ++ $"," ++ param $"service" service ++ $"," ++ param $"scope" scope.

Lemma three_params_ascii : ascii_text three_params.
Proof using Hrealm Hservice Hscope.
  assert (Hp : forall k v, forallb (fun c => N_of_ascii c <? 128)%N k = true -> quotable v -> ascii_text (param k v))
    by (intros k v Hk Hv; by apply ascii_text_param; [apply ascii_text_const|]).
  unfold three_params. apply ascii_text_app; [by apply Hp|]. apply ascii_text_app; [by apply ascii_text_const|].
  apply ascii_text_app; [by apply Hp|]. apply ascii_text_app; [by apply ascii_text_const|by apply Hp].
Qed.

Lemma three_params_ends : exists y, three_params = $"realm" ++ y ++ ["034"%char].
Proof.
  exists (["="%char; "034"%char] ++ realm ++ ["034"%char] ++ $"," ++ param $"service" service ++ $"," ++
          $"scope" ++ ["="%char; "034"%char] ++ scope).
  unfold three_params, param. by rewrite <- !app_assoc.
Qed.

Lemma three_params_read :
  iter_challenge_params three_params = Some [($"realm", realm); ($"service", service); ($"scope", scope)].
Proof using Hrealm Hservice Hscope.
  unfold iter_challenge_params.
  assert (Hlen : 4 <= length three_params).
  { destruct three_params_ends as [y ->]. rewrite !length_app. simpl. lia. }
  destruct (length three_params) as [|[|[|[|n]]]]; [lia..|]. unfold three_params.
  change (param $"realm" realm ++ $"," ++ param $"service" service ++ $"," ++ param $"scope" scope)
    with ([] ++ param $"realm" realm ++ $"," ++ param $"service" service ++ $"," ++ param $"scope" scope).
  rewrite (challenge_param _ [] $"ealm" "r" realm) by done.
  rewrite (challenge_param _ $"," $"ervice" "s" service) by done.
  rewrite <- (app_nil_r (param $"scope" scope)).
  rewrite (challenge_param _ $"," $"cope" "s" scope) by done. reflexivity.
Qed.
End bearer.

(** A challenge as registries print it is read back: realm, service and
    scope are the texts between the quotes. *)
Theorem parse_bearer_header realm service scope :
  quotable realm -> quotable service -> quotable scope ->
  parse_bearer_challenge (bearer_header realm service scope) =
  Some (mkBearerChallenge realm (Some service) (Some scope)).
Proof.
  intros H1 H2 H3. unfold parse_bearer_challenge, bearer_header. fold (three_params realm service scope).
  pose proof (three_params_ascii realm service scope H1 H2 H3) as Hascii.
  destruct (three_params_ends realm service scope) as [y Hy].
  assert (Htrim : trim ($"Bearer " ++ three_params realm service scope) = $"Bearer " ++ three_params realm service scope).
  { rewrite Hy. change ($"Bearer " ++ $"realm" ++ y ++ ["034"%char]) with ("B"%char :: ($"earer realm" ++ y) ++ ["034"%char]).
    apply trim_between; [|done|done].
    change ("B"%char :: ($"earer realm" ++ y) ++ ["034"%char]) with ($"Bearer " ++ $"realm" ++ y ++ ["034"%char]).
    rewrite <- Hy. apply ascii_text_app; [by apply ascii_text_const|done]. }
  rewrite Htrim. change ($"Bearer " ++ three_params realm service scope)
    with ($"Bearer" ++ " "%char :: three_params realm service scope).
  rewrite (proj2 (strip_prefix_Some $"Bearer" _ _) eq_refl). cbn [mbind option_bind].
  rewrite trim_start_skip; [|by apply (ascii_text_app [" "%char]); [apply ascii_text_const|]|done].
  assert (Hstart : trim_start (three_params realm service scope) = three_params realm service scope).
  { rewrite Hy in Hascii |- *.
    exact (trim_start_at "r"%char ($"ealm" ++ y ++ ["034"%char]) Hascii eq_refl). }
  rewrite Hstart, three_params_read by done. reflexivity.
Qed.
