(* ===== verification/Server.v ===== *)
(** * The server and its clients

    Requests of registry clients and commands of redis clients are in flight
    together; each step runs one operation of one of them, or a cache fill, a
    pending unlink or a clock tick. [serving_ok] is kept by every such step, for
    every invariant that satisfies the interfaces [StateInv], [RedisInv],
    [FlushInv] and [TaskInv], as long as no upload is closed by two requests at
    once ([polite]); [server_ok] leaves open what is known of the commands. *)
From S2P Require Import Prelude Prog Digest Env Config State Text Redis RedisSteps Http.
From S2P Require Import DockerUpstream Docker DockerServe DockerLogic DockerContent.
From S2P Require Import DockerObjects.
From S2P Require Import DockerMedia DockerSafe.

Section server.
Context {SHA : Sha256} {CT : ConstantTimeEq} {ITER : MapIter} {HC : HttpCodecs}.
Implicit Types (s : State) (fs : list Fill).

(** What a client waits for: the rest of a handler, with the number of upstream
    calls it has made, or of a redis command. *)
Inductive Client : Type :=
  | Registry (req : Request) (calls : nat) (h : M Response)
  | Command (h : R (bytes * option bool)).

(** The shared state, the fills that are still running, the clients. *)
Record Server : Type := mkServer {
  srv_state : State;
  srv_fills : list Fill;
  srv_clients : list Client
}.

Definition client_closes (c : Client) : option N :=
  match c with Registry req _ _ => closes req | Command _ => None end.

(** The uploads that are being closed; nobody closes one twice at a time. *)
Definition closers (cs : list Client) : gset N := list_to_set (omap client_closes cs).
Definition polite (x : Server) : Prop := NoDup (omap client_closes (srv_clients x)).

(** A [FLUSH] between its [retain] and its last store. [flush_redis] does not
    await, so a connection that is closed cannot end it there. *)
Definition mid_flush (h : R (bytes * option bool)) : Prop :=
  exists bs r, bs <> [] /\ h = (_ ← clear bs; mret r).

Lemma ended_not_flush r : ~ mid_flush (Done r).
Proof. by intros ([|b bs] & r' & Hbs & [=]). Qed.

(** The commands in flight. *)
Definition client_command (c : Client) : option (R (bytes * option bool)) :=
  match c with Command h => Some h | Registry _ _ _ => None end.
Definition commands (x : Server) : list (R (bytes * option bool)) := omap client_command (srv_clients x).

(** Ids are fresh as long as the 64-bit counter has not wrapped. *)
Definition ids_left s : Prop := (next_id s + 1 < U64)%N.

Inductive serve_step : Server -> Server -> Prop :=
  (** A request arrives, runs one of its operations, is answered; one that
      closes no upload may also be given up by its client. *)
  | step_request io net u req s fs cs1 cs2 :
      serve_step (mkServer s fs (cs1 ++ cs2))
        (mkServer s fs (cs1 ++ Registry req 0 (handle_request_inner io net u req) :: cs2))
  | step_operation req n X (op : World -> World * X) k s fs cs1 cs2 :
      let w := (op (mkWorld s n fs)).1 in
      serve_step (mkServer s fs (cs1 ++ Registry req n (Atomic op k) :: cs2))
        (mkServer (w_state w) (w_fills w)
           (cs1 ++ Registry req (w_calls w) (k (op (mkWorld s n fs)).2) :: cs2))
  | step_answer req n r s fs cs1 cs2 :
      serve_step (mkServer s fs (cs1 ++ Registry req n (Done r) :: cs2)) (mkServer s fs (cs1 ++ cs2))
  | step_give_up req n h s fs cs1 cs2 :
      closes req = None ->
      serve_step (mkServer s fs (cs1 ++ Registry req n h :: cs2)) (mkServer s fs (cs1 ++ cs2))
  (** The same for a command. *)
  | step_command io authed args s fs cs1 cs2 :
      serve_step (mkServer s fs (cs1 ++ cs2))
        (mkServer s fs (cs1 ++ Command (execute_steps io authed args) :: cs2))
  | step_command_operation X (op : State -> State * X) k s fs cs1 cs2 :
      serve_step (mkServer s fs (cs1 ++ Command (Atomic op k) :: cs2))
        (mkServer (op s).1 fs (cs1 ++ Command (k (op s).2) :: cs2))
  | step_reply h s fs cs1 cs2 :
      ~ mid_flush h ->
      serve_step (mkServer s fs (cs1 ++ Command h :: cs2)) (mkServer s fs (cs1 ++ cs2))
  (** Background tasks. *)
  | step_fill f s fs1 fs2 cs :
      serve_step (mkServer s (fs1 ++ f :: fs2) cs) (mkServer (run_fill f s) (fs1 ++ fs2) cs)
  | step_unlink io p ps1 ps2 s fs cs :
      spawned s = ps1 ++ p :: ps2 ->
      serve_step (mkServer s fs cs) (mkServer (run_unlink io p (ps1 ++ ps2) s) fs cs)
  | step_tick t s fs cs : serve_step (mkServer s fs cs) (mkServer (time_update t s) fs cs).

(** A step while ids are fresh, of a server with one client at a time. *)
Definition calm_step (x y : Server) : Prop :=
  serve_step x y /\ ids_left (srv_state x) /\ length (srv_clients y) <= 1.

Lemma single_polite (x : Server) : length (srv_clients x) <= 1 -> polite x.
Proof.
  destruct x as [s fs [|c [|]]]; intros Hl; unfold polite; cbn in *; [apply NoDup_nil_2| |lia].
  destruct (client_closes c); cbn; [apply NoDup_singleton|apply NoDup_nil_2].
Qed.
End server.

(** ** Without interruption

    A request, or a command, that runs alone from its arrival to its end has
    the effect that [handle_request], or [execute], describes. *)
Section alone.
Context {SHA : Sha256} {CT : ConstantTimeEq} {ITER : MapIter} {HC : HttpCodecs}.

Lemma operations_alone req n h s fs cs1 cs2 :
  let w := run h (mkWorld s n fs) in
  rtc serve_step (mkServer s fs (cs1 ++ Registry req n h :: cs2))
    (mkServer (w_state w.1) (w_fills w.1) (cs1 ++ Registry req (w_calls w.1) (Done w.2) :: cs2)).
Proof.
  cbv zeta. revert n s fs. induction h as [r|X op k IH]; intros n s fs; cbn [run]; [done|].
  eapply rtc_l; [apply step_operation|]. destruct (op (mkWorld s n fs)) as [[s' n' fs'] x]. apply IH.
Qed.

Lemma request_alone io net u req s cs1 cs2 :
  let '(s', new, resp) := handle_request io net u req s in
  exists n res, answer res = resp /\
    rtc serve_step (mkServer s [] (cs1 ++ cs2)) (mkServer s' new (cs1 ++ Registry req n (Done res) :: cs2)) /\
    rtc serve_step (mkServer s [] (cs1 ++ cs2)) (mkServer s' new (cs1 ++ cs2)).
Proof.
  unfold handle_request. pose proof (operations_alone req 0 (handle_request_inner io net u req) s [] cs1 cs2) as H.
  destruct (run _ _) as [w r]. cbn [fst snd] in H. exists (w_calls w), r.
  assert (Hr : rtc serve_step (mkServer s [] (cs1 ++ cs2))
    (mkServer (w_state w) (w_fills w) (cs1 ++ Registry req (w_calls w) (Done r) :: cs2))).
  { eapply rtc_l; [apply (step_request io net u req)|exact H]. }
  split_and!; [done|exact Hr|]. eapply rtc_r; [exact Hr|apply step_answer].
Qed.

Lemma command_operations_alone h s fs cs1 cs2 :
  rtc serve_step (mkServer s fs (cs1 ++ Command h :: cs2))
    (mkServer (run h s).1 fs (cs1 ++ Command (Done (run h s).2) :: cs2)).
Proof.
  revert s. induction h as [r|X op k IH]; intros s; cbn [run]; [done|].
  eapply rtc_l; [apply step_command_operation|]. apply IH.
Qed.

Lemma command_alone io authed args s fs cs1 cs2 :
  let '(s', reply, o) := execute io authed args s in
  rtc serve_step (mkServer s fs (cs1 ++ cs2)) (mkServer s' fs (cs1 ++ Command (Done (Ok (reply, o))) :: cs2)) /\
  rtc serve_step (mkServer s fs (cs1 ++ cs2)) (mkServer s' fs (cs1 ++ cs2)).
Proof.
  pose proof (command_operations_alone (execute_steps io authed args) s fs cs1 cs2) as Hr.
  rewrite execute_run in Hr. destruct (execute io authed args s) as [[s' reply] o]. cbn [fst snd] in Hr.
  assert (Hall : rtc serve_step (mkServer s fs (cs1 ++ cs2)) (mkServer s' fs (cs1 ++ Command (Done (Ok (reply, o))) :: cs2))).
  { eapply rtc_l; [apply (step_command io authed args)|exact Hr]. }
  split; [exact Hall|]. eapply rtc_r; [exact Hall|apply step_reply, ended_not_flush].
Qed.

End alone.

(** ** Redis commands leave the registry alone *)
Section redis.
Context {SHA : Sha256} {CT : ConstantTimeEq} {ITER : MapIter}.
Implicit Types s : State.

Record redis_only s s' : Prop := {
  only_config : config s' = config s;
  only_blobs : blobs s' = blobs s;
  only_manifests : manifests s' = manifests s;
  only_uploads : uploads s' = uploads s;
  only_dropped : dropped_uploads s' = dropped_uploads s;
  only_disk : disk s' = disk s
}.

#[export] Instance redis_only_preorder : PreOrder redis_only.
Proof. split; [by intros s|]. intros s1 s2 s3 [] []. split; congruence. Qed.

Lemma insert_redis_only k v s : redis_only s (insert_redis k v s).2.
Proof.
  unfold insert_redis. destruct (take_id s) as [i s1] eqn:E. injection E as <- <-.
  destruct (redis_value_bucket _). state_simpl.
  repeat case_match; done.
Qed.

Lemma remove_redis_only k s : redis_only s (remove_redis k s).2.
Proof. unfold remove_redis. repeat case_match; done. Qed.

Lemma flush_entries_only s : redis_only s (flush_entries s).
Proof. done. Qed.

Lemma touch_redis_only k id t s : redis_only s (touch_redis k id t s).
Proof. unfold touch_redis. by repeat case_match. Qed.

(** A relation that the operations of the commands satisfy. *)
Record redis_ops (Q : State -> State -> Prop) : Prop := {
  rop_same s : Q s s;
  rop_metric m n s : Q s (metric_add m n s);
  rop_touch k id t s : Q s (touch_redis k id t s);
  rop_insert k v s : Q s (insert_redis k v s).2;
  rop_remove k s : Q s (remove_redis k s).2
}.
Record flush_ops (Q : State -> State -> Prop) : Prop := {
  fop_entries s : Q s (flush_entries s);
  fop_store b n s : Q s (usage_store b n s)
}.

Lemma every_asks {X A} Q (f : State -> X) (k : X -> R A) :
  redis_ops Q -> (forall x, every_op Q (k x)) -> every_op Q (asks f ≫= k).
Proof. intros HQ Hk. split; [apply HQ|done]. Qed.
Lemma every_does {A} Q f (k : unit -> R A) :
  (forall s, Q s (f s)) -> every_op Q (k tt) -> every_op Q (does f ≫= k).
Proof. intros HQ Hk. split; [done|by intros []]. Qed.

Local Ltac ops :=
  repeat (cbv beta zeta; first
    [ exact I
    | apply every_asks; [done|intros ?]
    | apply every_does; [intros ?; first [apply rop_metric|apply rop_touch|apply rop_insert|apply rop_remove]; done|]
    | case_match ]).

Lemma promote_every Q k r : redis_ops Q -> every_op Q (promote k r).
Proof.
  intros HQ. unfold promote. destruct r as [v|e]; [|by ops]. split; [intros s; by apply rop_insert|].
  intros [value i l|n i l]; by ops.
Qed.

Lemma get_steps_every Q io k : redis_ops Q -> every_op Q (get_steps io k).
Proof.
  intros HQ. unfold get_steps. apply every_asks; [done|intros t]. apply every_asks; [done|intros entry].
  destruct entry as [[v id la|n id la]|]; [by ops| |by ops].
  apply every_asks; [done|intros r]. by apply promote_every.
Qed.

Lemma del_steps_every Q keys n : redis_ops Q -> every_op Q (del_steps keys n).
Proof.
  intros HQ. revert n. induction keys as [|k keys IH]; intros n; [done|]. cbn [del_steps].
  split; [intros s; by apply rop_remove|intros r; apply IH].
Qed.

Lemma exists_steps_every Q keys n : redis_ops Q -> every_op Q (exists_steps keys n).
Proof.
  intros HQ. revert n. induction keys as [|k keys IH]; intros n; [done|]. cbn [exists_steps].
  apply every_asks; [done|intros r; apply IH].
Qed.

(** A command is a [FLUSH], or of the operations of [redis_ops]. *)
Definition flush_command : R (bytes * option bool) :=
  _ ← does (metric_add redis_commands 1); _ ← flush_steps; mret (write_simple $"OK", Some true).

Lemma execute_steps_cases Q io authed args :
  redis_ops Q -> every_op Q (execute_steps io authed args) \/ execute_steps io authed args = flush_command.
Proof.
  intros HQ. unfold execute_steps. cbv zeta. destruct (verb_of _); try (destruct authed; cbn [negb]);
    try (right; reflexivity); left; (apply every_does; [intros s; by apply rop_metric|]); unfold auth_steps;
    try (by ops); repeat (case_match; try done); apply every_op_then;
    auto using get_steps_every, del_steps_every, exists_steps_every; intros ?; by ops.
Qed.

Lemma clear_every Q bs : flush_ops Q -> every_op Q (clear bs).
Proof.
  intros HQ. induction bs as [|b bs IH]; [done|]. cbn [clear]. apply every_does; [|exact IH].
  intros s. by apply fop_store.
Qed.

Lemma execute_steps_every Q io authed args :
  redis_ops Q -> flush_ops Q -> every_op Q (execute_steps io authed args).
Proof.
  intros HQ HF. destruct (execute_steps_cases Q io authed args HQ) as [?| ->]; [done|].
  apply every_does; [intros s; by apply rop_metric|]. apply every_op_then; [|done].
  apply every_does; [intros s; by apply fop_entries|by apply clear_every].
Qed.
End redis.


(** ** Who closes what *)
Section closers.
Context {SHA : Sha256} {CT : ConstantTimeEq} {ITER : MapIter} {HC : HttpCodecs}.

Lemma closers_app cs1 cs2 : closers (cs1 ++ cs2) = closers cs1 ∪ closers cs2.
Proof. unfold closers. by rewrite omap_app, list_to_set_app_L. Qed.
Lemma elem_of_closers u cs : u ∈ closers cs <-> exists c, c ∈ cs /\ client_closes c = Some u.
Proof. unfold closers. rewrite elem_of_list_to_set, list_elem_of_omap. done. Qed.

Lemma closers_cons c cs : closers (c :: cs) = from_option singleton ∅ (client_closes c) ∪ closers cs.
Proof. unfold closers. simpl. destruct (client_closes c); simpl; set_solver. Qed.

(** Nobody but [c] closes what [c] closes. *)
Lemma polite_others s fs cs1 c cs2 u :
  polite (mkServer s fs (cs1 ++ c :: cs2)) -> client_closes c = Some u -> u ∉ closers (cs1 ++ cs2).
Proof.
  unfold polite. cbn [srv_clients]. rewrite omap_app. cbn [omap list_omap]. intros Hp Hc. rewrite Hc in Hp.
  change (NoDup (omap client_closes cs1 ++ u :: omap client_closes cs2)) in Hp.
  apply NoDup_app in Hp as (_ & H1 & (H2 & _)%NoDup_cons).
  rewrite closers_app. intros [H|H]%elem_of_union; apply elem_of_list_to_set in H; [|done].
  apply (H1 u H). by left.
Qed.
End closers.

(** ** The invariant *)

(** What an invariant of the state promises about redis commands. *)
Class RedisInv `{Sha256, MapIter} {Gh} (avail : State -> Prop) (J : Gh -> State -> Prop) : Prop := {
  ri_touch g k id t s : J g s -> J g (touch_redis k id t s);
  ri_insert g k v s : avail s -> J g s -> J g (insert_redis k v s).2;
  ri_remove g k s : J g s -> J g (remove_redis k s).2
}.

(** And about the operations of a [FLUSH]. *)
Class FlushInv `{Sha256, MapIter} {Gh} (J : Gh -> State -> Prop) : Prop := {
  fi_entries g s : J g s -> J g (flush_entries s);
  fi_store g b n s : J g s -> J g (usage_store b n s)
}.

(** And about the background tasks. *)
Class TaskInv `{Sha256} {Gh} (J : Gh -> State -> Prop) : Prop := {
  ti_unlink g io p ps1 ps2 s : spawned s = ps1 ++ p :: ps2 -> J g s -> J g (run_unlink io p (ps1 ++ ps2) s);
  ti_tick g t s : J g s -> J g (time_update t s)
}.

Section invariant.
Context {SHA : Sha256} {CT : ConstantTimeEq} {ITER : MapIter} {HC : HttpCodecs}.
Context {Gh : Type} (J : Gh -> State -> Prop) (U : Upload -> Prop) (content : Digest -> bytes -> Prop).
Context `{!StateInv ids_left J U content} `{!TaskInv J}.
(** What is known of the answer to a request. *)
Context (good : Request -> Response -> Prop).
Context (handler_good : forall closing io net u req, closing = closes req ->
  keeps ids_left J U closing (handle_request_inner io net u req) (good req)).
(** What is known of a command in flight. *)
Context {C : R (bytes * option bool) -> Prop}.
#[local] Set Default Proof Using "All".
Implicit Types (s : State) (fs : list Fill) (c : Client).

Definition client_ok s fs c : Prop :=
  match c with
  | Registry req n h => safely ids_left J U (closes req) h (ends U (closes req) (good req)) (mkWorld s n fs)
  | Command h => C h
  end.

Record server_ok (g : Gh) (x : Server) : Prop := {
  sok_state : J g (srv_state x);
  sok_media : media_ok (srv_state x);
  sok_fills : Forall fill_ok (srv_fills x);
  sok_uploads : uploads_ok U (closers (srv_clients x)) (srv_state x);
  sok_clients : Forall (client_ok (srv_state x) (srv_fills x)) (srv_clients x)
}.

Lemma ends_stable req r : stable (rely U (closes req)) (ends U (closes req) (good req) r).
Proof. intros w w' Hr (Hl & H). split; [by eapply rely_live|done]. Qed.

(** Nobody else's step disturbs a client. *)
Lemma client_ok_stable s s' fs fs' c :
  (forall u, client_closes c = Some u -> kept U s s' u) -> client_ok s fs c -> client_ok s' fs' c.
Proof.
  intros Hk. destruct c as [req n h|h]; [|done]. apply safe_stable; [apply _|apply ends_stable|exact Hk].
Qed.

Lemma clients_ok_stable s s' fs fs' cs :
  (forall u, kept U s s' u) -> Forall (client_ok s fs) cs -> Forall (client_ok s' fs') cs.
Proof. intros Hk H. eapply Forall_impl; [exact H|]. intros c. by apply client_ok_stable. Qed.

Lemma uploads_kept X s s' : (forall u, kept U s s' u) -> uploads_ok U X s -> uploads_ok U X s'.
Proof. intros Hk. apply kept_uploads_ok. auto. Qed.

(** *** Requests *)
Lemma uploads_weaken X Y s : X ⊆ Y -> uploads_ok U X s -> uploads_ok U Y s.
Proof. intros HXY Hs u Hu. apply Hs. set_solver. Qed.

Lemma request_ok g io net u req s fs cs1 cs2 :
  let y := mkServer s fs (cs1 ++ Registry req 0 (handle_request_inner io net u req) :: cs2) in
  polite y -> server_ok g (mkServer s fs (cs1 ++ cs2)) -> server_ok g y.
Proof.
  cbv zeta. intros Hp [Hj Hm Hf Hu [Hc1 Hc2]%Forall_app]. split; cbn [srv_state srv_fills srv_clients] in *; [done..| |].
  - eapply uploads_weaken; [|exact Hu]. rewrite !closers_app, closers_cons. set_solver.
  - apply Forall_app. split; [done|]. apply Forall_cons. split; [|done].
    apply handler_good; [done|]. intros v Hv. apply Hu. by eapply (polite_others s fs cs1 _ cs2).
Qed.

Lemma operation_ok g req n X (op : World -> World * X) k s fs cs1 cs2 :
  let w := (op (mkWorld s n fs)).1 in
  let y := mkServer (w_state w) (w_fills w) (cs1 ++ Registry req (w_calls w) (k (op (mkWorld s n fs)).2) :: cs2) in
  ids_left s -> polite y -> server_ok g (mkServer s fs (cs1 ++ Registry req n (Atomic op k) :: cs2)) -> server_ok g y.
Proof.
  cbv zeta. intros Ha Hp [Hj Hm Hf Hu [Hc1 [Hc Hc2]%Forall_cons]%Forall_app]. cbn [srv_state srv_fills srv_clients] in *.
  set (w0 := mkWorld s n fs) in *.
  assert (Hcl : closers (cs1 ++ Registry req n (Atomic op k) :: cs2) =
    closers (cs1 ++ Registry req (w_calls (op w0).1) (k (op w0).2) :: cs2)) by (by rewrite !closers_app, !closers_cons).
  destruct (Hc (closers (cs1 ++ Registry req n (Atomic op k) :: cs2), g) w0) as ([Hj' Hm' Hf' Hu' _] & Hg & Hs);
    [reflexivity| |done|].
  { split; [done..|]. destruct (closes req) as [v|] eqn:E; [|done]. apply elem_of_closers.
    exists (Registry req n (Atomic op k)). split; [|exact E]. apply elem_of_app. right. by left. }
  assert (Hother : forall c, c ∈ cs1 ++ cs2 -> client_ok s fs c -> client_ok (w_state (op w0).1) (w_fills (op w0).1) c).
  { intros c Hin. apply client_ok_stable. intros v Hv. apply Hg. intros E.
    apply (polite_others _ _ _ _ _ v Hp E). apply elem_of_closers. by exists c. }
  split; cbn [srv_state srv_fills srv_clients]; [done..|by rewrite <- Hcl|].
  rewrite Forall_forall in Hc1, Hc2. apply Forall_app. split; [|apply Forall_cons; split].
  - apply Forall_forall. intros c Hin. apply Hother; [apply elem_of_app; by left|auto].
  - destruct (op w0).1. exact Hs.
  - apply Forall_forall. intros c Hin. apply Hother; [apply elem_of_app; by right|auto].
Qed.

(** A client that leaves has no upload half closed. *)
Lemma leave_ok g s fs cs1 c cs2 :
  (forall u, client_closes c = Some u -> live_ok U s u) ->
  server_ok g (mkServer s fs (cs1 ++ c :: cs2)) -> server_ok g (mkServer s fs (cs1 ++ cs2)).
Proof.
  intros Hl [Hj Hm Hf Hu [Hc1 [_ Hc2]%Forall_cons]%Forall_app]. split; cbn [srv_state srv_fills srv_clients] in *; [done..| |].
  - intros u Hn. destruct (decide (client_closes c = Some u)) as [E|E]; [by apply Hl|].
    apply Hu. rewrite closers_app, closers_cons. rewrite closers_app in Hn.
    destruct (client_closes c) as [v|]; simpl; set_solver.
  - by apply Forall_app.
Qed.

Lemma answered_ok g req n r s fs cs1 cs2 :
  server_ok g (mkServer s fs (cs1 ++ Registry req n (Done r) :: cs2)) ->
  ends U (closes req) (good req) r (mkWorld s n fs).
Proof. intros [_ _ _ _ [_ [H _]%Forall_cons]%Forall_app]. exact H. Qed.

(** *** Everything else *)
Lemma state_ok g g' s s' fs fs' cs :
  J g' s' -> media_ok s' -> Forall fill_ok fs' -> (forall u, kept U s s' u) ->
  server_ok g (mkServer s fs cs) -> server_ok g' (mkServer s' fs' cs).
Proof.
  intros Hj Hm Hf Hk [_ _ _ Hu Hc]. split; cbn [srv_state srv_fills srv_clients] in *; [done..| |].
  - by eapply uploads_kept.
  - by eapply clients_ok_stable.
Qed.

Lemma command_changed g g' h h' s s' fs cs1 cs2 :
  J g' s' -> media_ok s' -> (forall u, kept U s s' u) -> C h' ->
  server_ok g (mkServer s fs (cs1 ++ Command h :: cs2)) -> server_ok g' (mkServer s' fs (cs1 ++ Command h' :: cs2)).
Proof.
  intros Hj Hm Hk Hh Hs. pose proof Hs as [_ _ Hf _ [Hc1 [_ Hc2]%Forall_cons]%Forall_app].
  apply (state_ok g g' s _ fs); [done..|]. split; cbn [srv_state srv_fills srv_clients]; [apply Hs..| |].
  - replace (closers _) with (closers (cs1 ++ Command h :: cs2)); [apply Hs|]. by rewrite !closers_app, !closers_cons.
  - apply Forall_app. split; [done|]. by apply Forall_cons.
Qed.

Lemma run_fill_inv g f s : ids_left s -> J g s -> J g (run_fill f s).
Proof.
  intros Ha Hs. destruct (fill_caches_verified f s) as [-> |(body & _ & <- & ->)]; [done|].
  apply si_store_blob; [done|apply si_hashed|done].
Qed.

(** A step that is not an operation of a command. *)
Inductive command_operation : Server -> Server -> Prop :=
  | command_op X (op : State -> State * X) k s fs cs1 cs2 :
      command_operation (mkServer s fs (cs1 ++ Command (Atomic op k) :: cs2))
        (mkServer (op s).1 fs (cs1 ++ Command (k (op s).2) :: cs2)).

Lemma other_step_ok g x y :
  (forall io authed args, C (execute_steps io authed args)) ->
  ids_left (srv_state x) -> polite y -> server_ok g x -> serve_step x y -> server_ok g y \/ command_operation x y.
Proof.
  intros HC0 Ha Hp Hx Hxy. destruct Hxy; [left..|right|left|left|left|left].
  - by apply request_ok.
  - by apply operation_ok.
  - eapply leave_ok; [|exact Hx]. pose proof (answered_ok _ _ _ _ _ _ _ _ Hx) as [Hl _]. exact Hl.
  - eapply leave_ok; [|exact Hx]. cbn [client_closes]. congruence.
  - destruct Hx as [Hj Hm Hf Hu [Hc1 Hc2]%Forall_app]. split; cbn [srv_state srv_fills srv_clients] in *; [done..| |].
    + replace (closers _) with (closers (cs1 ++ cs2)); [done|]. rewrite !closers_app, closers_cons. set_solver.
    + apply Forall_app. split; [done|]. apply Forall_cons. split; [|done]. apply HC0.
  - constructor.
  - eapply leave_ok; [|exact Hx]. done.
  - pose proof Hx as [Hj Hm Hf _ _]. cbn [srv_state srv_fills] in *. apply Forall_app in Hf as [Hf1 [Hf Hf2]%Forall_cons].
    apply (state_ok g g s _ (fs1 ++ f :: fs2)); [by apply run_fill_inv|by apply run_fill_media|by apply Forall_app_2| |done].
    intros u. apply run_fill_kept.
  - pose proof Hx as [Hj Hm Hf _ _]. cbn [srv_state srv_fills] in *.
    apply (state_ok g g s _ fs); [by apply ti_unlink|by apply (media_ok_same s)|done|intros u; by apply kept_same|done].
  - pose proof Hx as [Hj Hm Hf _ _]. cbn [srv_state srv_fills] in *.
    apply (state_ok g g s _ fs); [by apply ti_tick|by apply (media_ok_same s)|done|intros u; by apply kept_same|done].
Qed.
End invariant.

(** ** Commands as quiet steps *)
Section quiet.
Context {SHA : Sha256} {CT : ConstantTimeEq} {ITER : MapIter} {HC : HttpCodecs}.
Context {Gh : Type} (J : Gh -> State -> Prop) (U : Upload -> Prop) (content : Digest -> bytes -> Prop).
Implicit Types (s : State) (fs : list Fill).

(** A step of a redis client. *)
Definition quiet s s' : Prop :=
  forall g, ids_left s -> J g s -> media_ok s -> J g s' /\ media_ok s' /\ forall u, kept U s s' u.

Lemma redis_only_quiet s s' :
  redis_only s s' -> (forall g, ids_left s -> J g s -> J g s') -> quiet s s'.
Proof.
  intros [] Hj g Ha Hs Hm. split_and!; [auto|by apply (media_ok_same s)|intros u; by apply kept_same].
Qed.

Context `{!StateInv ids_left J U content} `{!RedisInv ids_left J}.

Lemma quiet_ops : redis_ops quiet.
Proof using All.
  split; intros; apply redis_only_quiet; auto using insert_redis_only, remove_redis_only, touch_redis_only;
    try done; intros; first [by apply si_metric|by apply ri_touch|by apply ri_insert|by apply ri_remove].
Qed.

Lemma quiet_flush `{!FlushInv J} : flush_ops quiet.
Proof using All.
  split; intros; apply redis_only_quiet; try done; intros; first [by apply fi_entries|by apply fi_store].
Qed.
End quiet.

(** The invariant with commands in flight that take quiet steps. *)
Abbreviation serving_ok J U good := (server_ok J U good (C := every_op (quiet J U))).

(** Every step of the server keeps the invariant. *)
Section served.
Context {SHA : Sha256} {CT : ConstantTimeEq} {ITER : MapIter} {HC : HttpCodecs}.
Context {Gh : Type} (J : Gh -> State -> Prop) (U : Upload -> Prop) (content : Digest -> bytes -> Prop).
Context `{!StateInv ids_left J U content} `{!RedisInv ids_left J} `{!FlushInv J} `{!TaskInv J}.
Context (good : Request -> Response -> Prop).
Context (handler_good : forall closing io net u req, closing = closes req ->
  keeps ids_left J U closing (handle_request_inner io net u req) (good req)).

Lemma serve_step_ok g x y :
  ids_left (srv_state x) -> polite y -> serving_ok J U good g x -> serve_step x y -> serving_ok J U good g y.
Proof using All.
  intros Ha Hp Hx Hxy.
  destruct (other_step_ok J U content good handler_good (C := every_op (quiet J U)) g x y) as [?|Hop]; [|done..|done|].
  { intros io authed args. apply execute_steps_every; [by eapply quiet_ops|by eapply quiet_flush]. }
  destruct Hop as [X op k s fs cs1 cs2]. pose proof Hx as [Hj Hm _ _ [_ [[Hop Hk] _]%Forall_cons]%Forall_app].
  cbn [srv_state srv_fills] in *. destruct (Hop s g Ha Hj Hm) as (Hj' & Hm' & Hu).
  by apply (command_changed J U content good handler_good g g (Atomic op k) _ s).
Qed.
End served.
