(* ===== verification/RedisHistory.v ===== *)
(** * The key-value store over a history

    From the start of a process, commands, eviction passes, pending unlinks,
    clock ticks and stored blobs happen in any order, each at a stroke. What the
    clients are told is what a map, from which eviction passes may drop keys,
    would tell them. *)
From S2P Require Import Prelude Prog Digest Env Config State Disk Text Redis RedisSteps.
From S2P Require Import RedisSpec.
From S2P Require Import Eviction EvictionFrame EvictionMaps EvictionRefs EvictionSteps.
From S2P Require Import EvictionDisk EvictionResult Http Docker DockerContent.
From S2P Require Import Server.

(** ** Eviction as seen by the clients *)
Section redis_eviction.
Context {SHA : Sha256} {CT : ConstantTimeEq} {ITER : MapIter} {LAYOUT : BytesLayout}
        {JSON : SerdeJson} {HEAP : BinaryHeap}.

(** An eviction pass, whether it succeeds or stops at a failed write, only
    forgets keys: what is left of the store is a part of what was there, and
    every value that is left reads back unchanged. *)
Lemma evict_refines io s s' ok m :
  refines s m -> evict io s = Some (s', ok) -> exists m', m' ⊆ m /\ refines s' m'.
Proof.
  intros [Hi Hv Hd] He. destruct (evict_content io s s' ok Hi He) as [Hi' Ho].
  assert (Hsub : forall k e, redis_entries s' !! k = Some e ->
    is_Some (redis_entries s !! k) /\ stored s' (ORedis k) = m !! k).
  { intros k e Hk. destruct (Ho (ORedis k) (RedisEntry.id e)) as [Hid Hst].
    - cbn. by rewrite Hk.
    - split; [|by rewrite Hst]. cbn in Hid. destruct (redis_entries s !! k); [by eexists|done]. }
  exists (filter (fun kv => is_Some (redis_entries s' !! kv.1)) m). split; [apply map_filter_subseteq|].
  split; [done|..].
  - intros k. destruct (redis_entries s' !! k) as [e|] eqn:Ek.
    + destruct (Hsub k e Ek) as [_ ->]. symmetry. destruct (m !! k) as [v|] eqn:Em.
      * apply map_lookup_filter_Some. split; [done|]. simpl. rewrite Ek. by eexists.
      * apply map_lookup_filter_None. by left.
    + cbn [stored]. rewrite Ek. symmetry. apply map_lookup_filter_None. right. simpl.
      intros v _ [e He']. congruence.
  - intros k. split.
    + intros [e Hk]. destruct (Hsub k e Hk) as [[v Hm]%Hd _]. exists v.
      apply map_lookup_filter_Some. split; [done|]. simpl. rewrite Hk. by eexists.
    + intros [v [_ Hk]%map_lookup_filter_Some]. exact Hk.
Qed.
End redis_eviction.

(** ** Runs *)

(** What a client or the server may notice of a step. *)
Inductive event : Type :=
  | Ran (authed : bool) (args : list bytes) (reply : bytes) (next : option bool)
  | Passed
  | Silent.

(** A run, with what happened in it. *)
Inductive trace {S : Type} (R : S -> event -> S -> Prop) : S -> list event -> S -> Prop :=
  | trace_nil x : trace R x [] x
  | trace_cons x e y es z : R x e y -> trace R y es z -> trace R x (e :: es) z.

Lemma trace_simulation {S T} (R : S -> event -> S -> Prop) (Q : T -> event -> T -> Prop) (sim : S -> T -> Prop) :
  (forall x e y a, R x e y -> sim x a -> exists b, Q a e b /\ sim y b) ->
  forall x es z, trace R x es z -> forall a, sim x a -> exists b, trace Q a es b /\ sim z b.
Proof.
  intros Hstep x es z Ht. induction Ht as [x|x e y es z Hxy _ IH]; intros a Ha.
  - exists a. split; [constructor|done].
  - destruct (Hstep x e y a Hxy Ha) as (b & Hab & Hb). destruct (IH b Hb) as (c & Hbc & Hc).
    exists c. split; [by econstructor|done].
Qed.

(** ** The map *)
Inductive spec_step `{!ConstantTimeEq} (password : option bytes) : Store -> event -> Store -> Prop :=
  | spec_ran authed args m m' reply next :
      spec_execute password authed args m = (m', reply, next) ->
      spec_step password m (Ran authed args reply next) m'
  | spec_passed m m' : m' ⊆ m -> spec_step password m Passed m'
  | spec_silent m : spec_step password m Silent m.

(** ** The server *)
Section history.
Context {SHA : Sha256} {CT : ConstantTimeEq} {ITER : MapIter} {LAYOUT : BytesLayout}
        {JSON : SerdeJson} {HEAP : BinaryHeap}.
Implicit Types (s : State) (m : Store).

(** Ids are left, and files that are there can be read, when a command runs. *)
Inductive history_step : State -> event -> State -> Prop :=
  | history_ran io authed args s s' reply next :
      args <> [] -> (next_id s + 1 < U64)%N -> (forall p, io_read io p = true) ->
      execute io authed args s = (s', reply, next) ->
      history_step s (Ran authed args reply next) s'
  | history_passed io s s' ok : evict io s = Some (s', ok) -> history_step s Passed s'
  | history_unlinked io p ps1 ps2 s :
      spawned s = ps1 ++ p :: ps2 -> history_step s Silent (run_unlink io p (ps1 ++ ps2) s)
  | history_ticked t s : history_step s Silent (time_update t s)
  | history_stored d content mt s :
      (next_id s + 1 < U64)%N -> history_step s Silent (store_blob d content mt s).

Lemma execute_config io authed args s : config (execute io authed args s).1.1 = config s.
Proof.
  assert (Ho : redis_ops redis_only) by (split; intros;
    first [done|apply touch_redis_only|apply insert_redis_only|apply remove_redis_only]).
  assert (Hf : flush_ops redis_only) by done.
  pose proof (every_op_run redis_only (execute_steps io authed args) s _ (execute_steps_every _ io authed args Ho Hf)) as [Hc _ _ _ _ _].
  rewrite execute_run in Hc. by destruct (execute io authed args s) as [[s' r] o].
Qed.

Lemma evict_config io s s' ok : evict io s = Some (s', ok) -> config s' = config s.
Proof.
  unfold evict. destruct (evict_loop io _ _) as [r|] eqn:El; [|done].
  apply evict_loop_env in El as [Hc _ _ _ _ _]. rewrite scan_ps in Hc.
  destruct r as [p|p]; intros [= <- <-]; cbn [outcome] in Hc; [|done].
  change (config (publish (sweep io p))) with (config (ps (sweep io p))).
  destruct (sweep_removed io p) as (_ & _ & _ & _ & _ & _ & [Hs _ _ _ _ _]). by rewrite Hs.
Qed.

(** The state agrees with a map, and the password is the one of the start. *)
Definition agrees (password : option bytes) s m : Prop := refines s m /\ redis_password (config s) = password.

Lemma history_step_refines password s e s' m :
  history_step s e s' -> agrees password s m -> exists m', spec_step password m e m' /\ agrees password s' m'.
Proof.
  intros Hs [Hm <-]. destruct Hs as [io authed args s s' reply next Hne Hn Hio He|io s s' ok He|io p ps1 ps2 s Hp|t s|d c mt s Hn].
  - pose proof (execute_simulates io authed args s m Hm Hne Hn Hio) as H. rewrite He in H.
    destruct (spec_execute _ authed args m) as [[m' r'] o'] eqn:E. destruct H as (H & -> & ->).
    exists m'. split; [by constructor|]. split; [done|]. pose proof (execute_config io authed args s) as Hc.
    rewrite He in Hc. cbn [fst] in Hc. by rewrite Hc.
  - destruct (evict_refines io s s' ok m Hm He) as (m' & Hsub & H). exists m'. split; [by constructor|].
    split; [done|]. by rewrite (evict_config io s s' ok He).
  - exists m. split; [constructor|]. split; [|done]. apply run_unlink_refines; [done|rewrite Hp..].
    + apply elem_of_app. right. by left.
    + intros q. rewrite !elem_of_app, elem_of_cons. tauto.
  - exists m. split; [constructor|]. split; [by apply refines_time|done].
  - exists m. split; [constructor|]. pose proof Hm as [Hi Hv Hd]. split; [split|].
    + by apply store_blob_ids.
    + intros k. rewrite store_blob_stored, decide_False by done. apply Hv.
    + intros k. unfold store_blob. cbn [take_id]. rewrite (proj1 (proj2 (insert_blob_fields d _ _))). apply Hd.
    + unfold store_blob. cbn [take_id]. by destruct (insert_blob_fields d (Blob.InMemory (next_id s) c mt (now s)) (set_next_id (u64_add (next_id s) 1) s)) as (_ & _ & _ & -> & _).
Qed.

(** C11: from the start of a process, whatever is run between the commands - eviction
    passes, also failing ones, pending unlinks of the files of replaced, deleted
    and evicted entries, clock ticks, stored blobs - every command replies what
    the specification says on a map from which only eviction passes drop keys,
    and the map that is left is the one the specification ends with. *)
Theorem history_refines cfg t d es s :
  trace history_step (State_new cfg t d) es s ->
  exists m, trace (spec_step (redis_password cfg)) ∅ es m /\ refines s m.
Proof.
  intros Ht. destruct (trace_simulation history_step (spec_step (redis_password cfg)) (agrees (redis_password cfg)))
    with (2 := Ht) (a := (∅ : Store)) as (m & Hm & Hr & _).
  - intros x e y a. apply history_step_refines.
  - split; [|done]. apply refines_empty; [apply State_new_ids|done].
  - by exists m.
Qed.
End history.
