(* ===== verification/DockerVerified.v ===== *)
(** * The Docker registry: what is served has the digest that was asked for

    [registry_ok] as a [StateInv], so that every handler keeps it under
    interference, and what a [GET] of a blob is answered with. *)
From S2P Require Import Prelude Prog Digest Env Config State Disk Claimed Eviction EvictionDisk.
From S2P Require Import Text.
From S2P Require Import Redis RedisSteps Http.
From S2P Require Import DockerUpstream Docker DockerServe DockerLogic DockerAuth DockerContent.
From S2P Require Import DockerObjects.
From S2P Require Import DockerMedia DockerSafe DockerAnswers DockerRoutes Server.

Section verified.
Context {SHA : Sha256} {CT : ConstantTimeEq} {ITER : MapIter} {HC : HttpCodecs}.
Implicit Types (s : State) (w : World).

Definition has_digest (d : Digest) (b : bytes) : Prop := sha256_digest b = d.

(** What other tasks hold meanwhile is left alone. *)
Definition kept_state (g : list Claim) s : Prop := registry_ok s /\ holds g s.

Lemma kept_leaves g s s' : kept_state g s -> leaves s s' -> registry_ok s' -> kept_state g s'.
Proof. intros [Hs Hg] Hl Hs'. split; [done|]. by apply (leaves_holds g s); [apply Hs|..]. Qed.

Lemma kept_state_same g s s' :
  kept_state g s -> config s' = config s -> next_id s' = next_id s -> spawned s' = spawned s ->
  blobs s' = blobs s -> redis_entries s' = redis_entries s -> disk s' = disk s -> kept_state g s'.
Proof. intros Hs ??????. apply (kept_leaves g s); [done|by apply leaves_same|]. eapply registry_ok_same; [apply Hs|done..]. Qed.

Lemma touch_blob_leaves d b s : blobs s !! d = Some b -> leaves s (touch_blob d b s).
Proof.
  intros Hd. apply leaves_same_spawned; [done..| |]; intros [d'|k]; try done; cbn [owner_id on_disk_size];
    unfold touch_blob; state_simpl; (destruct (decide (d' = d)) as [->|Hne]; [|by rewrite lookup_insert_ne]);
    rewrite lookup_insert_eq, Hd; by destruct b.
Qed.

#[export] Instance registry_inv : StateInv ids_left kept_state upload_ok has_digest.
Proof.
  split; try (intros; by eapply kept_state_same).
  - intros g d b s Hb Hs. apply (kept_leaves g s); [done|by apply touch_blob_leaves|]. apply registry_ok_touch; [apply Hs|done].
  - intros g d b mt s Ha Hd Hs. apply (kept_leaves g s); [done|by apply insert_fresh_leaves|].
    by apply registry_ok_store; [apply Hs|..].
  - apply hashed_new.
  - intros b up. apply append_chunk_ok.
  - intros d b up Hup. pose proof (finish_upload_spec d b up Hup) as H.
    destruct (finish_upload d b up) as [up' [buf|got]]; [by destruct H|by destruct H as (_ & H & _)].
  - done.
Qed.

(** ** Redis commands *)
Definition keeps_ids s s' : Prop := ids_ok s -> ids_ok s'.

Lemma redis_only_ok s s' : redis_only s s' -> keeps_ids s s' -> registry_ok s -> registry_ok s'.
Proof.
  intros [Hc Hb _ _ _ Hd] Hids [Hi Ha Hf].
  assert (Hst : forall d, stored s' (OBlob d) = stored s (OBlob d)).
  { intros d. cbn [stored]. rewrite Hb. destruct (blobs s !! d) as [[]|]; [|done..].
    by rewrite Hd, (cache_path_config s' s). }
  split; [by apply Hids| |].
  - intros d c. rewrite Hst. apply Ha.
  - intros d id n mt la. rewrite Hb, Hd, (cache_path_config s' s) by done. apply Hf.
Qed.

Lemma touch_redis_ids k id t s : keeps_ids s (touch_redis k id t s).
Proof.
  intros Hi. unfold touch_redis. destruct (redis_entries s !! k) as [[v i la|]|] eqn:Ek; [|done..].
  case_decide as E; [subst i|done]. apply (ids_ok_delete s); [done..| |by left].
  intros [d|k'] i; [done|]. cbn [owner_id]. state_simpl.
  destruct (decide (k' = k)) as [->|Hne]; [by rewrite lookup_insert_eq, Ek|by rewrite lookup_insert_ne].
Qed.

Lemma run_unlink_ok io p rest s :
  registry_ok s -> p ∈ spawned s -> (forall q, q ∈ rest -> q ∈ spawned s) -> registry_ok (run_unlink io p rest s).
Proof.
  intros [Hi Ha Hf] Hp Hr.
  assert (Hst : forall o, stored (run_unlink io p rest s) o = stored s o) by (intros; by apply run_unlink_stored).
  split; [by apply run_unlink_ids| |].
  - intros d c. rewrite Hst. apply Ha.
  - by apply (blob_files_ok_ext s).
Qed.

Lemma redis_kept g s s' :
  redis_only s s' -> keeps_ids s s' -> leaves s s' -> kept_state g s -> kept_state g s'.
Proof. intros Ho Hi Hl Hs. apply (kept_leaves g s); [done..|]. eapply redis_only_ok; [done..|apply Hs]. Qed.

Lemma touch_redis_leaves k i t s : leaves s (touch_redis k i t s).
Proof.
  unfold touch_redis. destruct (redis_entries s !! k) as [[v i' la|]|] eqn:Ek; [|by apply leaves_same..].
  case_decide; [|by apply leaves_same]. apply leaves_same_spawned; [done..| |]; intros [d|k']; try done;
    cbn [owner_id on_disk_size]; state_simpl; (destruct (decide (k' = k)) as [->|Hne]; [|by rewrite lookup_insert_ne]);
    rewrite lookup_insert_eq, Ek; by subst.
Qed.

#[export] Instance registry_redis_inv : RedisInv ids_left kept_state.
Proof.
  split.
  - intros g k id t s. apply redis_kept; [apply touch_redis_only|apply touch_redis_ids|apply touch_redis_leaves].
  - intros g k v s Ha. apply redis_kept; [apply insert_redis_only|intros Hi; by apply insert_redis_ids|].
    by apply insert_redis_leaves.
  - intros g k s. apply redis_kept; [apply remove_redis_only|intros Hi; by apply remove_redis_ids|].
    apply remove_redis_leaves.
Qed.

#[export] Instance registry_task_inv : TaskInv kept_state.
Proof.
  split; [|intros g t s Hs; by apply (kept_state_same g s)].
  intros g io p ps1 ps2 s Hsp [Hs Hg]. split.
  - apply run_unlink_ok; [done|rewrite Hsp..].
    + apply elem_of_app. right. by left.
    + intros q. rewrite !elem_of_app. intros [?|?]; [by left|right]. by right.
  - eapply Forall_impl; [exact Hg|]. intros c. apply run_unlink_claimed; [apply Hs|done].
Qed.

#[export] Instance registry_flush_inv : FlushInv kept_state.
Proof.
  split; [|intros; by eapply kept_state_same].
  intros g s. apply redis_kept; [done|intros Hi; by apply flush_entries_ids|]. apply flush_entries_leaves.
Qed.

(** A [GET] of a blob of the [self] registry. *)
Definition gets_blob (req : Request) (d : Digest) : Prop :=
  req_method req = Method.GET /\
  exists name, parse_route (req_path req) = Ok ($"self", name, $"blobs", digest_to_string d).

(** A complete body has the digest; a stream that breaks off has delivered a
    part of such a body. *)
Definition body_has (d : Digest) (resp : Response) : Prop :=
  resp_status resp = 200%N ->
  exists content, sha256_digest content = d /\
    match resp_body resp with
    | Full body => body = content
    | Streaming frames => collect frames = Some content \/
        (collect frames = None /\ received frames `prefix_of` content)
    end.

Definition verified (req : Request) (resp : Response) : Prop :=
  forall d, gets_blob req d -> body_has d resp.

#[local] Abbreviation keeps_registry c := (keeps ids_left kept_state upload_ok c).

Lemma serve_disk_blob_verified io d id size mt w :
  header_value_ok mt = true ->
  (forall c, disk (w_state w) !! cache_path (w_state w) id = Some c -> sha256_digest c = d) ->
  wp (serve_disk_blob io d id size mt false) w (fun w' r => w' = w /\ exists resp, r = Ok resp /\ body_has d resp).
Proof.
  intros Hmt Hd. pose proof (blob_headers_ok mt d (dec size) Hmt (text_ok _ (visible_dec size))) as Hh.
  unfold serve_disk_blob, build_expect. cbv iota. wp_step. wp_step. unfold fs_stream.
  destruct (disk _ !! _) as [c|] eqn:Ec; [destruct (io_open io _)|].
  - rewrite build_ok by done. wp_step. split; [by destruct w|]. eexists. split; [done|]. intros _. exists c.
    split; [auto|]. cbn [resp_body]. destruct (io_read io _); cbn [negb].
    + left. apply stream_frames_collect.
    + right. apply stream_frames_broken.
  - wp_step. split; [by destruct w|]. by eexists.
  - wp_step. split; [by destruct w|]. by eexists.
Qed.

Lemma cached_blob_verified closing io d :
  keeps_registry closing (cached_blob io d false) (fun r => forall resp, r = Some resp -> body_has d resp).
Proof.
  apply keeps_guarded. intros g w Hj Hm. wp_step. wp_step. destruct (blobs _ !! d) as [b|] eqn:Eb.
  2:{ wp_step. split_and!; [done..|intros u; by apply kept_same|done|by intros a [= <-]]. }
  pose proof (mo_blobs _ Hm _ _ Eb) as Hmt. wp_step. wp_step. wp_step.
  set (s1 := touch_blob d b (w_state w)).
  assert (Hj1 : kept_state g s1) by (apply (si_touch_blob (avail := ids_left)); done).
  assert (Hm1 : media_ok s1) by by apply touch_blob_media.
  pose proof (ro_blobs _ (proj1 Hj) d) as Had. cbn [stored] in Had. rewrite Eb in Had.
  destruct b as [id n mt la|id c mt la]; simpl in Hmt; wp_step; wp_step.
  - eapply wp_mono; [apply serve_disk_blob_verified; [done|exact Had]|]. intros w' r (-> & resp & -> & Hresp). wp_step.
    split_and!; [by eapply kept_state_same|by apply (media_ok_same s1)|done|intros u; by apply kept_same|done|].
    by intros _ [= <-] _ [= <-].
  - unfold serve_blob_bytes, build_expect.
    rewrite build_ok by (apply blob_headers_ok; [done|apply text_ok, visible_dec]). wp_step. cbn [ok_or]. wp_step.
    split_and!; [by eapply kept_state_same|by apply (media_ok_same s1)|done|intros u; by apply kept_same|done|].
    intros _ [= <-] _ [= <-] _. exists c. split; [by apply Had|done].
Qed.

(** Every answer is verified, and no handler panics. *)
Lemma handler_verified closing io net u req :
  closing = closes req -> keeps_registry closing (handle_request_inner io net u req) (verified req).
Proof.
  intros Hc. destruct (decide (req_method req = Method.GET)) as [Hm|Hm].
  2:{ eapply keeps_mono; [by apply (handle_request_inner_keeps _ _ _ has_digest)|]. intros resp _ d [? _]. done. }
  destruct (parse_route (req_path req)) as [[[[host name] tag] tl]|e] eqn:Hr.
  2:{ eapply keeps_mono; [by apply (handle_request_inner_keeps _ _ _ has_digest)|]. intros resp _ d [_ [nm E]]. congruence. }
  destruct (decide (host = $"self" /\ tag = $"blobs")) as [[-> ->]|Hne].
  2:{ eapply keeps_mono; [by apply (handle_request_inner_keeps _ _ _ has_digest)|]. intros resp _ d [_ [nm E]]. destruct Hne. split; congruence. }
  unfold handle_request_inner. eapply keeps_bind; [apply (check_auth_keeps _ _ _ has_digest)|intros _ _]. cbv zeta.
  destruct (_ || _) eqn:Hp.
  { exfalso. apply orb_true_iff in Hp as [E%bool_decide_eq_true_1|E%bool_decide_eq_true_1];
      rewrite E in Hr; vm_compute in Hr; done. }
  rewrite Hr. eapply (keeps_bind _ _ _ _ _ _ (fun r => r = ($"self", name, $"blobs", tl)));
    [by apply keeps_lift; [|intros a [= <-]]|]. intros _ ->. cbn beta iota.
  eapply keeps_bind; [apply keeps_get|]. intros s _. rewrite alias_self, Hm.
  rewrite (decide_False (P := $"blobs" = $"manifests")), (decide_False (P := $"blobs" = $"uploads")), decide_True by done.
  unfold counted. eapply keeps_bind; [apply (keeps_metric _ _ _ has_digest)|intros _ _].
  unfold get_head_blob. destruct (digest_from_str tl) as [d|] eqn:Ed.
  2:{ apply keeps_ret. intros d [_ [nm E]]. rewrite Hr in E. injection E as _ E. by rewrite E, digest_from_to_string in Ed. }
  eapply keeps_bind; [apply cached_blob_verified|intros [resp|] Hresp].
  - apply keeps_ret. intros d' [_ [nm E]]. rewrite Hr in E. injection E as _ E.
    rewrite E, digest_from_to_string in Ed. injection Ed as <-. by apply Hresp.
  - rewrite decide_True by done. by apply keeps_throw.
Qed.
End verified.
