(* ===== verification/Tasks.v ===== *)
(** * Background tasks next to their clients

    An eviction pass, or the snapshot at shutdown, is a program of atomic
    operations that holds claims ([Claimed]); clients respect them. [task_ok g
    m Q]: begun with the claims [g], every operation of [m] keeps the registry
    sound and leaves the uploads alone, whatever its clients did since the
    last, and [m] ends with claims and a result that satisfy [Q]. *)
From S2P Require Import Prelude Prog Digest Env Config State Disk Claimed Eviction EvictionFrame.
From S2P Require Import EvictionDisk Text Redis RedisSteps Http DockerUpstream Docker.
From S2P Require Import DockerServe.
From S2P Require Import DockerContent DockerObjects DockerMedia DockerSafe Server DockerVerified.

Section tasks.
Context {SHA : Sha256} {CT : ConstantTimeEq} {ITER : MapIter} {HC : HttpCodecs} {F : Type}.
Implicit Types (s : State) (g : list Claim).

(** What a task relies on, with the claims [g]. *)
Definition sound g s : Prop := kept_state g s /\ media_ok s.

Lemma sound_ids g s : sound g s -> ids_ok s.
Proof. intros [[[Hi _ _] _] _]. exact Hi. Qed.

Lemma sound_weaken g g' s : g' ⊆ g -> sound g s -> sound g' s.
Proof.
  intros Hg [[Hs Hh] Hm]. split; [split; [done|]|done]. unfold holds in *. rewrite Forall_forall in Hh. apply Forall_forall. intros c Hc.
  by apply Hh, Hg.
Qed.

Lemma sound_nil g s : sound g s -> sound [] s.
Proof. apply sound_weaken, list_subseteq_nil. Qed.

Lemma sound_cons c g s : sound (c :: g) s <-> claimed c s /\ sound g s.
Proof. unfold sound, kept_state, holds. rewrite Forall_cons. tauto. Qed.

Lemma sound_claimed c g s : sound g s -> c ∈ g -> claimed c s.
Proof. intros [[_ Hg] _] Hc. unfold holds in Hg. rewrite Forall_forall in Hg. by apply Hg. Qed.

Lemma sound_same g s s' :
  sound g s -> config s' = config s -> next_id s' = next_id s -> spawned s' = spawned s ->
  blobs s' = blobs s -> redis_entries s' = redis_entries s -> disk s' = disk s -> manifests s' = manifests s ->
  sound g s'.
Proof. intros [Hs Hm] ???????. split; [by eapply kept_state_same|by apply (media_ok_same s)]. Qed.

(** ** Rely and guarantee *)
Definition task_guar s s' : Prop := uploads s' = uploads s /\ dropped_uploads s' = dropped_uploads s.
Definition task_rely s s' : Prop := forall g, sound g s -> sound g s'.

#[export] Instance task_rely_preorder : PreOrder task_rely.
Proof. split; [by intros s g|]. intros s1 s2 s3 H1 H2 g Hg. by apply H2, H1. Qed.

Lemma same_env_guar s s' : same_env s s' -> task_guar s s'.
Proof. by intros []. Qed.

Definition task_safe {A} (m : prog State F A) (Q : list Claim -> result F A -> Prop) s : Prop :=
  safe (fun (_ : unit) => sound []) (fun _ => True) task_guar task_rely m
    (fun r s' => exists g', sound g' s' /\ Q g' r) s.
Definition task_ok {A} g (m : prog State F A) Q : Prop := forall s, sound g s -> task_safe m Q s.

Lemma task_safe_stable {A} (m : prog State F A) Q : stable task_rely (task_safe m Q).
Proof. apply safe_stable; [apply _|]. intros r s s' Hr (g' & Hs & HQ). exists g'. split; [by apply Hr|done]. Qed.

(** ** Rules *)
Lemma task_done {A} g (r : result F A) (Q : list Claim -> _ -> Prop) : Q g r -> task_ok g (Done r) Q.
Proof. intros HQ s Hs. by exists g. Qed.

(** Forgetting every claim. *)
Lemma task_end {A} g (r : result F A) : task_ok g (Done r) (fun g' _ => g' = []).
Proof. intros s Hs. exists []. split; [by eapply sound_nil|done]. Qed.

Lemma task_weaken {A} g g' (m : prog State F A) Q : g' ⊆ g -> task_ok g' m Q -> task_ok g m Q.
Proof. intros Hg Hm s Hs. by eapply Hm, sound_weaken. Qed.

Lemma task_bind {A B} g (m : prog State F A) (f : A -> prog State F B) Q R :
  task_ok g m Q -> (forall g' e, Q g' (Err e) -> R g' (Err e)) -> (forall g' a, Q g' (Ok a) -> task_ok g' (f a) R) ->
  task_ok g (m ≫= f) R.
Proof.
  intros Hm He Hf s Hs. apply safe_then. eapply safe_mono; [by apply Hm|]. intros [a|e] s' (g' & Hs' & HQ).
  - by eapply Hf.
  - exists g'. auto.
Qed.

(** One operation; it may change what the task holds. *)
Lemma task_atomic {X A} g (op : State -> State * X) (k : X -> prog State F A) Q :
  (forall s, sound g s -> exists g',
     sound g' (op s).1 /\ task_guar s (op s).1 /\ task_ok g' (k (op s).2) Q) ->
  task_ok g (atomically op ≫= k) Q.
Proof.
  intros Hop s Hs _ s' Hr _ _. destruct (Hop s' (Hr g Hs)) as (g' & H1 & H2 & H3).
  split_and!; [by eapply sound_nil|done|by apply H3].
Qed.

Lemma task_asks {X A} g (f : State -> X) (k : X -> prog State F A) Q :
  (forall s, sound g s -> exists g', sound g' s /\ task_ok g' (k (f s)) Q) -> task_ok g (asks f ≫= k) Q.
Proof. intros Hf. apply task_atomic. intros s Hs. destruct (Hf s Hs) as (g' & H1 & H2). by exists g'. Qed.

Lemma task_reads {X A} g (f : State -> X) (k : X -> prog State F A) Q :
  (forall x, task_ok g (k x) Q) -> task_ok g (asks f ≫= k) Q.
Proof. intros Hk. apply task_asks. intros s Hs. by exists g. Qed.

Lemma task_does {A} g g' f (k : unit -> prog State F A) Q :
  (forall s, sound g s -> sound g' (f s)) -> (forall s, task_guar s (f s)) -> task_ok g' (k tt) Q ->
  task_ok g (does f ≫= k) Q.
Proof. intros Hf Hg Hk. apply task_atomic. intros s Hs. exists g'. split_and!; [by apply Hf|apply Hg|exact Hk]. Qed.

Lemma task_metric {A} g m n (k : unit -> prog State F A) Q :
  task_ok g (k tt) Q -> task_ok g (does (metric_add m n) ≫= k) Q.
Proof. apply task_does; [|done]. intros s Hs. by apply (sound_same g s). Qed.

(** ** Claims of an id *)

(** The id of an in-memory owner may be taken in hand; every id may be named. *)
Lemma claim_name o i s : ids_ok s -> owner_id s o = Some i -> claimed (Named o i) s.
Proof.
  intros Hi Ho. split; [|by apply (id_lt _ Hi o)]. intros o' Ho'. by rewrite (id_inj _ Hi _ _ _ Ho' Ho).
Qed.

Lemma owner_filed o i s f :
  ids_ok s -> owner_id s o = Some i -> (forall b, f = Some b -> disk s !! cache_path s i = Some b) -> filed i f s.
Proof.
  intros Hi Ho Hf. split; [|done]. intros Hp. destruct (id_dead _ Hi _ Hp) as (j & He & Hj & Hno).
  pose proof (id_lt _ Hi _ _ Ho). pose proof (id_max _ Hi). apply cache_path_inj in He; [|lia..]. subst j. by eapply Hno.
Qed.

Lemma claim_owner o i s :
  ids_ok s -> owner_id s o = Some i -> on_disk_size s o = None -> claimed (Held (Some o) i None) s.
Proof.
  intros Hi Ho Hd. split; [|by eapply owner_filed]. destruct (claim_name o i s Hi Ho) as [H1 H2]. split; [|done].
  intros o' Ho'. destruct (H1 o' Ho') as [[= ->] _]. done.
Qed.

Lemma claim_blob g r id c mt la s :
  sound g s -> blobs s !! r = Some (Blob.InMemory id c mt la) ->
  claimed (Held (Some (OBlob r)) id None) s /\ sha256_digest c = r /\ header_value_ok mt = true.
Proof.
  intros [[Hs _] Hm] Hr. split_and!; [|apply (ro_blobs _ Hs); by cbn; rewrite Hr|apply (mo_blobs _ Hm _ _ Hr)].
  apply claim_owner; [apply Hs|by cbn; rewrite Hr..].
Qed.

Lemma claim_redis g k v id la s :
  sound g s -> redis_entries s !! k = Some (RedisEntry.InMemory v id la) -> claimed (Held (Some (ORedis k)) id None) s.
Proof. intros [[Hs _] Hm] Hr. apply claim_owner; [apply Hs|by cbn; rewrite Hr..]. Qed.

(** ** Its file *)

(** An id nobody has on disk. *)
Lemma held_path_ne o id f s o' i n :
  ids_ok s -> claimed (Held o id f) s -> on_disk_size s o' = Some (i, n) -> cache_path s i <> cache_path s id.
Proof.
  intros Hi [[H1 H2] _] Ho He. pose proof (on_disk_owner _ _ _ _ Ho) as Hown.
  pose proof (id_lt _ Hi _ _ Hown). pose proof (id_max _ Hi).
  apply cache_path_inj in He; [|lia..]. subst i. destruct (H1 _ Hown) as [_ Hz]. by rewrite Hz in Ho.
Qed.

(** Claims of other files. *)
Definition elsewhere (id : N) (c : Claim) : Prop :=
  match c with Held _ i _ => i <> id | Filed _ i _ => i <> id | Named _ _ => True | Written _ _ => True end.

Lemma elsewhere_claimed c id d' s :
  (id < U64)%N -> ids_ok s -> elsewhere id c -> (forall q, q <> cache_path s id -> d' !! q = disk s !! q) ->
  claimed c s -> claimed c (set_disk d' s).
Proof.
  intros Hid Hi He Hd. pose proof (id_max _ Hi) as Hmax.
  assert (Hf : forall i file, i <> id -> (i < next_id s)%N -> filed i file s -> filed i file (set_disk d' s)).
  { intros i file Hne Hlt [H1 H2]. split; [exact H1|]. intros b Hb. state_simpl.
    change (cache_path (set_disk d' s) i) with (cache_path s i). rewrite Hd; [by apply H2|].
    intros E%cache_path_inj; [done|lia|done]. }
  destruct c as [o i file|d i file|o i|name file]; cbn [claimed elsewhere] in *.
  - intros [Ho Hfi]. split; [by destruct Ho|]. apply Hf; [done|apply Ho|done].
  - intros [Ho Hfi]. split; [by destruct Ho|]. apply Hf; [done|apply Ho|done].
  - by intros [].
  - intros [H1 H2]. split; [exact H1|]. state_simpl. change (data_path (set_disk d' s) name) with (data_path s name).
    by rewrite Hd.
Qed.

(** A change of the file in hand. *)
Lemma sound_disk o id f f' g d' s :
  sound (Held o id f :: g) s -> Forall (elsewhere id) g -> (forall q, q <> cache_path s id -> d' !! q = disk s !! q) ->
  (forall c, f' = Some c -> d' !! cache_path s id = Some c) -> sound (Held o id f' :: g) (set_disk d' s).
Proof.
  intros [Hc [[[Hi Ha Hf] Hh] Hm]]%sound_cons He Hd Hf'. apply sound_cons. pose proof Hc as [[H1 H2] [H3 _]].
  assert (Hst : forall x, stored (set_disk d' s) x = stored s x).
  { apply set_disk_stored. intros x i n Hx. apply Hd. by apply (held_path_ne o id f s x i n). }
  split; [by split; split|]. split; [split; [split|]|by apply (media_ok_same s)].
  - by apply (ids_ok_same s).
  - intros d c. rewrite Hst. apply Ha.
  - by apply (blob_files_ok_ext s).
  - unfold holds in *. rewrite Forall_forall in Hh, He. apply Forall_forall. intros c Hin. pose proof (id_max _ Hi).
    apply (elsewhere_claimed c id); [lia|done|by apply He|done|by apply Hh].
Qed.
End tasks.
