(* ===== verification/EvictionSafe.v ===== *)
(** * An eviction pass next to its clients

    Every operation of a pass keeps the registry sound, whatever ran since its
    last one: the pass holds the ids of the files it works on, and its clients
    leave those alone. *)
From S2P Require Import Prelude Prog Digest Env Config State Disk Claimed Eviction EvictionFrame.
From S2P Require Import EvictionRefs EvictionDisk EvictionSteps Text Redis RedisSteps Http.
From S2P Require Import DockerUpstream Docker DockerServe DockerContent DockerObjects.
From S2P Require Import DockerMedia.
From S2P Require Import DockerSafe Server DockerVerified Tasks.

Section states.
Context {SHA : Sha256} {CT : ConstantTimeEq} {ITER : MapIter} {HC : HttpCodecs}.
Implicit Types (s : State) (g : list Claim).

(** ** Files *)
Lemma write_kept io o id c s :
  sound [Held o id None] s ->
  let '(s', w) := write_blob_to_disk io id c s in
  sound [Held o id (if is_ok w then Some c else None)] s' /\ same_env s s'.
Proof.
  intros Hs. pose proof (write_blob_env io id c s) as He.
  destruct (write_blob_disk io id c s) as (d' & Hd & Ho & Hf). destruct (write_blob_to_disk io id c s) as [s' w].
  cbn [fst snd] in *. subst s'. split; [|done]. eapply sound_disk; [exact Hs|by apply Forall_nil_2|exact Ho|].
  destruct w as [[]|]; [|done]. intros c' [= <-]. by apply Hf.
Qed.

Lemma delete_kept io o id s : sound [Held o id None] s -> sound [] (delete_disk_blob io id s).
Proof.
  intros Hs. eapply sound_nil, (sound_disk o id None None); [exact Hs|by apply Forall_nil_2| |done].
  intros q Hq. unfold fs_remove. case_match; [|done]. case_match; [|done]. by apply lookup_delete_ne.
Qed.

(** ** A spilled entry becomes the owner of its file *)
Lemma assign_ids o id f s s' :
  ids_ok s -> claimed (Held (Some o) id f) s -> config s' = config s -> next_id s' = next_id s ->
  spawned s' = spawned s ->
  (forall o', owner_id s' o' = if decide (o' = o) then Some id else owner_id s o') -> ids_ok s'.
Proof.
  intros Hi [[H1 H2] [H3 _]] Hc Hn Hsp Ho. pose proof (id_max _ Hi) as Hmax. split.
  - intros o' i. rewrite Ho, Hn. case_decide; [by intros [= <-]|apply Hi].
  - assert (Hx : forall o' i, owner_id s o' = Some i -> o' <> o -> i <> id).
    { intros o' i Ho' Hne ->. destruct (H1 _ Ho') as [[= ->] _]. done. }
    intros o1 o2 i. rewrite !Ho. do 2 case_decide; subst; [done| | |apply Hi].
    + intros [= <-] Ho2. by destruct (Hx o2 id Ho2).
    + intros Ho1 [= <-]. by destruct (Hx o1 id Ho1).
  - by rewrite Hn.
  - intros p. rewrite Hsp. intros Hp. destruct (id_dead _ Hi p Hp) as (i & -> & Hlt & Hno). exists i.
    rewrite Hn, (cache_path_config s' s) by done. split_and!; [done|done|].
    intros o'. rewrite Ho. case_decide; [|apply Hno]. by intros [= ->].
Qed.

Lemma spilled_blob_kept r id c mt la s :
  sound [Held (Some (OBlob r)) id (Some c)] s -> sha256_digest c = r -> header_value_ok mt = true ->
  sound [] (insert_blob r (Blob.OnDisk id (blen c) mt la) s).
Proof.
  intros [Hc [[[Hi Ha Hf] _] Hm]]%sound_cons Hr Hmt. set (s' := insert_blob _ _ s).
  destruct (insert_blob_fields r (Blob.OnDisk id (blen c) mt la) s) as (Hb & _ & Hd & Hcf & Hn & Hsp).
  fold s' in Hb, Hd, Hcf, Hn, Hsp. pose proof (fi_file _ _ _ (proj2 Hc) c eq_refl) as Hfile.
  split; [split; [split|apply Forall_nil_2]|].
  - apply (assign_ids (OBlob r) id (Some c) s); [done..|]. intros o'. subst s'. by rewrite insert_blob_owner.
  - intros d c'. subst s'. rewrite insert_blob_stored. case_decide as E; [|apply Ha].
    injection E as ->. rewrite Hfile. by intros [= <-].
  - intros d i n mt' la'. rewrite Hb, Hd, (cache_path_config s' s) by done.
    intros [[<- [= <- <- <- <-]]|[_ Hl]]%lookup_insert_Some; [by exists c|by eapply Hf].
  - by apply (media_ok_blob r (Blob.OnDisk id (blen c) mt la) s); [|apply insert_blob_manifests| |].
Qed.

Lemma spilled_redis_kept k id n la c s :
  sound [Held (Some (ORedis k)) id (Some c)] s -> sound [] (spill_redis_commit k id n la s).
Proof.
  intros [Hc [[[Hi Ha Hf] _] Hm]]%sound_cons. split; [split; [split|apply Forall_nil_2]|].
  - apply (assign_ids (ORedis k) id (Some c) s); [done..|].
    intros [d|k']; cbn [owner_id]; unfold spill_redis_commit; state_simpl; [done|].
    case_decide as E; [injection E as ->; by rewrite lookup_insert_eq|rewrite lookup_insert_ne; congruence].
  - exact Ha.
  - exact Hf.
  - by apply (media_ok_same s).
Qed.

(** ** Removals *)
Definition taken (b : option Blob.t) : list Claim :=
  match b with Some (Blob.OnDisk id _ _ _) => [Held None id None] | _ => [] end.

Lemma take_kept r s :
  sound [] s -> let '(b, s') := remove_blob r s in same_env s s' /\ sound (taken b) s'.
Proof.
  intros [[[Hi Ha Hf] _] Hm]. pose proof (remove_blob_env r s) as He.
  destruct (remove_blob_fields r s) as (Hb & _ & Hd & Hc & Hn & Hsp).
  pose proof (remove_blob_owner r s) as Ho. pose proof (remove_blob_stored r s) as Hst.
  pose proof (remove_blob_ids r s Hi) as Hi'. pose proof (remove_blob_manifests r s) as Hman.
  assert (Hbr : (remove_blob r s).1 = blobs s !! r).
  { unfold remove_blob. destruct (blobs s !! r) as [b|]; [by destruct (blob_bucket b)|done]. }
  destruct (remove_blob r s) as [b s']. cbn [fst snd] in *. subst b. split; [done|].
  assert (Hr : registry_ok s').
  { split; [done| |].
    - intros d c. rewrite Hst. case_decide; [done|apply Ha].
    - intros d i n mt la. rewrite Hb, Hd, (cache_path_config s' s) by done. intros [_ Hl]%lookup_delete_Some. by eapply Hf. }
  split; [split; [done|]|].
  2:{ split; [rewrite Hman; apply Hm|]. intros d b. rewrite Hb. intros [_ Hl]%lookup_delete_Some. by apply (mo_blobs _ Hm d). }
  destruct (blobs s !! r) as [[id n mt la|]|] eqn:Er; [|by apply Forall_nil_2..]. apply Forall_singleton.
  assert (Hid : owner_id s (OBlob r) = Some id) by (cbn; by rewrite Er).
  split; [split|].
  - intros o. rewrite Ho. case_decide; [done|]. intros Hx. by pose proof (id_inj _ Hi _ _ _ Hx Hid).
  - rewrite Hn. by apply (id_lt _ Hi (OBlob r)).
  - destruct (owner_filed (OBlob r) id s None Hi Hid) as [Hp _]; [done|]. split; [|done].
    by rewrite Hsp, (cache_path_config s' s).
Qed.

Lemma remove_redis_kept k s : sound [] s -> sound [] (remove_redis k s).2.
Proof using ITER.
  intros [Hs Hm]. split; [by apply ri_remove|]. destruct (remove_redis_only k s) as [_ Hb Hman _ _ _].
  by apply (media_ok_same s).
Qed.

Lemma remove_manifest_kept d s : sound [] s -> sound [] (remove_manifest d s).2.
Proof.
  intros [Hs Hm]. unfold remove_manifest. destruct (manifests s !! d) as [m|] eqn:Ed; [|done].
  split; [by apply (kept_state_same [] s)|]. split; [|apply Hm].
  intros d' m' H. cbn [snd] in H. revert H. state_simpl. intros [_ H]%lookup_delete_Some. by apply (mo_manifests _ Hm d').
Qed.

Lemma mark_kept d s : sound [] s -> sound [] (mark_evicted d s).1.
Proof.
  intros [Hs Hm]. unfold mark_evicted. destruct (manifests s !! d) as [m|] eqn:Ed; [|done]. cbn [fst].
  split; [by apply (kept_state_same [] s)|]. eapply (media_ok_manifest d _ s); [done..|]. by apply (mo_manifests _ Hm d m).
Qed.
End states.

(** ** The program *)
Section pass.
Context {SHA : Sha256} {CT : ConstantTimeEq} {ITER : MapIter} {HC : HttpCodecs}.
Context {JSON : SerdeJson} {HEAP : BinaryHeap}.
#[local] Set Default Proof Using "All".
Implicit Types (s : State) (p : Pass) (io : Io) (g : list Claim).

(** A piece of a pass ends with nothing claimed. *)
Definition pass_ok {A} g (m : E A) : Prop := task_ok g m (fun g' _ => g' = []).

Lemma pass_bind {A B} g (m : E A) (f : A -> E B) :
  pass_ok g m -> (forall a, pass_ok [] (f a)) -> pass_ok g (m ≫= f).
Proof. intros Hm Hf. eapply task_bind; [exact Hm|done|]. intros g' a ->. apply Hf. Qed.

Lemma pass_write {A} io o id c (k : result io_error unit -> E A) :
  (forall w, pass_ok [Held o id (if is_ok w then Some c else None)] (k w)) ->
  pass_ok [Held o id None] (atomically (write_blob_to_disk io id c) ≫= k).
Proof.
  intros Hk. apply task_atomic. intros s Hs. pose proof (write_kept io o id c s Hs) as H.
  destruct (write_blob_to_disk io id c s) as [s' w]. destruct H as [H He].
  eexists. split_and!; [exact H|by apply same_env_guar|apply Hk].
Qed.

Lemma pass_take {A} r (k : option Blob.t -> E A) :
  (forall b, pass_ok (taken b) (k b)) -> pass_ok [] (take_blob r ≫= k).
Proof.
  intros Hk. apply task_atomic. intros s Hs. pose proof (take_kept r s Hs) as H.
  destruct (remove_blob r s) as [b s']. destruct H as [He H]. eexists. split_and!; [exact H|by apply same_env_guar|apply Hk].
Qed.

Lemma pass_delete {A} io id (k : unit -> E A) :
  pass_ok [] (k tt) -> pass_ok [Held None id None] (does (delete_disk_blob io id) ≫= k).
Proof. apply task_does; [|done]. intros s. apply delete_kept. Qed.

(** *** The pieces *)
Lemma spill_blob_safe io r id c mt la p :
  sha256_digest c = r -> header_value_ok mt = true ->
  pass_ok [Held (Some (OBlob r)) id None] (spill_blob_steps io r id c mt la p).
Proof.
  intros Hr Hmt. apply pass_write. intros [[]|e]; [|apply task_end]. apply task_reads. intros la'.
  apply (task_does _ []); [intros s Hs; by apply spilled_blob_kept|intros s; apply same_env_guar, insert_blob_env|].
  apply task_metric, task_end.
Qed.

Lemma spill_ref_safe io old p r : pass_ok [] (spill_ref_steps io old p r).
Proof.
  unfold spill_ref_steps. destruct (bks p !! r) as [bb|]; [|apply task_end]. cbv zeta. destruct (_ || _); [apply task_end|].
  apply task_asks. intros s Hs. destruct (blobs s !! r) as [[|id c mt la]|] eqn:Er;
    [exists []; split; [done|apply task_end]| |exists []; split; [done|apply task_end]].
  destruct (claim_blob _ _ _ _ _ _ _ Hs Er) as (H1 & H2 & H3). eexists.
  split; [by apply sound_cons; split|by apply spill_blob_safe].
Qed.

Lemma spill_refs_safe io old p rs : pass_ok [] (spill_refs_steps io old p rs).
Proof.
  revert p. induction rs as [|r rs IH]; intros p; [apply task_end|]. by apply pass_bind; [apply spill_ref_safe|].
Qed.

Lemma mark_uploads d s : task_guar s (mark_evicted d s).1.
Proof. unfold mark_evicted. by destruct (manifests s !! d). Qed.

Lemma spill_manifest_safe io la d p : pass_ok [] (spill_manifest_steps io la d p).
Proof.
  apply task_atomic. intros s Hs. exists []. split_and!; [by apply mark_kept|apply mark_uploads|].
  destruct (mark_evicted d s).2 as [m|]; [|apply task_end]. apply pass_bind; [apply spill_refs_safe|]. intros q. apply task_end.
Qed.

Lemma spill_redis_safe io k la n p : pass_ok [] (spill_redis_steps io k la n p).
Proof.
  apply task_asks. intros s Hs. destruct (redis_entries s !! k) as [[v id l|]|] eqn:Ek;
    [|exists []; split; [done|apply task_end]..].
  eexists. split; [apply sound_cons; split; [by eapply claim_redis|exact Hs]|].
  apply pass_write. intros [[]|e]; [|apply task_end].
  apply (task_does _ []); [intros s'; apply spilled_redis_kept|done|apply task_end].
Qed.

Lemma drop_ref_safe io old p r : pass_ok [] (drop_ref_steps io old p r).
Proof.
  unfold drop_ref_steps. destruct (bks p !! r) as [bb|]; [|apply task_end]. cbv zeta. destruct (_ || _); [apply task_end|].
  apply pass_take. intros [[id n mt la|id c mt la]|]; [| |apply task_end].
  - apply task_metric, pass_delete, task_end.
  - apply task_metric, task_end.
Qed.

Lemma drop_refs_safe io old p rs : pass_ok [] (drop_refs_steps io old p rs).
Proof.
  revert p. induction rs as [|r rs IH]; intros p; [apply task_end|]. by apply pass_bind; [apply drop_ref_safe|].
Qed.

Lemma pressure_safe io b c p : pass_ok [] (pressure_steps io b c p).
Proof.
  destruct c as [la d|k la n]; cbn [pressure_steps].
  - apply task_atomic. intros s Hs. exists []. cbn [fst snd].
    split_and!; [by apply remove_manifest_kept|apply same_env_guar, remove_manifest_env|].
    destruct (remove_manifest d s).1 as [m|]; [|apply task_end]. apply task_metric.
    apply (task_does _ []); [|done|apply drop_refs_safe]. intros s' Hs'. by apply (sound_same [] s').
  - apply task_atomic. intros s Hs. exists []. cbn [fst snd].
    split_and!; [by apply remove_redis_kept|apply same_env_guar, remove_redis_env|].
    destruct (remove_redis k s).1; [|apply task_end]. apply task_metric, task_end.
Qed.

Lemma large_safe io c p : pass_ok [] (large_steps io c p).
Proof. destruct c; [apply spill_manifest_safe|apply spill_redis_safe]. Qed.

Lemma loop_safe io fuel p : pass_ok [] (loop_steps io fuel p).
Proof.
  revert p. induction fuel as [|fuel IH]; intros p; [apply task_end|]. cbn [loop_steps].
  destruct (pop_if _ (small_memory_candidates p)) as [[c h]|]; [by apply pass_bind; [apply pressure_safe|]|].
  destruct (pop_if _ (large_memory_candidates p)) as [[c h]|]; [by apply pass_bind; [apply large_safe|]|].
  destruct (pop_if _ (disk_candidates p)) as [[c h]|]; [by apply pass_bind; [apply pressure_safe|]|apply task_end].
Qed.

Lemma sweep_safe io t table : pass_ok [] (sweep_steps io t table).
Proof.
  induction table as [|e table IH]; [apply task_end|]. cbn [sweep_steps]. destruct (_ || _); [done|].
  apply pass_take. intros [[id n mt la|id c mt la]|]; [| |done].
  - by apply task_metric, pass_delete.
  - by apply task_metric.
Qed.

Lemma publish_safe p : pass_ok [] (publish_steps p).
Proof.
  unfold publish_steps. cbv zeta.
  repeat (apply (task_does _ []); [intros s Hs; by apply (sound_same [] s)|done|]). apply task_end.
Qed.

Lemma evict_safe io : pass_ok [] (evict_steps io).
Proof.
  unfold evict_steps. apply pass_bind; [|intros p; apply pass_bind; [apply loop_safe|intros q]].
  - apply task_metric. do 4 (apply task_reads; intros ?). apply task_end.
  - apply pass_bind; [apply sweep_safe|intros _; apply publish_safe].
Qed.

(** Whatever runs in between, every operation of a round keeps the registry
    sound and leaves the uploads alone. *)
Lemma round_is_safe io : pass_ok [] (round_steps io).
Proof.
  unfold round_steps. apply (task_does _ []); [intros s Hs; by apply (sound_same [] s)|done|].
  apply task_reads. intros [|]; [apply evict_safe|apply task_end].
Qed.
End pass.
