(* ===== verification/SnapshotSafe.v ===== *)
(** * A snapshot saved next to clients, and the process that loads it

    Saving reads the maps one entry at a time while connections are still
    served. It claims what it names: ids stay with their owners and the files
    of blobs stay as they are. So the snapshot is consistent enough for the
    next process to be sound, although it may mix moments. *)
From S2P Require Import Prelude Prog Digest Env Config State Disk Claimed Eviction EvictionFrame.
From S2P Require Import EvictionDisk EvictionSteps Text Redis RedisSteps Http DockerUpstream.
From S2P Require Import Docker.
From S2P Require Import DockerServe DockerContent DockerObjects DockerMedia DockerSafe Server.
From S2P Require Import DockerVerified Tasks Snapshot SnapshotUsage SnapshotRoundtrip.
From S2P Require Import SnapshotSteps.

Section safe.
Context {SHA : Sha256} {CT : ConstantTimeEq} {ITER : MapIter} {HC : HttpCodecs} {CBOR : Cbor}.
#[local] Set Default Proof Using "Type*".
Implicit Types (s : State) (io : Io) (g : list Claim).

(** ** What a snapshot may say under its claims *)
Definition blob_recorded g (be : BlobEntry) : Prop :=
  exists d, be_digest be = digest_to_string d /\ header_value_ok (be_media_type be) = true /\
    Named (OBlob d) (be_id be) ∈ g /\
    match be_content be with
    | Some c => sha256_digest c = d
    | None => exists c, sha256_digest c = d /\ Filed d (be_id be) c ∈ g
    end.

Definition redis_recorded g (re : RedisEntryEntry) : Prop := Named (ORedis (re_key re)) (re_id re) ∈ g.

(** No id is named for two owners; the owner of a file is named; no id is in
    hand. *)
Record well_named g : Prop := {
  wn_inj o o' i : Named o i ∈ g -> Named o' i ∈ g -> o = o';
  wn_filed d i c : Filed d i c ∈ g -> Named (OBlob d) i ∈ g;
  wn_held o i f : Held o i f ∉ g;
  wn_written n c : Written n c ∉ g
}.

(** No file of this owner has been recorded. *)
Definition fresh g (o : owner) : Prop := forall d i c, o = OBlob d -> Filed d i c ∉ g.

Record snapshot_good g (snap : Snapshot) : Prop := {
  sg_version : sn_version snap = SNAPSHOT_VERSION;
  sg_blobs be : be ∈ sn_blobs snap -> blob_recorded g be;
  sg_manifests me : me ∈ sn_manifests snap -> header_value_ok (me_media_type me) = true;
  sg_redis re : re ∈ sn_redis_entries snap -> redis_recorded g re;
  sg_inj o o' i : Named o i ∈ g -> Named o' i ∈ g -> o = o';
  sg_ids o i : Named o i ∈ g -> (i < sn_next_id snap)%N;
  sg_next : (sn_next_id snap < U64)%N
}.

Lemma blob_recorded_mono g g' be : g ⊆ g' -> blob_recorded g be -> blob_recorded g' be.
Proof.
  intros Hg (d & H1 & H2 & H3 & H4). exists d. split_and!; [done|done|by apply Hg|].
  destruct (be_content be); [done|]. destruct H4 as (c & Hc & H4). exists c. split; [done|by apply Hg].
Qed.

(** ** One more owner is named *)
Lemma name_owner g o i s :
  sound g s -> well_named g -> owner_id s o = Some i ->
  sound (Named o i :: g) s /\ well_named (Named o i :: g).
Proof.
  intros Hs Hw Ho. pose proof (claim_name o i s (sound_ids _ _ Hs) Ho) as Hn. split; [by apply sound_cons|].
  assert (Hx : forall o', Named o' i ∈ g -> o' = o).
  { intros o' Hin. destruct (ow_owner _ _ _ _ (sound_claimed _ _ _ Hs Hin) o Ho) as [[= ->] _]. done. }
  destruct Hw as [H1 H2 H3 H4]. split.
  - intros o1 o2 j. rewrite !elem_of_cons. intros [[= -> ->]|E1] [[= ->]|E2]; [done|..].
    + symmetry. by apply Hx.
    + subst. by apply Hx.
    + by apply (H1 o1 o2 j).
  - intros d j c. rewrite !elem_of_cons. intros [?|Hin]; [done|]. right. by eapply H2.
  - intros o' j f. rewrite elem_of_cons. intros [?|Hin]; [done|]. by eapply H3.
  - intros n c. rewrite elem_of_cons. intros [?|Hin]; [done|]. by eapply H4.
Qed.

(** The file of a named blob is recorded. *)
Lemma file_named g d i c : well_named g -> Named (OBlob d) i ∈ g -> well_named (Filed d i c :: g).
Proof.
  intros [H1 H2 H3 H4] Hn. split.
  - intros o o' j. rewrite !elem_of_cons. intros [?|?] [?|?]; try done. by apply (H1 o o' j).
  - intros d' j c'. rewrite !elem_of_cons. intros [[= -> -> ->]|Hin]; right; [done|by eapply H2].
  - intros o j f. rewrite elem_of_cons. intros [?|Hin]; [done|]. by eapply H3.
  - intros n b. rewrite elem_of_cons. intros [?|Hin]; [done|]. by eapply H4.
Qed.

(** Writing the file of an in-memory owner touches no recorded file. *)
Lemma named_elsewhere g o i s :
  sound g s -> well_named g -> fresh g o -> owner_id s o = Some i -> Forall (elsewhere i) g.
Proof.
  intros Hs [H1 H2 H3 H4] Hf Ho. apply Forall_forall. intros c Hin.
  destruct c as [o' j f|d j f|o' j|n f]; cbn [elsewhere]; [by destruct (H3 o' j f)| |done|done].
  intros ->. pose proof (sound_claimed _ _ _ Hs (H2 _ _ _ Hin)) as Hn.
  destruct (ow_owner _ _ _ _ Hn o Ho) as [[= <-] _]. by eapply Hf.
Qed.

Lemma held_filed d i c s : claimed (Held (Some (OBlob d)) i (Some c)) s -> claimed (Filed d i c) s.
Proof. intros [[H1 H2] Hf]. split; [|done]. split; [|done]. intros o Ho. by destruct (H1 o Ho). Qed.

(** ** A spill *)
Lemma spill_ok {A} io o i c g (k : unit -> V A) Q :
  Forall (elsewhere i) g -> (forall g' e, Q g' (Err e)) ->
  task_ok (Held o i (Some c) :: g) (k tt) Q ->
  task_ok (Held o i None :: g) (spill_steps io i c ≫= k) Q.
Proof.
  intros Hel HQ Hk. unfold spill_steps. intros s0 Hs0. revert s0 Hs0.
  change (task_ok (Held o i None :: g)
    (atomically (spill io i c) ≫= fun ok : bool => (if ok then mret tt else Done (Err tt)) ≫= k) Q).
  apply task_atomic. intros s Hs. destruct (spill_spec io i c s) as (d & Hd & Ho & Hok).
  destruct (spill io i c s) as [s1 ok]. cbn [fst snd] in *. subst s1.
  exists (Held o i (if ok then Some c else None) :: g). split_and!; [|done|].
  - eapply sound_disk; [exact Hs|done|exact Ho|]. destruct ok; [|done]. intros c' [= <-].
    rewrite (Hok eq_refl). apply lookup_insert_eq.
  - destruct ok; [exact Hk|]. apply (task_done _ (Err tt)). apply HQ.
Qed.

(** ** The loops *)

(** What a step that records [rec] ends with. *)
Definition records {R} (rec : list Claim -> R -> Prop) (k : owner) g (g' : list Claim) (r : result unit R) : Prop :=
  forall e, r = Ok e -> g ⊆ g' /\ well_named g' /\ (forall o, o <> k -> fresh g o -> fresh g' o) /\ rec g' e.

Definition if_some {R} (rec : list Claim -> R -> Prop) g (e : option R) : Prop := forall x, e = Some x -> rec g x.

Lemma records_done {R} rec k g g' (e : R) :
  g ⊆ g' -> well_named g' -> (forall o, o <> k -> fresh g o -> fresh g' o) -> rec g' e ->
  task_ok g' (Done (Ok e) : V R) (records rec k g).
Proof. intros H1 H2 H3 H4. apply task_done. by intros _ [= <-]. Qed.

Lemma fresh_cons_other g o k c : o <> k -> (forall d i b, c = Filed d i b -> k = OBlob d) -> fresh g o -> fresh (c :: g) o.
Proof.
  intros Hne Hc Hf d i b ->. rewrite elem_of_cons. intros [<-|Hin]; [|by eapply Hf]. by destruct Hne; rewrite (Hc d i b).
Qed.

Lemma save_blob_safe io d g :
  well_named g -> fresh g (OBlob d) ->
  task_ok g (save_blob_steps io d) (records (if_some blob_recorded) (OBlob d) g).
Proof.
  intros Hw Hf. unfold save_blob_steps. cbv zeta. apply task_asks. intros s Hs.
  destruct (blobs s !! d) as [b|] eqn:Ed; [|exists g; split; [done|by apply records_done]].
  assert (Ho : owner_id s (OBlob d) = Some (Blob.id b)) by (cbn; by rewrite Ed).
  destruct (name_owner g (OBlob d) (Blob.id b) s Hs Hw Ho) as [Hsn Hwn]. set (gn := Named (OBlob d) (Blob.id b) :: g) in *.
  assert (Hgn : g ⊆ gn) by (intros x Hx; by right).
  assert (Hfn : forall o, o <> OBlob d -> fresh g o -> fresh gn o) by (intros o Hne; by apply fresh_cons_other with (k := OBlob d)).
  assert (Hin : Named (OBlob d) (Blob.id b) ∈ gn) by left.
  assert (Hff : forall c o, o <> OBlob d -> fresh gn o -> fresh (Filed d (Blob.id b) c :: gn) o).
  { intros c o Hne. apply fresh_cons_other with (k := OBlob d); [done|]. by intros d' i' b' [= ->]. }
  pose proof (mo_blobs _ (proj2 Hs) _ _ Ed) as Hmt. destruct Hs as [[[Hi Ha Hfiles] Hg] Hm].
  destruct b as [id n mt la|id c mt la]; cbn [Blob.id blob_media_type] in *.
  - destruct (Hfiles d id n mt la Ed) as (c & Hc & _).
    assert (Hsha : sha256_digest c = d) by (apply Ha; cbn; rewrite Ed; exact Hc).
    exists (Filed d id c :: gn). split.
    + apply sound_cons. split; [|exact Hsn]. split; [apply sound_cons in Hsn as [Hn _]; exact Hn|].
      apply (owner_filed (OBlob d)); [done|done|]. by intros b [= <-].
    + apply records_done; [set_solver|by apply file_named|intros o H1 H2; by apply Hff, Hfn|].
      intros e [= <-]. exists d. split_and!; [done|done|by right|]. exists c. split; [done|left].
  - assert (Hsha : sha256_digest c = d) by (apply Ha; cbn; by rewrite Ed).
    destruct (blen c <=? _)%N.
    + exists gn. split; [done|]. apply records_done; [done..|]. intros e [= <-]. exists d. by split_and!.
    + exists (Held (Some (OBlob d)) id None :: gn). split.
      { apply sound_cons. split; [|done]. apply claim_owner; [done|done|by cbn; rewrite Ed]. }
      apply spill_ok; [|done|].
      { apply (named_elsewhere _ (OBlob d) _ s); [done|done| |done]. intros d' i' b' [= <-].
        unfold gn. rewrite elem_of_cons. intros [?|Hx]; [done|]. by eapply Hf. }
      apply task_asks. intros s' Hs'. exists (Filed d id c :: gn). split.
      { apply sound_cons in Hs' as [Hc Hs']. apply sound_cons. split; [by apply held_filed|done]. }
      apply records_done; [set_solver|by apply file_named|intros o H1 H2; by apply Hff, Hfn|].
      intros e [= <-]. exists d. split_and!; [done|done|by right|]. exists c. split; [done|left].
Qed.

Lemma save_redis_safe io k g :
  well_named g -> task_ok g (save_redis_steps io k) (records (if_some redis_recorded) (ORedis k) g).
Proof.
  intros Hw. unfold save_redis_steps. apply task_asks. intros s Hs.
  destruct (redis_entries s !! k) as [e|] eqn:Ek; [|exists g; split; [done|by apply records_done]].
  assert (Ho : owner_id s (ORedis k) = Some (RedisEntry.id e)) by (cbn; by rewrite Ek).
  destruct (name_owner g (ORedis k) (RedisEntry.id e) s Hs Hw Ho) as [Hsn Hwn].
  set (gn := Named (ORedis k) (RedisEntry.id e) :: g) in *.
  assert (Hgn : g ⊆ gn) by (intros x Hx; by right).
  assert (Hfn : forall o, o <> ORedis k -> fresh g o -> fresh gn o) by (intros o Hne; by apply fresh_cons_other with (k := ORedis k)).
  assert (Hin : Named (ORedis k) (RedisEntry.id e) ∈ gn) by left.
  destruct e as [c id la|n id la]; cbn [RedisEntry.id] in *.
  - destruct (blen c <=? _)%N.
    + exists gn. split; [done|]. apply records_done; [done..|]. by intros e [= <-].
    + exists (Held (Some (ORedis k)) id None :: gn). split.
      { apply sound_cons. split; [|done]. apply claim_owner; [by eapply sound_ids|done|by cbn; rewrite Ek]. }
      apply spill_ok; [by apply (named_elsewhere _ (ORedis k) _ s)|done|].
      apply task_asks. intros s' Hs'. exists gn. split; [by apply sound_cons in Hs' as [_ Hs']|].
      apply records_done; [done..|]. by intros e [= <-].
  - exists gn. split; [done|]. apply records_done; [done..|]. by intros e [= <-].
Qed.

Lemma each_safe {K R} (f : K -> V (option R)) (o : K -> owner) rec (fresh_at : list Claim -> K -> Prop) ks g :
  (forall g g' e, g ⊆ g' -> rec g e -> rec g' e) ->
  (forall g g' k k', o k' <> o k -> (forall x, x <> o k -> fresh g x -> fresh g' x) -> fresh_at g k' -> fresh_at g' k') ->
  (forall k g, well_named g -> fresh_at g k -> task_ok g (f k) (records (if_some rec) (o k) g)) ->
  well_named g -> NoDup (o <$> ks) -> Forall (fresh_at g) ks ->
  task_ok g (each f ks) (fun g' r => forall es, r = Ok es -> g ⊆ g' /\ well_named g' /\ forall e, e ∈ es -> rec g' e).
Proof.
  intros Hmono Hfr Hf. revert g. induction ks as [|k ks IH]; intros g Hw Hnd Hks; cbn [each].
  { apply task_done. intros es [= <-]. split_and!; [done|done|]. by intros e ?%elem_of_nil. }
  apply NoDup_cons in Hnd as [Hk Hnd]. apply Forall_cons in Hks as [Hfk Hks].
  eapply task_bind; [by apply Hf|done|]. intros g1 e He. destruct (He e eq_refl) as (Hg1 & Hw1 & Hfr1 & Hr1).
  eapply task_bind; [apply IH; [done|done|]|done|].
  - rewrite Forall_forall in Hks |- *. intros k' Hk'. apply (Hfr g g1 k k'); [|done|by apply Hks].
    intros E. apply Hk. rewrite <- E. by apply list_elem_of_fmap_2.
  - intros g2 es Hes. destruct (Hes es eq_refl) as (Hg2 & Hw2 & Hr2).
    apply task_done. intros _ [= <-]. split_and!; [by etrans|done|].
    intros x [Hx|Hx]%elem_of_app; [|by apply Hr2]. destruct e as [y|]; [|by apply elem_of_nil in Hx].
    apply list_elem_of_singleton in Hx as ->. apply (Hmono g1); [done|]. by apply Hr1.
Qed.

(** ** The two files of the snapshot *)

(** A change of files that are no cache files. *)
Lemma sound_data g d' s :
  sound g s -> (forall n f, Written n f ∉ g) -> (forall i, d' !! cache_path s i = disk s !! cache_path s i) ->
  sound g (set_disk d' s).
Proof.
  intros [[[Hi Ha Hf] Hg] Hm] Hw Hd.
  assert (Hst : forall o, stored (set_disk d' s) o = stored s o) by (apply set_disk_stored; intros; apply Hd).
  split; [split; [split|]|by apply (media_ok_same s)].
  - by apply (ids_ok_same s).
  - intros d c. rewrite Hst. apply Ha.
  - by apply (blob_files_ok_ext s).
  - unfold holds in *. rewrite Forall_forall in Hg. apply Forall_forall. intros c Hin. specialize (Hg c Hin).
    assert (Hfi : forall i f, filed i f s -> filed i f (set_disk d' s)).
    { intros i f [H1 H2]. split; [exact H1|]. intros b Hb. state_simpl.
      change (cache_path (set_disk d' s) i) with (cache_path s i). rewrite Hd. by apply H2. }
    assert (Hown : forall o mem i, owned o mem i s -> owned o mem i (set_disk d' s)) by (by intros ??? []).
    destruct c as [o i f|d i f|o i|n f]; cbn [claimed] in *; [destruct Hg; auto..|by apply Hown|by destruct (Hw n f)].
Qed.

Lemma data_path_snapshot s : data_path s SNAPSHOT_FILENAME = snapshot_path s /\ data_path s SNAPSHOT_TMP = snapshot_tmp_path s.
Proof. done. Qed.

Lemma write_tmp_sound io buf g s :
  sound g s -> (forall n f, Written n f ∉ g) ->
  let '(s', w) := write_tmp io buf s in
  task_guar s s' /\ sound (if is_ok w then Written SNAPSHOT_TMP buf :: g else g) s'.
Proof.
  intros Hs Hw. unfold write_tmp.
  pose proof (fun q => fs_write_other io (snapshot_tmp_path s) buf (disk s) q) as Ho.
  destruct (fs_write io (snapshot_tmp_path s) buf (disk s)) as [d w] eqn:E. cbn [fst] in Ho. split; [done|].
  assert (Hd : sound g (set_disk d s)).
  { apply sound_data; [done..|]. intros i. apply Ho. apply not_eq_sym, (cache_path_not_snapshot s i). }
  destruct w as [[]|]; [|done]. apply sound_cons. split; [|done]. split; [intros i; apply (cache_path_not_snapshot s i)|].
  state_simpl. unfold fs_write in E. destruct (io_write io _) as [|[part|]]; [|done..]. injection E as <-. apply lookup_insert_eq.
Qed.

Lemma rename_tmp_sound io buf g s :
  sound (Written SNAPSHOT_TMP buf :: g) s -> (forall n f, Written n f ∉ g) ->
  let '(s', r) := rename_tmp io s in
  task_guar s s' /\ sound (if is_ok r then Written SNAPSHOT_FILENAME buf :: g else []) s'.
Proof.
  intros [[_ Ht] Hs]%sound_cons Hw. unfold rename_tmp. change (data_path s SNAPSHOT_TMP) with (snapshot_tmp_path s) in Ht.
  unfold fs_rename. rewrite Ht. destruct (io_rename io _); (split; [done|]).
  - apply sound_cons. split.
    + split; [intros i; apply (cache_path_not_snapshot s i)|]. apply lookup_insert_eq.
    + apply sound_data; [done..|]. intros i. destruct (cache_path_not_snapshot s i) as (H1 & H2 & _).
      by rewrite lookup_insert_ne, lookup_delete_ne.
  - eapply sound_nil. destruct s. exact Hs.
Qed.

(** What a save that succeeds leaves behind. *)
Definition saved g (r : result unit unit) : Prop :=
  r = Ok tt -> exists snap buf, into_writer snap = Some buf /\ Written SNAPSHOT_FILENAME buf ∈ g /\ snapshot_good g snap.

Lemma snapshot_good_weaken g n f snap : snapshot_good g snap -> snapshot_good (Written n f :: g) snap.
Proof.
  intros [H1 H2 H3 H4 H5 H6 H7].
  assert (Hn : forall o i, Named o i ∈ Written n f :: g -> Named o i ∈ g) by (intros o i [?|?]%elem_of_cons; done).
  split; [done| |done| | | |done].
  - intros be Hbe. apply (blob_recorded_mono g); [intros x Hx; by right|auto].
  - intros re Hre. right. by apply H4.
  - intros o o' i ?%Hn ?%Hn. by apply (H5 o o' i).
  - intros o i ?%Hn. by apply (H6 o i).
Qed.

Lemma commit_safe io snap g :
  (forall n f, Written n f ∉ g) -> snapshot_good g snap -> task_ok g (commit_steps io snap) saved.
Proof.
  intros Hw Hg. unfold commit_steps. apply task_reads. intros dir. destruct (negb dir); [by apply task_done|].
  destruct (into_writer snap) as [buf|] eqn:Eb; [|by apply task_done].
  apply task_atomic. intros s Hs. pose proof (write_tmp_sound io buf g s Hs Hw) as H.
  destruct (write_tmp io buf s) as [s1 w]. destruct H as [Hgu H1]. eexists. split_and!; [exact H1|done|]. cbn [snd].
  destruct w as [[]|]; [|by apply task_done]. apply task_atomic. intros s2 Hs2.
  pose proof (rename_tmp_sound io buf g s2 Hs2 Hw) as H. destruct (rename_tmp io s2) as [s3 r]. destruct H as [Hgu2 H2].
  eexists. split_and!; [exact H2|done|]. cbn [snd]. destruct r as [[]|]; [|by apply task_done]. apply task_done.
  intros _. exists snap, buf. split_and!; [done|left|by apply snapshot_good_weaken].
Qed.

(** ** The whole save *)
Lemma save_is_safe io ds ks : NoDup ds -> NoDup ks -> task_ok [] (save_steps io ds ks) saved.
Proof.
  intros Hds Hks. unfold save_steps.
  eapply task_bind.
  { apply (each_safe (save_blob_steps io) OBlob blob_recorded (fun g d => fresh g (OBlob d))).
    - intros. by eapply blob_recorded_mono.
    - intros g g' k k' Hne H Hf. by apply H.
    - intros d g. apply save_blob_safe.
    - split; intros; by match goal with H : _ ∈ [] |- _ => apply elem_of_nil in H | |- _ ∉ [] => apply not_elem_of_nil end.
    - by apply NoDup_fmap_2; [intros ? ? [=]|].
    - apply Forall_forall. intros d _ d' i c _. apply not_elem_of_nil. }
  { done. }
  intros g1 bes Hb. destruct (Hb bes eq_refl) as (_ & Hw1 & Hbes). apply task_asks. intros s1 Hs1. exists g1. split; [done|].
  assert (Hms : forall me, me ∈ map manifest_entry (map_iter (manifests s1)) -> header_value_ok (me_media_type me) = true).
  { intros me ([d m] & -> & Hin%elem_of_map_iter)%list_elem_of_fmap. by apply (mo_manifests _ (proj2 Hs1) d). }
  generalize dependent (map manifest_entry (map_iter (manifests s1))). intros ms Hms.
  apply task_reads. intros ts. eapply task_bind.
  { apply (each_safe (save_redis_steps io) ORedis redis_recorded (fun _ _ => True)).
    - intros g g' re Hg. unfold redis_recorded. apply Hg.
    - done.
    - intros k g Hw _. by apply save_redis_safe.
    - done.
    - by apply NoDup_fmap_2; [intros ? ? [=]|].
    - by apply Forall_forall. }
  { done. }
  intros g2 res Hr. destruct (Hr res eq_refl) as (Hg2 & Hw2 & Hres). apply task_asks. intros s2 Hs2. exists g2. split; [done|].
  apply commit_safe; [apply Hw2|]. split; cbn; [done| |done|exact Hres|apply Hw2| |apply (id_max _ (sound_ids _ _ Hs2))].
  - intros be Hbe. by apply (blob_recorded_mono g1), Hbes.
  - intros o i Hin. exact (ow_id _ _ _ _ (sound_claimed _ _ _ Hs2 Hin)).
Qed.
End safe.

(** ** The next process *)
Section start.
Context {SHA : Sha256} {CT : ConstantTimeEq} {ITER : MapIter} {HC : HttpCodecs} {CBOR : Cbor}.
#[local] Set Default Proof Using "Type*".
Implicit Types (s : State) (io : Io) (g : list Claim).

(** The loading loops, whatever they are given. *)
Lemma load_manifests_from l s : exists ms, foldl load_manifest s l = set_manifests ms s /\
  forall d m, ms !! d = Some m -> manifests s !! d = Some m \/ exists me, me ∈ l /\ m_media_type m = me_media_type me.
Proof.
  revert s. induction l as [|me l IH]; intros s; [exists (manifests s); split; [by destruct s|by left]|]. cbn [foldl].
  destruct (IH (load_manifest s me)) as (ms & E & Hms). rewrite E. exists ms. unfold load_manifest in *.
  destruct (digest_from_str (me_digest me)) as [d|]; (split; [done|]); intros d' m [H|(x & Hx & Hm)]%Hms;
    try (right; exists x; split; [by right|done]); [|by left].
  revert H. state_simpl. intros [[_ <-]|[_ H]]%lookup_insert_Some; [|by left]. right. exists me. split; [left|done].
Qed.

Definition loaded_from io s (be : BlobEntry) (b : Blob.t) : Prop :=
  match be_content be with
  | Some c => b = Blob.InMemory (be_id be) c (be_media_type be) (be_last_accessed be)
  | None => b = Blob.OnDisk (be_id be) (be_size be) (be_media_type be) (be_last_accessed be) /\
      fs_metadata_len io (cache_path s (be_id be)) (disk s) = Ok (be_size be)
  end.

Lemma load_blob_from io s be :
  load_blob io s be = s \/
  exists d b, digest_from_str (be_digest be) = Some d /\ loaded_from io s be b /\
    load_blob io s be = set_blobs (<[d := b]> (blobs s)) s.
Proof.
  unfold load_blob, loaded_from. destruct (digest_from_str (be_digest be)) as [d|]; [|by left].
  destruct (be_content be) as [c|]; [right; by eexists d, _|].
  destruct (fs_metadata_len io _ _) as [n|]; [|by left]. destruct (n =? be_size be)%N eqn:En; [|by left].
  apply N.eqb_eq in En. subst n. right. by eexists d, _.
Qed.

Lemma load_blobs_from io l s : exists bs, foldl (load_blob io) s l = set_blobs bs s /\
  forall d b, bs !! d = Some b -> blobs s !! d = Some b \/
    exists be, be ∈ l /\ digest_from_str (be_digest be) = Some d /\ loaded_from io s be b.
Proof.
  revert s. induction l as [|be l IH]; intros s; [exists (blobs s); split; [by destruct s|by left]|]. cbn [foldl].
  destruct (IH (load_blob io s be)) as (bs & E & Hbs). rewrite E. exists bs.
  destruct (load_blob_from io s be) as [El|(d & b & Hd & Hb & El)]; rewrite El in Hbs |- *.
  - split; [done|]. intros d' b' [H|(x & Hx & H)]%Hbs; [by left|right]. exists x. split; [by right|done].
  - split; [done|]. intros d' b' [H|(x & Hx & H)]%Hbs; [|right; exists x; split; [by right|done]].
    revert H. state_simpl. intros [[<- <-]|[_ H]]%lookup_insert_Some; [|by left]. right. exists be. split_and!; [left|done..].
Qed.

Lemma load_tags_from l s : exists ts, foldl load_tag s l = set_tags ts s.
Proof.
  revert s. induction l as [|t l IH]; intros s; [exists (tags s); by destruct s|]. cbn [foldl].
  destruct (IH (load_tag s t)) as [ts ->]. exists ts. unfold load_tag. by destruct (digest_from_str _).
Qed.

Lemma load_redis_from l s : exists rs, foldl load_redis s l = set_redis_entries rs s /\
  forall k e, rs !! k = Some e -> redis_entries s !! k = Some e \/
    exists re, re ∈ l /\ re_key re = k /\ RedisEntry.id e = re_id re.
Proof.
  revert s. induction l as [|re l IH]; intros s; [exists (redis_entries s); split; [by destruct s|by left]|]. cbn [foldl].
  destruct (IH (load_redis s re)) as (rs & E & Hrs). rewrite E. exists rs. split; [done|].
  intros k e [H|(x & Hx & H)]%Hrs; [|right; exists x; split; [by right|done]].
  revert H. unfold load_redis. state_simpl. intros [[<- <-]|[_ H]]%lookup_insert_Some; [|by left]. right.
  exists re. split_and!; [left|done|by destruct (re_value re)].
Qed.

(** A process that loads such a snapshot, on the disk of the last one. *)
Lemma load_snapshot_ok io g snap s s0 :
  sound g s -> snapshot_good g snap -> config s0 = config s -> disk s0 = disk s -> spawned s0 = [] ->
  blobs s0 = ∅ -> manifests s0 = ∅ -> redis_entries s0 = ∅ ->
  registry_ok (load_snapshot io snap s0) /\ media_ok (load_snapshot io snap s0).
Proof.
  intros Hs Hg Hc Hd Hsp Hb0 Hm0 Hr0. unfold load_snapshot.
  destruct (load_manifests_from (sn_manifests snap) s0) as (ms & -> & Hms).
  destruct (load_blobs_from io (sn_blobs snap) (set_manifests ms s0)) as (bs & -> & Hbs).
  destruct (load_tags_from (sn_tags snap) (set_blobs bs (set_manifests ms s0))) as [ts ->].
  destruct (load_redis_from (sn_redis_entries snap) (set_tags ts (set_blobs bs (set_manifests ms s0)))) as (rs & -> & Hrs).
  set (s2 := set_next_id _ _).
  assert (Hpath : forall i, cache_path s2 i = cache_path s i) by (intros i; by apply cache_path_config).
  assert (Hblob : forall d b, bs !! d = Some b -> exists be, blob_recorded g be /\ be ∈ sn_blobs snap /\
    be_digest be = digest_to_string d /\ Named (OBlob d) (be_id be) ∈ g /\ loaded_from io s be b).
  { intros d b [H|(be & Hin & Hdg & Hb)]%Hbs; [revert H; state_simpl; by rewrite Hb0, lookup_empty|].
    pose proof (sg_blobs _ _ Hg be Hin) as (d' & E & Hmt & Hn & Hx). rewrite E, digest_from_to_string in Hdg.
    injection Hdg as <-. exists be. split_and!; [by exists d'|done|done|done|]. revert Hb. unfold loaded_from.
    state_simpl. rewrite Hd. rewrite (cache_path_config (set_manifests ms s0) s) by done. done. }
  assert (Hid : forall o i, owner_id s2 o = Some i -> Named o i ∈ g).
  { intros [d|k] i; cbn [owner_id].
    - change (blobs s2) with bs. destruct (bs !! d) as [b|] eqn:Eb; [|done]. intros [= <-].
      destruct (Hblob d b Eb) as (be & _ & _ & _ & Hn & Hl). revert Hl. unfold loaded_from.
      destruct (be_content be); [intros ->|intros [-> _]]; exact Hn.
    - change (redis_entries s2) with rs. destruct (rs !! k) as [e|] eqn:Ek; [|done]. intros [= <-].
      destruct (Hrs k e Ek) as [H|(re & Hin & <- & ->)]; [revert H; state_simpl; by rewrite Hr0, lookup_empty|].
      by apply (sg_redis _ _ Hg). }
  assert (Hfile : forall d i c, Filed d i c ∈ g -> disk s !! cache_path s i = Some c).
  { intros d i c Hin. destruct (sound_claimed _ _ _ Hs Hin) as [_ [_ H]]. by apply H. }
  split; split.
  - split; [|intros o o' i H1%Hid H2%Hid; by apply (sg_inj _ _ Hg o o' i)|apply (sg_next _ _ Hg)|].
    + intros o i Ho%Hid. by apply (sg_ids _ _ Hg o).
    + change (spawned s2) with (spawned s0). rewrite Hsp. by intros p ?%elem_of_nil.
  - intros d c. cbn [stored]. change (blobs s2) with bs. change (disk s2) with (disk s0). rewrite Hd.
    destruct (bs !! d) as [b|] eqn:Eb; [|done]. destruct (Hblob d b Eb) as (be & (d' & E & _ & _ & Hx) & _ & E' & _ & Hl).
    rewrite E in E'. apply (f_equal digest_from_str) in E'. rewrite !digest_from_to_string in E'. injection E' as ->.
    revert Hl. unfold loaded_from. destruct (be_content be) as [c'|]; [intros ->; by intros [= <-]|].
    intros [-> _]. rewrite Hpath. destruct Hx as (c' & <- & Hin%Hfile). rewrite Hin. by intros [= <-].
  - intros d id n mt la. change (blobs s2) with bs. change (disk s2) with (disk s0). rewrite Hd, Hpath. intros Eb.
    destruct (Hblob d _ Eb) as (be & _ & _ & _ & _ & Hl). revert Hl. unfold loaded_from.
    destruct (be_content be); [done|]. intros [[= -> -> _ _] Hlen]. revert Hlen. unfold fs_metadata_len.
    destruct (disk s !! _) as [c|]; [|done]. destruct (io_metadata io _); [|done]. intros [= <-]. by exists c.
  - intros d m. change (manifests s2) with ms. intros [H|(me & Hin & ->)]%Hms; [by rewrite Hm0, lookup_empty in H|].
    by apply (sg_manifests _ _ Hg).
  - intros d b. change (blobs s2) with bs. intros Eb. destruct (Hblob d b Eb) as (be & (d' & _ & Hmt & _) & _ & _ & _ & Hl).
    revert Hl. unfold loaded_from. destruct (be_content be); [intros ->|intros [-> _]]; exact Hmt.
Qed.

(** A cold start. *)
Lemma cold_start_ok io cfg t d s2 ok :
  is_ok (load io (State_new cfg t d)) = false ->
  load_or_wipe io (State_new cfg t d) = (s2, ok) ->
  registry_ok s2 /\ media_ok s2 /\ uploads s2 = ∅.
Proof.
  intros Hload Hs2. assert (H : blobs s2 = ∅ /\ manifests s2 = ∅ /\ uploads s2 = ∅ /\ redis_entries s2 = ∅ /\
    spawned s2 = [] /\ next_id s2 = 0%N).
  { unfold load_or_wipe in Hs2. destruct (load io _) as [|[]]; [done|by injection Hs2 as <- _..]. }
  destruct H as (Hb & Hm & Hu & Hr & Hsp & Hn).
  assert (Hown : forall o, owner_id s2 o = None) by (intros []; cbn [owner_id]; by rewrite ?Hb, ?Hr, lookup_empty).
  split; [|split; [|done]]; split.
  - split; [intros o i; by rewrite Hown|intros o o' i; by rewrite Hown|by rewrite Hn|].
    rewrite Hsp. by intros p ?%elem_of_nil.
  - intros x c. cbn [stored]. by rewrite Hb, lookup_empty.
  - intros x id n mt la. by rewrite Hb, lookup_empty.
  - intros x m. by rewrite Hm, lookup_empty.
  - intros x b. by rewrite Hb, lookup_empty.
Qed.

(** However the next start goes, after a save that succeeded. *)
Lemma start_after_save io g t s s2 ok :
  sound g s -> saved g (Ok tt) -> load_or_wipe io (State_new (config s) t (disk s)) = (s2, ok) ->
  registry_ok s2 /\ media_ok s2 /\ uploads s2 = ∅.
Proof.
  intros Hs Hsv Hl. destruct (Hsv eq_refl) as (snap & buf & Hbuf & Hin & Hg).
  destruct (is_ok (load io (State_new (config s) t (disk s)))) eqn:Eok; [|by eapply cold_start_ok].
  destruct (sound_claimed _ _ _ Hs Hin) as [_ Hfile]. change (data_path s _) with (snapshot_path s) in Hfile.
  set (s0 := State_new (config s) t (disk s)) in *.
  assert (Hload : load io s0 = Ok (load_snapshot io snap s0)).
  { revert Eok. unfold load, fs_read. change (snapshot_path s0) with (snapshot_path s). change (disk s0) with (disk s).
    rewrite Hfile. destruct (io_read io _); [|done]. rewrite (cbor_law _ _ Hbuf), (sg_version _ _ Hg). done. }
  destruct (load_snapshot_ok io g snap s s0 Hs Hg) as [[Hi Ha Hf] Hm]; [done..|].
  unfold load_or_wipe in Hl. rewrite Hload in Hl. set (s1 := load_snapshot io snap s0) in *.
  assert (Hup : uploads s1 = ∅).
  { unfold s1, load_snapshot. destruct (load_manifests_from (sn_manifests snap) s0) as (ms & -> & _).
    destruct (load_blobs_from io (sn_blobs snap) (set_manifests ms s0)) as (bs & -> & _).
    destruct (load_tags_from (sn_tags snap) (set_blobs bs (set_manifests ms s0))) as [ts ->].
    by destruct (load_redis_from (sn_redis_entries snap) (set_tags ts (set_blobs bs (set_manifests ms s0)))) as (rs & -> & _). }
  pose proof (fun i => proj1 (cache_path_not_snapshot s1 i)) as Hne.
  assert (Hrm : forall i, (fs_remove io (snapshot_path s1) (disk s1)).1 !! cache_path s1 i = disk s1 !! cache_path s1 i).
  { intros i. unfold fs_remove. destruct (disk s1 !! snapshot_path s1); [|done]. destruct (io_remove io _); [|done].
    apply lookup_delete_ne, Hne. }
  destruct (fs_remove io (snapshot_path s1) (disk s1)) as [d r]. cbn [fst] in Hrm. injection Hl as <- _.
  assert (H1 : sound [] s1) by (split; [split; [by split|apply Forall_nil_2]|exact Hm]).
  destruct (sound_data [] d s1 H1) as [[Hr _] Hm']; [intros n f; apply not_elem_of_nil|exact Hrm|].
  split_and!; [exact Hr|exact Hm'|exact Hup].
Qed.
End start.
