(* ===== verification/System.v ===== *)
(** * The running server

    Operations of requests of registry clients, of commands of redis clients
    and of eviction passes, cache fills, pending unlinks and clock ticks happen
    in any order on one state. At shutdown a snapshot is saved, entry by entry,
    while the open connections are served on; the next process loads it, or
    starts cold. Whatever the order, the cache stays sound: [system_ok] holds in
    every reachable state, and what is served under a digest has it, as long as
    no upload is closed by two requests at once. *)
From S2P Require Import Prelude Prog Digest Env Config State Disk Eviction EvictionFrame.
From S2P Require Import EvictionMaps.
From S2P Require Import EvictionDisk EvictionSteps Text Redis RedisSteps Http.
From S2P Require Import DockerUpstream Docker DockerServe DockerLogic DockerAuth DockerContent.
From S2P Require Import DockerObjects DockerMedia DockerSafe DockerAnswers DockerRoutes.
From S2P Require Import DockerBlobs.
From S2P Require Import Server DockerVerified Tasks EvictionSafe Snapshot SnapshotSteps.
From S2P Require Import SnapshotSafe.

Section system.
Context {SHA : Sha256} {CT : ConstantTimeEq} {ITER : MapIter} {HC : HttpCodecs}.
Context {JSON : SerdeJson} {HEAP : BinaryHeap} {CBOR : Cbor}.
Implicit Types (s : State) (fs : list Fill).

(** What runs besides the clients: a round of the eviction loop, or the save
    that follows when the loop and the listeners have stopped. *)
Inductive Background : Type :=
  | Round (m : E unit)
  | Saving (m : V unit).

(** The whole program: a server and its task. Clients run between any two
    operations of the task: those whose connection is open are served while the
    snapshot is saved. A round that fails ends the loop. *)
Definition System : Type := Server * option Background.

(** The eviction loop has ended, or waits. *)
Definition loop_idle (r : option Background) : Prop :=
  match r with None => True | Some (Round (Done _)) => True | _ => False end.

Inductive step : System -> System -> Prop :=
  | step_serve x y r : serve_step x y -> step (x, r) (y, r)
  (** A round, from its wake-up. *)
  | step_round io x : step (x, None) (x, Some (Round (round_steps io)))
  | step_round_operation X (op : State -> State * X) k s fs cs :
      step (mkServer s fs cs, Some (Round (Atomic op k))) (mkServer (op s).1 fs cs, Some (Round (k (op s).2)))
  | step_round_end x : step (x, Some (Round (Done (Ok tt)))) (x, None)
  (** A save, with the orders in which its iterators come to the keys. *)
  | step_save io ds ks x r :
      loop_idle r -> NoDup ds -> NoDup ks -> step (x, r) (x, Some (Saving (save_steps io ds ks)))
  | step_save_operation X (op : State -> State * X) k s fs cs :
      step (mkServer s fs cs, Some (Saving (Atomic op k))) (mkServer (op s).1 fs cs, Some (Saving (k (op s).2)))
  (** The next process, after a save that succeeded. Clients and fills do not
      survive. *)
  | step_restart io t s fs cs s2 :
      load_or_wipe io (State_new (config s) t (disk s)) = (s2, true) ->
      step (mkServer s fs cs, Some (Saving (Done (Ok tt)))) (mkServer s2 [] [], None)
  (** A new process, after anything, that finds no usable snapshot. *)
  | step_cold_start io t s fs cs r s2 ok :
      is_ok (load io (State_new (config s) t (disk s))) = false ->
      load_or_wipe io (State_new (config s) t (disk s)) = (s2, ok) ->
      step (mkServer s fs cs, r) (mkServer s2 [] [], None).

(** ** Every step, and so every reachable state *)

(** The registry is sound, no client can panic, and every answer is verified. *)
Definition system_ok (x : Server) : Prop := serving_ok kept_state upload_ok verified [] x.

Lemma fresh_ok s : registry_ok s -> media_ok s -> uploads s = ∅ -> system_ok (mkServer s [] []).
Proof.
  intros Hr Hm Hu. split; [split; [done|by apply Forall_nil_2]|done|by apply Forall_nil_2| |by apply Forall_nil_2].
  intros u _ up. cbn [srv_state]. by rewrite Hu, lookup_empty.
Qed.

(** The task is safe, too. *)
Definition task_state s (r : option Background) : Prop :=
  match r with
  | None => True
  | Some (Round m) => task_safe m (fun g _ => g = []) s
  | Some (Saving m) => task_safe m saved s
  end.
Definition system_inv (x : System) : Prop := system_ok x.1 /\ task_state (srv_state x.1) x.2.

(** A step while ids are fresh, of clients that do not close an upload twice at
    a time. *)
Definition orderly_step (x y : System) : Prop := step x y /\ ids_left (srv_state x.1) /\ polite y.1.

Lemma calm_orderly x y r : calm_step x y -> orderly_step (x, r) (y, r).
Proof. intros (H & Hi & Hp). split; [by apply step_serve|]. split; [done|by apply single_polite]. Qed.
Lemma calm_run x y r : rtc calm_step x y -> rtc orderly_step (x, r) (y, r).
Proof. induction 1 as [x|x y z Hxy _ IH]; [done|]. eapply rtc_l; [by apply calm_orderly|exact IH]. Qed.

Lemma system_sound x : system_ok x -> sound [] (srv_state x).
Proof. by intros []. Qed.

(** The clients respect what the task claims. *)
Lemma serve_step_rely x y :
  system_ok x -> ids_left (srv_state x) -> polite y -> serve_step x y -> task_rely (srv_state x) (srv_state y).
Proof.
  intros [_ _ Hf Hu Hc] Ha Hp Hxy g [Hg Hm].
  assert (Hx : serving_ok kept_state upload_ok verified g x) by done.
  destruct (serve_step_ok kept_state upload_ok has_digest verified handler_verified g x y Ha Hp Hx Hxy). done.
Qed.

Lemma task_rely_state s s' r : task_rely s s' -> task_state s r -> task_state s' r.
Proof. intros Hr. destruct r as [[m|m]|]; [| |done]; by apply task_safe_stable. Qed.

(** An operation of the task. *)
Lemma task_operation_ok {Fl A X} (op : State -> State * X) (k : X -> prog State Fl A) Q s fs cs :
  system_ok (mkServer s fs cs) -> task_safe (Atomic op k) Q s ->
  system_ok (mkServer (op s).1 fs cs) /\ task_safe (k (op s).2) Q (op s).1.
Proof using CT ITER.
  intros Hx Hr. pose proof (system_sound _ Hx) as Hs.
  destruct (Hr tt s) as ([Hk Hm] & [Hu Hd] & Hn); [done|exact Hs|done|]. split; [|exact Hn].
  apply (state_ok kept_state upload_ok has_digest verified handler_verified [] [] s _ fs);
    [done|done|by destruct Hx|intros u; by apply kept_same|done].
Qed.

Lemma step_ok x y : system_inv x -> orderly_step x y -> system_inv y.
Proof.
  intros [Hx Hr] (Hxy & Ha & Hp).
  destruct Hxy as [x y r Hxy|io x|X op k s fs cs|x|io ds ks x r Hi Hd Hk|X op k s fs cs|io t s fs cs s2 Hl|io t s fs cs r s2 ok Hc Hl];
    cbn [fst snd srv_state] in *; try (by split).
  - split; cbn [fst snd]; [by eapply (serve_step_ok kept_state upload_ok has_digest); [exact handler_verified|..]|].
    eapply task_rely_state; [by apply serve_step_rely|exact Hr].
  - split; [done|]. by apply round_is_safe, system_sound.
  - by apply task_operation_ok.
  - split; [done|]. by apply save_is_safe, system_sound.
  - by apply task_operation_ok.
  - destruct Hr as (g & Hs & Hg). destruct (start_after_save io g t s s2 true Hs Hg Hl) as (? & ? & ?).
    split; [by apply fresh_ok|done].
  - destruct (cold_start_ok io (config s) t (disk s) s2 ok Hc Hl) as (? & ? & ?). split; [by apply fresh_ok|done].
Qed.

(** The state a process starts in, before it loads a snapshot. *)
Lemma start_ok cfg t d : system_ok (mkServer (State_new cfg t d) [] []).
Proof.
  apply fresh_ok; [|by split|done]. split; [apply State_new_ids| |done].
  intros x c. cbn [stored]. done.
Qed.

Definition start (cfg : Config) (t : N) (d : FileSystem) : System := (mkServer (State_new cfg t d) [] [], None).

Lemma reachable_inv cfg t d x : rtc orderly_step (start cfg t d) x -> system_inv x.
Proof.
  intros Hx. assert (H0 : system_inv (start cfg t d)) by (split; [apply start_ok|done]). revert H0.
  induction Hx as [y|y z x Hyz _ IH]; intros Hy; [done|]. by eapply IH, step_ok.
Qed.

(** C2: in every state the server can reach from an empty start, by any
    interleaving of the operations of requests, of redis commands and of
    eviction passes, of fills, unlinks, clock ticks and restarts in which no
    upload is closed by two requests at once and the 64-bit id counter does not
    wrap, the content stored under a digest
    hashes to it and has the recorded length, no file has two owners and no
    pending unlink names a live file, an upload that is not just being closed
    agrees with its hash, and no request in flight can end in a panic. *)
Theorem reachable_ok cfg t d x r : rtc orderly_step (start cfg t d) (x, r) -> system_ok x.
Proof. intros Hx. apply (reachable_inv cfg t d (x, r) Hx). Qed.

End system.
