(* ===== verification/SystemUsage.v ===== *)
(** * The byte counters of the running server

    Every operation of a request or a redis command, every fill and every
    restart changes the seven counters by what it changes the bytes of the
    maps. Two things do not: an eviction pass
    ([EvictionAccounting.evict_accounting]), and a command that overlaps the
    stores of a [FLUSH] ([RedisSteps.flush_race]). Without them the counters
    are right, but for those that a [FLUSH] on its way has not yet reset. *)
From S2P Require Import Prelude Prog Digest Env Config State Accounting Disk Eviction Text Redis.
From S2P Require Import RedisSteps Http DockerUpstream Docker DockerServe DockerLogic.
From S2P Require Import DockerContent.
From S2P Require Import DockerObjects DockerMedia DockerSafe Server DockerVerified Snapshot.
From S2P Require Import SnapshotUsage SnapshotSteps System.

Section usage.
Context {SHA : Sha256} {CT : ConstantTimeEq} {ITER : MapIter} {HC : HttpCodecs}.
Context {JSON : SerdeJson} {HEAP : BinaryHeap} {LAYOUT : BytesLayout} {CBOR : Cbor}.
Implicit Types (s : State) (w : World) (f : Bucket -> Z).

(** ** State changes *)
Lemma store_blob_Offset f d c mt s : Offset f s -> Offset f (store_blob d c mt s).
Proof. intros Hs. unfold store_blob. apply insert_blob_Offset. exact Hs. Qed.

Lemma touch_blob_Offset f d b s : blobs s !! d = Some b -> Offset f s -> Offset f (touch_blob d b s).
Proof.
  intros Hd Hs b'. unfold touch_blob. rewrite charge_set_blobs_insert, Hd. simpl.
  assert (blob_share b' (Blob.set_last_accessed (now s) b) = blob_share b' b) as -> by (by destruct b).
  rewrite Z.add_simpl_r. apply Hs.
Qed.

Lemma touch_manifest_Offset f d m s :
  manifests s !! d = Some m -> Offset f s -> Offset f (touch_manifest d m s).
Proof.
  intros Hd Hs b'. unfold touch_manifest.
  change (charge b' (metric_add _ _ ?x)) with (charge b' x).
  rewrite charge_set_manifests_insert, Hd. simpl. unfold manifest_share. simpl. rewrite Z.add_simpl_r. apply Hs.
Qed.

Lemma touch_redis_Offset f k id t s : Offset f s -> Offset f (touch_redis k id t s).
Proof.
  intros Hs. unfold touch_redis. destruct (redis_entries s !! k) as [[v i la|]|] eqn:Ek; [|done..].
  case_decide; [|done]. intros b. rewrite charge_set_redis_insert, Ek. simpl. unfold redis_share. simpl.
  rewrite Z.add_simpl_r. apply Hs.
Qed.

(** Uploads and the bytes that are stored are of no concern to the counters. *)
#[export] Instance offset_inv :
  StateInv ids_left Offset (fun _ : Upload => True) (fun (_ : Digest) (_ : bytes) => True).
Proof.
  split; try done.
  - intros f d m s. apply insert_manifest_Offset.
  - intros f d m s. apply touch_manifest_Offset.
  - intros f d b s. apply touch_blob_Offset.
  - intros f d b mt s _ _. apply store_blob_Offset.
  - intros d b up _. by destruct (finish_upload d b up) as [? []].
Qed.
#[export] Instance offset_redis_inv : RedisInv ids_left Offset.
Proof.
  split.
  - intros f k id t s. apply touch_redis_Offset.
  - intros f k v s _. apply insert_redis_Offset.
  - intros f k s. apply remove_redis_Offset.
Qed.

(** How far the counters are off, and whether the redis map must be empty:
    requests and background tasks leave both as they are. *)
Definition usage_state (g : (Bucket -> Z) * bool) s : Prop :=
  Offset g.1 s /\ (g.2 = true -> redis_entries s = ∅).

#[export] Instance usage_inv :
  StateInv ids_left usage_state (fun _ : Upload => True) (fun (_ : Digest) (_ : bytes) => True).
Proof.
  apply (state_inv_and ids_left (fun g s => Offset g.1 s) (fun g s => g.2 = true -> redis_entries s = ∅)).
  - destruct offset_inv. split; try done; intros; eauto.
  - split; try done; [|intros d b up _; by destruct (finish_upload d b up) as [? []]].
    intros g d b mt s _ _ He Hg. unfold store_blob. cbn [take_id]. rewrite (proj1 (proj2 (insert_blob_fields d _ _))). by apply He.
Qed.
#[export] Instance usage_task_inv : TaskInv usage_state.
Proof. done. Qed.

(** ** Where a command is

    Its operations change the counters by what they change the map, or it is a
    [FLUSH] that has not run its [retain]; from there on, the buckets that it
    has still to reset may be off. *)
Abbreviation calm := (quiet Offset (fun _ : Upload => True)).
Definition flushed : bytes * option bool := (write_simple $"OK", Some true).
Definition clearing (bs : list Bucket) : R (bytes * option bool) := _ ← clear bs; mret flushed.

Definition pending (h : R (bytes * option bool)) : Prop :=
  every_op calm h \/ h = flush_command \/ h = (_ ← flush_steps; mret flushed).

Lemma execute_pending io authed args : pending (execute_steps io authed args).
Proof.
  destruct (execute_steps_cases calm io authed args) as [H|H]; [|by left|by right; left].
  apply (quiet_ops Offset _ (fun _ _ => True)).
Qed.

(** ** The server *)
Definition counted_ok (g : (Bucket -> Z) * bool) (x : Server) : Prop :=
  server_ok usage_state (fun _ => True) (fun _ _ => True) (C := fun _ => True) g x.

Inductive counted (x : Server) : Prop :=
  | counted_all f :
      counted_ok (f, false) x -> owed [] f -> Forall pending (commands x) -> counted x
  | counted_flush f bs :
      counted_ok (f, true) x -> owed bs f -> bs <> [] -> (forall b, b ∈ bs -> b ∈ redis_buckets) ->
      commands x = [clearing bs] -> counted x.

(** While a [FLUSH] has not stored its last counter, no other command is in
    flight. *)
Definition flush_alone (x : Server) : Prop := forall h, h ∈ commands x -> mid_flush h -> commands x = [h].

Lemma commands_app s fs cs1 c cs2 :
  commands (mkServer s fs (cs1 ++ c :: cs2)) = omap client_command cs1 ++ option_list (client_command c) ++ omap client_command cs2.
Proof. unfold commands. cbn [srv_clients]. rewrite omap_app. cbn. by destruct (client_command c). Qed.

Lemma clearing_mid bs : bs <> [] -> mid_flush (clearing bs).
Proof. intros Hbs. by exists bs, flushed. Qed.

(** How the commands change when none takes a step. *)
Inductive commands_step : list (R (bytes * option bool)) -> list (R (bytes * option bool)) -> Prop :=
  | commands_same hs : commands_step hs hs
  | commands_new io authed args hs1 hs2 : commands_step (hs1 ++ hs2) (hs1 ++ execute_steps io authed args :: hs2)
  | commands_left h hs1 hs2 : ~ mid_flush h -> commands_step (hs1 ++ h :: hs2) (hs1 ++ hs2).

Lemma serve_step_commands x y : serve_step x y -> command_operation x y \/ commands_step (commands x) (commands y).
Proof.
  assert (Hadd : forall s s' fs fs' cs1 c cs2, client_command c = None ->
    commands (mkServer s fs (cs1 ++ c :: cs2)) = commands (mkServer s' fs' (cs1 ++ cs2))).
  { intros ???? cs1 c cs2 Hc. rewrite commands_app, Hc. unfold commands. cbn [srv_clients]. by rewrite omap_app. }
  intros []; try (right; rewrite !commands_app; constructor); try (right; constructor);
    try (right; rewrite (Hadd s s fs fs) by done; constructor).
  - right. rewrite commands_app. unfold commands. cbn [srv_clients]. rewrite omap_app. apply commands_new.
  - left. constructor.
  - right. rewrite commands_app. unfold commands. cbn [srv_clients]. rewrite omap_app. by apply commands_left.
Qed.

Lemma handler_counts closing io net u req :
  closing = closes req ->
  keeps ids_left usage_state (fun _ => True) closing (handle_request_inner io net u req) (fun _ => True).
Proof.
  intros Hc. eapply keeps_mono; [by apply (handle_request_inner_keeps _ _ _ (fun _ _ => True))|done].
Qed.

Lemma other_step_counted x y :
  ids_left (srv_state x) -> polite y -> flush_alone y -> counted x -> serve_step x y ->
  commands_step (commands x) (commands y) -> counted y \/ command_operation x y.
Proof.
  intros Ha Hp Hfl Hx Hxy Hc.
  assert (Hok : forall g, counted_ok g x -> counted_ok g y \/ command_operation x y)
    by (intros g Hg; by eapply (other_step_ok usage_state _ (fun _ _ => True) _ handler_counts)).
  destruct Hx as [f Hg Hf Hcs|f bs Hg Hf Hne Hbs Hcs]; (destruct (Hok _ Hg) as [Hy|]; [left|by right]).
  - apply (counted_all y f); [done..|]. clear -Hc Hcs. destruct Hc as [hs|io authed args hs1 hs2|h hs1 hs2 _]; [done|..].
    + apply Forall_app in Hcs as [??]. apply Forall_app. split; [done|]. apply Forall_cons. split; [apply execute_pending|done].
    + apply Forall_app in Hcs as [? [_ ?]%Forall_cons]. by apply Forall_app.
  - apply (counted_flush y f bs); [done..|]. remember (commands x) as hs eqn:Ex. remember (commands y) as hs' eqn:Ey.
    destruct Hc as [hs|io authed args hs1 hs2|h hs1 hs2 Hh]; [done|..].
    + exfalso. assert (Hin : clearing bs ∈ commands y).
      { rewrite <- Ey. assert (clearing bs ∈ hs1 ++ hs2) as H by (rewrite Hcs; by left).
        rewrite elem_of_app in H |- *. rewrite elem_of_cons. tauto. }
      specialize (Hfl _ Hin (clearing_mid _ Hne)). rewrite <- Ey in Hfl.
      apply (f_equal length) in Hfl. apply (f_equal length) in Hcs. rewrite !length_app in *. simpl in *. lia.
    + exfalso. apply app_singleton in Hcs as [[-> [= -> ->]]|[_ ?]]; [|done]. by apply Hh, clearing_mid.
Qed.

(** The first operation of a program that is known. *)
Lemma first_operation {X} (op : State -> State * X) (k : X -> R (bytes * option bool)) h s :
  Atomic op k = h -> k (op s).2 = (ahead 1 h s).1 /\ (op s).1 = (ahead 1 h s).2.
Proof. by intros <-. Qed.

(** An operation of a command. *)
Lemma command_step_counted x y :
  ids_left (srv_state x) -> flush_alone y -> counted x -> command_operation x y -> counted y.
Proof using CT HC ITER SHA.
  intros Ha Hfl Hx Hxy. destruct Hxy as [X op k s fs cs1 cs2]. cbn [srv_state] in Ha.
  assert (Hch : forall g g', counted_ok g (mkServer s fs (cs1 ++ Command (Atomic op k) :: cs2)) ->
    usage_state g' (op s).1 -> media_ok (op s).1 -> (forall u, kept (fun _ => True) s (op s).1 u) ->
    counted_ok g' (mkServer (op s).1 fs (cs1 ++ Command (k (op s).2) :: cs2)))
    by (intros g g' Hg ???; by apply (command_changed usage_state _ (fun _ _ => True) _ handler_counts g g' (Atomic op k) _ s)).
  assert (Hall : forall h', k (op s).2 = h' -> pending h' ->
    Forall pending (omap client_command cs1 ++ [Atomic op k] ++ omap client_command cs2) ->
    Forall pending (commands (mkServer (op s).1 fs (cs1 ++ Command (k (op s).2) :: cs2)))).
  { intros h' <- Hp [Hc1 [_ Hc2]%Forall_cons]%Forall_app. rewrite commands_app. apply Forall_app. split; [done|].
    by apply Forall_cons. }
  destruct Hx as [f Hg Hf Hcs|f bs Hg Hf Hne Hbs Hcs]; pose proof Hg as [[Ho He] Hm _ _ _];
    cbn [srv_state fst snd] in Ho, He, Hm; rewrite commands_app in Hcs; cbn [client_command option_list] in Hcs.
  - pose proof Hcs as [_ [Hh _]%Forall_cons]%Forall_app. destruct Hh as [[Hop Hk]|[E|E]].
    + destruct (Hop s f Ha Ho Hm) as (Ho' & Hm' & Hu).
      apply (counted_all _ f); [by eapply Hch|done|]. eapply Hall; [done|by left|done].
    + destruct (first_operation op k _ s E) as [Ek Es]. cbn in Ek, Es.
      apply (counted_all _ f); [|done|eapply Hall; [exact Ek|by right; right|done]].
      eapply Hch; [exact Hg|rewrite Es..]; [by split|by apply (media_ok_same s)|intros u; by apply kept_same].
    + destruct (first_operation op k _ s E) as [Ek Es].
      change ((ahead 1 (_ ← flush_steps; mret flushed) s).1) with (clearing redis_buckets) in Ek. cbn in Es.
      destruct (flush_entries_Offset f s Hf Ho) as (f' & Hf' & Ho').
      assert (Hin : clearing redis_buckets ∈ commands (mkServer (op s).1 fs (cs1 ++ Command (k (op s).2) :: cs2))).
      { rewrite commands_app. cbn [client_command option_list]. rewrite Ek. apply elem_of_app. right. by left. }
      apply (counted_flush _ f' redis_buckets); [|done..|by apply Hfl; [|apply clearing_mid]].
      eapply Hch; [exact Hg|rewrite Es..]; [by split|by apply (media_ok_same s)|intros u; by apply kept_same].
  - apply app_singleton in Hcs as [[Hc1 Hc2]|[_ ?]]; [|done]. injection Hc2 as Eh Hc2.
    destruct bs as [|b bs]; [done|]. destruct (first_operation op k _ s Eh) as [Ek Es].
    change ((ahead 1 (clearing (b :: bs)) s).1) with (clearing bs) in Ek. cbn in Es.
    destruct (usage_store_Offset f b bs s) as (f' & Hf' & Ho'); [by apply He|apply Hbs; by left|done..|].
    assert (Hok : forall e, (e = true -> redis_entries s = ∅) ->
      counted_ok (f', e) (mkServer (op s).1 fs (cs1 ++ Command (k (op s).2) :: cs2))).
    { intros e He'. eapply Hch; [exact Hg|rewrite Es..]; [by split|by apply (media_ok_same s)|intros u; by apply kept_same]. }
    assert (Hc : commands (mkServer (op s).1 fs (cs1 ++ Command (k (op s).2) :: cs2)) = [clearing bs]).
    { rewrite commands_app, Hc1, Hc2. cbn [client_command option_list]. by rewrite Ek. }
    destruct bs as [|b' bs].
    + apply (counted_all _ f'); [by apply Hok|done|]. rewrite Hc. apply Forall_singleton. by left.
    + apply (counted_flush _ f' (b' :: bs)); [by apply Hok; intros _; apply He|done..| |done].
      intros b2 Hb2. apply Hbs. by right.
Qed.

Lemma serve_step_counted x y :
  ids_left (srv_state x) -> polite y -> flush_alone y -> counted x -> serve_step x y -> counted y.
Proof.
  intros Ha Hp Hfl Hx Hxy. destruct (serve_step_commands x y Hxy) as [Hc|Hc]; [by eapply command_step_counted|].
  destruct (other_step_counted x y Ha Hp Hfl Hx Hxy Hc) as [?|?]; [done|by eapply command_step_counted].
Qed.

(** ** The system *)

(** Any step but those of an eviction pass, and no command that overlaps the
    stores of a [FLUSH]. *)
Definition no_round (r : option Background) : Prop := match r with Some (Round _) => False | _ => True end.
Definition quiet_step (x y : System) : Prop := orderly_step x y /\ no_round y.2 /\ flush_alone y.1.

Definition counted_inv (x : System) : Prop :=
  counted x.1 /\ match x.2 with Some (Round _) => False | Some (Saving m) => every_op disk_only m | None => True end.

Lemma counted_fresh s : Accounted s -> media_ok s -> counted (mkServer s [] []).
Proof.
  intros Hs Hm. apply (counted_all _ (fun _ => 0%Z)); [|done|by apply Forall_nil_2].
  split; [split; [by apply Accounted_Offset|done]|done|by apply Forall_nil_2| |by apply Forall_nil_2]. done.
Qed.

Lemma counted_start io s s2 ok :
  load_or_wipe io s = (s2, ok) -> media_ok s2 -> counted (mkServer s2 [] []).
Proof.
  intros Hl Hm. apply counted_fresh; [|done]. change s2 with (s2, ok).1. rewrite <- Hl. apply load_or_wipe_Accounted.
Qed.

(** A step that changes the disk only. *)
Lemma disk_only_counted s s' fs cs : disk_only s s' -> counted (mkServer s fs cs) -> counted (mkServer s' fs cs).
Proof using CT HC ITER SHA.
  intros [d ->] Hx. assert (Hok : forall g, counted_ok g (mkServer s fs cs) -> counted_ok g (mkServer (set_disk d s) fs cs)).
  { intros g Hg. pose proof Hg as [Hs Hm Hf _ _]. cbn [srv_state srv_fills] in *.
    apply (state_ok usage_state _ (fun _ _ => True) _ handler_counts g g s _ fs);
      [exact Hs|by apply (media_ok_same s)|done|intros u; by apply kept_same|done]. }
  destruct Hx as [f Hg Hf Hcs|f bs Hg Hf Hne Hbs Hcs].
  - apply (counted_all _ f); [by apply Hok|done..].
  - apply (counted_flush _ f bs); [by apply Hok|done..].
Qed.

Lemma quiet_step_counted x y : system_inv y -> counted_inv x -> quiet_step x y -> counted_inv y.
Proof using CT HC ITER SHA.
  intros [[_ Hmy _ _ _] _] [Hx Hr] [(Hxy & Ha & Hp) [Hq Hfl]].
  destruct Hxy as [x y r Hxy|io x|X op k s fs cs|x|io ds ks x r Hi Hd Hk|X op k s fs cs|io t s fs cs s2 Hl|io t s fs cs r s2 ok Hc Hl];
    cbn [fst snd srv_state] in *; try done.
  - split; [|done]. by apply (serve_step_counted x).
  - split; [done|]. apply save_disk_only.
  - destruct Hr as [Hop Hk]. split; [|apply Hk]. by apply (disk_only_counted s).
  - split; [|done]. by eapply counted_start.
  - split; [|done]. by eapply counted_start.
Qed.

Lemma quiet_run_counted cfg t d x : rtc quiet_step (start cfg t d) x -> counted_inv x.
Proof using CT HC ITER SHA.
  intros Hx. assert (H0 : system_inv (start cfg t d) /\ counted_inv (start cfg t d)).
  { split; [split; [apply start_ok|done]|split; [|done]].
    apply counted_fresh; [apply State_new_Accounted|apply (start_ok cfg t d)]. }
  revert H0. induction Hx as [x|x z y Hxz _ IH]; intros [Hs Hc]; [done|].
  assert (Hz : system_inv z) by (by eapply step_ok, (proj1 Hxz)).
  apply IH. split; [done|by eapply quiet_step_counted].
Qed.

(** C24: the counters that are kept up to date one update at a time agree with
    the ones a fresh count of the maps gives, the way [recompute_usage] does it
    after a restart, through any interleaving of the operations of requests,
    redis commands, fills, unlinks, ticks, saves and restarts in which no
    eviction round runs, no redis command is in flight between the [retain] and
    the last store of a [FLUSH] of another client, no upload is closed by two
    requests at once and the 64-bit id counter does not wrap; and while a bucket
    holds less than 2^63 bytes, its counter is exactly the number of its bytes.
    While a [FLUSH] has yet to store counters, this holds of the buckets of blobs
    and manifests. *)
Theorem counters_recomputed cfg t d y r :
  rtc quiet_step (start cfg t d) (y, r) ->
  forall b, (b ∈ redis_buckets -> Forall (fun h => ~ mid_flush h) (commands y)) ->
    usage (srv_state y) b = usage (recompute_usage (srv_state y)) b /\
    ((charge b (srv_state y) < I63)%Z -> usage (srv_state y) b = charge b (srv_state y)).
Proof.
  intros Hxy b Hb. destruct (quiet_run_counted cfg t d (y, r) Hxy) as [Hy _]. cbn [fst] in Hy.
  assert (Hu : usage (srv_state y) b = wrap_i64 (charge b (srv_state y))).
  { destruct Hy as [f [[Ho _] _ _ _ _] Hf _|f bs [[Ho _] _ _ _ _] Hf Hne Hbs Hcs]; cbn [fst] in Ho.
    - rewrite (Ho b), (owed_nil f Hf b). done.
    - rewrite (Ho b), (Hf b); [done|]. intros Hin. specialize (Hb (Hbs b Hin)). rewrite Hcs in Hb.
      by apply (Forall_inv Hb), clearing_mid. }
  split; [by rewrite (recompute_usage_Accounted (srv_state y) b)|]. intros Hlt. rewrite Hu.
  apply wrap_i64_small. pose proof (charge_nonneg b (srv_state y)). unfold I63 in *. lia.
Qed.

(** ** Why a [FLUSH] must be alone *)
Lemma command_ahead n h s fs cs1 cs2 :
  rtc serve_step (mkServer s fs (cs1 ++ Command h :: cs2))
    (mkServer (ahead n h s).2 fs (cs1 ++ Command (ahead n h s).1 :: cs2)).
Proof.
  revert h s. induction n as [|n IH]; intros h s; [by destruct h|]. destruct h as [r|X op k]; [done|].
  eapply rtc_l; [apply step_command_operation|]. apply IH.
Qed.

Definition flushall : list bytes := [$"FLUSHALL"].
Definition set_of (key value : bytes) : list bytes := [$"SET"; key; value].

(** The [SET], on the emptied map. *)
Definition raced io (key value : bytes) s : State :=
  (run (execute_steps io true (set_of key value)) (flush_entries (metric_add redis_commands 1 s))).1.

Lemma raced_entries io key v s :
  exists id t, redis_entries (raced io key v s) = {[ key := RedisEntry.InMemory v id t ]} /\
    stored (raced io key v s) (ORedis key) = Some v /\
    run (execute_steps io true (set_of key v)) (flush_entries (metric_add redis_commands 1 s)) = (raced io key v s, Ok flushed).
Proof.
  unfold raced. set (s1 := flush_entries _).
  assert (Hrun : run (execute_steps io true (set_of key v)) s1 =
    (metric_add redis_set 1 (insert_redis key v (metric_add redis_commands 1 s1)).2, Ok flushed)).
  { rewrite execute_run. unfold execute, set_of. cbv zeta.
    assert (verb_of (cmd_of (default [] (head [$"SET"; key; v]))) = SET) as -> by reflexivity. done. }
  rewrite Hrun. set (s2 := metric_add redis_commands 1 s1). cbn [fst].
  destruct (insert_redis_fields key v s2) as (Hr & _). eexists _, _. split_and!.
  - transitivity (redis_entries (insert_redis key v s2).2); [done|]. rewrite Hr. reflexivity.
  - change (stored (insert_redis key v s2).2 (ORedis key) = Some v). rewrite insert_redis_stored. by rewrite decide_True.
  - done.
Qed.

(** The counters after the stores, and after the entry is deleted again. *)
Lemma cleared s b : b ∈ redis_buckets -> usage (run (clear redis_buckets) s).1 b = 0%Z.
Proof.
  intros Hb. rewrite clear_run. cbn [foldl fst redis_buckets]. unfold usage_store. state_simpl.
  unfold redis_buckets in Hb. rewrite !elem_of_cons in Hb. destruct Hb as [->|[->|[->|[]%elem_of_nil]]]; reflexivity.
Qed.

Lemma charge_single s key e b :
  redis_entries s = {[ key := e ]} -> b ∈ redis_buckets -> charge b s = redis_share b key e.
Proof.
  intros Hr Hb. pose proof (charge_set_redis_insert b (set_redis_entries ∅ s) key e) as H. state_simpl.
  change (set_redis_entries _ (set_redis_entries ∅ s)) with (set_redis_entries {[ key := e ]} s) in H.
  rewrite (charge_no_redis (set_redis_entries ∅ s)) in H by done. rewrite <- Hr in H.
  change (redis_entries (set_redis_entries ∅ s)) with (∅ : gmap bytes RedisEntry.t) in H. rewrite lookup_empty in H. cbn [from_option] in H.
  replace (set_redis_entries (redis_entries s) s) with s in H by (by destruct s). lia.
Qed.

(** C12: a defect. [FLUSHALL] empties the map with [retain] and only then stores 0
    in each of the three redis counters. When a [SET] of another client runs
    between the two, both clients are told OK and the entry is there, but it is
    not counted: the redis counters are 0 although the entry is charged, and
    deleting it later takes them below zero. *)
Theorem flush_race io key v s fs :
  (Z.of_N (blen key) + Z.of_N (blen v) < I63)%Z ->
  exists s',
    rtc serve_step
      (mkServer s fs [Command (execute_steps io true flushall); Command (execute_steps io true (set_of key v))])
      (mkServer s' fs [Command (Done (Ok flushed)); Command (Done (Ok flushed))]) /\
    stored s' (ORedis key) = Some v /\
    (forall b, b ∈ redis_buckets -> usage s' b = 0%Z) /\
    (charge small_redis_memory_usage s' + charge large_redis_memory_usage s' = Z.of_N (blen key) + Z.of_N (blen v))%Z /\
    let s2 := (remove_redis key s').2 in
    (forall b, b ∈ redis_buckets -> charge b s2 = 0%Z) /\
    (usage s2 small_redis_memory_usage + usage s2 large_redis_memory_usage = - (Z.of_N (blen key) + Z.of_N (blen v)))%Z.
Proof.
  intros Hlt. destruct (raced_entries io key v s) as (id & t & Hr & Hst & Hrun).
  set (e := RedisEntry.InMemory v id t) in *.
  set (s' := (run (clear redis_buckets) (raced io key v s)).1).
  assert (Hr' : redis_entries s' = {[ key := e ]}) by (unfold s'; rewrite clear_run; exact Hr).
  assert (Hu : forall b, b ∈ redis_buckets -> usage s' b = 0%Z) by (intros; by apply cleared).
  assert (Hin : small_redis_memory_usage ∈ redis_buckets /\ large_redis_memory_usage ∈ redis_buckets)
    by (unfold redis_buckets; set_solver).
  exists s'. split_and!; [| |exact Hu| |cbv zeta; split].
  - etrans; [apply (command_ahead 2 _ s fs [])|].
    change (ahead 2 (execute_steps io true flushall) s) with (clearing redis_buckets, flush_entries (metric_add redis_commands 1 s)).
    cbn [fst snd]. etrans; [apply (command_operations_alone _ _ fs [_] [])|]. rewrite Hrun. cbn [fst snd].
    etrans; [apply (command_operations_alone (clearing redis_buckets) _ fs [] [_])|].
    unfold clearing. rewrite run_mbind, clear_run. cbn [fst snd]. unfold s'. rewrite clear_run. done.
  - cbn [stored]. unfold s'. rewrite clear_run. exact Hst.
  - rewrite !(charge_single s' key e) by (done || apply Hin). unfold redis_share, share. unfold e. cbn [redis_value_bucket].
    destruct (_ <? _)%N; cbn [fst snd]; repeat case_decide; try done; lia.
  - intros b Hbin. apply charge_no_redis; [|done]. rewrite (proj1 (remove_redis_fields key s')), Hr'. apply delete_singleton_eq.
  - unfold remove_redis. rewrite Hr', lookup_singleton_eq. unfold e. cbn [redis_value_bucket]. pose proof (Hu _ (proj1 Hin)) as H1. pose proof (Hu _ (proj2 Hin)) as H2.
    assert (Hw : forall n, (0 <= n < I63)%Z -> wrap_i64 n = n) by (intros; apply wrap_i64_small; lia).
    clearbody s'. destruct (_ <? _)%N; unfold usage_sub; state_simpl;
      repeat (rewrite ?fn_lookup_insert, ?(fn_lookup_insert_ne (usage s')) by done; rewrite ?fn_lookup_insert_ne by done);
      rewrite ?H1, ?H2, ?(Hw (Z.of_N (blen v))), ?(Hw (Z.of_N (blen key))) by lia;
      rewrite ?(wrap_i64_small (0 - Z.of_N (blen v))), ?(wrap_i64_small (0 - Z.of_N (blen key))) by (unfold I63 in *; lia);
      rewrite ?wrap_i64_small by (unfold I63 in *; lia); lia.
Qed.
End usage.
