(* ===== verification/SystemRuns.v ===== *)
(** * Runs of an idle server

    One request, or one command, that runs to its end while nothing else
    happens is a run of calm steps, as long as the ids last: [along] checks
    a condition at each of its operations. *)
From S2P Require Import Prelude Prog Digest Env Config State Eviction Text Redis RedisSteps Http.
From S2P Require Import DockerUpstream Docker DockerServe Snapshot SnapshotSteps EvictionSteps.
From S2P Require Import DockerSafe.
From S2P Require Import Server System.

(** [ok] holds before every operation of the uninterrupted program. *)
Fixpoint along {W E A} (ok : W -> bool) (m : prog W E A) (w : W) : bool :=
  match m with
  | Done _ => true
  | Atomic op k => ok w && along ok (k (op w).2) (op w).1
  end.

Section runs.
Context {SHA : Sha256} {CT : ConstantTimeEq} {ITER : MapIter} {HC : HttpCodecs}.
Context {JSON : SerdeJson} {HEAP : BinaryHeap} {CBOR : Cbor}.
Implicit Types (s : State) (fs : list Fill).

Definition ids_last s : bool := (next_id s + 1 <? U64)%N.

Lemma ids_last_left s : ids_last s = true -> ids_left s.
Proof. apply N.ltb_lt. Qed.

Lemma calm_operations req n h s fs :
  along (fun w => ids_last (w_state w)) h (mkWorld s n fs) = true ->
  let w := run h (mkWorld s n fs) in
  rtc calm_step (mkServer s fs [Registry req n h])
    (mkServer (w_state w.1) (w_fills w.1) [Registry req (w_calls w.1) (Done w.2)]).
Proof.
  cbv zeta. revert n s fs. induction h as [res|X op k IH]; intros n s fs; cbn [run along]; [intros _; apply rtc_refl|].
  intros [Hi%ids_last_left Hh]%andb_true_iff. eapply rtc_l.
  - split; [exact (step_operation req n X op k s fs [] [])|split; [exact Hi|cbn; lia]].
  - destruct (op (mkWorld s n fs)) as [[s' n' fs'] x]. by apply IH.
Qed.

(** A whole request, from its arrival; it is answered when it has ended. *)
Lemma calm_request io net u req s :
  along (fun w => ids_last (w_state w)) (handle_request_inner io net u req) (mkWorld s 0 []) = true -> ids_left s ->
  let w := run (handle_request_inner io net u req) (mkWorld s 0 []) in
  rtc calm_step (mkServer s [] [])
    (mkServer (w_state w.1) (w_fills w.1) [Registry req (w_calls w.1) (Done w.2)]).
Proof.
  intros Hh Hi. pose proof (calm_operations req 0 (handle_request_inner io net u req) s [] Hh) as H.
  eapply rtc_l; [|exact H].
  split; [exact (step_request io net u req s [] [] [])|split; [exact Hi|cbn; lia]].
Qed.

Lemma calm_answer req n res s fs :
  ids_left s -> calm_step (mkServer s fs [Registry req n (Done res)]) (mkServer s fs []).
Proof.
  intros Hi. split; [exact (step_answer req n res s fs [] [])|split; [exact Hi|cbn; lia]].
Qed.

Lemma calm_served io net u req s s' fs resp :
  along (fun w => ids_last (w_state w)) (handle_request_inner io net u req) (mkWorld s 0 []) = true ->
  ids_left s -> ids_left s' -> handle_request io net u req s = (s', fs, resp) ->
  rtc calm_step (mkServer s [] []) (mkServer s' fs []).
Proof.
  intros Hh Hi Hi' H. pose proof (calm_request io net u req s Hh Hi) as Hr. unfold handle_request in H.
  destruct (run _ _) as [w res]. cbn [fst snd] in Hr. injection H as <- <- _.
  eapply rtc_r; [exact Hr|by apply calm_answer].
Qed.

(** A whole command. *)
Lemma calm_command io authed args s fs :
  along ids_last (execute_steps io authed args) s = true -> ids_left s -> ids_left (execute io authed args s).1.1 ->
  rtc calm_step (mkServer s fs []) (mkServer (execute io authed args s).1.1 fs []).
Proof.
  intros Hh Hi Hi'. assert (Hr : forall h s, along ids_last h s = true ->
    rtc calm_step (mkServer s fs [Command h]) (mkServer (run h s).1 fs [Command (Done (run h s).2)])).
  { induction h as [x|X op k IH]; intros s1; cbn [run along]; [done|].
    intros [H1%ids_last_left H2]%andb_true_iff. eapply rtc_l; [|by apply IH].
    split; [exact (step_command_operation X op k s1 fs [] [])|split; [exact H1|cbn; lia]]. }
  specialize (Hr _ s Hh). rewrite execute_run in Hr. destruct (execute io authed args s) as [[s' reply] o].
  cbn [fst snd] in *. eapply rtc_l; [|eapply rtc_r; [exact Hr|]].
  - split; [exact (step_command io authed args s fs [] [])|split; [exact Hi|cbn; lia]].
  - split; [exact (step_reply _ s' fs [] [] (ended_not_flush _))|split; [exact Hi'|cbn; lia]].
Qed.

(** A tick. *)
Lemma calm_tick t s fs :
  ids_left s -> calm_step (mkServer s fs []) (mkServer (time_update t s) fs []).
Proof. intros Hi. split; [apply step_tick|split; [exact Hi|cbn; lia]]. Qed.

(** Operations of a round of the eviction loop: the first few, or all. *)
Lemma calm_ahead n (m : E unit) s fs :
  along ids_last m s = true ->
  rtc orderly_step (mkServer s fs [], Some (Round m)) (mkServer (ahead n m s).2 fs [], Some (Round (ahead n m s).1)).
Proof.
  revert m s. induction n as [|n IH]; intros m s; [by destruct m|]. destruct m as [r|X op k]; [done|]. cbn [along ahead].
  intros [Hi%ids_last_left Hk]%andb_true_iff. eapply rtc_l; [|by apply IH].
  split; [apply step_round_operation|]. split; [exact Hi|apply NoDup_nil_2].
Qed.

Lemma calm_rest (m : E unit) s y fs :
  run m s = y -> along ids_last m s = true -> ids_last y.1 = true -> y.2 = Ok tt ->
  rtc orderly_step (mkServer s fs [], Some (Round m)) (mkServer y.1 fs [], None).
Proof.
  intros <-. revert s. induction m as [r|X op k IH]; intros s; cbn [along run].
  - intros _ Hi%ids_last_left [= ->]. apply rtc_once. split; [apply step_round_end|]. split; [exact Hi|apply NoDup_nil_2].
  - intros [Hi%ids_last_left Hk]%andb_true_iff Hl Hr. eapply rtc_l; [|by apply IH].
    split; [apply step_round_operation|]. split; [exact Hi|apply NoDup_nil_2].
Qed.

Lemma calm_round io s fs :
  ids_left s -> orderly_step (mkServer s fs [], None) (mkServer s fs [], Some (Round (round_steps io))).
Proof. intros Hi. split; [apply step_round|]. split; [exact Hi|apply NoDup_nil_2]. Qed.
(** A save, from where it is to its end. *)
Lemma calm_saving (m : V unit) s y fs :
  run m s = y -> along ids_last m s = true -> y.2 = Ok tt ->
  rtc orderly_step (mkServer s fs [], Some (Saving m)) (mkServer y.1 fs [], Some (Saving (Done (Ok tt)))).
Proof.
  intros <-. revert s. induction m as [r|X op k IH]; intros s; cbn [along run]; [by intros _ [= ->]|].
  intros [Hi%ids_last_left Hk]%andb_true_iff Hr. eapply rtc_l; [|by apply IH].
  split; [apply step_save_operation|]. split; [exact Hi|apply NoDup_nil_2].
Qed.

(** The shutdown and the next start. *)
Lemma calm_save io ds ks s fs :
  ids_left s -> NoDup ds -> NoDup ks ->
  orderly_step (mkServer s fs [], None) (mkServer s fs [], Some (Saving (save_steps io ds ks))).
Proof. intros Hi Hd Hk. split; [by apply step_save|]. split; [exact Hi|apply NoDup_nil_2]. Qed.

Lemma calm_restart io t s fs y :
  ids_left s -> load_or_wipe io (State_new (config s) t (disk s)) = y -> y.2 = true ->
  orderly_step (mkServer s fs [], Some (Saving (Done (Ok tt)))) (mkServer y.1 [] [], None).
Proof.
  destruct y as [s2 ok]. cbn [fst snd]. intros Hi Hl ->. split; [exact (step_restart io t s fs [] s2 Hl)|].
  split; [exact Hi|apply NoDup_nil_2].
Qed.
End runs.
