(* ===== verification/DockerExamples.v ===== *)
(** * The registry on concrete requests

    An executable instance of the codecs, small requests, and the theorems of
    the Docker files at them. *)
From S2P Require Import Prelude Prog Digest Env Config State Disk EvictionExamples Text Redis.
From S2P Require Import RedisSteps Http.
From S2P Require Import DockerUpstream.
From S2P Require Import Docker DockerServe DockerLogic DockerAuth DockerContent DockerMedia.
From S2P Require Import DockerSafe.
From S2P Require Import DockerAnswers DockerRoutes.
From S2P Require Import DockerUploads DockerManifests DockerBlobs DockerText RedisExamples.
From S2P Require Import Eviction EvictionSteps SnapshotExamples Server DockerVerified System.
From S2P Require Import SystemUsage.
From S2P Require Import SystemRuns Accounting Snapshot.

(** ** Codecs: headers are printable ASCII, a UUID is printed in unary, the
    other encodings are the identity *)
Definition toy_uuid (u : N) : bytes := repeat "a"%char (N.to_nat u).

Lemma toy_uuid_chars u c : c ∈ toy_uuid u -> c = "a"%char.
Proof. intros H%list_elem_of_In. by apply repeat_spec in H. Qed.

#[export, refine] Instance toy_http : HttpCodecs := {|
  header_to_str b := if forallb (byte_in 32 126) b then Some b else None;
  header_value_ok b := forallb (byte_in 32 126) b;
  base64_decode b := Some b;
  base64_encode b := b;
  uuid_parse_str b := Some (N.of_nat (length b));
  uuid_to_string := toy_uuid;
  urldecode b := b;
  urlencode b := b;
  token_response b := Some (Some b, None);
  status_display := dec
|}.
Proof.
  - done.
  - intros u. unfold toy_uuid. by rewrite repeat_length, N2Nat.id.
  - intros u Hc. by apply toy_uuid_chars in Hc.
  - intros u c Hc. by apply toy_uuid_chars in Hc as ->.
  - intros b Hb. apply forallb_forall. intros c Hc. by apply Hb, list_elem_of_In.
  - intros b t. by destruct (forallb _ b) eqn:E; [intros [= <-]|].
Defined.

(** ** Servers and requests *)
Definition open_config : Config := example_config 1000 400 100000.
Definition open_server : State := State_new open_config 7 ∅.

Definition guarded_config : Config :=
  mkConfig None None $"/data" 1000 (Some 400%N) 100000 [mkDockerUser $"ann" $"pw"] ∅ None None.
Definition guarded_server : State := State_new guarded_config 7 ∅.

Definition no_network : Network := fun _ _ => None.

Definition request (m : Method.t) (path : bytes) (query : option bytes) (body : bytes) : Request :=
  mkRequest m path query (fun _ => None) (Some body).

Lemma open_authorized s req : config s = open_config -> authorized s req.
Proof. intros Hs. left. by rewrite Hs. Qed.

Lemma is_request_of m path q body : is_request m path body (request m path q body).
Proof. done. Qed.

(** A blob and its digest. *)
Definition content : bytes := $"some bytes".
Definition content_digest : Digest := toy_digest content.
Definition blob_path (host : bytes) : bytes :=
  $"/v2/" ++ host ++ $"/app/blobs/" ++ digest_to_string content_digest.

Definition push : Request :=
  request Method.POST $"/v2/self/app/blobs/uploads/" (Some ($"digest=" ++ digest_to_string content_digest)) content.
Definition push_result := handle_request io_fine no_network 1 push open_server.
Definition stocked : State := push_result.1.1.

Lemma push_eq : handle_request io_fine no_network 1 push open_server = (stocked, [], push_result.2).
Proof.
  assert (H : push_result.1.2 = []) by (vm_compute; reflexivity).
  fold push_result. unfold stocked. destruct push_result as [[s' fs] resp]. simpl in H. by subst fs.
Qed.

Lemma push_along : along (fun w => ids_last (w_state w)) (handle_request_inner io_fine no_network 1 push)
  (mkWorld open_server 0 []) = true.
Proof. vm_compute. reflexivity. Qed.
Lemma open_ids : ids_left open_server.
Proof. apply ids_last_left. vm_compute. reflexivity. Qed.
Lemma stocked_ids : ids_left stocked.
Proof. apply ids_last_left. vm_compute. reflexivity. Qed.

Lemma push_run : rtc calm_step (mkServer open_server [] []) (mkServer stocked [] []).
Proof.
  exact (calm_served io_fine no_network 1 push open_server stocked [] push_result.2 push_along open_ids stocked_ids
    push_eq).
Qed.

Lemma stocked_reachable : rtc orderly_step (start open_config 7 ∅) (mkServer stocked [] [], None).
Proof. apply calm_run, push_run. Qed.

Definition pull : Request := request Method.GET (blob_path $"self") None [].

Lemma pull_route : parse_route (req_path pull) = Ok ($"self", $"app", $"blobs", digest_to_string content_digest).
Proof. vm_compute. reflexivity. Qed.

Lemma stocked_ok : system_ok (mkServer stocked [] []).
Proof. exact (proj1 (reachable_inv open_config 7 ∅ _ stocked_reachable)). Qed.

Lemma stocked_config : config stocked = open_config.
Proof. vm_compute. reflexivity. Qed.

(** ** The theorems at these inputs *)
Lemma docker_requires_auth_witness : exists s',
  handle_request io_fine no_network 1 pull guarded_server = (s', [], Some unauthorized_response) /\
  metrics_only guarded_server s' /\
  w_calls (run (handle_request_inner io_fine no_network 1 pull) (mkWorld guarded_server 0 [])).1 = 0.
Proof.
  apply (docker_requires_auth io_fine no_network 1 pull guarded_server).
  intros [H|(u & _ & H)]; discriminate H.
Defined.

Definition push_upstream : Request := request Method.PUT $"/v2/docker.io/app/manifests/v1" None content.
Definition push_upstream_result := handle_request io_fine no_network 1 push_upstream open_server.

Lemma upstream_is_read_only_witness :
  metrics_only open_server push_upstream_result.1.1 /\ push_upstream_result.1.2 = [] /\
  exists r, push_upstream_result.2 = Some r /\ (resp_status r = 401 \/ resp_status r = 404 \/ resp_status r = 405)%N.
Proof.
  apply (upstream_is_read_only io_fine no_network 1 push_upstream open_server $"docker.io" $"app" $"manifests" $"v1").
  - vm_compute. reflexivity.
  - by vm_compute.
  - reflexivity.
  - fold push_upstream_result. by destruct push_upstream_result as [[]].
Defined.

Lemma handle_request_answers_witness :
  is_Some push_result.2 /\ media_ok stocked /\
  forall f s2, f ∈ push_result.1.2 -> media_ok s2 -> media_ok (run_fill f s2).
Proof.
  apply (handle_request_answers io_fine no_network 1 push open_server stocked push_result.1.2 push_result.2).
  - by split.
  - fold push_result. unfold stocked. by destruct push_result as [[]].
Defined.

(** Three pieces, the last one in the closing request. *)
Definition open_upload : Request := request Method.POST (uploads_path $"app") None [].
Definition patch1 : Request := request Method.PATCH (upload_location $"app" 3) None $"some".
Definition patch2 : Request := request Method.PATCH (upload_location $"app" 3) None $" byt".
Definition close_upload : Request :=
  request Method.PUT (upload_location $"app" 3) (Some ($"digest=" ++ digest_to_string content_digest)) $"es".

Lemma chunked_upload_witness : exists s' resps,
  serve_all io_fine no_network 3 [open_upload; patch1; patch2; close_upload] open_server = (s', resps) /\
  statuses resps = [Some 202; Some 202; Some 202; Some 201]%N /\
  stored s' (OBlob content_digest) = Some content /\ uploads s' !! 3%N = None.
Proof.
  apply (chunked_upload io_fine no_network 3 $"app" open_upload [patch1; patch2] close_upload []
    [$"some"; $" byt"] $"es" open_server);
    try (by left); try done.
  - by apply visible_const.
  - repeat constructor.
  - repeat constructor.
Defined.

(** Two clients close the upload 3. *)
Definition collected : Upload := @mkUpload toy_sha256 content content.
Definition collecting : State := set_uploads {[ 3%N := collected ]} open_server.
Definition close_again : Request :=
  request Method.PUT (upload_location $"app" 3) (Some ($"digest=" ++ digest_to_string content_digest)) [].

Lemma second_close_empties_blob_witness :
  let put req := put_blob_upload req $"self" $"app" (uuid_to_string 3) in
  exists waiting s1 s2 r1 r2,
    rtc prog_step (put close_again, mkWorld collecting 0 []) (waiting, mkWorld collecting 0 []) /\
    run (put close_again) (mkWorld collecting 0 []) = (mkWorld s1 0 [], Ok r1) /\ resp_status r1 = 201%N /\
    stored s1 (OBlob content_digest) = Some content /\
    run waiting (mkWorld s1 0 []) = (mkWorld s2 0 [], Ok r2) /\ resp_status r2 = 201%N /\
    stored s2 (OBlob content_digest) = Some [] /\ ~ addressed s2.
Proof.
  apply (second_close_empties_blob $"app" 3 [] content_digest close_again close_again collected
    (@mkUpload toy_sha256 [] content) content collecting 0 []).
  - by apply visible_const.
  - by split; [|vm_compute].
  - by split; [|vm_compute].
  - apply lookup_singleton_eq.
  - vm_compute. reflexivity.
  - by_decide.
Defined.

Definition push_manifest : Request := request Method.PUT (manifest_path $"app" $"v1") None content.
Definition pull_manifest : Request :=
  request Method.GET (manifest_path $"app" (digest_to_string content_digest)) None [].

Lemma manifest_roundtrip_witness : exists s1 s2 created,
  handle_request io_fine no_network 1 push_manifest open_server = (s1, [], Some created) /\
  resp_status created = 201%N /\
  handle_request io_fine no_network 1 pull_manifest s1 = (s2, [], Some (mkResponse 200
    (manifest_headers $"application/vnd.docker.distribution.manifest.v2+json" content_digest content)
    (Full content))).
Proof.
  apply (manifest_roundtrip io_fine no_network 1 1 $"app" $"v1" content push_manifest pull_manifest open_server
    (digest_to_string content_digest)); try (by left); try done.
  - by apply visible_const.
  - by_decide.
  - by right.
Defined.

Lemma cached_blob_served_witness : exists s' resp mt,
  handle_request io_fine no_network 1 pull stocked = (s', [], Some resp) /\
  resp_status resp = 200%N /\ resp_headers resp = blob_headers mt content_digest (dec (blen content)) /\
  body_bytes (resp_body resp) = Some content /\
  (forall o, stored s' o = stored stocked o) /\
  Blob.last_accessed <$> blobs s' !! content_digest = Some (now stocked) /\
  w_calls (run (handle_request_inner io_fine no_network 1 pull) (mkWorld stocked 0 [])).1 = 0.
Proof.
  apply (cached_blob_served io_fine no_network 1 pull stocked $"self" $"app" content_digest content).
  - by apply open_authorized, stocked_config.
  - exact pull_route.
  - by left.
  - vm_compute. reflexivity.
  - apply (ro_files _ (proj1 (sok_state _ _ _ _ _ stocked_ok))).
  - apply (sok_media _ _ _ _ _ stocked_ok).
  - done.
Defined.

(** An upstream server that has the blob, and sends it in two frames. *)
Definition upstream_has : Network := fun _ _ =>
  Some (mkUpResponse 200 (fun _ => None) [Some $"some "; Some $"bytes"]).
Definition pull_upstream : Request := request Method.GET (blob_path $"docker.io") None [].

Lemma pull_through_witness : exists s1 fill r,
  handle_request io_fine upstream_has 1 pull_upstream open_server = (s1, [fill], Some r) /\
  metrics_only open_server s1 /\ resp_status r = 200%N /\
  resp_body r = Streaming [Some $"some "; Some $"bytes"] /\
  forall s2, stored (run_fill fill s2) (OBlob content_digest) = Some content.
Proof.
  destruct (pull_through io_fine upstream_has 1 pull_upstream open_server $"docker.io" $"app" content_digest
    (mkUpResponse 200 (fun _ => None) [Some $"some "; Some $"bytes"])) as (s1 & fill & r & H1 & H2 & H3 & H4 & H5).
  - by left.
  - vm_compute. reflexivity.
  - reflexivity.
  - reflexivity.
  - by vm_compute.
  - reflexivity.
  - reflexivity.
  - exists s1, fill, r. split_and!; [exact H1|exact H2|exact H3|exact H4|].
    intros s2. specialize (H5 s2). cbn [us_body collect mbind option_bind app] in H5.
    rewrite decide_True in H5 by (vm_compute; reflexivity). exact H5.
Defined.

Lemma parse_bearer_header_witness :
  parse_bearer_challenge (bearer_header $"https://auth.docker.io/token" $"registry.docker.io" $"repository:app:pull") =
  Some (mkBearerChallenge $"https://auth.docker.io/token" (Some $"registry.docker.io") (Some $"repository:app:pull")).
Proof.
  assert (H : forall v, forallb (fun c => negb (bool_decide (c = "034"%char)) && negb (bool_decide (c = "092"%char))
    && (N_of_ascii c <? 128)%N) v = true -> quotable v).
  { intros v Hv c Hc%list_elem_of_In. rewrite forallb_forall in Hv. apply Hv in Hc.
    rewrite !andb_true_iff, !negb_true_iff, !bool_decide_eq_false, N.ltb_lt in Hc. tauto. }
  apply (parse_bearer_header $"https://auth.docker.io/token" $"registry.docker.io" $"repository:app:pull");
    apply H; vm_compute; reflexivity.
Defined.

Lemma reachable_ok_witness : system_ok (mkServer stocked [] []).
Proof. exact (reachable_ok open_config 7 ∅ _ None stocked_reachable). Defined.






Lemma calm_quiet x y : calm_step x y -> quiet_step (x, None) (y, None).
Proof.
  intros H. split; [by apply calm_orderly|]. split; [done|]. destruct H as (_ & _ & Hl).
  intros h Hh _. unfold commands in *. cbn [fst] in *. destruct (srv_clients y) as [|c [|]]; cbn in *;
    [by apply not_elem_of_nil in Hh| |lia]. destruct (client_command c); cbn in *; [|by apply not_elem_of_nil in Hh].
  by apply list_elem_of_singleton in Hh as ->.
Qed.

Lemma push_quiet : rtc quiet_step (mkServer open_server [] [], None) (mkServer stocked [] [], None).
Proof. exact (rtc_congruence (fun x => (x, None)) _ _ _ calm_quiet push_run). Qed.

Lemma counters_recomputed_witness :
  usage stocked small_blob_memory_usage = 10%Z /\
  usage stocked small_blob_memory_usage = usage (recompute_usage stocked) small_blob_memory_usage.
Proof.
  destruct (counters_recomputed open_config 7 ∅ (mkServer stocked [] []) None push_quiet small_blob_memory_usage) as [H1 H2].
  { intros H. by apply Forall_nil_2. }
  split; [|exact H1]. refine (eq_trans (H2 _) _); by vm_compute.
Defined.

(** A [SET] that meets a [FLUSHALL]. *)
Lemma flush_race_witness : exists s',
  stored s' (ORedis $"k") = Some $"hello" /\ usage s' small_redis_memory_usage = 0%Z /\
  (charge small_redis_memory_usage s' + charge large_redis_memory_usage s' = 6)%Z.
Proof.
  destruct (flush_race io_fine $"k" $"hello" open_server []) as (s' & _ & H1 & H2 & H3 & _); [by vm_compute|].
  exists s'. split_and!; [exact H1|apply H2; by left|exact H3].
Defined.

