(* ===== verification/SystemExamples.v ===== *)
(** * A push during an eviction pass

    A client pushes a manifest while a pass runs, after checking that its
    layer is there. The pass decided with the table of its scan, and deletes
    the layer. And a history of commands: a value is spilled and replaced, and
    its file unlinked. *)
From S2P Require Import Prelude Prog Digest Env Config Counters State Disk Eviction.
From S2P Require Import EvictionFrame.
From S2P Require Import EvictionSteps EvictionExamples Text Redis RedisSteps RedisSpec.
From S2P Require Import RedisHistory Http.
From S2P Require Import DockerUpstream Docker DockerServe RedisExamples SnapshotExamples Server.
From S2P Require Import System.
From S2P Require Import SystemRuns DockerExamples.

(** The blob was pushed long ago, and a redis client has filled the small
    pool: the pass begins. *)
Definition set_big : list bytes := [$"SET"; $"k"; filled 450 "v"].
Definition later : State := time_update 100000 stocked.
Definition full : State := (execute io_fine true set_big later).1.1.
(** Seven operations into the round, the maps have been scanned. *)
Definition scanned_round : E unit * State := ahead 7 (round_steps io_fine) full.
Definition scanned : State := scanned_round.2.
Definition rest : E unit := scanned_round.1.

(** The client: [HEAD] of the layer, then [PUT] of a manifest that names it. *)
Definition check_layer : Request := request Method.HEAD (blob_path $"self") None [].
Definition checked := handle_request io_fine no_network 1 check_layer scanned.
Definition push_manifest : Request :=
  request Method.PUT $"/v2/self/app/manifests/v1" None (digest_to_string content_digest).
Definition pushed := handle_request io_fine no_network 1 push_manifest checked.1.1.

(** The rest of the pass. *)
Definition finished := run rest pushed.1.1.
Definition after : State := finished.1.
Definition read_layer := handle_request io_fine no_network 1 pull after.

Lemma set_big_run : rtc calm_step (mkServer later [] []) (mkServer full [] []).
Proof. apply (calm_command io_fine true set_big later []); [|apply ids_last_left..]; vm_compute; reflexivity. Qed.

Lemma set_big_left : ids_left full.
Proof. apply ids_last_left. vm_compute. reflexivity. Qed.

Lemma scan_along : along ids_last (round_steps io_fine) full = true.
Proof. vm_compute. reflexivity. Qed.
Lemma scan_runs :
  rtc orderly_step (mkServer full [] [], Some (Round (round_steps io_fine))) (mkServer scanned [] [], Some (Round rest)).
Proof. exact (calm_ahead 7 (round_steps io_fine) full [] scan_along). Qed.

Lemma rest_along : along ids_last rest pushed.1.1 = true.
Proof. vm_compute. reflexivity. Qed.
Lemma rest_last : ids_last finished.1 = true.
Proof. vm_compute. reflexivity. Qed.
Lemma rest_ends : finished.2 = Ok tt.
Proof. vm_compute. reflexivity. Qed.
Lemma finished_eq : run rest pushed.1.1 = finished.
Proof. unfold finished. reflexivity. Qed.
Lemma rest_runs : rtc orderly_step (mkServer pushed.1.1 [] [], Some (Round rest)) (mkServer after [] [], None).
Proof. unfold after. exact (calm_rest rest pushed.1.1 finished [] finished_eq rest_along rest_last rest_ends). Qed.

(** A request that starts no fill and that nothing interrupts. *)
Definition serves (req : Request) (s : State) : bool :=
  let '(s', fs, _) := handle_request io_fine no_network 1 req s in
  along (fun w => ids_last (w_state w)) (handle_request_inner io_fine no_network 1 req) (mkWorld s 0 [])
  && ids_last s && ids_last s' && match fs with [] => true | _ => false end.

Lemma serves_run req s r :
  handle_request io_fine no_network 1 req s = r -> serves req s = true ->
  rtc calm_step (mkServer s [] []) (mkServer r.1.1 [] []).
Proof.
  intros E. unfold serves. rewrite E. destruct r as [[s' fs] resp].
  intros [[[Ha Hi%ids_last_left]%andb_true_iff Hi'%ids_last_left]%andb_true_iff Hf]%andb_true_iff.
  destruct fs; [|discriminate Hf]. exact (calm_served _ _ _ _ _ _ _ _ Ha Hi Hi' E).
Qed.

Lemma checked_eq : handle_request io_fine no_network 1 check_layer scanned = checked.
Proof. unfold checked. reflexivity. Qed.
Lemma pushed_eq : handle_request io_fine no_network 1 push_manifest checked.1.1 = pushed.
Proof. unfold pushed. reflexivity. Qed.
Lemma serves_check : serves check_layer scanned = true.
Proof. vm_compute. reflexivity. Qed.
Lemma serves_push : serves push_manifest checked.1.1 = true.
Proof. vm_compute. reflexivity. Qed.

Lemma client_runs : rtc calm_step (mkServer scanned [] []) (mkServer pushed.1.1 [] []).
Proof. exact (transitivity (serves_run _ _ _ checked_eq serves_check) (serves_run _ _ _ pushed_eq serves_push)). Qed.

Lemma pushed_manifest : exists k m,
  manifests after !! k = Some m /\ content_digest ∈ referenced_digests (m_content m).
Proof.
  assert (H : match manifests after !! toy_digest (digest_to_string content_digest) with
              | Some m => bool_decide (content_digest ∈ referenced_digests (m_content m))
              | None => false
              end = true) by (vm_compute; reflexivity).
  destruct (manifests after !! toy_digest (digest_to_string content_digest)) as [m|] eqn:Em; [|discriminate H].
  exists (toy_digest (digest_to_string content_digest)), m. split; [exact Em|]. by apply bool_decide_eq_true in H.
Qed.

(** C36: a defect. In this run of the server the layer is there when the client
    checks it and the manifest that names it is pushed with success; the
    eviction pass that was running deletes the layer nevertheless, since it
    goes by the references and the access times of its scan, and the pushed
    image cannot be pulled any more. *)
Theorem push_during_pass :
  let running := Some (Round rest) in
  rtc orderly_step (start open_config 7 ∅) (mkServer scanned [] [], running) /\
  resp_status <$> checked.2 = Some 200%N /\ resp_status <$> pushed.2 = Some 201%N /\
  rtc orderly_step (mkServer scanned [] [], running) (mkServer pushed.1.1 [] [], running) /\
  rtc orderly_step (mkServer pushed.1.1 [] [], running) (mkServer after [] [], None) /\
  (exists k m, manifests after !! k = Some m /\ content_digest ∈ referenced_digests (m_content m)) /\
  resp_status <$> read_layer.2 = Some 404%N.
Proof.
  cbv zeta. split_and!.
  - etrans; [exact stocked_reachable|].
    eapply rtc_l; [apply calm_orderly; exact (calm_tick 100000 stocked [] stocked_ids)|].
    etrans; [apply calm_run; exact set_big_run|].
    eapply rtc_l; [exact (calm_round io_fine full [] set_big_left)|exact scan_runs].
  - vm_compute. reflexivity.
  - vm_compute. reflexivity.
  - apply calm_run, client_runs.
  - exact rest_runs.
  - exact pushed_manifest.
  - vm_compute. reflexivity.
Qed.

(** ** A history of the key-value store *)
Definition set_large : list bytes := [$"SET"; $"key-one"; filled 3000 "x"].
Definition spilt_before : State := (execute io_fine true set_large example_new).1.1.
Definition spilt : State := match evict io_fine spilt_before with Some (s, _) => s | None => spilt_before end.
Definition replaced : State := (execute io_fine true set_key spilt).1.1.
Definition unlinked : State := run_unlink io_fine (cache_path example_new 0) [] replaced.

Lemma spilt_evict : evict io_fine spilt_before = Some (spilt, true).
Proof.
  assert (match evict io_fine spilt_before with Some (_, b) => b | None => false end = true) as H
    by (vm_compute; reflexivity).
  unfold spilt. destruct (evict io_fine spilt_before) as [[s b]|]; [by subst b|done].
Qed.

Lemma history_ran_at authed args (s : State) reply next :
  args <> [] -> (next_id s + 1 <? U64)%N = true -> (execute io_fine authed args s).1.2 = reply ->
  (execute io_fine authed args s).2 = next -> history_step s (Ran authed args reply next) (execute io_fine authed args s).1.1.
Proof.
  intros Ha Hi%N.ltb_lt <- <-. apply (history_ran io_fine); [done..|]. by destruct (execute io_fine authed args s) as [[s' r] o].
Qed.

Definition history : list event :=
  [Ran true set_large (write_simple $"OK") (Some true); Passed; Ran true set_key (write_simple $"OK") (Some true);
   Silent; Ran true get_key (write_bulk $"value") (Some true)].

Lemma history_runs : trace history_step example_new history (execute io_fine true get_key unlinked).1.1.
Proof.
  eapply trace_cons; [apply history_ran_at; [done|vm_compute; reflexivity..]|].
  eapply trace_cons; [exact (history_passed io_fine _ _ _ spilt_evict)|].
  eapply trace_cons; [apply history_ran_at; [done|vm_compute; reflexivity..]|].
  eapply trace_cons; [apply (history_unlinked io_fine (cache_path example_new 0) [] [] replaced); vm_compute; reflexivity|].
  eapply trace_cons; [apply history_ran_at; [done|vm_compute; reflexivity..]|]. constructor.
Qed.

Lemma spilt_on_disk : disk spilt !! cache_path example_new 0 = Some (filled 3000 "x") /\ disk unlinked = ∅.
Proof. split; vm_compute; reflexivity. Qed.

Lemma history_refines_witness :
  exists m, trace (spec_step None) ∅ history m /\ m !! $"key-one" = Some $"value".
Proof.
  destruct (history_refines _ _ _ _ _ history_runs) as (m & Hm & Hr). exists m. split; [exact Hm|].
  rewrite <- (rf_view _ _ Hr $"key-one"). vm_compute. reflexivity.
Defined.
