(* ===== verification/SaveExamples.v ===== *)
(** * A push during the save

    At shutdown the snapshot is saved while a connection is still open. Its
    client pushes an image after the save has come to the end of the blobs and
    before it reads the manifests. *)
From S2P Require Import Prelude Prog Digest Env Config Counters State Disk Eviction.
From S2P Require Import EvictionFrame.
From S2P Require Import EvictionSteps EvictionExamples Text Redis RedisSteps Http.
From S2P Require Import DockerUpstream Docker DockerServe RedisExamples.
From S2P Require Import Snapshot SnapshotSteps SnapshotExamples Server.
From S2P Require Import System SystemRuns DockerExamples SystemExamples.

(** Nothing is stored yet: the save is done with the blobs at once. *)
Definition empty_save : V unit := save_steps io_fine [] [].

(** The image: the blob of [push], and a manifest that names it. *)
Definition named := handle_request io_fine no_network 1 SystemExamples.push_manifest stocked.

(** The rest of the save, and the next process. *)
Definition shut := run empty_save named.1.1.
Definition reloaded := load_or_wipe io_fine (State_new (config shut.1) 8 (disk shut.1)).
Definition pull_by_tag : Request := request Method.GET $"/v2/self/app/manifests/v1" None [].
Definition tag_read := handle_request io_fine no_network 1 pull_by_tag reloaded.1.
Definition layer_read := handle_request io_fine no_network 1 pull reloaded.1.

Lemma named_eq : handle_request io_fine no_network 1 SystemExamples.push_manifest stocked = named.
Proof. unfold named. reflexivity. Qed.
Lemma serves_named : serves SystemExamples.push_manifest stocked = true.
Proof. vm_compute. reflexivity. Qed.
Lemma image_runs : rtc calm_step (mkServer open_server [] []) (mkServer named.1.1 [] []).
Proof. exact (transitivity push_run (serves_run _ _ _ named_eq serves_named)). Qed.

Lemma shut_eq : run empty_save named.1.1 = shut.
Proof. unfold shut. reflexivity. Qed.
Lemma shut_along : along ids_last empty_save named.1.1 = true.
Proof. vm_compute. reflexivity. Qed.
Lemma shut_ends : shut.2 = Ok tt.
Proof. vm_compute. reflexivity. Qed.
Lemma shut_left : ids_left shut.1.
Proof. apply ids_last_left. vm_compute. reflexivity. Qed.
Lemma reloaded_eq : load_or_wipe io_fine (State_new (config shut.1) 8 (disk shut.1)) = reloaded.
Proof. unfold reloaded. reflexivity. Qed.
Lemma reloaded_ok : reloaded.2 = true.
Proof. vm_compute. reflexivity. Qed.

(** C37: a defect. The snapshot is written while open connections are served on:
    in this run of the server a client pushes a layer and a manifest with
    success during the save, and the save and the next start succeed. The new
    process answers with the manifest, but the layer is lost. *)
Theorem push_during_save :
  let saving := Some (Saving empty_save) in
  rtc orderly_step (start open_config 7 ∅) (mkServer open_server [] [], saving) /\
  resp_status <$> push_result.2 = Some 201%N /\ resp_status <$> named.2 = Some 201%N /\
  rtc orderly_step (mkServer open_server [] [], saving) (mkServer named.1.1 [] [], saving) /\
  rtc orderly_step (mkServer named.1.1 [] [], saving) (mkServer reloaded.1 [] [], None) /\
  resp_status <$> tag_read.2 = Some 200%N /\ resp_status <$> layer_read.2 = Some 404%N.
Proof.
  cbv zeta. split_and!.
  - eapply rtc_once. exact (calm_save io_fine [] [] open_server [] open_ids NoDup_nil_2 NoDup_nil_2).
  - vm_compute. reflexivity.
  - vm_compute. reflexivity.
  - apply calm_run, image_runs.
  - eapply rtc_r; [exact (calm_saving empty_save named.1.1 shut [] shut_eq shut_along shut_ends)|].
    exact (calm_restart io_fine 8 shut.1 [] reloaded shut_left reloaded_eq reloaded_ok).
  - vm_compute. reflexivity.
  - vm_compute. reflexivity.
Qed.
