(* ===== verification/Metrics.v ===== *)
(** * Metrics ([src/metrics.rs]): the Prometheus text exposition *)
From S2P Require Import Prelude Digest Env Config Counters State Text.

Section metrics.
Context {SHA : Sha256}.

(** One call of [gauge] or [counter]: name, help text, value. *)
Record Sample : Type := mkSample { sm_name : bytes; sm_help : bytes; sm_value : N }.

(** [x.max(0) as u64] of an [i64]. *)
Definition clamp (z : Z) : N := Z.to_N (Z.max z 0).

Definition gauges (s : State) : list Sample :=
  [
    mkSample $"dockfoxprox_memory_usage_bytes"
      $"Total in-memory cache size (manifests + blobs + redis entries)."
      (clamp (total_memory_usage s));
    mkSample $"dockfoxprox_small_memory_usage_bytes"
      $"Small-pool memory usage (manifests + small blobs + small redis entries)."
      (clamp (small_memory_usage s));
    mkSample $"dockfoxprox_large_memory_usage_bytes"
      $"Large-pool memory usage (large in-memory blobs + large redis entries)."
      (clamp (large_memory_usage s));
    mkSample $"dockfoxprox_disk_usage_bytes"
      $"Total on-disk cache size (blobs + redis entries)."
      (clamp (total_disk_usage s));
    mkSample $"dockfoxprox_manifest_memory_usage_bytes"
      $"Bytes of manifest content held in memory."
      (clamp (usage s manifest_memory_usage));
    mkSample $"dockfoxprox_small_blob_memory_usage_bytes"
      $"Bytes of small in-memory blob content (at or below the small/large threshold)."
      (clamp (usage s small_blob_memory_usage));
    mkSample $"dockfoxprox_large_blob_memory_usage_bytes"
      $"Bytes of large in-memory blob content (above the small/large threshold)."
      (clamp (usage s large_blob_memory_usage));
    mkSample $"dockfoxprox_small_redis_memory_usage_bytes"
      $"Bytes of small in-memory redis entries (key + value, value at or below the threshold)."
      (clamp (usage s small_redis_memory_usage));
    mkSample $"dockfoxprox_large_redis_memory_usage_bytes"
      $"Bytes of large in-memory redis entries (key + value, value above the threshold)."
      (clamp (usage s large_redis_memory_usage));
    mkSample $"dockfoxprox_blob_disk_usage_bytes"
      $"Bytes of blob content stored on disk."
      (clamp (usage s blob_disk_usage));
    mkSample $"dockfoxprox_redis_disk_usage_bytes"
      $"Bytes of redis-protocol entries stored on disk."
      (clamp (usage s redis_disk_usage));
    mkSample $"dockfoxprox_oldest_small_memory_touch_time_seconds"
      $"Unix time of the oldest last_accessed across small-pool items (0 if none)."
      (metrics s oldest_small_memory_touch_time);
    mkSample $"dockfoxprox_oldest_large_memory_touch_time_seconds"
      $"Unix time of the oldest last_accessed across large-pool items (0 if none)."
      (metrics s oldest_large_memory_touch_time);
    mkSample $"dockfoxprox_oldest_disk_touch_time_seconds"
      $"Unix time of the oldest last_accessed across disk-pool items (0 if none)."
      (metrics s oldest_disk_touch_time);
    mkSample $"dockfoxprox_memory_limit_bytes"
      $"Configured total memory budget."
      (memory_limit (config s));
    mkSample $"dockfoxprox_small_memory_limit_bytes"
      $"Configured small-pool reservation within the memory budget."
      (small_memory_limit (config s));
    mkSample $"dockfoxprox_disk_limit_bytes"
      $"Configured on-disk budget."
      (disk_limit (config s));
    mkSample $"dockfoxprox_blobs_cached"
      $"Number of blobs currently in the cache (memory + disk)."
      (N.of_nat (size (blobs s)));
    mkSample $"dockfoxprox_manifests_cached"
      $"Number of manifests currently in the cache."
      (N.of_nat (size (manifests s)));
    mkSample $"dockfoxprox_tags_cached"
      $"Number of `self`-host tag mappings."
      (N.of_nat (size (tags s)));
    mkSample $"dockfoxprox_uploads_in_progress"
      $"Number of in-flight blob uploads."
      (N.of_nat (size (uploads s)));
    mkSample $"dockfoxprox_redis_entries"
      $"Number of entries in the Redis-protocol cache."
      (N.of_nat (size (redis_entries s)));
    mkSample $"dockfoxprox_upstream_tokens_cached"
      $"Number of cached upstream bearer tokens."
      (N.of_nat (size (tokens s)))
  ].

Definition counters (s : State) : list Sample :=
  [
    mkSample $"dockfoxprox_docker_manifest_get_total"
      $"Manifest GET requests served."
      (metrics s docker_manifest_get);
    mkSample $"dockfoxprox_docker_manifest_head_total"
      $"Manifest HEAD requests served."
      (metrics s docker_manifest_head);
    mkSample $"dockfoxprox_docker_manifest_put_total"
      $"Manifest PUT requests served."
      (metrics s docker_manifest_put);
    mkSample $"dockfoxprox_docker_manifest_cache_hit_total"
      $"Manifest lookups served from cache."
      (metrics s docker_manifest_cache_hit);
    mkSample $"dockfoxprox_docker_manifest_cache_miss_total"
      $"Manifest lookups that required an upstream fetch."
      (metrics s docker_manifest_cache_miss);
    mkSample $"dockfoxprox_docker_blob_get_total"
      $"Blob GET requests served."
      (metrics s docker_blob_get);
    mkSample $"dockfoxprox_docker_blob_head_total"
      $"Blob HEAD requests served."
      (metrics s docker_blob_head);
    mkSample $"dockfoxprox_docker_blob_cache_hit_memory_total"
      $"Blob lookups served from the in-memory tier."
      (metrics s docker_blob_cache_hit_memory);
    mkSample $"dockfoxprox_docker_blob_cache_hit_disk_total"
      $"Blob lookups served from the on-disk tier."
      (metrics s docker_blob_cache_hit_disk);
    mkSample $"dockfoxprox_docker_blob_cache_miss_total"
      $"Blob lookups that required an upstream fetch."
      (metrics s docker_blob_cache_miss);
    mkSample $"dockfoxprox_docker_blob_upload_post_total"
      $"Blob upload sessions started (POST)."
      (metrics s docker_blob_upload_post);
    mkSample $"dockfoxprox_docker_blob_upload_patch_total"
      $"Blob upload chunks received (PATCH)."
      (metrics s docker_blob_upload_patch);
    mkSample $"dockfoxprox_docker_blob_upload_put_total"
      $"Blob upload sessions finalised (PUT)."
      (metrics s docker_blob_upload_put);
    mkSample $"dockfoxprox_docker_blob_upload_delete_total"
      $"Blob upload sessions cancelled (DELETE)."
      (metrics s docker_blob_upload_delete);
    mkSample $"dockfoxprox_docker_auth_failures_total"
      $"Authentication failures against the docker endpoint."
      (metrics s docker_auth_failures);
    mkSample $"dockfoxprox_docker_upstream_requests_total"
      $"Requests sent to upstream registries."
      (metrics s docker_upstream_requests);
    mkSample $"dockfoxprox_docker_upstream_errors_total"
      $"Upstream requests that failed at the transport layer."
      (metrics s docker_upstream_errors);
    mkSample $"dockfoxprox_redis_connections_total"
      $"Redis-protocol connections accepted."
      (metrics s redis_connections);
    mkSample $"dockfoxprox_redis_commands_total"
      $"Redis-protocol commands processed."
      (metrics s redis_commands);
    mkSample $"dockfoxprox_redis_get_hit_total"
      $"Redis GET commands that returned a value."
      (metrics s redis_get_hit);
    mkSample $"dockfoxprox_redis_get_miss_total"
      $"Redis GET commands that returned nil."
      (metrics s redis_get_miss);
    mkSample $"dockfoxprox_redis_set_total"
      $"Redis SET commands served."
      (metrics s redis_set);
    mkSample $"dockfoxprox_redis_del_total"
      $"Keys removed via DEL/UNLINK."
      (metrics s redis_del);
    mkSample $"dockfoxprox_redis_auth_failures_total"
      $"Redis AUTH attempts with the wrong password."
      (metrics s redis_auth_failures);
    mkSample $"dockfoxprox_eviction_runs_total"
      $"Eviction passes executed."
      (metrics s eviction_runs);
    mkSample $"dockfoxprox_eviction_blobs_to_disk_total"
      $"Blobs demoted from memory to disk by eviction."
      (metrics s eviction_blobs_to_disk);
    mkSample $"dockfoxprox_eviction_blobs_deleted_total"
      $"Blobs deleted (from memory or disk) by eviction."
      (metrics s eviction_blobs_deleted);
    mkSample $"dockfoxprox_eviction_manifests_deleted_total"
      $"Manifests deleted by eviction."
      (metrics s eviction_manifests_deleted);
    mkSample $"dockfoxprox_eviction_redis_entries_total"
      $"Redis entries dropped by eviction."
      (metrics s eviction_redis_entries)
  ].

(** [write_metric]: three lines. *)
Definition LF_char : ascii := "010"%char.
Definition write_metric (name help kind : bytes) (value : N) : bytes :=
  ($"# HELP " ++ name ++ $" " ++ help ++ [LF_char]) ++
  ($"# TYPE " ++ name ++ $" " ++ kind ++ [LF_char]) ++
  (name ++ $" " ++ dec value ++ [LF_char]).

Definition gauge (m : Sample) : bytes := write_metric (sm_name m) (sm_help m) $"gauge" (sm_value m).
Definition counter (m : Sample) : bytes := write_metric (sm_name m) (sm_help m) $"counter" (sm_value m).

Definition render (s : State) : bytes :=
  concat (gauge <$> gauges s) ++ concat (counter <$> counters s).
End metrics.
