(* ===== verification/MetricsRead.v ===== *)
(** * Metrics: a scraper reads back what the server renders *)
From S2P Require Import Prelude Digest Env Config Counters State Text Metrics.

(** The samples of an exposition: the lines that are no comment, cut at the
    space. *)
Definition sample_line (line : bytes) : option (bytes * bytes) :=
  match line with
  | [] => None
  | c :: _ => if decide (c = "#"%char) then None else split_once " " line
  end.

Definition scrape (text : bytes) : list (bytes * bytes) := omap sample_line (split_at_char LF_char text).

(** The name each counter of [Metrics] is exported under. *)
Definition metric_label (m : Metric) : bytes :=
  match m with
  | docker_manifest_get => $"dockfoxprox_docker_manifest_get_total"
  | docker_manifest_head => $"dockfoxprox_docker_manifest_head_total"
  | docker_manifest_put => $"dockfoxprox_docker_manifest_put_total"
  | docker_manifest_cache_hit => $"dockfoxprox_docker_manifest_cache_hit_total"
  | docker_manifest_cache_miss => $"dockfoxprox_docker_manifest_cache_miss_total"
  | docker_blob_get => $"dockfoxprox_docker_blob_get_total"
  | docker_blob_head => $"dockfoxprox_docker_blob_head_total"
  | docker_blob_cache_hit_memory => $"dockfoxprox_docker_blob_cache_hit_memory_total"
  | docker_blob_cache_hit_disk => $"dockfoxprox_docker_blob_cache_hit_disk_total"
  | docker_blob_cache_miss => $"dockfoxprox_docker_blob_cache_miss_total"
  | docker_blob_upload_post => $"dockfoxprox_docker_blob_upload_post_total"
  | docker_blob_upload_patch => $"dockfoxprox_docker_blob_upload_patch_total"
  | docker_blob_upload_put => $"dockfoxprox_docker_blob_upload_put_total"
  | docker_blob_upload_delete => $"dockfoxprox_docker_blob_upload_delete_total"
  | docker_auth_failures => $"dockfoxprox_docker_auth_failures_total"
  | docker_upstream_requests => $"dockfoxprox_docker_upstream_requests_total"
  | docker_upstream_errors => $"dockfoxprox_docker_upstream_errors_total"
  | redis_connections => $"dockfoxprox_redis_connections_total"
  | redis_commands => $"dockfoxprox_redis_commands_total"
  | redis_get_hit => $"dockfoxprox_redis_get_hit_total"
  | redis_get_miss => $"dockfoxprox_redis_get_miss_total"
  | redis_set => $"dockfoxprox_redis_set_total"
  | redis_del => $"dockfoxprox_redis_del_total"
  | redis_auth_failures => $"dockfoxprox_redis_auth_failures_total"
  | eviction_runs => $"dockfoxprox_eviction_runs_total"
  | eviction_blobs_to_disk => $"dockfoxprox_eviction_blobs_to_disk_total"
  | eviction_blobs_deleted => $"dockfoxprox_eviction_blobs_deleted_total"
  | eviction_manifests_deleted => $"dockfoxprox_eviction_manifests_deleted_total"
  | eviction_redis_entries => $"dockfoxprox_eviction_redis_entries_total"
  | oldest_small_memory_touch_time => $"dockfoxprox_oldest_small_memory_touch_time_seconds"
  | oldest_large_memory_touch_time => $"dockfoxprox_oldest_large_memory_touch_time_seconds"
  | oldest_disk_touch_time => $"dockfoxprox_oldest_disk_touch_time_seconds"
  end.

(** ** Reading lines *)
Lemma split_at_char_app c a b : c ∉ a -> split_at_char c (a ++ c :: b) = a :: split_at_char c b.
Proof.
  induction a as [|x a IH]; simpl; intros Ha; [by rewrite decide_True|].
  apply not_elem_of_cons in Ha as [Hx Ha]. rewrite decide_False by congruence. by rewrite IH.
Qed.

Lemma scrape_line a b : LF_char ∉ a -> scrape (a ++ [LF_char] ++ b) = option_list (sample_line a) ++ scrape b.
Proof.
  intros Ha. unfold scrape. cbn [app]. rewrite split_at_char_app by done. simpl.
  by destruct (sample_line a).
Qed.

Lemma scrape_end a : LF_char ∉ a -> sample_line a = None -> scrape (a ++ [LF_char]) = [].
Proof.
  intros Ha Hs. unfold scrape. rewrite split_at_char_app by done. simpl. by rewrite Hs.
Qed.

Section read.
Context {SHA : Sha256}.
Implicit Types s : State.

(** Names and help texts fit on their lines, and a name is a word. *)
Definition clean (m : Sample) : bool :=
  negb (bool_decide (LF_char ∈ sm_name m)) && negb (bool_decide (LF_char ∈ sm_help m)) &&
  negb (bool_decide (" "%char ∈ sm_name m)) &&
  match sm_name m with c :: _ => negb (bool_decide (c = "#"%char)) | [] => false end.

Lemma dec_no_LF n : LF_char ∉ dec n.
Proof. intros H%dec_digits. by vm_compute in H. Qed.

Lemma scrape_metric kind m rest :
  clean m = true -> LF_char ∉ kind ->
  scrape (write_metric (sm_name m) (sm_help m) kind (sm_value m) ++ rest) =
  (sm_name m, dec (sm_value m)) :: scrape rest.
Proof.
  unfold clean. rewrite !andb_true_iff, !negb_true_iff, !bool_decide_eq_false.
  intros [[[Hn Hh] Hsp] Hhead] Hk. unfold write_metric.
  set (l1 := $"# HELP " ++ sm_name m ++ $" " ++ sm_help m).
  set (l2 := $"# TYPE " ++ sm_name m ++ $" " ++ kind).
  set (l3 := sm_name m ++ $" " ++ dec (sm_value m)).
  replace (_ ++ rest) with (l1 ++ [LF_char] ++ (l2 ++ [LF_char] ++ (l3 ++ [LF_char] ++ rest)))
    by (subst l1 l2 l3; by rewrite <- !app_assoc).
  assert (Hc : forall b : bytes, bool_decide (LF_char ∈ b) = false -> LF_char ∉ b)
    by (intros b Hb; by apply bool_decide_eq_false in Hb).
  rewrite !scrape_line.
  - assert (sample_line l3 = Some (sm_name m, dec (sm_value m))) as ->; [|done].
    subst l3. destruct (sm_name m) as [|c n] eqn:E; [done|].
    apply negb_true_iff, bool_decide_eq_false in Hhead. cbn [sample_line app].
    rewrite decide_False by done. change (c :: n ++ $" " ++ dec (sm_value m)) with ((c :: n) ++ " "%char :: dec (sm_value m)).
    by apply split_once_app.
  - subst l3. rewrite !not_elem_of_app. split_and!; [done|by apply Hc|apply dec_no_LF].
  - subst l2. rewrite !not_elem_of_app. split_and!; [by apply Hc|done|by apply Hc|done].
  - subst l1. rewrite !not_elem_of_app. split_and!; [by apply Hc|done|by apply Hc|done].
Qed.

Lemma scrape_metrics kind ms rest :
  forallb clean ms = true -> LF_char ∉ kind ->
  scrape (concat ((fun m => write_metric (sm_name m) (sm_help m) kind (sm_value m)) <$> ms) ++ rest) =
  ((fun m => (sm_name m, dec (sm_value m))) <$> ms) ++ scrape rest.
Proof.
  intros Hms Hk. induction ms as [|m ms IH]; [done|]. apply andb_true_iff in Hms as [Hm Hms].
  cbn [fmap list_fmap concat]. rewrite <- app_assoc, scrape_metric by done. cbn [app]. f_equal. by apply IH.
Qed.

Lemma gauges_clean s : forallb clean (gauges s) = true.
Proof. reflexivity. Qed.
Lemma counters_clean s : forallb clean (counters s) = true.
Proof. reflexivity. Qed.

Definition samples s : list (bytes * bytes) :=
  (fun m => (sm_name m, dec (sm_value m))) <$> (gauges s ++ counters s).

Lemma scrape_render s : scrape (render s) = samples s.
Proof.
  unfold render, samples. rewrite fmap_app. unfold gauge, counter.
  rewrite scrape_metrics; [f_equal|apply gauges_clean|by_decide].
  rewrite <- (app_nil_r (concat _)), scrape_metrics; [|apply counters_clean|by_decide].
  apply app_nil_r.
Qed.

(** C28: what [/metrics] returns is a well-formed exposition of every counter: a
    scraper reads back one sample per gauge and counter, in order and with the
    decimal value; no name appears twice, and each of the 32 counters of
    [Metrics] is there, under its own name, with its own value. *)
Theorem render_exports s :
  scrape (render s) = samples s /\ NoDup (samples s).*1 /\
  forall m, (metric_label m, dec (metrics s m)) ∈ scrape (render s).
Proof.
  rewrite scrape_render. split; [done|]. split.
  - assert (Hn : (samples s).*1 = sm_name <$> (gauges s ++ counters s)) by (unfold samples; by rewrite <- list_fmap_compose).
    rewrite Hn. assert (Hb : bool_decide (NoDup (sm_name <$> (gauges s ++ counters s))) = true) by (vm_compute; reflexivity).
    by apply bool_decide_eq_true in Hb.
  - intros m. apply list_elem_of_fmap. destruct m; (eexists (mkSample _ _ _); split; [reflexivity|]);
      unfold gauges, counters; cbn [app]; repeat first [apply list_elem_of_here | apply list_elem_of_further].
Qed.
End read.
