(* ===== verification/Main.v ===== *)
(** * The process and its HTTP front end ([src/main.rs])

    Routing, the static response headers, the accept loops, and the start of
    the process: loading the snapshot and binding the configured ports. The
    command line, logging, TLS itself and signals are not modelled. *)
From S2P Require Import Prelude Digest Env Config Counters State Text Snapshot Metrics Http.
From S2P Require Import DockerUpstream Docker DockerServe.

(** [tower_http]'s [SetResponseHeaderLayer::if_not_present], on a list of
    headers whose names are compared without case. *)
Definition header_lookup (name : bytes) (hs : list (bytes * bytes)) : option bytes :=
  snd <$> find (fun h => eq_ignore_ascii_case h.1 name) hs.

Class TowerHttp := {
  if_not_present : bytes -> bytes -> list (bytes * bytes) -> list (bytes * bytes);
  if_not_present_kept name value hs :
    is_Some (header_lookup name hs) -> if_not_present name value hs = hs;
  if_not_present_added name value hs :
    header_lookup name hs = None -> if_not_present name value hs = hs ++ [(name, value)]
}.

Section main.
Context {SHA : Sha256} {CT : ConstantTimeEq} {ITER : MapIter} {HC : HttpCodecs} {TOWER : TowerHttp}.

(** ** Routing *)
Definition metrics_response (s : State) : Response :=
  let body := render s in
  mkResponse 200 [($"content-type", $"text/plain; version=0.0.4; charset=utf-8");
                  ($"content-length", dec (blen body))] (Full body).

Definition not_found_response : Response :=
  mkResponse 404 [($"content-type", $"text/plain; charset=utf-8")] (Full $"not found").

Definition handle (io : Io) (net : Network) (new_uuid : N) (req : Request) (s : State)
  : State * list Fill * option Response :=
  if bool_decide ($"/v2/" `prefix_of` req_path req) then handle_request io net new_uuid req s
  else if decide (req_path req = $"/metrics") then (s, [], Some (metrics_response s))
  else (s, [], Some not_found_response).

(** ** The service stack: outermost layer first *)
Definition static_headers (tls : bool) : list (bytes * bytes) :=
  (if tls then [($"strict-transport-security", $"max-age=63072000; includeSubDomains")] else []) ++
  [($"x-content-type-options", $"nosniff");
   ($"x-frame-options", $"DENY");
   ($"referrer-policy", $"no-referrer");
   ($"content-security-policy", $"default-src 'none'; frame-ancestors 'none'");
   ($"cross-origin-opener-policy", $"same-origin");
   ($"cross-origin-resource-policy", $"same-origin");
   ($"permissions-policy", $"accelerometer=(), camera=(), geolocation=(), microphone=()")].

(** [static_header]: one layer, on the way out. *)
Definition static_header (h : bytes * bytes) (r : Response) : Response :=
  mkResponse (resp_status r) (if_not_present h.1 h.2 (resp_headers r)) (resp_body r).

(** One request of a connection, through [serve_connection]'s service. *)
Definition serve_request (tls : bool) (io : Io) (net : Network) (new_uuid : N) (req : Request) (s : State)
  : State * list Fill * option Response :=
  let '(s', fills, resp) := handle io net new_uuid req s in
  (s', fills, (fun r => foldr static_header r (static_headers tls)) <$> resp).

End main.

(** ** Accept loops *)
Inductive accept_event (A : Type) : Type :=
  | Accepted (conn : A)
  | AcceptError
  | Cancelled.
Arguments Accepted {A} conn.
Arguments AcceptError {A}.
Arguments Cancelled {A}.

(** [serve_http]: the connections a task is spawned for, and whether the loop
    has ended. *)
Fixpoint serve_http {A} (events : list (accept_event A)) : list A * bool :=
  match events with
  | [] => ([], false)
  | Accepted conn :: events => let '(conns, ended) := serve_http events in (conn :: conns, ended)
  | AcceptError :: events => serve_http events
  | Cancelled :: _ => ([], true)
  end.

(** [serve_https]: the handshake ([None]: it failed) is the spawned task's; the
    second component are the connections that are served. *)
Fixpoint serve_https {A} (events : list (accept_event (option A))) : nat * list A * bool :=
  match events with
  | [] => (0, [], false)
  | Accepted tls :: events =>
      let '(tasks, conns, ended) := serve_https events in
      (S tasks, match tls with Some conn => conn :: conns | None => conns end, ended)
  | AcceptError :: events => serve_https events
  | Cancelled :: _ => (0, [], true)
  end.

(** ** [Verbosity] *)
Module Verbosity.
Inductive t : Type := Error | Warn | Info | Debug | Trace.

Definition as_filter (v : t) : bytes :=
  match v with
  | Error => $"error"
  | Warn => $"warn"
  | Info => $"info"
  | Debug => $"info,dockfoxprox=debug"
  | Trace => $"info,dockfoxprox=trace"
  end.
End Verbosity.

(** ** [main], from the configuration to the running tasks *)
Inductive Task : Type :=
  | EvictionLoop
  | RedisServer (port : N)
  | HttpServer (port : N)
  | HttpsServer (port : N).

Definition configured {A} (port : option N) (task : N -> A) : list (N * A) :=
  match port with Some p => [(p, task p)] | None => [] end.

(** The listeners, in the order they are bound. *)
Definition listeners (c : Config) : list (N * Task) :=
  configured (redis_port c) RedisServer ++ configured (http_port c) HttpServer
  ++ configured (https_port c) HttpsServer.

Fixpoint bind_all (bind : N -> bool) (ls : list (N * Task)) (started : list Task) : result unit (list Task) :=
  match ls with
  | [] => Ok started
  | (port, task) :: ls => if bind port then bind_all bind ls (started ++ [task]) else Err tt
  end.

(** [main] up to [run_tasks]; [bind] says which ports can be bound, a TLS
    configuration that cannot be built counts as its port. An error ends the
    process, with the disk as it is. *)
Definition main_start {SHA : Sha256} {ITER : MapIter} {CBOR : Cbor} (io : Io) (bind : N -> bool)
    (cfg : Config) (unix_seconds : N) (d : FileSystem) : State * result unit (list Task) :=
  let '(s, ok) := load_or_wipe io (State_new cfg unix_seconds d) in
  if ok : bool then (s, bind_all bind (listeners cfg) [EvictionLoop]) else (s, Err tt).

(** The end of [main], when every task has shut down. *)
Definition main_finish {SHA : Sha256} {ITER : MapIter} {CBOR : Cbor} (io : Io) (s : State) : State :=
  (save io s).1.
