(* ===== verification/MainProps.v ===== *)
(** * The process: what clients and operators can rely on

    The security headers of every answer, the [/metrics] endpoint, the accept
    loops, and a start whose ports cannot be bound. *)
From S2P Require Import Prelude Prog DockerLogic Digest Env Config Counters State Disk Text.
From S2P Require Import Accounting Snapshot.
From S2P Require Import SnapshotUsage SnapshotRoundtrip SnapshotLoad Metrics MetricsRead Http.
From S2P Require Import DockerUpstream Docker DockerServe DockerMedia.
From S2P Require Import DockerAnswers Main.

(** ** The headers of the registry's answers

    Their names are constants of the handlers, and none of them is a security
    header: those are left to the layers of [serve_request]. *)

(** The names the static layers add. *)
Definition layer_names : list bytes :=
  [$"strict-transport-security"; $"x-content-type-options"; $"x-frame-options"; $"referrer-policy";
   $"content-security-policy"; $"cross-origin-opener-policy"; $"cross-origin-resource-policy";
   $"permissions-policy"].

(** A list of headers without any of them. *)
Definition leaves_to_layers (hs : list (bytes * bytes)) : bool :=
  forallb (fun h => negb (existsb (eq_ignore_ascii_case h.1) layer_names)) hs.

Definition plain (r : Response) : Prop := leaves_to_layers (resp_headers r) = true.

Section plain.
Context {SHA : Sha256} {CT : ConstantTimeEq} {ITER : MapIter} {HC : HttpCodecs}.
Implicit Types (s : State) (w : World).

(** However [h] is run, what it returns satisfies [P]. *)
Definition yields {A} (P : A -> Prop) (h : M A) : Prop := forall w, wp h w (fun _ r => forall a, r = Ok a -> P a).

Lemma yields_bind {A B} (P : A -> Prop) (Q : B -> Prop) (m : M A) (f : A -> M B) :
  yields P m -> (forall a, P a -> yields Q (f a)) -> yields Q (m ≫= f).
Proof.
  intros Hm Hf w. apply wp_bind. eapply wp_mono; [apply Hm|]. intros w' [a|e] Ha; [|done]. by apply Hf, Ha.
Qed.
Lemma yields_any {A} (h : M A) : yields (fun _ => True) h.
Proof. intros w. by eapply wp_mono; [instantiate (1 := fun _ _ => True)|]. Qed.
Lemma yields_then {A B} (Q : B -> Prop) (m : M A) (f : A -> M B) :
  (forall a, yields Q (f a)) -> yields Q (m ≫= f).
Proof. intros Hf. apply (yields_bind (fun _ => True)); [apply yields_any|intros a _; apply Hf]. Qed.
Lemma yields_ret {A} (P : A -> Prop) a : P a -> yields P (mret a).
Proof. intros Ha w. wp_step. by intros _ [= <-]. Qed.
Lemma yields_throw {A} (P : A -> Prop) e : yields P (throw e).
Proof. intros w. by wp_step. Qed.
Lemma yields_guarded {A} (P : A -> Prop) (m : M A) : yields P m -> yields P (guarded m).
Proof. intros Hm w. wp_step. apply Hm. Qed.

(** Responses that are built from plain headers, or not at all. *)
Lemma build_yields status hs body e :
  leaves_to_layers hs = true -> yields plain (lift (ok_or (build status hs body) e)).
Proof. intros Hh w. wp_step. unfold build. case_match; [by intros _ [= <-]|done]. Qed.

Lemma error_response_plain status msg : plain (error_response status msg).
Proof. done. Qed.
End plain.

#[local] Ltac plainly :=
  repeat first
    [ apply yields_throw
    | apply yields_ret; reflexivity
    | apply build_yields; reflexivity
    | apply yields_then; intros ?
    | progress cbv beta zeta
    | case_match
    | progress unfold build_try, build_expect, blob_created, serve_manifest, upstream_failure, digest_mismatch ].

Section handlers.
Context {SHA : Sha256} {CT : ConstantTimeEq} {ITER : MapIter} {HC : HttpCodecs}.
Implicit Types (s : State) (w : World).

Definition plain_option (o : option Response) : Prop := forall r, o = Some r -> plain r.
Definition plain_early (x : Digest + Response) : Prop := forall r, x = inr r -> plain r.

Lemma serve_disk_blob_plain io d id size mt head : yields plain (serve_disk_blob io d id size mt head).
Proof. unfold serve_disk_blob. plainly. Qed.
Lemma serve_blob_bytes_plain c mt d head : yields plain (serve_blob_bytes c mt d head).
Proof. unfold serve_blob_bytes. plainly. Qed.

Lemma cached_blob_plain io d head : yields plain_option (cached_blob io d head).
Proof.
  apply yields_guarded, yields_then. intros s. destruct (blobs s !! d) as [b|]; [|by apply yields_ret].
  apply yields_then. intros _. apply (yields_bind plain).
  - destruct b; apply yields_then; intros _; [apply serve_disk_blob_plain|apply serve_blob_bytes_plain].
  - intros r Hr. apply yields_ret. by intros _ [= <-].
Qed.

Lemma cached_manifest_plain d head : yields plain_option (cached_manifest d head).
Proof.
  apply yields_guarded, yields_then. intros s. destruct (manifests s !! d) as [m|]; [|by apply yields_ret].
  apply yields_then. intros _. apply (yields_bind plain); [plainly|].
  intros r Hr. apply yields_ret. by intros _ [= <-].
Qed.

Lemma get_head_blob_plain io net host name digest head : yields plain (get_head_blob io net host name digest head).
Proof.
  unfold get_head_blob. destruct (digest_from_str digest) as [d|]; [|by apply yields_ret].
  apply (yields_bind plain_option); [apply cached_blob_plain|]. intros [r|] Hr; [by apply yields_ret, Hr|]. plainly.
Qed.

Lemma resolve_plain net host name reference accept : yields plain_early (resolve_reference net host name reference accept).
Proof. unfold resolve_reference. plainly; apply yields_ret; intros r [= <-]; reflexivity. Qed.

Lemma get_head_manifest_plain net req host name reference head :
  yields plain (get_head_manifest net req host name reference head).
Proof.
  unfold get_head_manifest. cbv zeta. apply (yields_bind plain_early); [apply resolve_plain|].
  intros [d|r] Hr; [|by apply yields_ret, Hr].
  apply (yields_bind plain_option); [apply cached_manifest_plain|]. intros [r|] Hr'; [by apply yields_ret, Hr'|]. plainly.
Qed.

Lemma counted_plain m (h : M Response) : yields plain h -> yields plain (counted m h).
Proof. intros Hh. unfold counted. by apply yields_then. Qed.

Lemma handler_plain io net u req : yields plain (handle_request_inner io net u req).
Proof.
  unfold handle_request_inner. apply yields_then. intros _. cbv zeta. destruct (_ || _); [plainly|].
  apply yields_then. intros [[[host name] tag] tl]. apply yields_then. intros s. cbv zeta.
  destruct (decide (tag = $"manifests")).
  { destruct (req_method req); try apply yields_throw; apply counted_plain;
      try apply get_head_manifest_plain. unfold put_manifest. plainly. }
  destruct (decide (tag = $"uploads")).
  { apply yields_then. intros nm. destruct (req_method req); try apply yields_throw; try apply counted_plain;
      unfold post_blob_upload, patch_blob_upload, put_blob_upload, get_blob_upload_status, delete_blob_upload; plainly. }
  destruct (decide (tag = $"blobs")); [|apply yields_throw].
  destruct (req_method req); try apply yields_throw; apply counted_plain, get_head_blob_plain.
Qed.

(** No answer carries a header that a layer is to add. *)
Lemma answer_plain io net u req s s' fills r :
  handle_request io net u req s = (s', fills, Some r) -> plain r.
Proof.
  unfold handle_request. pose proof (handler_plain io net u req (mkWorld s 0 [])) as H. unfold wp in H.
  destruct (run _ _) as [w [resp|e]]; intros [= _ _ Hr].
  - subst resp. by apply H.
  - destruct e; cbn in Hr; simplify_eq; reflexivity.
Qed.
End handlers.

(** ** Response headers *)
Section headers.
Context {TOWER : TowerHttp}.
Implicit Types hs : list (bytes * bytes).

Lemma header_lookup_app name hs hs' :
  header_lookup name (hs ++ hs') =
  match header_lookup name hs with Some v => Some v | None => header_lookup name hs' end.
Proof.
  unfold header_lookup. induction hs as [|h hs IH]; [done|]. cbn [app find].
  by destruct (eq_ignore_ascii_case h.1 name).
Qed.

Lemma header_lookup_layer name h hs :
  header_lookup name (if_not_present h.1 h.2 hs) =
  match header_lookup name hs with Some v => Some v | None => header_lookup name [h] end.
Proof.
  destruct (header_lookup h.1 hs) as [v|] eqn:E.
  - rewrite if_not_present_kept by (by rewrite E). destruct (header_lookup name hs) eqn:En; [done|].
    unfold header_lookup at 1. simpl. destruct (eq_ignore_ascii_case h.1 name) eqn:Eq; [|done].
    exfalso. revert E En. unfold header_lookup, eq_ignore_ascii_case in *.
    apply bool_decide_eq_true in Eq. rewrite Eq. congruence.
  - rewrite if_not_present_added by done. rewrite header_lookup_app. by destruct h.
Qed.

(** The layers: a header of the handler wins, then the static ones. *)
Lemma header_lookup_layers name hs layers r :
  resp_headers r = hs ->
  let r' := foldr static_header r layers in
  resp_status r' = resp_status r /\ resp_body r' = resp_body r /\
  header_lookup name (resp_headers r') =
  match header_lookup name hs with
  | Some v => Some v
  | None => header_lookup name (rev layers)
  end.
Proof.
  intros <-. induction layers as [|h layers IH].
  { cbv zeta. split_and!; [done..|]. cbn [foldr rev]. by destruct (header_lookup name (resp_headers r)). }
  cbv zeta in *. destruct IH as (IH1 & IH2 & IH3). cbn [foldr static_header resp_status resp_body resp_headers].
  split_and!; [done..|]. rewrite header_lookup_layer, IH3. cbn [rev].
  destruct (header_lookup name (resp_headers r)); [done|]. rewrite header_lookup_app.
  by destruct (header_lookup name (rev layers)).
Qed.
End headers.

Section main.
Context {SHA : Sha256} {CT : ConstantTimeEq} {ITER : MapIter} {HC : HttpCodecs} {TOWER : TowerHttp}.
Implicit Types s : State.

Lemma handle_media io net u req s s' fills resp :
  media_ok s -> handle io net u req s = (s', fills, resp) -> is_Some resp /\ media_ok s'.
Proof.
  intros Hs. unfold handle. case_bool_decide.
  - intros He. by destruct (handle_request_media io net u req s s' fills resp Hs He) as (? & ? & _).
  - case_decide; by intros [= <- _ <-].
Qed.

(** No answer carries a header that a layer is to add. *)
Lemma handle_plain io net u req s s' fills r : handle io net u req s = (s', fills, Some r) -> plain r.
Proof.
  unfold handle. case_bool_decide; [apply answer_plain|]. case_decide; intros [= _ _ <-]; reflexivity.
Qed.

Lemma plain_lookup r name : plain r -> name ∈ layer_names -> header_lookup name (resp_headers r) = None.
Proof.
  unfold plain, leaves_to_layers. intros Hr Hn. unfold header_lookup.
  destruct (find _ _) as [h|] eqn:E; [exfalso|done]. apply find_some in E as [Hin He].
  rewrite forallb_forall in Hr. specialize (Hr h Hin). apply negb_true_iff in Hr.
  apply not_true_iff_false in Hr. apply Hr, existsb_exists. exists name. split; [by apply list_elem_of_In|done].
Qed.

(** C27: every request on a connection is answered, and whatever the handler
    answers, the client receives [nosniff], the denial of framing, the referrer,
    content-security, cross-origin and permissions policies, each with the value
    below, and HSTS over TLS and only there; status, body and every other
    header are the handler's. *)
Theorem every_answer_is_hardened tls io net u req s s' fills resp :
  media_ok s -> serve_request tls io net u req s = (s', fills, resp) ->
  media_ok s' /\ exists r r0, resp = Some r /\ handle io net u req s = (s', fills, Some r0) /\
    resp_status r = resp_status r0 /\ resp_body r = resp_body r0 /\
    header_lookup $"x-content-type-options" (resp_headers r) = Some $"nosniff" /\
    header_lookup $"x-frame-options" (resp_headers r) = Some $"DENY" /\
    header_lookup $"referrer-policy" (resp_headers r) = Some $"no-referrer" /\
    header_lookup $"content-security-policy" (resp_headers r) =
      Some $"default-src 'none'; frame-ancestors 'none'" /\
    header_lookup $"cross-origin-opener-policy" (resp_headers r) = Some $"same-origin" /\
    header_lookup $"cross-origin-resource-policy" (resp_headers r) = Some $"same-origin" /\
    header_lookup $"permissions-policy" (resp_headers r) =
      Some $"accelerometer=(), camera=(), geolocation=(), microphone=()" /\
    header_lookup $"strict-transport-security" (resp_headers r) =
      (if tls then Some $"max-age=63072000; includeSubDomains" else None) /\
    (forall name, Forall (fun n => eq_ignore_ascii_case n name = false) layer_names ->
       header_lookup name (resp_headers r) = header_lookup name (resp_headers r0)).
Proof.
  intros Hs. unfold serve_request. destruct (handle io net u req s) as [[s1 f1] o] eqn:He.
  destruct (handle_media io net u req s s1 f1 o Hs He) as [[r0 ->] Hs1]. cbn [fmap option_fmap option_map].
  intros [= <- <- <-]. split; [done|]. eexists _, r0. split; [reflexivity|]. split; [done|].
  pose proof (fun name => header_lookup_layers name _ (static_headers tls) r0 eq_refl) as Hl. cbv zeta in Hl.
  split; [apply (Hl [])|]. split; [apply (Hl [])|].
  pose proof (fun name => plain_lookup r0 name (handle_plain _ _ _ _ _ _ _ _ He)) as Hp.
  assert (Hn : forall name, name ∈ layer_names ->
    header_lookup name (resp_headers (foldr static_header r0 (static_headers tls))) =
    header_lookup name (rev (static_headers tls))).
  { intros name Hin. destruct (Hl name) as (_ & _ & ->). by rewrite Hp. }
  split_and!; try (rewrite Hn by (unfold layer_names; set_solver); by destruct tls).
  intros name Hname. destruct (Hl name) as (_ & _ & ->). destruct (header_lookup name (resp_headers r0)); [done|].
  unfold layer_names in Hname. repeat (apply Forall_cons in Hname as [? Hname]).
  unfold header_lookup. destruct tls; cbn [static_headers rev app find fst]; repeat (case_match; [congruence|]); done.
Qed.

(** A scrape needs no credentials, changes nothing, and its body, with the
    declared length, is read back as the current value of every sample. *)
Lemma metrics_endpoint io net u req s :
  req_path req = $"/metrics" ->
  exists r body, handle io net u req s = (s, [], Some r) /\ resp_status r = 200%N /\
    resp_body r = Full body /\ header_lookup $"Content-Length" (resp_headers r) = Some (dec (blen body)) /\
    scrape body = samples s.
Proof.
  intros Hp. eexists _, _. split.
  { unfold handle. rewrite bool_decide_eq_false_2 by (rewrite Hp; by_decide). by rewrite decide_True. }
  split_and!; [done|reflexivity|reflexivity|apply scrape_render].
Qed.

(** The router only knows [/v2/...]: the bare [/v2] that the registry's
    dispatcher would answer never reaches it. *)
Lemma v2_without_slash io net u req s :
  req_path req = $"/v2" -> handle io net u req s = (s, [], Some not_found_response).
Proof.
  intros Hp. unfold handle. rewrite bool_decide_eq_false_2 by (rewrite Hp; by_decide).
  rewrite decide_False; [done|]. rewrite Hp. by vm_compute.
Qed.
End main.

(** ** Accept loops *)
Section loops.
Context {A : Type}.

(** The connections offered before the loop was cancelled. *)
Fixpoint offered {B} (events : list (accept_event B)) : list B :=
  match events with
  | [] | Cancelled :: _ => []
  | Accepted conn :: events => conn :: offered events
  | AcceptError :: events => offered events
  end.

Definition cancelled {B} (events : list (accept_event B)) : bool :=
  existsb (fun e => match e with Cancelled => true | _ => false end) events.

(** The accept loops survive every accept error and every failed
    handshake: exactly the connections offered before the cancellation get a
    task, those with a completed handshake are served, and only the
    cancellation ends the loop. *)
Lemma accept_loops (events : list (accept_event A)) (tls_events : list (accept_event (option A))) :
  serve_http events = (offered events, cancelled events) /\
  serve_https tls_events = (length (offered tls_events), omap id (offered tls_events), cancelled tls_events).
Proof.
  split.
  - induction events as [|[c| |] es IH]; simpl; [done| |done|done]. by rewrite IH.
  - induction tls_events as [|[[c|]| |] es IH]; simpl; [done| | |done|done]; by rewrite IH.
Qed.
End loops.

(** ** Starting *)
Section start.
Context {SHA : Sha256} {ITER : MapIter} {CBOR : Cbor}.
Implicit Types s : State.

Lemma bind_all_spec bind ls started :
  bind_all bind ls started =
  if forallb (fun l => bind l.1) ls then Ok (started ++ ls.*2) else Err tt.
Proof.
  revert started. induction ls as [|[p t] ls IH]; intros started; cbn [bind_all forallb fmap list_fmap fst snd].
  - by rewrite app_nil_r.
  - destruct (bind p); [|done]. rewrite IH. cbn [andb]. destruct (forallb _ ls); [|done].
    by rewrite <- app_assoc.
Qed.

(** C38: a defect. A restart loads the snapshot and removes it before the ports
    are bound; when one of them cannot be bound the process ends without
    saving, so that the next start is a cold one: the cache that was shut down
    cleanly is lost. *)
Theorem failed_bind_loses_cache io io' io'' t t' bind s s1 s2 r :
  ids_ok s -> blob_files_ok s -> save io s = (s1, true) -> io_reads io' ->
  forallb (fun l => bind l.1) (listeners (config s)) = false ->
  main_start io' bind (config s) t (disk s1) = (s2, r) ->
  r = Err tt /\ (forall o, stored s2 o = stored s o) /\
  let s3 := (main_start io'' (fun _ => true) (config s) t' (disk s2)).1 in
  blobs s3 = ∅ /\ manifests s3 = ∅ /\ tags s3 = ∅ /\ redis_entries s3 = ∅.
Proof.
  intros Hi Hf Hsave Hio Hbind. unfold main_start at 1.
  destruct (reload io io' t s s1 Hi Hf Hsave Hio) as (s2' & -> & (_ & _ & _ & _ & _ & Hst & _ & Hsnap) & _ & _ & Hc).
  rewrite bind_all_spec, Hbind. intros [= <- <-]. split; [done|]. split; [apply Hst|]. cbv zeta.
  unfold main_start, load_or_wipe, load, fs_read.
  change (disk (State_new (config s) t' (disk s2'))) with (disk s2').
  change (snapshot_path (State_new (config s) t' (disk s2'))) with (snapshot_path s).
  by rewrite Hsnap.
Qed.
End start.
