(* ===== verification/MainExamples.v ===== *)
(** * The process on concrete requests and on a port that is taken *)
From S2P Require Import Prelude Digest Env Config State Disk EvictionExamples Snapshot.
From S2P Require Import SnapshotExamples.
From S2P Require Import Metrics MetricsRead Http DockerUpstream Docker DockerServe DockerMedia.
From S2P Require Import DockerAnswers.
From S2P Require Import RedisExamples DockerExamples Main MainProps.

#[export, refine] Instance toy_tower : TowerHttp := {|
  if_not_present name value hs :=
    match header_lookup name hs with Some _ => hs | None => hs ++ [(name, value)] end
|}.
Proof.
  - by intros name value hs [v ->].
  - by intros name value hs ->.
Defined.

Definition scrape_metrics : Request := request Method.GET $"/metrics" None [].
Definition scraped := serve_request true io_fine no_network 1 scrape_metrics open_server.

Lemma every_answer_is_hardened_witness :
  exists r, scraped.2 = Some r /\
    header_lookup $"x-frame-options" (resp_headers r) = Some $"DENY" /\
    header_lookup $"strict-transport-security" (resp_headers r) = Some $"max-age=63072000; includeSubDomains".
Proof.
  destruct (every_answer_is_hardened true io_fine no_network 1 scrape_metrics open_server
    scraped.1.1 scraped.1.2 scraped.2) as (_ & r & r0 & Hr & _ & _ & _ & _ & Hf & _ & _ & _ & _ & _ & Ht & _).
  - by split.
  - fold scraped. by destruct scraped as [[]].
  - exists r. split; [exact Hr|]. split; [exact Hf|exact Ht].
Defined.

(** Port 6379 is taken when the server comes back. *)
Definition redis_config : Config :=
  mkConfig None None $"/data" 2000 (Some 400%N) 100000 [] ∅ (Some 6379%N) None.
Definition busy_state : State := (insert_redis $"k" (filled 30 "v") (State_new redis_config 7 ∅)).2.
Definition busy_saved : State := (save io_fine busy_state).1.
Definition busy_start := main_start io_fine (fun _ => false) redis_config 8 (disk busy_saved).

Lemma busy_save : save io_fine busy_state = (busy_saved, true).
Proof.
  assert (H : (save io_fine busy_state).2 = true) by (vm_compute; reflexivity).
  unfold busy_saved. destruct (save io_fine busy_state). simpl in *. by subst.
Qed.

Lemma busy_ids : ids_ok busy_state.
Proof. apply insert_redis_ids; [apply State_new_ids|by vm_compute]. Qed.

Lemma failed_bind_loses_cache_witness :
  stored busy_state (ORedis $"k") = Some (filled 30 "v") /\ busy_start.2 = Err tt /\
  redis_entries (main_start io_fine (fun _ => true) redis_config 9 (disk busy_start.1)).1 = ∅.
Proof.
  destruct (failed_bind_loses_cache io_fine io_fine io_fine 8 9 (fun _ => false) busy_state busy_saved
    busy_start.1 busy_start.2) as (Hr & _ & _ & _ & _ & He).
  - exact busy_ids.
  - intros d id n mt la Hd. by vm_compute in Hd.
  - exact busy_save.
  - done.
  - vm_compute. reflexivity.
  - change (config busy_state) with redis_config. fold busy_start. by destruct busy_start.
  - split; [by vm_compute|]. split; [exact Hr|]. exact He.
Defined.
