(* ===== verification/ConfigExamples.v ===== *)
(** * The configuration of the README *)
From S2P Require Import Prelude Digest Env Config State Text Size ConfigFile EvictionExamples.

Definition readme_document : gmap bytes toml :=
  <[$"https_port" := TInteger 8443]> (<[$"http_port" := TInteger 8080]>
  (<[$"data_folder" := TString $"/var/lib/dockfoxprox"]>
  (<[$"memory_limit" := TString $"16GB"]> (<[$"disk_limit" := TString $"100GB"]>
  (<[$"redis_port" := TInteger 6379]> (<[$"redis_password" := TString $"use-something-real"]>
  (<[$"docker_user" := TArray [TTable (<[$"username" := TString $"ci"]>
      {[ $"password" := TString $"use-something-real" ]})]]>
  {[ $"docker_registry" := TTable (<[$"dockerhub" := TTable {[ $"url" := TString $"registry-1.docker.io" ]}]>
      {[ $"private" := TTable (<[$"url" := TString $"registry.example.com"]>
           (<[$"username" := TString $"robot"]> {[ $"password" := TString $"use-something-real" ]})) ]}) ]}))))))).

Definition readme_config : Config :=
  mkConfig (Some 8443%N) (Some 8080%N) $"/var/lib/dockfoxprox" (16 * 1024 ^ 3)%N None (100 * 1024 ^ 3)%N
    [mkDockerUser $"ci" $"use-something-real"]
    (<[$"dockerhub" := mkDockerRegistry $"registry-1.docker.io" None None]>
     {[ $"private" := mkDockerRegistry $"registry.example.com" (Some $"robot") (Some $"use-something-real") ]})
    (Some 6379%N) (Some $"use-something-real").

Example readme_read : de_config readme_document = Some readme_config.
Proof. vm_compute. reflexivity. Qed.

(** Every setting has a default. *)
Example empty_read : de_config ∅ =
  Some (mkConfig None None $"/data/dockfoxprox" (16 * 1024 ^ 3)%N None (100 * 1024 ^ 3)%N [] ∅ None None).
Proof. vm_compute. reflexivity. Qed.

(** Sizes are texts, ports are 16-bit, user names are required, fields known. *)
Example size_needs_text : de_config {[ $"memory_limit" := TInteger 1000 ]} = None.
Proof. vm_compute. reflexivity. Qed.
Example port_too_big : de_config {[ $"redis_port" := TInteger 65536 ]} = None.
Proof. vm_compute. reflexivity. Qed.
Example user_needs_password :
  de_config {[ $"docker_user" := TArray [TTable {[ $"username" := TString $"ci" ]}] ]} = None.
Proof. vm_compute. reflexivity. Qed.
Example field_unknown : de_config {[ $"https-port" := TInteger 8443 ]} = None.
Proof. vm_compute. reflexivity. Qed.

(** A parser that knows two documents. *)
#[export] Instance toy_toml : Toml := {|
  toml_parse b :=
    if decide (b = $"readme") then Some readme_document
    else if decide (b = $"written") then Some (write_config readme_config) else None
|}.

Definition config_disk : FileSystem := <[$"config.toml" := $"readme"]> {[ $"written.toml" := $"written" ]}.

Lemma readme_loads : load_config io_fine $"config.toml" config_disk = Some readme_config.
Proof. vm_compute. reflexivity. Qed.

Lemma load_config_typed_witness : config_ok readme_config.
Proof. destruct (load_config_typed io_fine $"config.toml" config_disk readme_config readme_loads) as [H _]. exact H. Defined.

Lemma config_roundtrip_witness : load_config io_fine $"written.toml" config_disk = Some readme_config.
Proof.
  apply (config_roundtrip io_fine $"written.toml" config_disk $"written" readme_config);
    [vm_compute; reflexivity|vm_compute; reflexivity|reflexivity|].
  split.
  - intros p Hp. repeat (apply elem_of_cons in Hp as [->|Hp]; [by vm_compute|]). by apply elem_of_nil in Hp.
  - by vm_compute.
  - done.
  - by vm_compute.
Defined.
